(* ===== verification/_CoqProject ===== *)
-Q . S2P
Prelude.v
Str.v
Ids.v
Message.v
Route.v
Metrics.v
RouteIndex.v
Channel.v
Router.v
RouterInv.v
RouterDispatch.v
RouterSpec.v
RouterOps.v
Concurrency.v
RouterExamples.v
RouterModel.v
TopicLog.v
Kafka.v
KafkaSpec.v
Ingestor.v
IngestorCrash.v
Limits.v
Security.v
Wire.v
Auth.v
Publish.v
Streams.v
StreamsSpec.v
StatusPage.v
Surface.v
Webhook.v
Durable.v
DurableSpec.v
DurableSink.v
DurableCrash.v
DurablePath.v
Pipeline.v
Config.v
Startup.v
AtLeastOnce.v
Lifecycle.v
Process.v
Load.v
LoadRun.v
LoadMain.v
