(* ===== verification/Prelude.v ===== *)
(** * Kafka Edge Router: a verification development

    The program is a daemon ([routerd]) that consumes Kafka records, routes
    each message to the connections whose subscription filters match it
    (WebSocket, SSE, gRPC and HTTP webhooks), and publishes messages that come
    in over HTTP and gRPC.  Its crates are router-core (messages, filters, the
    routing engine, metrics), router-kafka (decoder, consumer loop,
    publisher), router-api (authentication, limits, HTTP and gRPC endpoints),
    router-webhook (volatile and durable webhooks) and routerd (configuration,
    composition, lifecycle); tools/router-load is a load generator.

    ** How the parts meet

    The router is shared: API sessions and webhook workers register
    connections and subscriptions on it, the consumer loop dispatches to it,
    and each connection owns the receiving end of a bounded queue.  The
    consumer loop hands every dispatched message to its pre-commit sinks (the
    durable webhook sink is one) before it commits the offset.  Durable
    workers read what the sink published, deliver it, and publish retries and
    dead letters.  The daemon composes all of it from a configuration and
    drains it at shutdown.

    ** Files and sources

    - Prelude, Str: results as an error monad, wrapping and saturating
      integers, sums over maps, the tactics and rewrite database shared by
      all files; UTF-8 strings, trimming, ASCII case, ordered maps.
    - Ids, Message, Route: ids.rs, error.rs, protocol.rs, message.rs,
      route.rs of router-core.  [RouteFilter_matches] is the reference
      matcher, [RouteKey_candidates] the compiled lookup.
    - Metrics: metrics.rs, counters and gauges with atomic wrap-around,
      histograms, the Prometheus text.
    - RouteIndex, Channel, Router: router.rs.  [RouterState] has the tables of
      [Router]; the bounded channel is the class [Mpsc] with [MpscLaws], which
      the theorems assume and the queue [Fifo] satisfies.  Each method of
      [Router] is one definition; [None] stands for a panic.
    - RouterInv, RouterDispatch, RouterSpec, RouterOps, RouterExamples: the
      invariant [router_ok] and its preservation, the contract of a dispatch,
      sequences of operations, concrete runs.
    - RouterModel: the router without its index, metrics and iteration order,
      as a specification, and the simulation of every operation.
    - Concurrency: any number of dispatches interleaved with everything else,
      one map access, send or removal at a time.
    - Kafka, KafkaSpec: publisher.rs and wire contract of router-core,
      decoder.rs, publisher.rs and config.rs of router-kafka.
    - Ingestor: ingestor.rs and health.rs; sinks are behind the interface
      classes [PreCommitSink] and [SinkContract], and a run keeps a log of
      effects, so that ordering can be stated.
    - TopicLog, IngestorCrash: the consumer loop with its source topics and
      its group, as a system in which records are appended, commits arrive
      whenever the broker gets to them, partitions move, and the process dies
      between any two effects and starts again.
    - Limits: state.rs (rate windows, health gates) and readiness.rs.
    - Security: security.rs, with the text forms of addresses and the settings
      of the client it builds.
    - Wire: wire.rs, the JSON envelope.
    - Auth, Publish, Streams, StreamsSpec: auth.rs, error.rs, publish.rs,
      http.rs and grpc.rs; a session is a function of the events its loop
      sees.
    - StatusPage: the status page of http.rs and the serialized counters.
    - Surface: the routes of http.rs and the calls of grpc.rs with every
      handler behind them, and the servers' set-up.
    - Webhook: config.rs and manager.rs (workers).
    - Durable, DurableSpec, DurableSink: durable.rs; the worker is a program
      in a small state and error monad with a log of effects, and a run of it
      starts with nothing completed.
    - DurableCrash: a durable worker with its topics and its group, crashing
      and restarting in the same way.
    - DurablePath: from the record the sink publishes to the first request of
      the worker that reads it.
    - Pipeline: the durable sink as an instance of the consumer loop's
      interfaces, and the path from publish request to subscriber queue.
    - Config: config.rs of routerd, every check of [load].
    - Startup: [WebhookManager] in its modes, the constructors, and the
      composition of main.rs.
    - AtLeastOnce: the two crash systems together, from the source topic to
      the endpoint; at every start the consumer is the one the configuration
      composes, and the worker is that of one of its destinations.
    - Lifecycle: readiness, gRPC health, the wait of [main] and
      [drain_components] with the set of tasks it joins, as a state machine
      whose tasks take turns while a clock runs.
    - Process: telemetry.rs, and [main] from its arguments to its result; the
      daemon it runs is the state machine of Lifecycle, whose Kafka task ends
      when the consumer loop does.
    - Load, LoadRun, LoadMain: the load generator: its SSE reader, recorder
      and webhook receiver; the other listeners and the verdict; [main] with
      the producer and the workers around their queue, the wait and the
      report.

    ** What the theorems show

    - Routing: a run of the router answers as the specification does, which
      asks the reference matcher about every subscription; every reachable
      state is well formed and within its limits; a dispatch gives every
      matching connection one delivery, in an order that does not matter,
      never crosses tenants, reports exactly, and evicts slow consumers after
      the configured strikes; all of it under interleaving.
    - Kafka: publishing and decoding are inverse; accepted records are valid;
      offsets are committed only after dispatch and persistence, so that no
      record is passed over, however often the consumer crashes.
    - API: no call, whatever it sends, reaches beyond its credential; nothing
      is published or subscribed without authority; sessions are confined to
      their connection and leave nothing behind; transports agree; rate limits
      hold in every window, and twofold in any second; the status page, the gRPC status and the gauges of the scrape
      agree and add up.
    - Webhooks: egress is confined, headers and signature protected, attempts
      bounded; what the durable sink publishes reaches the endpoint as it was
      routed; durable deliveries are settled before they are committed, are
      never lost wherever the worker crashes, and are not repeated by the
      worker that completed them; from the source topic on, a message that a
      destination wants is delivered, dead-lettered or still to be delivered;
      set-up is all or nothing.
    - Daemon: a loaded configuration is sound, and what it configures is what
      the started daemon does: records for every matching destination before
      a commit, keys whenever tokens are verified; gRPC health follows
      readiness, and shutdown withdraws readiness first and completes in order,
      within the grace period.
    - Load generator: a client reads back what the server writes; a run ends,
      counts every message once, and passes exactly when the counts say so.
    - Two races of the lifecycle, an exit status that does not show a failed
      component, a payload that is acknowledged and then rejected, the growth of a durable worker's completed set and a key
      collision between tenants are stated as theorems too.

    ** Fuel and bounds

    Loops over inputs recurse on the inputs.  [process] has fuel for the
    attempts that are left and one more, which is proved enough
    ([process_total]); [deliver_loop] recurses on the attempts remaining; the
    address reader has fuel for the eight groups an address can have; the SSE
    reader has the length of its buffer, of which every line takes a byte
    ([drain_lines_spec]).  Integers are kept at their width: [wrap64] for the
    atomic counters, [sat_add], [sat_sub], [sat_mul] for saturating
    arithmetic.  Instants are integers in nanoseconds unless said otherwise; the
    clock of the drain counts seconds.

    ** Not modelled

    Of Kafka the crash systems rely on this: a partition only grows at its
    end, what was written stays, what a producer acknowledged was written, a consumer reads the first record at or
    after its position, and a restarted one starts at the committed offset.
    Retention and lost replicas are outside of it.

    Library code is a parameter: tokio's channels, librdkafka, the HTTP and
    gRPC servers, reqwest and the resolver, URL and MIME parsers, JSON, base64,
    HMAC and JWT verification.  Log output and spans have no effect on the
    state.  The generated protobuf bindings are represented by the records the
    handlers use.  Middleware and keep-alive of the servers,
    argument parsing, TOML deserialization, and the load generator's
    connections, pacing and serialized report only call libraries.  Tests,
    benches and fuzz targets are not part of the program. *)

From stdpp Require Export base gmap strings list fin_maps sets.
From Stdlib Require Export ZArith Lia.

#[export] Set Default Goal Selector "!".
Open Scope Z_scope.

(** ** Results

    Rust's [Result<A, E>]; the error type comes first so that [result E] is a
    monad and the [?] operator is [bind]. *)
Inductive result (E A : Type) : Type :=
| Ok (a : A)
| Err (e : E).
Arguments Ok {E A} a.
Arguments Err {E A} e.

#[export] Instance result_bind {E} : MBind (result E) :=
  λ A B f m, match m with Ok a => f a | Err e => Err e end.
#[export] Instance result_fmap {E} : FMap (result E) :=
  λ A B f m, match m with Ok a => Ok (f a) | Err e => Err e end.
#[export] Instance result_ret {E} : MRet (result E) := λ A a, Ok a.

Definition is_ok {E A} (r : result E A) : bool :=
  match r with Ok _ => true | Err _ => false end.

(** [ok_or]: an absent value becomes the given error. *)
Definition ok_or {E A} (o : option A) (e : E) : result E A :=
  match o with Some a => Ok a | None => Err e end.

(** [map_err]: only the error is translated. *)
Definition map_err {E F A} (f : E → F) (r : result E A) : result F A :=
  match r with Ok a => Ok a | Err e => Err (f e) end.

(** [ensure b e]: the early return [if !b { return Err(e) }]. *)
Definition ensure {E} (b : bool) (e : E) : result E unit :=
  if b then Ok tt else Err e.

Section results.
Context {E : Type}.

Lemma bind_Ok {A B} (m : result E A) (f : A → result E B) (b : B) :
  m ≫= f = Ok b ↔ ∃ a, m = Ok a ∧ f a = Ok b.
Proof. destruct m; unfold mbind, result_bind; naive_solver. Qed.

Lemma bind_Err {A B} (m : result E A) (f : A → result E B) (e : E) :
  m ≫= f = Err e ↔ m = Err e ∨ ∃ a, m = Ok a ∧ f a = Err e.
Proof. destruct m; unfold mbind, result_bind; naive_solver. Qed.

Lemma ensure_Ok (b : bool) (e : E) u : ensure b e = Ok u ↔ b = true.
Proof. destruct b, u; unfold ensure; naive_solver. Qed.

Lemma ensure_Err (b : bool) (e e' : E) :
  ensure b e = Err e' ↔ b = false ∧ e' = e.
Proof. destruct b; unfold ensure; naive_solver. Qed.

Lemma ok_or_Ok {A} (o : option A) (e : E) a : ok_or o e = Ok a ↔ o = Some a.
Proof. destruct o; unfold ok_or; naive_solver. Qed.

Lemma ok_or_Err {A} (o : option A) (e e' : E) :
  ok_or o e = Err e' ↔ o = None ∧ e' = e.
Proof. destruct o; unfold ok_or; naive_solver. Qed.

Lemma map_err_Ok {F A} (f : F → E) (r : result F A) a :
  map_err f r = Ok a ↔ r = Ok a.
Proof. destruct r; unfold map_err; naive_solver. Qed.

Lemma map_err_Err {F A} (f : F → E) (r : result F A) e :
  map_err f r = Err e ↔ ∃ e', r = Err e' ∧ e = f e'.
Proof. destruct r; unfold map_err; naive_solver. Qed.

Lemma fmap_result_Ok {A B} (f : A → B) (r : result E A) b :
  f <$> r = Ok b ↔ ∃ a, r = Ok a ∧ b = f a.
Proof. destruct r; unfold fmap, result_fmap; naive_solver. Qed.

Lemma is_ok_true {A} (r : result E A) : is_ok r = true ↔ ∃ a, r = Ok a.
Proof. destruct r; unfold is_ok; naive_solver. Qed.
End results.

(** ** Automation for results

    [bind_step H as x, p] splits the first step off a successful chain of
    [?]s: [x] is the value of the step, [p] its equation and [H] the rest.
    [guard_step H as p] is the same for an early return ([ensure]), whose
    condition is turned into a proposition by the database [guards]. *)
Create Rewrite HintDb guards.
#[export] Hint Rewrite negb_true_iff negb_false_iff Z.leb_le Z.leb_gt Z.ltb_lt Z.ltb_ge
  bool_decide_eq_true bool_decide_eq_false : guards.

Tactic Notation "bind_step" ident(H) "as" simple_intropattern(x) "," simple_intropattern(p) :=
  apply bind_Ok in H as (x & p & H).

Tactic Notation "guard_step" ident(H) "as" ident(p) :=
  bind_step H as [], p; apply ensure_Ok in p; autorewrite with guards in p.

(** Splits a whole chain of successful binds. *)
Ltac invert_binds := repeat match goal with
  | Hb : _ ≫= _ = Ok _ |- _ => bind_step Hb as ?, ?
  end.

(** ** Machine integers

    Every integer of the sources is a [Z]; its width is written at the
    operation that depends on it: [wrapN] for [fetch_add], [sat_*] for the
    saturating operations. *)
Definition u16_max : Z := 2 ^ 16 - 1.
Definition u32_max : Z := 2 ^ 32 - 1.
Definition u64_max : Z := 2 ^ 64 - 1.
Definition usize_max : Z := u64_max.

Definition wrap64 (z : Z) : Z := z mod 2 ^ 64.

(** [saturating_add], [saturating_sub] and [saturating_mul] of an unsigned
    type whose largest value is [m]. *)
Definition sat_add (m a b : Z) : Z := Z.min m (a + b).
Definition sat_sub (a b : Z) : Z := Z.max 0 (a - b).
Definition sat_mul (m a b : Z) : Z := Z.min m (a * b).

(** [u64::try_from(x).unwrap_or(u64::MAX)] on a non-negative [x]. *)
Definition clamp_u64 (x : Z) : Z := if x <=? u64_max then x else u64_max.

Lemma wrap64_small z : 0 ≤ z < 2 ^ 64 → wrap64 z = z.
Proof. apply Z.mod_small. Qed.

Lemma wrap64_range z : 0 ≤ wrap64 z < 2 ^ 64.
Proof. apply Z.mod_pos_bound. lia. Qed.

Lemma wrap64_add_l a b : wrap64 (wrap64 a + b) = wrap64 (a + b).
Proof. unfold wrap64. apply Z.add_mod_idemp_l. lia. Qed.

Lemma sat_add_exact m a b : a + b ≤ m → sat_add m a b = a + b.
Proof. unfold sat_add. lia. Qed.

Lemma sat_sub_exact a b : b ≤ a → sat_sub a b = a - b.
Proof. unfold sat_sub. lia. Qed.

Lemma clamp_u64_range x : 0 ≤ x → 0 ≤ clamp_u64 x ≤ u64_max.
Proof. unfold clamp_u64. destruct (Z.leb_spec x u64_max); unfold u64_max in *; lia. Qed.

(** ** Lists *)

(** [sumZ f l] is [l.iter().map(f).sum()]. *)
Definition sumZ {A} (f : A → Z) (l : list A) : Z :=
  foldr (λ a acc, f a + acc) 0 l.

Lemma sumZ_app {A} (f : A → Z) l k :
  sumZ f (l ++ k) = sumZ f l + sumZ f k.
Proof. induction l as [|a l IH]; simpl; [done|]. unfold sumZ in *. simpl. lia. Qed.

Lemma sumZ_cons {A} (f : A → Z) a l : sumZ f (a :: l) = f a + sumZ f l.
Proof. done. Qed.

Lemma sumZ_ext {A} (f g : A → Z) l : (∀ a, a ∈ l → f a = g a) → sumZ f l = sumZ g l.
Proof.
  induction l as [|a l IH]; intros Hfg; [done|]. rewrite !sumZ_cons, (Hfg a) by left.
  rewrite IH; [done|]. intros a' Hin. apply Hfg. by right.
Qed.

Lemma sumZ_perm {A} (f : A → Z) (l k : list A) :
  l ≡ₚ k → sumZ f l = sumZ f k.
Proof. unfold sumZ. induction 1; simpl; lia. Qed.

Lemma sumZ_nonneg {A} (f : A → Z) l :
  (∀ a, 0 ≤ f a) → 0 ≤ sumZ f l.
Proof. intros Hf. unfold sumZ. induction l as [|a l IH]; simpl; [lia|]. specialize (Hf a). lia. Qed.

(** Filters that agree on the elements of the list. *)
Lemma filter_iff_in {A} (P Q : A → Prop) `{∀ x, Decision (P x), ∀ x, Decision (Q x)} (l : list A) :
  (∀ x, x ∈ l → P x ↔ Q x) → filter P l = filter Q l.
Proof.
  induction l as [|x l IH]; intros HPQ; [done|]. rewrite !filter_cons.
  rewrite IH by (intros y Hy; apply HPQ; by right). pose proof (HPQ x) as Hx.
  destruct (decide (P x)), (decide (Q x)); set_solver.
Qed.

Lemma filter_all {A} (P : A → Prop) `{∀ x, Decision (P x)} (l : list A) :
  (∀ x, x ∈ l → P x) → filter P l = l.
Proof.
  induction l as [|x l IH]; intros HP; [done|]. rewrite filter_cons_True by (apply HP; left).
  f_equal. apply IH. intros y Hy. apply HP. by right.
Qed.

(** Where an element that does not occur in [l] occurs in [l ++ [y]]. *)
Lemma app_eq_snoc_split {A} (l : list A) (x y : A) before after :
  x ∉ l → l ++ [y] = before ++ x :: after → before = l ∧ x = y ∧ after = [].
Proof.
  intros Hx Heq. destruct after as [|z after] using rev_ind.
  - apply app_inj_tail in Heq as [-> ->]. done.
  - clear IHafter. rewrite app_comm_cons, (assoc_L (++)) in Heq.
    apply app_inj_tail in Heq as [-> _]. destruct Hx. set_solver.
Qed.

(** ** Finite maps: sums over the values *)

(** [map_sum f m] is [m.values().map(f).sum()]. *)
Definition map_sum `{Countable K} {A} (f : A → Z) (m : gmap K A) : Z :=
  map_fold (λ _ a acc, f a + acc) 0 m.

(** [map_count p m] is [m.values().filter(p).count()]. *)
Definition map_count `{Countable K} {A} (p : A → bool) (m : gmap K A) : Z :=
  map_sum (λ a, if p a then 1 else 0) m.

Section map_sum.
Context `{Countable K} {A : Type}.
Implicit Types (m : gmap K A) (f : A → Z) (p : A → bool).

Lemma map_sum_empty f : map_sum f (∅ : gmap K A) = 0.
Proof. unfold map_sum. by rewrite map_fold_empty. Qed.

Lemma map_sum_insert f m k a :
  m !! k = None → map_sum f (<[k:=a]> m) = f a + map_sum f m.
Proof. intros Hk. unfold map_sum. rewrite map_fold_insert_L; [done| |done]. intros; lia. Qed.

Lemma map_sum_delete f m k a :
  m !! k = Some a → map_sum f m = f a + map_sum f (delete k m).
Proof.
  intros Hk. rewrite <-(insert_delete_id m k a) at 1 by done.
  apply map_sum_insert, lookup_delete_eq.
Qed.

Lemma map_sum_update f m k a b :
  m !! k = Some a → map_sum f (<[k:=b]> m) = map_sum f m - f a + f b.
Proof.
  intros Hk. rewrite (map_sum_delete f m k a) by done.
  rewrite <-insert_delete_eq, map_sum_insert by apply lookup_delete_eq. lia.
Qed.

Lemma map_sum_nonneg f m : (∀ a, 0 ≤ f a) → 0 ≤ map_sum f m.
Proof.
  intros Hf. induction m as [|k a m Hk IH] using map_ind.
  - by rewrite map_sum_empty.
  - rewrite map_sum_insert by done. specialize (Hf a). lia.
Qed.

Lemma map_sum_ext f g m :
  (∀ k a, m !! k = Some a → f a = g a) → map_sum f m = map_sum g m.
Proof.
  induction m as [|k a m Hk IH] using map_ind; intros Hfg.
  - by rewrite !map_sum_empty.
  - rewrite !map_sum_insert by done. rewrite (Hfg k a) by apply lookup_insert_eq.
    rewrite IH; [done|]. intros k' a' Hk'. apply (Hfg k').
    rewrite lookup_insert_ne; [done|]. by intros ->; congruence.
Qed.

Lemma map_sum_le f g m : (∀ a, f a ≤ g a) → map_sum f m ≤ map_sum g m.
Proof.
  intros Hfg. induction m as [|k a m Hk IH] using map_ind.
  - by rewrite !map_sum_empty.
  - rewrite !map_sum_insert by done. specialize (Hfg a). lia.
Qed.

Lemma map_sum_lookup_le f m k a :
  (∀ a, 0 ≤ f a) → m !! k = Some a → f a ≤ map_sum f m.
Proof.
  intros Hf Hk. rewrite (map_sum_delete f m k a) by done.
  pose proof (map_sum_nonneg f (delete k m) Hf). lia.
Qed.

Lemma map_sum_to_list f m :
  map_sum f m = sumZ (λ ka, f ka.2) (map_to_list m).
Proof.
  unfold map_sum, sumZ. rewrite map_fold_foldr.
  generalize (map_to_list m). intros l. induction l as [|[k a] l IH]; simpl; [done|].
  by rewrite IH.
Qed.

(** Maps with the same summands under the same keys. *)
Lemma map_sum_pointwise f m1 m2 :
  (∀ k, f <$> m1 !! k = f <$> m2 !! k) → map_sum f m1 = map_sum f m2.
Proof.
  intros Hf. assert (∀ m, map_sum f m = map_sum id (f <$> m)) as Hid.
  { clear. intros m. unfold map_sum. by rewrite map_fold_fmap. }
  rewrite !Hid. f_equal. apply map_eq. intros k. rewrite !lookup_fmap. apply Hf.
Qed.

Lemma map_count_size m : map_count (λ _, true) m = Z.of_nat (size m).
Proof.
  induction m as [|k a m Hk IH] using map_ind.
  - unfold map_count. by rewrite map_sum_empty, map_size_empty.
  - unfold map_count in *. rewrite map_sum_insert, map_size_insert_None by done. lia.
Qed.

Lemma map_count_le_size p m : map_count p m ≤ Z.of_nat (size m).
Proof.
  rewrite <-map_count_size. apply map_sum_le. intros a. by destruct (p a).
Qed.
End map_sum.

(** A sum over a map that keeps some of the entries of another. *)
Lemma map_sum_omap `{Countable K} {A B} (f : A → Z) (g : B → option A) (m : gmap K B) :
  map_sum f (omap g m) = map_sum (λ b, from_option f 0 (g b)) m.
Proof.
  induction m as [|k b m Hk IH] using map_ind.
  - by rewrite omap_empty, !map_sum_empty.
  - assert (omap g m !! k = None) as Ho by by rewrite lookup_omap, Hk.
    rewrite omap_insert. destruct (g b) as [a|] eqn:E.
    + rewrite !map_sum_insert by done. cbv beta. by rewrite E, IH.
    + rewrite delete_id by done. rewrite map_sum_insert by done. cbv beta. by rewrite E, IH.
Qed.
