(* ===== verification/Str.v ===== *)
(** * Rust strings

    A Rust [str] (and [String], [Arc<str>]) is modelled by the byte string
    that holds its UTF-8 encoding, so [==], hashing and [len()] are those of
    the bytes; a byte buffer ([Bytes], [&[u8]]) is the same type without the
    UTF-8 invariant [utf8_valid].  The file models what the sources use of
    [str] and [char]: [str::from_utf8], [chars], [trim], [char::is_control],
    [char::is_whitespace], [eq_ignore_ascii_case], [split], and [to_string] of
    integers (stdpp's [pretty]). *)

From Stdlib Require Export Ascii.
From stdpp Require Export pretty.
From stdpp Require Import sorting.
From S2P Require Import Prelude.
Open Scope Z_scope.
#[global] Arguments String.append : simpl nomatch.

(** [s.len()]: the number of bytes. *)
Definition str_len (s : string) : Z := Z.of_nat (String.length s).

Definition byte_of (a : ascii) : Z := Z.of_N (N_of_ascii a).

Definition in_range (lo hi b : Z) : bool := (lo <=? b) && (b <=? hi).

(** ** UTF-8 *)

Definition is_cont (a : ascii) : bool := in_range 128 191 (byte_of a).
Definition cont_bits (a : ascii) : Z := byte_of a - 128.

Definition code2 (a a1 : ascii) : Z := (byte_of a - 192) * 64 + cont_bits a1.
Definition code3 (a a1 a2 : ascii) : Z :=
  (byte_of a - 224) * 4096 + cont_bits a1 * 64 + cont_bits a2.
Definition code4 (a a1 a2 a3 : ascii) : Z :=
  (byte_of a - 240) * 262144 + cont_bits a1 * 4096 + cont_bits a2 * 64 + cont_bits a3.

(** The well-formed sequences of one to four bytes: no overlong encoding, no
    surrogate, nothing above U+10FFFF. *)
Definition is1 (a : ascii) : bool := byte_of a <=? 127.
Definition is2 (a a1 : ascii) : bool := in_range 194 223 (byte_of a) && is_cont a1.
Definition is3 (a a1 a2 : ascii) : bool :=
  in_range 224 239 (byte_of a) && is_cont a1 && is_cont a2 &&
  (2048 <=? code3 a a1 a2) && negb (in_range 55296 57343 (code3 a a1 a2)).
Definition is4 (a a1 a2 a3 : ascii) : bool :=
  in_range 240 244 (byte_of a) && is_cont a1 && is_cont a2 && is_cont a3 &&
  in_range 65536 1114111 (code4 a a1 a2 a3).

(** Decodes a byte string into its characters, each with the bytes that
    encode it; [None] when the bytes are not UTF-8. *)
Fixpoint utf8_segments (s : string) : option (list (Z * string)) :=
  match s with
  | EmptyString => Some []
  | String a s1 =>
    if is1 a then
      l ← utf8_segments s1; Some ((byte_of a, String a "") :: l)
    else match s1 with
    | EmptyString => None
    | String a1 s2 =>
      if is2 a a1 then
        l ← utf8_segments s2; Some ((code2 a a1, String a (String a1 "")) :: l)
      else match s2 with
      | EmptyString => None
      | String a2 s3 =>
        if is3 a a1 a2 then
          l ← utf8_segments s3;
          Some ((code3 a a1 a2, String a (String a1 (String a2 ""))) :: l)
        else match s3 with
        | EmptyString => None
        | String a3 s4 =>
          if is4 a a1 a2 a3 then
            l ← utf8_segments s4;
            Some ((code4 a a1 a2 a3,
                   String a (String a1 (String a2 (String a3 "")))) :: l)
          else None
        end
      end
    end
  end.

Definition utf8_valid (s : string) : bool :=
  match utf8_segments s with Some _ => true | None => false end.

(** [str::from_utf8]. *)
Definition from_utf8 (bytes : string) : option string :=
  if utf8_valid bytes then Some bytes else None.

Definition segments (s : string) : list (Z * string) := default [] (utf8_segments s).

(** [s.chars()], as code points. *)
Definition chars (s : string) : list Z := fst <$> segments s.

(** [char::is_control]: the general category Cc. *)
Definition is_control (c : Z) : bool := in_range 0 31 c || in_range 127 159 c.

(** [char::is_whitespace]: the White_Space property. *)
Definition is_whitespace (c : Z) : bool :=
  in_range 9 13 c || (c =? 32) || (c =? 133) || (c =? 160) || (c =? 5760) ||
  in_range 8192 8202 c || in_range 8232 8233 c || (c =? 8239) || (c =? 8287) ||
  (c =? 12288).

Fixpoint drop_ws (l : list (Z * string)) : list (Z * string) :=
  match l with
  | [] => []
  | (c, b) :: l' => if is_whitespace c then drop_ws l' else l
  end.

Definition trim_segments (l : list (Z * string)) : list (Z * string) :=
  reverse (drop_ws (reverse (drop_ws l))).

Definition join (l : list (Z * string)) : string :=
  foldr (λ cb acc, (cb.2 ++ acc)%string) "" l.

(** [s.trim()]. *)
Definition trim (s : string) : string := join (trim_segments (segments s)).

(** [s.is_empty()]. *)
Definition is_empty (s : string) : bool := bool_decide (s = "").

(** [a.eq_ignore_ascii_case(b)]. *)
Definition to_ascii_lowercase (a : ascii) : ascii :=
  if in_range 65 90 (byte_of a) then ascii_of_N (Z.to_N (byte_of a + 32)) else a.

Fixpoint lower (s : string) : string :=
  match s with
  | EmptyString => EmptyString
  | String a s' => String (to_ascii_lowercase a) (lower s')
  end.

Definition eq_ignore_ascii_case (a b : string) : bool := bool_decide (lower a = lower b).

(** [s.split(c).next()]: everything before the first occurrence of the ASCII
    character [c]. *)
Fixpoint split_first (c : ascii) (s : string) : string :=
  match s with
  | EmptyString => EmptyString
  | String a s' => if bool_decide (a = c) then EmptyString else String a (split_first c s')
  end.

(** ** Lemmas *)

Lemma str_len_nonneg s : 0 ≤ str_len s.
Proof. unfold str_len. lia. Qed.

Lemma str_app_assoc (a b c : string) : ((a ++ b) ++ c = a ++ (b ++ c))%string.
Proof. induction a as [|x a IH]; simpl; [done|by rewrite IH]. Qed.

Lemma str_app_nil_r (a : string) : (a ++ "" = a)%string.
Proof. induction a as [|x a IH]; simpl; [done|by rewrite IH]. Qed.

Lemma str_app_length (a b : string) :
  String.length (a ++ b) = (String.length a + String.length b)%nat.
Proof. induction a as [|x a IH]; simpl; [done|by rewrite IH]. Qed.

Lemma str_len_app a b : str_len (a ++ b) = str_len a + str_len b.
Proof. unfold str_len. rewrite str_app_length. lia. Qed.

(** Induction on the length of a byte string, for the functions that consume
    several bytes at a time. *)
Lemma string_length_ind (P : string → Prop) :
  (∀ s, (∀ t, (String.length t < String.length s)%nat → P t) → P s) → ∀ s, P s.
Proof.
  intros H s. remember (String.length s) as n eqn:Hn. revert s Hn.
  induction (lt_wf n) as [n _ IH]. intros s ->. apply H. intros t Ht. by eapply IH.
Qed.

(** Case analysis along the branches of [utf8_segments]. *)
Inductive utf8_step : string → string → Z → string → Prop :=
| utf8_1 a s : is1 a = true →
    utf8_step (String a s) s (byte_of a) (String a "")
| utf8_2 a a1 s : is1 a = false → is2 a a1 = true →
    utf8_step (String a (String a1 s)) s (code2 a a1) (String a (String a1 ""))
| utf8_3 a a1 a2 s : is1 a = false → is2 a a1 = false → is3 a a1 a2 = true →
    utf8_step (String a (String a1 (String a2 s))) s (code3 a a1 a2)
      (String a (String a1 (String a2 "")))
| utf8_4 a a1 a2 a3 s :
    is1 a = false → is2 a a1 = false → is3 a a1 a2 = false → is4 a a1 a2 a3 = true →
    utf8_step (String a (String a1 (String a2 (String a3 s)))) s (code4 a a1 a2 a3)
      (String a (String a1 (String a2 (String a3 "")))).

Lemma utf8_segments_unfold s l :
  utf8_segments s = Some l ↔
  (s = "" ∧ l = []) ∨
  ∃ rest c b l', utf8_step s rest c b ∧ utf8_segments rest = Some l' ∧ l = (c, b) :: l'.
Proof.
  split.
  - intros H. destruct s as [|a s1]; simpl in H; [left; naive_solver|right].
    destruct (is1 a) eqn:E1; [|destruct s1 as [|a1 s2]; [done|]].
    { apply bind_Some in H as (l' & ? & ?). simplify_eq. eauto 10 using utf8_step. }
    destruct (is2 a a1) eqn:E2; [|destruct s2 as [|a2 s3]; [done|]].
    { apply bind_Some in H as (l' & ? & ?). simplify_eq. eauto 10 using utf8_step. }
    destruct (is3 a a1 a2) eqn:E3; [|destruct s3 as [|a3 s4]; [done|]].
    { apply bind_Some in H as (l' & ? & ?). simplify_eq. eauto 10 using utf8_step. }
    destruct (is4 a a1 a2 a3) eqn:E4; [|done].
    apply bind_Some in H as (l' & ? & ?). simplify_eq. eauto 10 using utf8_step.
  - intros [[-> ->]|(rest & c & b & l' & Hstep & Hrest & ->)]; [done|].
    destruct Hstep; simpl; repeat case_match; simplify_eq; by rewrite Hrest.
Qed.

Lemma utf8_step_app s rest c b t :
  utf8_step s rest c b → utf8_step (s ++ t) (rest ++ t) c b.
Proof. destruct 1; simpl; eauto using utf8_step. Qed.

Lemma utf8_step_split s rest c b :
  utf8_step s rest c b → s = (b ++ rest)%string ∧ utf8_step b "" c b ∧ b ≠ "".
Proof. destruct 1; simpl; eauto using utf8_step. Qed.

Lemma utf8_step_length s rest c b :
  utf8_step s rest c b → (String.length rest < String.length s)%nat.
Proof. destruct 1; simpl; lia. Qed.

Lemma utf8_segments_app s t l k :
  utf8_segments s = Some l → utf8_segments t = Some k →
  utf8_segments (s ++ t) = Some (l ++ k).
Proof.
  intros Hs Ht. revert l Hs. induction s as [s IH] using string_length_ind. intros l Hs.
  apply utf8_segments_unfold in Hs as [[-> ->]|(rest & c & b & l' & Hstep & Hrest & ->)];
    [done|].
  apply utf8_segments_unfold. right.
  exists (rest ++ t)%string, c, b, (l' ++ k). split_and!; [by apply utf8_step_app| |done].
  eauto using utf8_step_length.
Qed.

(** A character of a string, as a string of its own. *)
Definition is_segment (cb : Z * string) : Prop :=
  utf8_segments cb.2 = Some [cb] ∧ cb.2 ≠ "".

Lemma utf8_segments_sound s l :
  utf8_segments s = Some l → join l = s ∧ Forall is_segment l.
Proof.
  revert l. induction s as [s IH] using string_length_ind. intros l Hs.
  apply utf8_segments_unfold in Hs as [[-> ->]|(rest & c & b & l' & Hstep & Hrest & ->)];
    [done|].
  destruct (IH rest) with l' as [Hj HF]; [by eapply utf8_step_length|done|].
  destruct (utf8_step_split _ _ _ _ Hstep) as (-> & Hb & Hne).
  split; [simpl; by rewrite Hj|]. constructor; [|done]. split; [|done].
  apply utf8_segments_unfold. right. exists "", c, b, []. by split_and!.
Qed.

Lemma utf8_segments_join l : Forall is_segment l → utf8_segments (join l) = Some l.
Proof.
  induction 1 as [|[c b] l [Hb Hne] _ IH]; [done|].
  simpl in *. by apply (utf8_segments_app _ _ [(c, b)] l).
Qed.

Lemma segments_valid s : Forall is_segment (segments s).
Proof.
  unfold segments. destruct (utf8_segments s) as [l|] eqn:E; simpl; [|constructor].
  by apply utf8_segments_sound in E as [_ ?].
Qed.

Lemma drop_ws_suffix l : drop_ws l `suffix_of` l.
Proof.
  induction l as [|[c b] l IH]; simpl; [done|]. destruct (is_whitespace c); [|done].
  by apply suffix_cons_r.
Qed.

Lemma Forall_drop_ws P l : Forall P l → Forall P (drop_ws l).
Proof. intros H. destruct (drop_ws_suffix l) as [k Hk]. rewrite Hk in H. by apply Forall_app in H as [_ ?]. Qed.

Lemma Forall_trim P l : Forall P l → Forall P (trim_segments l).
Proof. intros H. unfold trim_segments. by apply Forall_reverse, Forall_drop_ws, Forall_reverse, Forall_drop_ws. Qed.

Lemma drop_ws_nil l : drop_ws l = [] ↔ Forall (λ cb, is_whitespace cb.1 = true) l.
Proof.
  induction l as [|[c b] l IH]; simpl; [by split|]. rewrite Forall_cons. simpl.
  destruct (is_whitespace c); naive_solver.
Qed.

Lemma drop_ws_ws_nil l :
  Forall (λ cb, is_whitespace cb.1 = true) (drop_ws l) → drop_ws l = [].
Proof.
  induction l as [|[c b] l IH]; simpl; [done|]. destruct (is_whitespace c) eqn:E; [done|].
  inversion 1; simpl in *; congruence.
Qed.

Lemma trim_segments_nil l :
  trim_segments l = [] ↔ Forall (λ cb, is_whitespace cb.1 = true) l.
Proof.
  unfold trim_segments. split.
  - intros H%(f_equal reverse). rewrite reverse_involutive in H.
    apply drop_ws_nil, (Forall_reverse _ (reverse _)) in H. rewrite reverse_involutive in H.
    by apply drop_ws_nil, drop_ws_ws_nil.
  - intros H. apply drop_ws_nil in H. by rewrite H.
Qed.

Lemma join_nil l : Forall is_segment l → join l = "" ↔ l = [].
Proof.
  destruct 1 as [|[c b] l [_ Hne] _]; [done|]. simpl in *. split; [|done].
  destruct b; [done|]. done.
Qed.

(** A trimmed string is empty exactly when every character is white space. *)
Lemma trim_empty s :
  trim s = "" ↔ Forall (λ c, is_whitespace c = true) (chars s).
Proof.
  unfold trim, chars. rewrite join_nil by apply Forall_trim, segments_valid.
  rewrite trim_segments_nil, Forall_fmap. done.
Qed.

Lemma segments_trim s : utf8_segments (trim s) = Some (trim_segments (segments s)).
Proof. apply utf8_segments_join, Forall_trim, segments_valid. Qed.

Lemma trim_valid s : utf8_valid (trim s) = true.
Proof. unfold utf8_valid. by rewrite segments_trim. Qed.

Lemma chars_trim s : chars (trim s) = fst <$> trim_segments (segments s).
Proof. unfold chars, segments at 1. by rewrite segments_trim. Qed.

Lemma elem_of_trim_segments cb l : cb ∈ trim_segments l → cb ∈ l.
Proof. intros H. apply (Forall_forall (λ x, x ∈ l) (trim_segments l)); [|done]. by apply Forall_trim, Forall_forall. Qed.

Lemma chars_trim_subset s c : c ∈ chars (trim s) → c ∈ chars s.
Proof.
  rewrite chars_trim. unfold chars. rewrite !list_elem_of_fmap.
  intros (cb & -> & Hcb). eauto using elem_of_trim_segments.
Qed.

Lemma drop_ws_idemp l : drop_ws (drop_ws l) = drop_ws l.
Proof.
  induction l as [|[c b] l IH]; simpl; [done|].
  destruct (is_whitespace c) eqn:E; [done|]. simpl. by rewrite E.
Qed.

Lemma drop_ws_head l c b k : drop_ws l = (c, b) :: k → is_whitespace c = false.
Proof.
  induction l as [|[c' b'] l IH]; simpl; [done|].
  destruct (is_whitespace c') eqn:E; [done|]. naive_solver.
Qed.

Lemma drop_ws_id_head c b k : is_whitespace c = false → drop_ws ((c, b) :: k) = (c, b) :: k.
Proof. simpl. by intros ->. Qed.

(** A suffix that is not all white space keeps its head through [drop_ws] of
    the reversed list: trimming the end does not expose white space in front. *)
Lemma drop_ws_snoc l c b :
  is_whitespace c = false → drop_ws (l ++ [(c, b)]) = drop_ws l ++ [(c, b)].
Proof.
  intros E. induction l as [|[c' b'] l IH]; simpl; [by rewrite E|].
  destruct (is_whitespace c'); [done|]. done.
Qed.

Lemma trim_segments_idemp l : trim_segments (trim_segments l) = trim_segments l.
Proof.
  unfold trim_segments. set (m := drop_ws l).
  assert (drop_ws (reverse (drop_ws (reverse m))) = reverse (drop_ws (reverse m))) as ->.
  { destruct m as [|[c b] k] eqn:Em; [done|].
    pose proof (drop_ws_head _ _ _ _ Em) as Hc.
    rewrite reverse_cons, drop_ws_snoc by done. rewrite reverse_app. simpl.
    by rewrite Hc. }
  by rewrite reverse_involutive, drop_ws_idemp.
Qed.

(** [trim] is idempotent. *)
Lemma trim_idemp s : trim (trim s) = trim s.
Proof. unfold trim at 1. unfold segments. rewrite segments_trim. simpl. by rewrite trim_segments_idemp. Qed.

(** Trimming never lengthens a (valid or not) string. *)
Lemma join_app l k : join (l ++ k) = (join l ++ join k)%string.
Proof. induction l as [|[c b] l IH]; simpl; [done|]. by rewrite IH, str_app_assoc. Qed.

Lemma str_len_join l : str_len (join l) = sumZ (λ cb, str_len cb.2) l.
Proof.
  induction l as [|[c b] l IH]; [done|]. unfold sumZ in *. simpl. rewrite str_len_app. lia.
Qed.

Lemma drop_ws_len l : str_len (join (drop_ws l)) ≤ str_len (join l).
Proof.
  destruct (drop_ws_suffix l) as [k Hk]. rewrite Hk at 2. rewrite join_app, str_len_app.
  pose proof (str_len_nonneg (join k)). lia.
Qed.

Lemma str_len_join_reverse l : str_len (join (reverse l)) = str_len (join l).
Proof. rewrite !str_len_join. apply sumZ_perm, reverse_Permutation. Qed.

Lemma trim_len s : str_len (trim s) ≤ str_len s.
Proof.
  unfold trim, trim_segments. rewrite str_len_join_reverse.
  etrans; [apply drop_ws_len|]. rewrite str_len_join_reverse. etrans; [apply drop_ws_len|].
  unfold segments. destruct (utf8_segments s) as [l|] eqn:E; simpl; [|apply str_len_nonneg].
  apply utf8_segments_sound in E as [<- _]. done.
Qed.

(** ** Maps with string keys

    The entries of a [BTreeMap<String, _>] in the order of its iterator: that
    of the bytes of the keys. *)
Definition entry_le {A} (a b : string * A) : Prop := String.leb a.1 b.1 = true.

#[export] Instance entry_le_dec {A} (a b : string * A) : Decision (entry_le a b).
Proof. unfold entry_le. apply _. Defined.

Definition btree_entries {A} (m : gmap string A) : list (string * A) :=
  merge_sort entry_le (map_to_list m).

Lemma btree_entries_perm {A} (m : gmap string A) : btree_entries m ≡ₚ map_to_list m.
Proof. apply merge_sort_Permutation. Qed.

Lemma btree_entries_keys {A} (m : gmap string A) : NoDup (btree_entries m).*1.
Proof. rewrite btree_entries_perm. apply NoDup_fst_map_to_list. Qed.

Lemma btree_entries_to_map {A} (m : gmap string A) : list_to_map (btree_entries m) = m.
Proof.
  rewrite <-(list_to_map_to_list m) at 2.
  apply list_to_map_proper; [apply btree_entries_keys|apply btree_entries_perm].
Qed.

Example btree_entries_example :
  (btree_entries (<["b" := 1]> (<["a" := 2]> (<["ab" := 3]> ∅)))).*1 = ["a"; "ab"; "b"].
Proof. vm_compute. reflexivity. Qed.

(** [eq_ignore_ascii_case] is an equivalence that contains equality. *)
#[export] Instance eq_ignore_ascii_case_equiv :
  Equivalence (λ a b, eq_ignore_ascii_case a b = true).
Proof.
  unfold eq_ignore_ascii_case. split.
  - intros a. by apply bool_decide_eq_true.
  - intros a b. rewrite !bool_decide_eq_true. congruence.
  - intros a b c. rewrite !bool_decide_eq_true. congruence.
Qed.

Example trim_example : trim "  tenant a ~" = "tenant a ~".
Proof. vm_compute. reflexivity. Qed.
