(* ===== verification/Ids.v ===== *)
(** * Identifiers, protocols and core errors

    router-core's [error.rs], [ids.rs] and [protocol.rs]: the error type of
    the routing engine, the validation every identifier of the system goes
    through, connection and subscription ids, and delivery protocols. *)

From S2P Require Import Prelude Str.
Open Scope Z_scope.

(** [CoreError]. *)
Inductive CoreError : Type :=
| InvalidIdentifier (field reason : string)
| ConnectionNotFound
| SubscriptionExists
| SubscriptionNotFound
| TenantMismatch
| SubscriptionLimitReached
| ConnectionLimitReached
| GlobalSubscriptionLimitReached
| InvalidQueueCapacity (requested maximum : Z)
| IncompleteRecipient
| MissingField (field : string).

(** Its [Display], derived from the [#[error(...)]] attributes. *)
Definition CoreError_to_string (e : CoreError) : string :=
  match e with
  | InvalidIdentifier field reason => "invalid " +:+ field +:+ ": " +:+ reason
  | ConnectionNotFound => "connection does not exist"
  | SubscriptionExists => "subscription already exists"
  | SubscriptionNotFound => "subscription does not exist"
  | TenantMismatch => "subscription tenant differs from connection tenant"
  | SubscriptionLimitReached => "connection subscription limit reached"
  | ConnectionLimitReached => "connection limit reached"
  | GlobalSubscriptionLimitReached => "subscription limit reached"
  | InvalidQueueCapacity requested maximum =>
      "queue capacity " +:+ pretty requested +:+ " must be between 1 and " +:+ pretty maximum
  | IncompleteRecipient =>
      "recipient_type and recipient_identity must either both be set or both be absent"
  | MissingField field => "missing mandatory routing field: " +:+ field
  end.

(** [ConnectionId]: a random 128-bit UUID, kept as its numeric value.  The
    value [Uuid::new_v4()] draws is an argument of the operations that call
    [ConnectionId::new]. *)
Abbreviation ConnectionId := Z (only parsing).

(** [SubscriptionId]: a validated client-defined string. *)
Abbreviation SubscriptionId := string (only parsing).

(** [DeliveryProtocol]. *)
Inductive DeliveryProtocol : Type := WebSocket | Sse | Grpc | HttpWebhook.

#[export] Instance DeliveryProtocol_eq_dec : EqDecision DeliveryProtocol.
Proof. solve_decision. Defined.

(** [DeliveryProtocol::as_str]. *)
Definition protocol_as_str (p : DeliveryProtocol) : string :=
  match p with
  | WebSocket => "websocket"
  | Sse => "sse"
  | Grpc => "grpc"
  | HttpWebhook => "http_webhook"
  end.

(** [validate_identifier]. *)
Definition validate_identifier (field value : string) (max_len : Z) : result CoreError unit :=
  if is_empty (trim value) then Err (InvalidIdentifier field "must not be empty")
  else if max_len <? str_len value then
    Err (InvalidIdentifier field ("must not exceed " +:+ pretty max_len +:+ " bytes"))
  else if existsb is_control (chars value) then
    Err (InvalidIdentifier field "must not contain control characters")
  else Ok tt.

(** The loop over the optional fields of a filter or of metadata:
    [for (field, value) in [...] { if let Some(value) = value {
    validate_identifier(field, value, 256)?; } }]. *)
Fixpoint validate_optional (fields : list (string * option string)) : result CoreError unit :=
  match fields with
  | [] => Ok tt
  | (field, Some value) :: rest =>
      _ ← validate_identifier field value 256; validate_optional rest
  | (_, None) :: rest => validate_optional rest
  end.

(** [SubscriptionId::new]. *)
Definition SubscriptionId_new (value : string) : result CoreError SubscriptionId :=
  _ ← validate_identifier "subscription_id" value 128; Ok value.

(** ** What validation promises *)

(** A well-formed identifier of at most [max_len] bytes. *)
Record identifier_ok (value : string) (max_len : Z) : Prop := {
  ident_visible : ∃ c, c ∈ chars value ∧ is_whitespace c = false;
  ident_bounded : str_len value ≤ max_len;
  ident_printable : ∀ c, c ∈ chars value → is_control c = false;
}.

Lemma existsb_control l :
  existsb is_control l = false ↔ ∀ c, c ∈ l → is_control c = false.
Proof.
  induction l as [|c l IH]; simpl.
  - split; [|done]. intros _ c Hc. by apply elem_of_nil in Hc.
  - rewrite orb_false_iff, IH. setoid_rewrite elem_of_cons. naive_solver.
Qed.

Lemma trim_nonempty s :
  trim s ≠ "" ↔ ∃ c, c ∈ chars s ∧ is_whitespace c = false.
Proof.
  rewrite trim_empty, <-Exists_exists. induction (chars s) as [|c l IH].
  - split; [intros []; constructor|intros H; inversion H].
  - rewrite Forall_cons, Exists_cons, <-IH. destruct (is_whitespace c); naive_solver.
Qed.

Lemma validate_identifier_Ok field value max_len :
  validate_identifier field value max_len = Ok tt ↔ identifier_ok value max_len.
Proof.
  unfold validate_identifier, is_empty. case_bool_decide as Htrim.
  { split; [done|]. intros [Hv _ _]. by apply trim_nonempty in Hv. }
  apply trim_nonempty in Htrim.
  destruct (Z.ltb_spec max_len (str_len value)).
  { split; [done|]. intros []; lia. }
  destruct (existsb is_control (chars value)) eqn:E.
  { split; [done|]. intros [_ _ Hp]. apply existsb_control in Hp. congruence. }
  split; [|done]. intros _. split; [done|lia|]. by apply existsb_control.
Qed.

(** Validation fails only with [InvalidIdentifier] of the field it checks. *)
Lemma validate_identifier_Err field value max_len e :
  validate_identifier field value max_len = Err e → ∃ reason, e = InvalidIdentifier field reason.
Proof. unfold validate_identifier. repeat case_match; naive_solver. Qed.

Lemma validate_identifier_total field value max_len :
  validate_identifier field value max_len = Ok tt ∨
  ∃ reason, validate_identifier field value max_len = Err (InvalidIdentifier field reason).
Proof. unfold validate_identifier. repeat case_match; naive_solver. Qed.

Lemma identifier_ok_nonempty value max_len : identifier_ok value max_len → value ≠ "".
Proof. intros [(c & Hc & _) _ _] ->. by apply elem_of_nil in Hc. Qed.

(** A validated identifier is valid UTF-8. *)
Lemma identifier_ok_utf8 value max_len : identifier_ok value max_len → utf8_valid value = true.
Proof.
  intros [(c & Hc & _) _ _]. unfold chars, segments, utf8_valid in *.
  destruct (utf8_segments value); [done|]. by apply elem_of_nil in Hc.
Qed.

Lemma validate_optional_Ok fields :
  validate_optional fields = Ok tt ↔
  ∀ field value, (field, Some value) ∈ fields → identifier_ok value 256.
Proof.
  induction fields as [|[field [value|]] rest IH]; simpl.
  - split; [|done]. intros _ ? ? H. by apply elem_of_nil in H.
  - rewrite bind_Ok. setoid_rewrite elem_of_cons. setoid_rewrite IH. split.
    + intros ([] & Hv%validate_identifier_Ok & Hrest) f v [?|?]; simplify_eq; eauto.
    + intros H. exists tt. split; [|naive_solver]. by apply validate_identifier_Ok, (H field); left.
  - rewrite IH. setoid_rewrite elem_of_cons. naive_solver.
Qed.

Lemma validate_optional_Err fields e :
  validate_optional fields = Err e → ∃ field reason, e = InvalidIdentifier field reason.
Proof.
  induction fields as [|[field [value|]] rest IH]; simpl; [done| |done].
  intros [H|(? & _ & H)]%bind_Err; [|by apply IH].
  apply validate_identifier_Err in H as [reason ->]. eauto.
Qed.

Lemma SubscriptionId_new_Ok value sid :
  SubscriptionId_new value = Ok sid ↔ sid = value ∧ identifier_ok value 128.
Proof.
  unfold SubscriptionId_new. rewrite bind_Ok. rewrite <-(validate_identifier_Ok "subscription_id").
  split.
  - intros ([] & -> & ?). naive_solver.
  - intros [-> H]. by exists tt.
Qed.
