(* ===== verification/Message.v ===== *)
(** * Messages

    router-core's [message.rs]: routing metadata decoded from Kafka headers,
    trace context and the immutable routed message.  The lazily cached JSON
    form of the payload ([cached_payload_json]) is a pure function of the
    message and is not part of the record. *)

From S2P Require Import Prelude Str Ids.
Open Scope Z_scope.

(** [KafkaPosition]. *)
Record KafkaPosition : Type := {
  kp_topic : string;
  kp_partition : Z;
  kp_offset : Z;
}.

(** [RoutingMetadata]. *)
Record RoutingMetadata : Type := {
  md_message_id : string;
  md_tenant_id : string;
  md_kind : option string;
  md_message_type : option string;
  md_channel : option string;
  md_actor_id : option string;
  md_recipient_type : option string;
  md_recipient_identity : option string;
  md_content_type : string;
  md_timestamp_ms : option Z;
  md_source : option KafkaPosition;
}.

(** [x.is_some()]. *)
Definition is_some {A} (o : option A) : bool := match o with Some _ => true | None => false end.

(** Both recipient fields are present, or both are absent. *)
Definition recipient_paired (rtype rident : option string) : bool :=
  Bool.eqb (is_some rtype) (is_some rident).

(** [RoutingMetadata::validate]. *)
Definition RoutingMetadata_validate (m : RoutingMetadata) : result CoreError unit :=
  _ ← validate_identifier "message_id" (md_message_id m) 256;
  _ ← validate_identifier "tenant_id" (md_tenant_id m) 256;
  _ ← validate_identifier "content_type" (md_content_type m) 256;
  _ ← validate_optional
        [("kind", md_kind m); ("type", md_message_type m); ("channel", md_channel m);
         ("actor_id", md_actor_id m); ("recipient_type", md_recipient_type m);
         ("recipient_identity", md_recipient_identity m)];
  ensure (recipient_paired (md_recipient_type m) (md_recipient_identity m)) IncompleteRecipient.

(** [TraceContext]. *)
Record TraceContext : Type := {
  tc_traceparent : string;
  tc_tracestate : option string;
}.

(** [TraceContext::new]. *)
Definition TraceContext_new (traceparent : string) (tracestate : option string)
    : result CoreError TraceContext :=
  _ ← validate_identifier "traceparent" traceparent 256;
  _ ← match tracestate with
      | Some ts => validate_identifier "tracestate" ts 512
      | None => Ok tt
      end;
  Ok {| tc_traceparent := traceparent; tc_tracestate := tracestate |}.

(** [Extractor::get] and [Extractor::keys] for [TraceContext]. *)
Definition TraceContext_get (t : TraceContext) (key : string) : option string :=
  if bool_decide (key = "traceparent") then Some (tc_traceparent t)
  else if bool_decide (key = "tracestate") then tc_tracestate t
  else None.

Definition TraceContext_keys (t : TraceContext) : list string :=
  if is_some (tc_tracestate t) then ["traceparent"; "tracestate"] else ["traceparent"].

(** [RoutedMessage]; the payload is a byte string. *)
Record RoutedMessage : Type := {
  rm_metadata : RoutingMetadata;
  rm_payload : string;
  rm_trace_context : option TraceContext;
}.

(** [RoutedMessage::new_with_trace_context]. *)
Definition RoutedMessage_new_with_trace_context (metadata : RoutingMetadata) (payload : string)
    (trace_context : option TraceContext) : result CoreError RoutedMessage :=
  _ ← RoutingMetadata_validate metadata;
  Ok {| rm_metadata := metadata; rm_payload := payload; rm_trace_context := trace_context |}.

(** [RoutedMessage::new]. *)
Definition RoutedMessage_new (metadata : RoutingMetadata) (payload : string)
    : result CoreError RoutedMessage :=
  RoutedMessage_new_with_trace_context metadata payload None.

(** ** Properties *)

(** What [RoutingMetadata::validate] promises. *)
Record metadata_ok (m : RoutingMetadata) : Prop := {
  mdok_message_id : identifier_ok (md_message_id m) 256;
  mdok_tenant_id : identifier_ok (md_tenant_id m) 256;
  mdok_content_type : identifier_ok (md_content_type m) 256;
  mdok_optional : ∀ v, Some v ∈ [md_kind m; md_message_type m; md_channel m; md_actor_id m;
      md_recipient_type m; md_recipient_identity m] → identifier_ok v 256;
  mdok_paired : recipient_paired (md_recipient_type m) (md_recipient_identity m) = true;
}.

(** The optional values of a labelled list, without their labels. *)
Lemma labelled_optional (labels : list string) (vals : list (option string)) :
  length labels = length vals →
  (∀ field value, (field, Some value) ∈ zip labels vals → identifier_ok value 256) ↔
  (∀ value, Some value ∈ vals → identifier_ok value 256).
Proof.
  intros Hlen. split.
  - intros H v Hv. apply list_elem_of_lookup in Hv as [i Hi].
    destruct (lookup_lt_is_Some_2 labels i) as [f Hf].
    { rewrite Hlen. by eapply lookup_lt_Some. }
    apply (H f), list_elem_of_lookup. exists i. by apply lookup_zip_Some.
  - intros H f v Hfv. apply H. apply list_elem_of_lookup in Hfv as [i Hi].
    apply lookup_zip_Some in Hi as [_ Hi]. by eapply list_elem_of_lookup_2.
Qed.

Lemma RoutingMetadata_validate_Ok m :
  RoutingMetadata_validate m = Ok tt ↔ metadata_ok m.
Proof.
  unfold RoutingMetadata_validate. rewrite bind_Ok. setoid_rewrite bind_Ok.
  setoid_rewrite bind_Ok. setoid_rewrite bind_Ok. setoid_rewrite ensure_Ok.
  pose proof (labelled_optional ["kind"; "type"; "channel"; "actor_id"; "recipient_type";
    "recipient_identity"] [md_kind m; md_message_type m; md_channel m; md_actor_id m;
      md_recipient_type m; md_recipient_identity m] eq_refl) as Hl. simpl in Hl.
  split.
  - intros ([] & H1%validate_identifier_Ok & [] & H2%validate_identifier_Ok & [] &
      H3%validate_identifier_Ok & [] & H4 & H5).
    rewrite validate_optional_Ok in H4. split; try done. by apply Hl.
  - intros [H1 H2 H3 H4 H5].
    exists tt; split; [by apply validate_identifier_Ok|].
    exists tt; split; [by apply validate_identifier_Ok|].
    exists tt; split; [by apply validate_identifier_Ok|].
    exists tt; split; [by rewrite validate_optional_Ok; apply Hl|done].
Qed.

Lemma RoutedMessage_new_with_trace_context_Ok md payload tc msg :
  RoutedMessage_new_with_trace_context md payload tc = Ok msg ↔
  metadata_ok md ∧
  msg = {| rm_metadata := md; rm_payload := payload; rm_trace_context := tc |}.
Proof.
  unfold RoutedMessage_new_with_trace_context. rewrite bind_Ok, <-RoutingMetadata_validate_Ok.
  split; [intros ([] & ? & ?); naive_solver|intros [? ->]; by exists tt].
Qed.

(** The propagator reads back exactly the headers that [keys] announces. *)
Lemma TraceContext_keys_get t key :
  key ∈ TraceContext_keys t ↔ is_Some (TraceContext_get t key).
Proof.
  unfold TraceContext_keys, TraceContext_get.
  destruct (tc_tracestate t) eqn:E; simpl; rewrite ?elem_of_cons, ?elem_of_nil;
    repeat case_bool_decide; subst; rewrite is_Some_alt; naive_solver.
Qed.
