(* ===== verification/Route.v ===== *)
(** * Route filters and the compiled matcher

    router-core's [route.rs]: tenant-scoped filters with wildcard dimensions,
    the reference matcher [RouteFilter::matches], the hash key of the compiled
    index and [RouteKey::candidates], which expands a message into the keys of
    every filter that can match it. *)

From S2P Require Import Prelude Str Ids Message.
Open Scope Z_scope.

(** [RouteFilter]. *)
Record RouteFilter : Type := {
  rf_tenant_id : string;
  rf_kind : option string;
  rf_message_type : option string;
  rf_channel : option string;
  rf_actor_id : option string;
  rf_recipient_type : option string;
  rf_recipient_identity : option string;
}.

#[export] Instance RouteFilter_eq_dec : EqDecision RouteFilter.
Proof. solve_decision. Defined.

(** [RouteFilter::validate]. *)
Definition RouteFilter_validate (f : RouteFilter) : result CoreError unit :=
  _ ← validate_identifier "tenant_id" (rf_tenant_id f) 256;
  _ ← validate_optional
        [("kind", rf_kind f); ("type", rf_message_type f); ("channel", rf_channel f);
         ("actor_id", rf_actor_id f); ("recipient_type", rf_recipient_type f);
         ("recipient_identity", rf_recipient_identity f)];
  ensure (recipient_paired (rf_recipient_type f) (rf_recipient_identity f)) IncompleteRecipient.

(** [optional_matches]. *)
Definition optional_matches (expected actual : option string) : bool :=
  match expected with
  | None => true
  | Some e => bool_decide (actual = Some e)
  end.

(** [recipient_matches]. *)
Definition recipient_matches (expected_type expected_identity actual_type actual_identity
    : option string) : bool :=
  match expected_type, expected_identity with
  | None, None => true
  | Some t, Some i => bool_decide (actual_type = Some t) && bool_decide (actual_identity = Some i)
  | _, _ => false
  end.

(** [RouteFilter::matches]. *)
Definition RouteFilter_matches (f : RouteFilter) (m : RoutingMetadata) : bool :=
  bool_decide (rf_tenant_id f = md_tenant_id m)
  && optional_matches (rf_kind f) (md_kind m)
  && optional_matches (rf_message_type f) (md_message_type m)
  && optional_matches (rf_channel f) (md_channel m)
  && optional_matches (rf_actor_id f) (md_actor_id m)
  && recipient_matches (rf_recipient_type f) (rf_recipient_identity f)
       (md_recipient_type m) (md_recipient_identity m).

(** [RecipientKey]: the pair of both recipient fields. *)
Abbreviation RecipientKey := (string * string)%type (only parsing).

(** [recipient_key]. *)
Definition recipient_key (recipient_type recipient_identity : option string)
    : option RecipientKey :=
  match recipient_type, recipient_identity with
  | Some t, Some i => Some (t, i)
  | _, _ => None
  end.

(** [RouteKey]. *)
Record RouteKey : Type := {
  rk_tenant_id : string;
  rk_kind : option string;
  rk_message_type : option string;
  rk_channel : option string;
  rk_actor_id : option string;
  rk_recipient : option RecipientKey;
}.

#[export] Instance RouteKey_eq_dec : EqDecision RouteKey.
Proof. solve_decision. Defined.

#[export] Instance RouteKey_countable : Countable RouteKey.
Proof.
  refine (inj_countable'
    (λ k, (rk_tenant_id k, rk_kind k, rk_message_type k, rk_channel k, rk_actor_id k,
           rk_recipient k))
    (λ '(t, k, ty, c, a, r), {| rk_tenant_id := t; rk_kind := k; rk_message_type := ty;
           rk_channel := c; rk_actor_id := a; rk_recipient := r |}) _).
  by intros [].
Defined.

(** [RouteKey::from(&RouteFilter)]. *)
Definition RouteKey_from (f : RouteFilter) : RouteKey := {|
  rk_tenant_id := rf_tenant_id f;
  rk_kind := rf_kind f;
  rk_message_type := rf_message_type f;
  rk_channel := rf_channel f;
  rk_actor_id := rf_actor_id f;
  rk_recipient := recipient_key (rf_recipient_type f) (rf_recipient_identity f);
|}.

(** The five assignments [wildcard.$field = None] of the macro. *)
Definition clear_kind (k : RouteKey) : RouteKey := {|
  rk_tenant_id := rk_tenant_id k; rk_kind := None; rk_message_type := rk_message_type k;
  rk_channel := rk_channel k; rk_actor_id := rk_actor_id k; rk_recipient := rk_recipient k |}.
Definition clear_message_type (k : RouteKey) : RouteKey := {|
  rk_tenant_id := rk_tenant_id k; rk_kind := rk_kind k; rk_message_type := None;
  rk_channel := rk_channel k; rk_actor_id := rk_actor_id k; rk_recipient := rk_recipient k |}.
Definition clear_channel (k : RouteKey) : RouteKey := {|
  rk_tenant_id := rk_tenant_id k; rk_kind := rk_kind k; rk_message_type := rk_message_type k;
  rk_channel := None; rk_actor_id := rk_actor_id k; rk_recipient := rk_recipient k |}.
Definition clear_actor_id (k : RouteKey) : RouteKey := {|
  rk_tenant_id := rk_tenant_id k; rk_kind := rk_kind k; rk_message_type := rk_message_type k;
  rk_channel := rk_channel k; rk_actor_id := None; rk_recipient := rk_recipient k |}.
Definition clear_recipient (k : RouteKey) : RouteKey := {|
  rk_tenant_id := rk_tenant_id k; rk_kind := rk_kind k; rk_message_type := rk_message_type k;
  rk_channel := rk_channel k; rk_actor_id := rk_actor_id k; rk_recipient := None |}.

(** [branch_wildcard!]: when the dimension is populated, every key built so
    far is pushed again with the dimension cleared. *)
Definition branch_wildcard (clear : RouteKey → RouteKey) (populated : bool)
    (keys : list RouteKey) : list RouteKey :=
  if populated then keys ++ (clear <$> keys) else keys.

(** The fully specific key [candidates] starts from. *)
Definition exact_key (m : RoutingMetadata) : RouteKey := {|
  rk_tenant_id := md_tenant_id m;
  rk_kind := md_kind m;
  rk_message_type := md_message_type m;
  rk_channel := md_channel m;
  rk_actor_id := md_actor_id m;
  rk_recipient := recipient_key (md_recipient_type m) (md_recipient_identity m);
|}.

(** [RouteKey::candidates]. *)
Definition RouteKey_candidates (m : RoutingMetadata) : list RouteKey :=
  let keys := [exact_key m] in
  let keys := branch_wildcard clear_kind (is_some (md_kind m)) keys in
  let keys := branch_wildcard clear_message_type (is_some (md_message_type m)) keys in
  let keys := branch_wildcard clear_channel (is_some (md_channel m)) keys in
  let keys := branch_wildcard clear_actor_id (is_some (md_actor_id m)) keys in
  branch_wildcard clear_recipient (is_some (md_recipient_type m)) keys.

(** ** The keys that [candidates] produces *)

(** A dimension of a key agrees with the message: exactly equal, or cleared. *)
Definition dim_ok {A} (actual : option A) (key : option A) : Prop := key = None ∨ key = actual.

(** The set of keys a message is looked up under: its own key with any subset
    of the populated dimensions cleared. *)
Record generalizes (m : RoutingMetadata) (k : RouteKey) : Prop := {
  gen_tenant : rk_tenant_id k = md_tenant_id m;
  gen_kind : dim_ok (md_kind m) (rk_kind k);
  gen_type : dim_ok (md_message_type m) (rk_message_type k);
  gen_channel : dim_ok (md_channel m) (rk_channel k);
  gen_actor : dim_ok (md_actor_id m) (rk_actor_id k);
  gen_recipient : dim_ok (recipient_key (md_recipient_type m) (md_recipient_identity m))
                    (rk_recipient k);
}.

Lemma elem_of_branch k clear populated keys :
  k ∈ branch_wildcard clear populated keys ↔
  k ∈ keys ∨ populated = true ∧ ∃ k', k = clear k' ∧ k' ∈ keys.
Proof.
  unfold branch_wildcard. destruct populated; [|naive_solver].
  rewrite elem_of_app, list_elem_of_fmap. naive_solver.
Qed.

(** A key is produced by a branch from the key it specializes to. *)
Lemma branch_intro clear populated keys k k0 :
  k0 ∈ keys → k = k0 ∨ populated = true ∧ k = clear k0 → k ∈ branch_wildcard clear populated keys.
Proof. rewrite elem_of_branch. naive_solver. Qed.

Lemma recipient_key_Some t i r : recipient_key t i = Some r → is_some t = true.
Proof. by destruct t. Qed.

(** A cleared dimension was populated, or it is already exact. *)
Lemma dim_ok_cases {A} (actual key : option A) :
  dim_ok actual key → key = actual ∨ is_some actual = true ∧ key = None.
Proof. unfold dim_ok. destruct actual; naive_solver. Qed.

(** [candidates] enumerates exactly the generalizations of the message. *)
Lemma elem_of_candidates m k : k ∈ RouteKey_candidates m ↔ generalizes m k.
Proof.
  destruct m as [mid t kd ty ch ac rt ri ct ts src]. split.
  - unfold RouteKey_candidates, exact_key; simpl. rewrite !elem_of_branch.
    repeat setoid_rewrite elem_of_branch. repeat setoid_rewrite list_elem_of_singleton.
    intros H. repeat match goal with
    | H : _ ∨ _ |- _ => destruct H
    | H : _ ∧ _ |- _ => destruct H
    | H : ∃ _, _ |- _ => destruct H
    end; subst; split; simpl; unfold dim_ok; auto.
  - intros [Ht Hk Hty Hc Ha Hr]. destruct k as [t' k' ty' c' a' r']. simpl in *. subst t'.
    set (rk := recipient_key rt ri) in *. unfold RouteKey_candidates; simpl.
    apply branch_intro with (Build_RouteKey t k' ty' c' a' rk).
    2: { destruct (dim_ok_cases _ _ Hr) as [->|[Hs ->]]; [by left|right].
         split; [|done]. destruct rk eqn:E; [|done]. by eapply recipient_key_Some. }
    apply branch_intro with (Build_RouteKey t k' ty' c' ac rk).
    2: { destruct (dim_ok_cases _ _ Ha) as [->|[? ->]]; [by left|by right]. }
    apply branch_intro with (Build_RouteKey t k' ty' ch ac rk).
    2: { destruct (dim_ok_cases _ _ Hc) as [->|[? ->]]; [by left|by right]. }
    apply branch_intro with (Build_RouteKey t k' ty ch ac rk).
    2: { destruct (dim_ok_cases _ _ Hty) as [->|[? ->]]; [by left|by right]. }
    apply branch_intro with (Build_RouteKey t kd ty ch ac rk).
    2: { destruct (dim_ok_cases _ _ Hk) as [->|[? ->]]; [by left|by right]. }
    by apply list_elem_of_singleton.
Qed.

(** ** Agreement with the reference matcher *)

Lemma optional_matches_true expected actual :
  optional_matches expected actual = true ↔ dim_ok actual expected.
Proof.
  unfold optional_matches, dim_ok. destruct expected; [|naive_solver].
  rewrite bool_decide_eq_true. naive_solver.
Qed.

(** On paired fields, the recipient comparison is the comparison of the keys. *)
Lemma recipient_matches_true et ei at' ai :
  recipient_paired et ei = true → recipient_paired at' ai = true →
  recipient_matches et ei at' ai = true ↔
  dim_ok (recipient_key at' ai) (recipient_key et ei).
Proof.
  unfold recipient_paired, recipient_matches, dim_ok.
  destruct et, ei, at', ai; simpl; intros; simplify_eq;
    rewrite ?andb_true_iff, ?bool_decide_eq_true; naive_solver.
Qed.

Lemma RouteFilter_matches_true f m :
  recipient_paired (rf_recipient_type f) (rf_recipient_identity f) = true →
  recipient_paired (md_recipient_type m) (md_recipient_identity m) = true →
  RouteFilter_matches f m = true ↔ generalizes m (RouteKey_from f).
Proof.
  intros Hf Hm. unfold RouteFilter_matches.
  rewrite !andb_true_iff, bool_decide_eq_true, !optional_matches_true,
    recipient_matches_true by done.
  split.
  - intros [[[[[??]?]?]?]?]. by split.
  - intros [??????]. by split_and!.
Qed.

(** (C5) The compiled index agrees with the reference matcher: the key of a
    filter is among the candidates of a message exactly when the filter
    matches the message, for every filter and message whose recipient fields
    are paired (which [validate] enforces on both). *)
Theorem candidates_complete_and_sound (f : RouteFilter) (m : RoutingMetadata)
    (Hf : recipient_paired (rf_recipient_type f) (rf_recipient_identity f) = true)
    (Hm : recipient_paired (md_recipient_type m) (md_recipient_identity m) = true) :
  RouteKey_from f ∈ RouteKey_candidates m ↔ RouteFilter_matches f m = true.
Proof. by rewrite elem_of_candidates, RouteFilter_matches_true. Qed.

(** ** Number and uniqueness of the lookups *)

Lemma length_branch clear populated keys :
  length (branch_wildcard clear populated keys) =
  ((if populated then 2 else 1) * length keys)%nat.
Proof. unfold branch_wildcard. destruct populated; rewrite ?length_app, ?length_fmap; lia. Qed.

(** The dimensions that branch. *)
Definition populated_dimensions (m : RoutingMetadata) : nat :=
  length (filter (λ b : bool, b = true)
    [is_some (md_kind m); is_some (md_message_type m); is_some (md_channel m);
     is_some (md_actor_id m); is_some (md_recipient_type m)]).

(** What clearing preserves holds of every key of the branch. *)
Lemma Forall_branch (Q : RouteKey → Prop) clear populated keys :
  (∀ k, Q k → Q (clear k)) → Forall Q keys → Forall Q (branch_wildcard clear populated keys).
Proof.
  intros Hc Hk. unfold branch_wildcard. destruct populated; [|done].
  apply Forall_app. split; [done|]. apply Forall_fmap. by eapply Forall_impl.
Qed.

(** Branching on a dimension that is exact in every key so far creates no
    duplicate: the copies lack the dimension, and agree on nothing else less. *)
Lemma NoDup_branch {B} (dim : RouteKey → option B) clear (actual : option B) keys :
  (∀ k, dim (clear k) = None) →
  (∀ k1 k2, clear k1 = clear k2 → dim k1 = dim k2 → k1 = k2) →
  Forall (λ k, dim k = actual) keys → NoDup keys →
  NoDup (branch_wildcard clear (is_some actual) keys).
Proof.
  intros Hclear Hinj Hexact Hnd. unfold branch_wildcard.
  destruct actual as [b|]; simpl; [|done]. rewrite Forall_forall in Hexact.
  apply NoDup_app. split_and!; [done| |].
  - intros k Hk (k' & -> & Hk')%list_elem_of_fmap.
    specialize (Hexact _ Hk). rewrite Hclear in Hexact. done.
  - apply NoDup_fmap_2_strong; [|done]. intros k1 k2 Hk1 Hk2 Heq.
    apply Hinj; [done|]. by rewrite !Hexact.
Qed.

(** Two keys that agree once a dimension is cleared, and on the dimension. *)
Ltac solve_clear_inj :=
  intros [] [] ?; simpl; intros; unfold clear_kind, clear_message_type, clear_channel,
    clear_actor_id, clear_recipient in *; simplify_eq/=; done.

(** The dimensions still to branch are exact in every key built so far. *)
Ltac solve_exact :=
  repeat (apply Forall_branch; [by intros []|]); by apply Forall_singleton.

Lemma candidates_NoDup_paired m :
  recipient_paired (md_recipient_type m) (md_recipient_identity m) = true →
  NoDup (RouteKey_candidates m).
Proof.
  intros Hp. unfold RouteKey_candidates.
  assert (is_some (md_recipient_type m) =
    is_some (recipient_key (md_recipient_type m) (md_recipient_identity m))) as ->.
  { by destruct (md_recipient_type m), (md_recipient_identity m). }
  apply (NoDup_branch rk_recipient); [done|solve_clear_inj|solve_exact|].
  apply (NoDup_branch rk_actor_id); [done|solve_clear_inj|solve_exact|].
  apply (NoDup_branch rk_channel); [done|solve_clear_inj|solve_exact|].
  apply (NoDup_branch rk_message_type); [done|solve_clear_inj|solve_exact|].
  apply (NoDup_branch rk_kind); [done|solve_clear_inj|solve_exact|].
  apply NoDup_singleton.
Qed.

(** A message is looked up under exactly [2 ^ d] keys where [d] is the
    number of its populated dimensions, hence under at most 32; the keys are
    pairwise distinct and all carry the tenant of the message. *)
Lemma candidates_count_unique_tenant (m : RoutingMetadata)
    (Hm : recipient_paired (md_recipient_type m) (md_recipient_identity m) = true) :
  length (RouteKey_candidates m) = (2 ^ populated_dimensions m)%nat ∧
  (length (RouteKey_candidates m) ≤ 32)%nat ∧
  NoDup (RouteKey_candidates m) ∧
  ∀ k, k ∈ RouteKey_candidates m → rk_tenant_id k = md_tenant_id m.
Proof.
  assert (length (RouteKey_candidates m) = (2 ^ populated_dimensions m)%nat) as Hlen.
  { unfold RouteKey_candidates, populated_dimensions. rewrite !length_branch.
    destruct (md_kind m), (md_message_type m), (md_channel m), (md_actor_id m),
      (md_recipient_type m); reflexivity. }
  split_and!; [done| |by apply candidates_NoDup_paired|].
  - rewrite Hlen. change 32%nat with (2 ^ 5)%nat. apply Nat.pow_le_mono_r; [done|].
    unfold populated_dimensions. etrans; [apply length_filter|]. done.
  - by intros k [Ht _ _ _ _ _]%elem_of_candidates.
Qed.

(** ** Validated filters *)

Record filter_ok (f : RouteFilter) : Prop := {
  rfok_tenant_id : identifier_ok (rf_tenant_id f) 256;
  rfok_optional : ∀ v, Some v ∈ [rf_kind f; rf_message_type f; rf_channel f; rf_actor_id f;
      rf_recipient_type f; rf_recipient_identity f] → identifier_ok v 256;
  rfok_paired : recipient_paired (rf_recipient_type f) (rf_recipient_identity f) = true;
}.

Lemma RouteFilter_validate_Ok f : RouteFilter_validate f = Ok tt ↔ filter_ok f.
Proof.
  unfold RouteFilter_validate. rewrite bind_Ok. setoid_rewrite bind_Ok. setoid_rewrite ensure_Ok.
  pose proof (labelled_optional ["kind"; "type"; "channel"; "actor_id"; "recipient_type";
    "recipient_identity"] [rf_kind f; rf_message_type f; rf_channel f; rf_actor_id f;
      rf_recipient_type f; rf_recipient_identity f] eq_refl) as Hl. simpl in Hl.
  split.
  - intros ([] & H1%validate_identifier_Ok & [] & H2 & H3).
    rewrite validate_optional_Ok in H2. split; try done. by apply Hl.
  - intros [H1 H2 H3]. exists tt; split; [by apply validate_identifier_Ok|].
    exists tt; split; [by rewrite validate_optional_Ok; apply Hl|done].
Qed.

(** Validated filters and messages: the index never crosses tenants. *)
Lemma generalizes_tenant m f :
  generalizes m (RouteKey_from f) → rf_tenant_id f = md_tenant_id m.
Proof. by intros [Ht _ _ _ _ _]. Qed.

(** ** Examples

    The shapes the unit tests of [route.rs] enumerate: a message with every
    dimension populated, and a filter on its channel and recipient. *)
Definition example_metadata : RoutingMetadata := {|
  md_message_id := "m-1"; md_tenant_id := "tenant-a"; md_kind := Some "content";
  md_message_type := Some "broadcast"; md_channel := Some "news"; md_actor_id := Some "u-1";
  md_recipient_type := Some "team"; md_recipient_identity := Some "team-7";
  md_content_type := "application/json"; md_timestamp_ms := None; md_source := None |}.

Definition example_filter : RouteFilter := {|
  rf_tenant_id := "tenant-a"; rf_kind := None; rf_message_type := None;
  rf_channel := Some "news"; rf_actor_id := None;
  rf_recipient_type := Some "team"; rf_recipient_identity := Some "team-7" |}.

Lemma candidates_complete_and_sound_witness :
  RouteFilter_matches example_filter example_metadata = true ∧
  RouteKey_from example_filter ∈ RouteKey_candidates example_metadata.
Proof.
  split; [vm_compute; reflexivity|].
  apply (candidates_complete_and_sound example_filter example_metadata);
    vm_compute; reflexivity.
Defined.

