(* ===== verification/Metrics.v ===== *)
(** * Process-wide counters and latency histograms

    router-core's [metrics.rs].  The named [AtomicU64] fields of [Metrics] are
    the elements of [Counter], so that one field is one key of the counter
    map; the two gauge arrays and the histogram array keep their index.
    [fetch_add] wraps at 64 bits and [decrement] saturates at zero, as the
    atomics do.  A [Duration] is its length in nanoseconds. *)

From S2P Require Import Prelude Str Ids.
Open Scope Z_scope.

(** ** Data *)

(** The scalar fields of [Metrics]. *)
Inductive Counter : Type :=
| c_kafka_messages | c_kafka_bytes | c_kafka_commit_errors
| c_kafka_rebalance_assignments | c_kafka_rebalance_revocations | c_kafka_rebalance_errors
| c_valid_messages | c_invalid_messages | c_matched_subscriptions | c_unmatched_messages
| c_delivered_connections | c_full_connections | c_closed_connections
| c_slow_consumer_disconnects | c_security_limit_rejections
| c_websocket_opened | c_sse_opened | c_grpc_opened | c_webhook_opened
| c_webhook_attempts | c_webhook_successes | c_webhook_failures
| c_webhook_durable_commands | c_webhook_retries_scheduled | c_webhook_recovery_replays
| c_webhook_dead_letters
| c_http_publish_attempts | c_grpc_publish_attempts
| c_http_publish_acknowledged | c_grpc_publish_acknowledged
| c_http_publish_failures | c_grpc_publish_failures
| c_kafka_assigned_partitions | c_kafka_lag_messages.

#[export] Instance Counter_eq_dec : EqDecision Counter.
Proof. solve_decision. Defined.

Definition all_counters : list Counter :=
  [ c_kafka_messages; c_kafka_bytes; c_kafka_commit_errors;
    c_kafka_rebalance_assignments; c_kafka_rebalance_revocations; c_kafka_rebalance_errors;
    c_valid_messages; c_invalid_messages; c_matched_subscriptions; c_unmatched_messages;
    c_delivered_connections; c_full_connections; c_closed_connections;
    c_slow_consumer_disconnects; c_security_limit_rejections;
    c_websocket_opened; c_sse_opened; c_grpc_opened; c_webhook_opened;
    c_webhook_attempts; c_webhook_successes; c_webhook_failures;
    c_webhook_durable_commands; c_webhook_retries_scheduled; c_webhook_recovery_replays;
    c_webhook_dead_letters;
    c_http_publish_attempts; c_grpc_publish_attempts;
    c_http_publish_acknowledged; c_grpc_publish_acknowledged;
    c_http_publish_failures; c_grpc_publish_failures;
    c_kafka_assigned_partitions; c_kafka_lag_messages ].

(** The position of a field in the list of the fields. *)
Fixpoint index_of (c : Counter) (l : list Counter) : nat :=
  match l with
  | [] => O
  | c' :: l' => if decide (c = c') then O else S (index_of c l')
  end.

#[export] Instance Counter_countable : Countable Counter.
Proof.
  refine (inj_countable (λ c, index_of c all_counters) (λ n, all_counters !! n) _).
  by intros [].
Defined.

(** [LatencyStage] with [ALL], [index] and [label]. *)
Inductive LatencyStage : Type :=
| Decode | Match | Enqueue | ProtocolWrite | WebhookAttempt | Publish | EndToEnd.

Definition LatencyStage_ALL : list LatencyStage :=
  [Decode; Match; Enqueue; ProtocolWrite; WebhookAttempt; Publish; EndToEnd].

Definition LatencyStage_index (s : LatencyStage) : nat :=
  match s with
  | Decode => 0 | Match => 1 | Enqueue => 2 | ProtocolWrite => 3
  | WebhookAttempt => 4 | Publish => 5 | EndToEnd => 6
  end.

Definition LatencyStage_label (s : LatencyStage) : string :=
  match s with
  | Decode => "decode" | Match => "match" | Enqueue => "enqueue"
  | ProtocolWrite => "protocol_write" | WebhookAttempt => "webhook_attempt"
  | Publish => "publish" | EndToEnd => "end_to_end"
  end.

(** [LATENCY_BUCKETS_SECONDS], each bound with its length in nanoseconds and
    the text [Display] gives the [f64].  [observe] compares [as_secs_f64()]
    with the bound; rounding to nearest is monotone and takes a whole number
    of nanoseconds and the literal of the same decimal value to the same
    [f64], and distinct nanosecond counts up to one second to distinct ones,
    so the comparison of nanoseconds decides it. *)
Definition LATENCY_BUCKETS : list (Z * string) :=
  [ (10_000, "0.00001"); (50_000, "0.00005"); (100_000, "0.0001"); (250_000, "0.00025");
    (500_000, "0.0005"); (1_000_000, "0.001"); (2_500_000, "0.0025"); (5_000_000, "0.005");
    (10_000_000, "0.01"); (25_000_000, "0.025"); (50_000_000, "0.05"); (100_000_000, "0.1");
    (500_000_000, "0.5"); (1_000_000_000, "1") ].

(** [Histogram] (and its snapshot): non-cumulative buckets. *)
Record Histogram : Type := {
  h_buckets : list Z;
  h_count : Z;
  h_sum_micros : Z;
}.

(** [Histogram::default]. *)
Definition Histogram_default : Histogram :=
  {| h_buckets := replicate (length LATENCY_BUCKETS) 0; h_count := 0; h_sum_micros := 0 |}.

(** [PublishProtocol]. *)
Inductive PublishProtocol : Type := PublishHttp | PublishGrpc.

(** [Metrics] (and [MetricsSnapshot], which has the same fields). *)
Record Metrics : Type := {
  m_counters : gmap Counter Z;
  m_active_connections : list Z;
  m_active_subscriptions : list Z;
  m_latency : list Histogram;
}.

(** [Metrics::default]. *)
Definition Metrics_default : Metrics := {|
  m_counters := list_to_map ((λ c, (c, 0)) <$> all_counters);
  m_active_connections := replicate 4 0;
  m_active_subscriptions := replicate 4 0;
  m_latency := replicate 7 Histogram_default;
|}.

(** ** Atomic operations *)

Definition load (m : Metrics) (c : Counter) : Z := default 0 (m_counters m !! c).

Definition with_counters (f : gmap Counter Z → gmap Counter Z) (m : Metrics) : Metrics := {|
  m_counters := f (m_counters m); m_active_connections := m_active_connections m;
  m_active_subscriptions := m_active_subscriptions m; m_latency := m_latency m |}.

(** [self.c.fetch_add(n, Relaxed)]. *)
Definition fetch_add (c : Counter) (n : Z) (m : Metrics) : Metrics :=
  with_counters (λ cs, <[c := wrap64 (load m c + n)]> cs) m.

(** [self.c.store(n, Relaxed)]. *)
Definition store (c : Counter) (n : Z) (m : Metrics) : Metrics :=
  with_counters (λ cs, <[c := n]> cs) m.

Definition with_active_connections (f : list Z → list Z) (m : Metrics) : Metrics := {|
  m_counters := m_counters m; m_active_connections := f (m_active_connections m);
  m_active_subscriptions := m_active_subscriptions m; m_latency := m_latency m |}.

Definition with_active_subscriptions (f : list Z → list Z) (m : Metrics) : Metrics := {|
  m_counters := m_counters m; m_active_connections := m_active_connections m;
  m_active_subscriptions := f (m_active_subscriptions m); m_latency := m_latency m |}.

(** [decrement]: [fetch_update] with [saturating_sub]. *)
Definition decrement (value amount : Z) : Z := sat_sub value amount.

(** [protocol_index]. *)
Definition protocol_index (p : DeliveryProtocol) : nat :=
  match p with WebSocket => 0 | Sse => 1 | Grpc => 2 | HttpWebhook => 3 end.

(** [Histogram::observe]; the duration is in nanoseconds. *)
Definition bucket_of (nanos : Z) : option nat :=
  fst <$> list_find (λ b : Z * string, nanos ≤ b.1) LATENCY_BUCKETS.

Definition Histogram_observe (nanos : Z) (h : Histogram) : Histogram := {|
  h_buckets := match bucket_of nanos with
               | Some i => alter (λ v, wrap64 (v + 1)) i (h_buckets h)
               | None => h_buckets h
               end;
  h_count := wrap64 (h_count h + 1);
  h_sum_micros := wrap64 (h_sum_micros h + clamp_u64 (nanos / 1000));
|}.

(** ** Operations of [Metrics] *)

Definition record_kafka_message (bytes : Z) (m : Metrics) : Metrics :=
  fetch_add c_kafka_bytes bytes (fetch_add c_kafka_messages 1 m).
Definition record_kafka_commit_error : Metrics → Metrics := fetch_add c_kafka_commit_errors 1.
Definition record_kafka_rebalance_assignment : Metrics → Metrics :=
  fetch_add c_kafka_rebalance_assignments 1.
Definition record_kafka_rebalance_revocation : Metrics → Metrics :=
  fetch_add c_kafka_rebalance_revocations 1.
Definition record_kafka_rebalance_error : Metrics → Metrics :=
  fetch_add c_kafka_rebalance_errors 1.
Definition set_kafka_assigned_partitions (partitions : Z) : Metrics → Metrics :=
  store c_kafka_assigned_partitions partitions.
Definition set_kafka_lag_messages (lag : Z) : Metrics → Metrics :=
  store c_kafka_lag_messages lag.

(** [record_latency]. *)
Definition record_latency (stage : LatencyStage) (nanos : Z) (m : Metrics) : Metrics := {|
  m_counters := m_counters m; m_active_connections := m_active_connections m;
  m_active_subscriptions := m_active_subscriptions m;
  m_latency := alter (Histogram_observe nanos) (LatencyStage_index stage) (m_latency m) |}.

Definition record_valid_message : Metrics → Metrics := fetch_add c_valid_messages 1.
Definition record_invalid_message : Metrics → Metrics := fetch_add c_invalid_messages 1.

(** [record_dispatch]. *)
Definition record_dispatch (matched delivered full closed : Z) (m : Metrics) : Metrics :=
  let m := fetch_add c_matched_subscriptions matched m in
  let m := fetch_add c_delivered_connections delivered m in
  let m := fetch_add c_full_connections full m in
  let m := fetch_add c_closed_connections closed m in
  if matched =? 0 then fetch_add c_unmatched_messages 1 m else m.

(** [record_protocol_opened]. *)
Definition opened_counter (p : DeliveryProtocol) : Counter :=
  match p with
  | WebSocket => c_websocket_opened | Sse => c_sse_opened
  | Grpc => c_grpc_opened | HttpWebhook => c_webhook_opened
  end.

Definition record_protocol_opened (p : DeliveryProtocol) (m : Metrics) : Metrics :=
  with_active_connections (alter (λ v, wrap64 (v + 1)) (protocol_index p))
    (fetch_add (opened_counter p) 1 m).

(** [record_protocol_closed]. *)
Definition record_protocol_closed (p : DeliveryProtocol) (subscriptions : Z) (m : Metrics)
    : Metrics :=
  with_active_subscriptions (alter (λ v, decrement v subscriptions) (protocol_index p))
    (with_active_connections (alter (λ v, decrement v 1) (protocol_index p)) m).

Definition record_subscription_added (p : DeliveryProtocol) : Metrics → Metrics :=
  with_active_subscriptions (alter (λ v, wrap64 (v + 1)) (protocol_index p)).
Definition record_subscription_removed (p : DeliveryProtocol) : Metrics → Metrics :=
  with_active_subscriptions (alter (λ v, decrement v 1) (protocol_index p)).

Definition record_slow_disconnect : Metrics → Metrics := fetch_add c_slow_consumer_disconnects 1.
Definition record_security_limit_rejection : Metrics → Metrics :=
  fetch_add c_security_limit_rejections 1.
Definition record_webhook_attempt : Metrics → Metrics := fetch_add c_webhook_attempts 1.
Definition record_webhook_success : Metrics → Metrics := fetch_add c_webhook_successes 1.
Definition record_webhook_failure : Metrics → Metrics := fetch_add c_webhook_failures 1.
Definition record_webhook_durable_command : Metrics → Metrics :=
  fetch_add c_webhook_durable_commands 1.
Definition record_webhook_retry_scheduled : Metrics → Metrics :=
  fetch_add c_webhook_retries_scheduled 1.
Definition record_webhook_recovery_replay : Metrics → Metrics :=
  fetch_add c_webhook_recovery_replays 1.
Definition record_webhook_dead_letter : Metrics → Metrics := fetch_add c_webhook_dead_letters 1.

Definition record_publish_attempt (p : PublishProtocol) : Metrics → Metrics :=
  fetch_add match p with
            | PublishHttp => c_http_publish_attempts | PublishGrpc => c_grpc_publish_attempts
            end 1.
Definition record_publish_acknowledged (p : PublishProtocol) : Metrics → Metrics :=
  fetch_add match p with
            | PublishHttp => c_http_publish_acknowledged
            | PublishGrpc => c_grpc_publish_acknowledged
            end 1.
Definition record_publish_failure (p : PublishProtocol) : Metrics → Metrics :=
  fetch_add match p with
            | PublishHttp => c_http_publish_failures | PublishGrpc => c_grpc_publish_failures
            end 1.

(** [Metrics::snapshot]: every atomic is loaded. *)
Definition Metrics_snapshot (m : Metrics) : Metrics := {|
  m_counters := list_to_map ((λ c, (c, load m c)) <$> all_counters);
  m_active_connections := m_active_connections m;
  m_active_subscriptions := m_active_subscriptions m;
  m_latency := m_latency m;
|}.

(** ** Prometheus text exposition *)

(** The lines [render_prometheus] writes: a [# TYPE] comment or a sample. *)
Inductive Line : Type :=
| TypeLine (name kind : string)
| Sample (series : string) (value : string).

Definition dq : string := String (ascii_of_nat 34) "".
Definition newline : string := String (ascii_of_nat 10) "".

Definition render_line (l : Line) : string :=
  match l with
  | TypeLine name kind => "# TYPE " +:+ name +:+ " " +:+ kind +:+ newline
  | Sample series value => series +:+ " " +:+ value +:+ newline
  end.

Definition labelled (name label value : string) : string :=
  name +:+ "{" +:+ label +:+ "=" +:+ dq +:+ value +:+ dq +:+ "}".

Definition PROTOCOLS : list string := ["websocket"; "sse"; "grpc"; "http_webhook"].

(** The running total [cumulative] of the bucket loop. *)
Fixpoint cumulate (acc : Z) (buckets : list Z) : list Z :=
  match buckets with
  | [] => []
  | b :: rest => let c := sat_add u64_max acc b in c :: cumulate c rest
  end.

(** Cumulative bucket values, in the order of [LATENCY_BUCKETS]. *)
Definition cumulative_buckets (h : Histogram) : list Z := cumulate 0 (h_buckets h).

(** [{:06}]: decimal digits, zero padded to six. *)
Definition pad6 (z : Z) : string :=
  let s := pretty z in
  String.concat "" (replicate (6 - String.length s) "0") +:+ s.

Definition histogram_lines (stage : LatencyStage) (h : Histogram) : list Line :=
  let name := "router_operation_latency_seconds" in
  let bucket le := name +:+ "_bucket{stage=" +:+ dq +:+ LatencyStage_label stage +:+ dq +:+
                   ",le=" +:+ dq +:+ le +:+ dq +:+ "}" in
  zip_with (λ (b : Z * string) c, Sample (bucket b.2) (pretty c))
    LATENCY_BUCKETS (cumulative_buckets h)
  ++ [ Sample (bucket "+Inf") (pretty (h_count h));
       Sample (labelled (name +:+ "_sum") "stage" (LatencyStage_label stage))
         (pretty (h_sum_micros h / 1_000_000) +:+ "." +:+ pad6 (h_sum_micros h mod 1_000_000));
       Sample (labelled (name +:+ "_count") "stage" (LatencyStage_label stage))
         (pretty (h_count h)) ].

Definition total (m : Metrics) (name : string) (c : Counter) : list Line :=
  [TypeLine name "counter"; Sample name (pretty (load m c))].

Definition family (m : Metrics) (name label : string) (samples : list (string * Counter))
    : list Line :=
  TypeLine name "counter" ::
  ((λ '(value, c), Sample (labelled name label value) (pretty (load m c))) <$> samples).

(** [render_prometheus], as the list of its lines. *)
Definition prometheus_lines (m : Metrics) (active_connections subscriptions : Z) : list Line :=
  total m "router_kafka_messages_total" c_kafka_messages ++
  total m "router_kafka_bytes_total" c_kafka_bytes ++
  total m "router_kafka_commit_errors_total" c_kafka_commit_errors ++
  family m "router_kafka_rebalances_total" "event"
    [("assignment", c_kafka_rebalance_assignments);
     ("revocation", c_kafka_rebalance_revocations); ("error", c_kafka_rebalance_errors)] ++
  total m "router_messages_valid_total" c_valid_messages ++
  total m "router_messages_invalid_total" c_invalid_messages ++
  total m "router_messages_unmatched_total" c_unmatched_messages ++
  total m "router_matched_subscriptions_total" c_matched_subscriptions ++
  total m "router_delivered_connections_total" c_delivered_connections ++
  total m "router_full_connections_total" c_full_connections ++
  total m "router_closed_connections_total" c_closed_connections ++
  total m "router_slow_consumer_disconnects_total" c_slow_consumer_disconnects ++
  total m "router_security_limit_rejections_total" c_security_limit_rejections ++
  [TypeLine "router_connections" "gauge";
   Sample "router_connections" (pretty active_connections);
   TypeLine "router_subscriptions" "gauge";
   Sample "router_subscriptions" (pretty subscriptions)] ++
  family m "router_protocol_connections_opened_total" "protocol"
    [("websocket", c_websocket_opened); ("sse", c_sse_opened); ("grpc", c_grpc_opened);
     ("http_webhook", c_webhook_opened)] ++
  total m "router_webhook_attempts_total" c_webhook_attempts ++
  total m "router_webhook_successes_total" c_webhook_successes ++
  total m "router_webhook_failures_total" c_webhook_failures ++
  total m "router_webhook_durable_commands_total" c_webhook_durable_commands ++
  total m "router_webhook_retries_scheduled_total" c_webhook_retries_scheduled ++
  total m "router_webhook_recovery_replays_total" c_webhook_recovery_replays ++
  total m "router_webhook_dead_letters_total" c_webhook_dead_letters ++
  family m "router_publish_attempts_total" "protocol"
    [("http", c_http_publish_attempts); ("grpc", c_grpc_publish_attempts)] ++
  family m "router_publish_acknowledged_total" "protocol"
    [("http", c_http_publish_acknowledged); ("grpc", c_grpc_publish_acknowledged)] ++
  family m "router_publish_failures_total" "protocol"
    [("http", c_http_publish_failures); ("grpc", c_grpc_publish_failures)] ++
  [TypeLine "router_kafka_assigned_partitions" "gauge";
   Sample "router_kafka_assigned_partitions" (pretty (load m c_kafka_assigned_partitions));
   TypeLine "router_kafka_lag_messages" "gauge";
   Sample "router_kafka_lag_messages" (pretty (load m c_kafka_lag_messages));
   TypeLine "router_active_connections" "gauge";
   TypeLine "router_active_subscriptions" "gauge"] ++
  concat (imap (λ index protocol,
    [Sample (labelled "router_active_connections" "protocol" protocol)
       (pretty (nth index (m_active_connections m) 0));
     Sample (labelled "router_active_subscriptions" "protocol" protocol)
       (pretty (nth index (m_active_subscriptions m) 0))]) PROTOCOLS) ++
  [TypeLine "router_operation_latency_seconds" "histogram"] ++
  concat ((λ stage, histogram_lines stage
     (nth (LatencyStage_index stage) (m_latency m) Histogram_default)) <$> LatencyStage_ALL).

Definition render_prometheus (m : Metrics) (active_connections subscriptions : Z) : string :=
  String.concat "" (render_line <$> prometheus_lines m active_connections subscriptions).

(** ** Loads and stores *)

Lemma load_fetch_add c n c' m :
  load (fetch_add c n m) c' = if decide (c = c') then wrap64 (load m c + n) else load m c'.
Proof.
  unfold fetch_add, with_counters, load. simpl. rewrite lookup_insert. by case_decide.
Qed.

Lemma fetch_add_comm c n d k m :
  fetch_add c n (fetch_add d k m) = fetch_add d k (fetch_add c n m).
Proof.
  unfold fetch_add at 1 3. unfold with_counters. f_equal; [|done..].
  rewrite !load_fetch_add. unfold fetch_add, with_counters; simpl.
  destruct (decide (c = d)) as [->|Hne].
  - rewrite decide_True by done. rewrite !insert_insert_eq, !wrap64_add_l. do 2 f_equal. lia.
  - rewrite !decide_False by congruence. by rewrite insert_insert_ne by done.
Qed.

(** ** Histograms *)

(** How many of the observed durations satisfy [p]. *)
Definition tally (p : Z → bool) (ds : list Z) : Z := sumZ (λ d, if p d then 1 else 0) ds.

Definition in_bucket (i : nat) (d : Z) : bool := bool_decide (bucket_of d = Some i).
Definition below_bucket (i : nat) (d : Z) : bool :=
  match bucket_of d with Some j => (j <? i)%nat | None => false end.

Section histogram.
Implicit Types (ds : list Z) (h : Histogram) (p : Z → bool).

Lemma tally_snoc p ds d : tally p (ds ++ [d]) = tally p ds + if p d then 1 else 0.
Proof. unfold tally. rewrite sumZ_app. unfold sumZ at 2; simpl. lia. Qed.

Lemma tally_bound p ds : 0 ≤ tally p ds ≤ Z.of_nat (length ds).
Proof.
  unfold tally, sumZ. induction ds as [|d ds IH]; simpl; [done|]. destruct (p d); lia.
Qed.

Lemma tally_ext p q ds : (∀ d, p d = q d) → tally p ds = tally q ds.
Proof. intros H. unfold tally, sumZ. induction ds as [|d ds IH]; simpl; [done|]. by rewrite IH, H. Qed.

(** [observe] applied to a sequence of durations. *)
Definition observe_all ds : Histogram :=
  foldl (λ h d, Histogram_observe d h) Histogram_default ds.

Lemma observe_all_snoc ds d : observe_all (ds ++ [d]) = Histogram_observe d (observe_all ds).
Proof. unfold observe_all. by rewrite foldl_app. Qed.

Lemma observe_all_exact ds :
  Z.of_nat (length ds) < 2 ^ 64 →
  h_count (observe_all ds) = Z.of_nat (length ds) ∧
  length (h_buckets (observe_all ds)) = length LATENCY_BUCKETS ∧
  ∀ i, (i < length LATENCY_BUCKETS)%nat →
    h_buckets (observe_all ds) !! i = Some (tally (in_bucket i) ds).
Proof.
  induction ds as [|d ds IH] using rev_ind; intros Hlen.
  - split_and!; [done..|]. intros i Hi. by apply (lookup_replicate_2 (length LATENCY_BUCKETS)).
  - rewrite length_app in Hlen. simpl in Hlen. destruct IH as (Hc & Hl & Hb); [lia|].
    rewrite observe_all_snoc. unfold Histogram_observe; simpl. split_and!.
    + rewrite Hc, length_app, wrap64_small; simpl; lia.
    + destruct (bucket_of d); [by rewrite length_alter|done].
    + intros i Hi. rewrite tally_snoc. pose proof (tally_bound (in_bucket i) ds).
      unfold in_bucket at 2. destruct (bucket_of d) as [j|] eqn:E.
      * destruct (decide (j = i)) as [->|Hne].
        -- rewrite list_lookup_alter_eq, Hb, bool_decide_true by done. simpl.
           by rewrite wrap64_small by lia.
        -- rewrite list_lookup_alter_ne, Hb, bool_decide_false by (done || congruence).
           by rewrite Z.add_0_r.
      * rewrite Hb, bool_decide_false by done. by rewrite Z.add_0_r.
Qed.

(** The running totals are the prefix sums as long as nothing saturates. *)
Lemma lookup_cumulate acc bs i :
  Forall (λ b, 0 ≤ b) bs → acc + sumZ id bs ≤ u64_max → (i < length bs)%nat →
  cumulate acc bs !! i = Some (acc + sumZ id (take (S i) bs)).
Proof.
  revert acc i. induction bs as [|b bs IH]; intros acc i Hbs Hsum Hi; simpl in *; [lia|].
  inversion Hbs as [|?? Hb Hbs']; subst.
  change (sumZ id (b :: bs)) with (b + sumZ id bs) in Hsum.
  assert (0 ≤ sumZ id bs) as Hnn.
  { clear -Hbs'. induction Hbs'; unfold sumZ, id in *; simpl in *; lia. }
  rewrite sat_add_exact by lia. destruct i as [|i].
  - unfold sumZ; simpl. f_equal. unfold id. lia.
  - simpl. rewrite IH by (try lia; done). f_equal. unfold sumZ; simpl. unfold id. lia.
Qed.

Lemma below_bucket_S i ds :
  tally (below_bucket (S i)) ds = tally (below_bucket i) ds + tally (in_bucket i) ds.
Proof.
  unfold tally, sumZ, below_bucket, in_bucket. induction ds as [|d ds IH]; simpl; [done|].
  rewrite IH. destruct (bucket_of d) as [j|]; [|rewrite bool_decide_false by done; lia].
  destruct (Nat.ltb_spec j (S i)), (Nat.ltb_spec j i), (decide (j = i)) as [->|Hne];
    rewrite ?bool_decide_true, ?bool_decide_false by congruence; lia.
Qed.

Lemma sum_take_buckets ds i :
  Z.of_nat (length ds) < 2 ^ 64 → (i ≤ length LATENCY_BUCKETS)%nat →
  sumZ id (take i (h_buckets (observe_all ds))) = tally (below_bucket i) ds.
Proof.
  intros Hds. destruct (observe_all_exact ds Hds) as (_ & Hl & Hb).
  induction i as [|i IH]; intros Hi.
  - unfold tally, sumZ, below_bucket. simpl. induction ds as [|d ds IHds] using rev_ind; [done|].
    clear. induction (ds ++ [d]) as [|x l IH]; simpl; [done|].
    destruct (bucket_of x); simpl; [|lia]. destruct (Nat.ltb_spec n 0); lia.
  - rewrite (take_S_r _ _ _ (Hb i ltac:(lia))), sumZ_app, IH, below_bucket_S by lia.
    unfold sumZ at 1; simpl. unfold id. lia.
Qed.
End histogram.

(** The bounds are increasing, so a duration is in one of the first buckets
    exactly when it does not exceed the last of their bounds. *)
Lemma bounds_increasing i j b c :
  (j ≤ i)%nat → LATENCY_BUCKETS !! i = Some b → LATENCY_BUCKETS !! j = Some c → c.1 ≤ b.1.
Proof.
  intros Hij Hi Hj.
  assert (forallb (λ i, forallb (λ j, negb (j <=? i)%nat ||
    ((nth j LATENCY_BUCKETS (0, "")).1 <=? (nth i LATENCY_BUCKETS (0, "")).1))
    (seq 0 14)) (seq 0 14) = true) as Hall by (vm_compute; reflexivity).
  rewrite forallb_forall in Hall.
  pose proof (lookup_lt_Some _ _ _ Hi) as Hli. pose proof (lookup_lt_Some _ _ _ Hj) as Hlj.
  specialize (Hall i). rewrite in_seq, forallb_forall in Hall.
  specialize (Hall ltac:(simpl in Hli; lia) j). rewrite in_seq in Hall.
  specialize (Hall ltac:(simpl in Hlj; lia)).
  rewrite (nth_lookup_Some _ _ _ _ Hi), (nth_lookup_Some _ _ _ _ Hj) in Hall.
  destruct (Nat.leb_spec j i); simpl in Hall; lia.
Qed.

Lemma below_bucket_le i b d :
  LATENCY_BUCKETS !! i = Some b → below_bucket (S i) d = (d <=? b.1).
Proof.
  intros Hi. unfold below_bucket, bucket_of.
  destruct (list_find _ LATENCY_BUCKETS) as [[j c]|] eqn:E; simpl.
  - apply list_find_Some in E as (Hj & Hle & Hmin).
    destruct (Nat.ltb_spec j (S i)) as [Hlt|Hge].
    + pose proof (bounds_increasing i j b c ltac:(lia) Hi Hj). symmetry. apply Z.leb_le. lia.
    + symmetry. apply Z.leb_gt. specialize (Hmin i b Hi ltac:(lia)). lia.
  - apply list_find_None in E. rewrite Forall_forall in E. symmetry. apply Z.leb_gt.
    specialize (E b (list_elem_of_lookup_2 _ _ _ Hi)). simpl in E. lia.
Qed.

(** A latency histogram means what Prometheus reads in it: after any
    sequence of fewer than 2^64 observations, the cumulative value rendered
    for a bucket is the number of observations that do not exceed its bound,
    and [count] is the number of all of them. *)
Lemma histogram_buckets_are_cumulative_counts (ds : list Z) (i : nat) (b : Z * string)
    (Hlen : Z.of_nat (length ds) < 2 ^ 64) (Hi : LATENCY_BUCKETS !! i = Some b) :
  h_count (observe_all ds) = Z.of_nat (length ds) ∧
  cumulative_buckets (observe_all ds) !! i = Some (tally (λ d, d <=? b.1) ds).
Proof.
  destruct (observe_all_exact ds Hlen) as (Hc & Hl & Hb). split; [done|].
  pose proof (lookup_lt_Some _ _ _ Hi) as Hlt. unfold cumulative_buckets.
  rewrite lookup_cumulate.
  - rewrite sum_take_buckets by lia. rewrite Z.add_0_l. f_equal. apply tally_ext.
    intros d. by apply below_bucket_le.
  - apply Forall_lookup. intros j x Hj.
    rewrite Hb in Hj by (rewrite <-Hl; by eapply lookup_lt_Some). simplify_eq.
    apply tally_bound.
  - rewrite <-(take_ge _ (length LATENCY_BUCKETS)) by lia. rewrite sum_take_buckets by lia.
    pose proof (tally_bound (below_bucket (length LATENCY_BUCKETS)) ds). unfold u64_max. lia.
  - lia.
Qed.

