(* ===== verification/RouteIndex.v ===== *)
(** * The subscription index

    The [routes] map of router-core's [router.rs]: [RouteKey -> Bucket] with
    [Bucket = HashMap<ConnectionId, SmallVec<SubscriptionId>>].  The file
    models the two operations that change it, the insertion at the end of
    [Router::subscribe] and [Router::remove_from_route], and the lookup loop
    of [Router::dispatch].  An index without empty buckets or empty id lists
    is determined by its id lists ([tidy_ext]), which is how the rest of the
    development compares indexes. *)

From S2P Require Import Prelude Str Ids Message Route.
Open Scope Z_scope.

Abbreviation Bucket := (gmap ConnectionId (list SubscriptionId)).
Abbreviation Routes := (gmap RouteKey Bucket).

(** [self.routes.entry(route_key).or_default().entry(connection_id)
    .or_default().push(subscription_id)]. *)
Definition index_push (key : RouteKey) (c : ConnectionId) (sid : SubscriptionId)
    (routes : Routes) : Routes :=
  let bucket := default ∅ (routes !! key) in
  let sids := default [] (bucket !! c) in
  <[key := <[c := sids ++ [sid]]> bucket]> routes.

(** [Router::remove_from_route]. *)
Definition remove_from_route (c : ConnectionId) (sid : SubscriptionId) (f : RouteFilter)
    (routes : Routes) : Routes :=
  let key := RouteKey_from f in
  let routes :=
    match routes !! key with
    | Some bucket =>
      match bucket !! c with
      | Some sids =>
        let sids := filter (λ candidate, candidate ≠ sid) sids in
        <[key := if decide (sids = []) then delete c bucket else <[c := sids]> bucket]> routes
      | None => routes
      end
    | None => routes
    end in
  match routes !! key with
  | Some bucket => if decide (bucket = ∅) then delete key routes else routes
  | None => routes
  end.

(** [if !entry.contains(id) { entry.push(id) }] over the ids of a bucket. *)
Definition push_new (entry : list SubscriptionId) (sid : SubscriptionId) : list SubscriptionId :=
  if decide (sid ∈ entry) then entry else entry ++ [sid].

(** The loop over one bucket: every connection's entry is extended. *)
Definition add_bucket (bucket : Bucket) (matches : Bucket) : Bucket :=
  map_fold (λ c sids acc, <[c := foldl push_new (default [] (acc !! c)) sids]> acc)
    matches bucket.

(** The matching phase of [Router::dispatch]. *)
Definition collect_matches (routes : Routes) (candidates : list RouteKey) : Bucket :=
  foldl (λ matches key,
    match routes !! key with
    | Some bucket => add_bucket bucket matches
    | None => matches
    end) ∅ candidates.

(** ** The id list under a key and a connection *)

Definition ids (routes : Routes) (key : RouteKey) (c : ConnectionId) : list SubscriptionId :=
  default [] (routes !! key ≫= λ bucket, bucket !! c).

(** No empty bucket and no empty id list. *)
Definition tidy (routes : Routes) : Prop :=
  ∀ key bucket, routes !! key = Some bucket →
    bucket ≠ ∅ ∧ ∀ c sids, bucket !! c = Some sids → sids ≠ [].

Section index.
Implicit Types (routes r : Routes) (key : RouteKey) (bucket : Bucket).
Implicit Types (c : ConnectionId) (sid : SubscriptionId).

Lemma tidy_empty : tidy ∅.
Proof. intros key bucket H. by rewrite lookup_empty in H. Qed.

Lemma ids_empty key c : ids ∅ key c = [].
Proof. unfold ids. by rewrite lookup_empty. Qed.

Lemma ids_insert routes key bucket key' c :
  ids (<[key := bucket]> routes) key' c =
  if decide (key = key') then default [] (bucket !! c) else ids routes key' c.
Proof. unfold ids. rewrite lookup_insert. by case_decide. Qed.

Lemma ids_delete routes key key' c :
  ids (delete key routes) key' c = if decide (key = key') then [] else ids routes key' c.
Proof. unfold ids. rewrite lookup_delete. by case_decide. Qed.

Lemma ids_lookup routes key bucket c :
  routes !! key = Some bucket → ids routes key c = default [] (bucket !! c).
Proof. unfold ids. by intros ->. Qed.

Lemma ids_lookup_None routes key c : routes !! key = None → ids routes key c = [].
Proof. unfold ids. by intros ->. Qed.

(** A connection has ids under a key exactly when the bucket lists it. *)
Lemma tidy_lookup routes key c l :
  tidy routes → l ≠ [] →
  ids routes key c = l ↔ ∃ bucket, routes !! key = Some bucket ∧ bucket !! c = Some l.
Proof.
  intros Ht Hl. unfold ids. split.
  - destruct (routes !! key) as [bucket|]; simpl; [|naive_solver].
    destruct (bucket !! c) eqn:E; simpl; naive_solver.
  - by intros (bucket & -> & Hb); simpl; rewrite Hb.
Qed.

(** Tidy indexes with the same id lists are equal. *)
Lemma tidy_ext r1 r2 :
  tidy r1 → tidy r2 → (∀ key c, ids r1 key c = ids r2 key c) → r1 = r2.
Proof.
  intros Ht1 Ht2 Hids.
  assert (∀ r r' key bucket, tidy r → tidy r' → (∀ key c, ids r key c = ids r' key c) →
    r !! key = Some bucket → r' !! key = Some bucket) as Hone.
  { clear. intros r r' key bucket Ht Ht' Hids Hk. destruct (Ht _ _ Hk) as [Hne Hl].
    assert (∀ c l, l ≠ [] → bucket !! c = Some l ↔ ids r' key c = l) as Hb.
    { intros c l Hln. rewrite <-Hids, tidy_lookup by done. naive_solver. }
    destruct (map_choose bucket Hne) as (c & l & Hc).
    pose proof Hc as Hc'. apply Hb in Hc'; [|by eapply Hl].
    apply tidy_lookup in Hc' as (bucket' & Hk' & _); [|done|by eapply Hl].
    rewrite Hk'. f_equal. destruct (Ht' _ _ Hk') as [_ Hl'].
    apply map_eq. intros c'. apply option_eq. intros l'. split.
    - intros H'. apply Hb; [by eapply Hl'|]. unfold ids. by rewrite Hk'; simpl; rewrite H'.
    - intros H'. apply Hb in H' as H''; [|by eapply Hl].
      apply tidy_lookup in H'' as (b'' & Hk'' & Hc''); [|done|by eapply Hl]. congruence. }
  apply map_eq. intros key. apply option_eq. intros bucket. split; eauto.
Qed.

(** *** Insertion *)

Lemma ids_push routes key c sid key' c' :
  ids (index_push key c sid routes) key' c' =
  ids routes key' c' ++ if decide (key = key' ∧ c = c') then [sid] else [].
Proof.
  unfold index_push. rewrite ids_insert. case_decide as Hk; subst.
  - rewrite lookup_insert. unfold ids. destruct (routes !! key') as [bucket|]; simpl.
    + destruct (decide (c = c')) as [->|Hne].
      * by rewrite decide_True by done.
      * by rewrite decide_False, app_nil_r by naive_solver.
    + rewrite lookup_empty. destruct (decide (c = c')) as [->|Hne]; simpl.
      * by rewrite decide_True by done.
      * by rewrite lookup_empty, decide_False by naive_solver.
  - by rewrite decide_False, app_nil_r by naive_solver.
Qed.

Lemma tidy_push routes key c sid : tidy routes → tidy (index_push key c sid routes).
Proof.
  intros Ht key' bucket'. unfold index_push. rewrite lookup_insert. case_decide as Hk.
  - intros ?; simplify_eq. split; [apply insert_non_empty|].
    intros c' sids. rewrite lookup_insert. case_decide.
    + intros [= <-]. by intros [_ ?]%app_nil.
    + destruct (routes !! key') as [bucket|] eqn:E; simpl; [|by rewrite lookup_empty].
      apply Ht in E as [_ HE]. apply HE.
  - apply Ht.
Qed.

(** *** Removal *)

Lemma ids_remove routes c sid f key' c' :
  tidy routes →
  ids (remove_from_route c sid f routes) key' c' =
  if decide (RouteKey_from f = key' ∧ c = c')
  then filter (λ x, x ≠ sid) (ids routes key' c') else ids routes key' c'.
Proof.
  intros Ht. unfold remove_from_route. set (key := RouteKey_from f).
  destruct (routes !! key) as [bucket|] eqn:Hk.
  2: { rewrite Hk. case_decide as Hd; [|done]. destruct Hd as [<- <-].
       by rewrite (ids_lookup_None _ _ _ Hk). }
  destruct (Ht _ _ Hk) as [Hne Hl]. destruct (bucket !! c) as [sids|] eqn:Hc.
  2: { rewrite Hk, decide_False by done. case_decide as Hd; [|done]. destruct Hd as [<- <-].
       by rewrite (ids_lookup _ _ _ _ Hk), Hc. }
  rewrite lookup_insert_eq. set (rest := filter (λ x, x ≠ sid) sids).
  set (bucket' := if decide (rest = []) then delete c bucket else <[c:=rest]> bucket).
  assert (∀ c', default [] (bucket' !! c') =
    if decide (c = c') then rest else default [] (bucket !! c')) as Hb'.
  { intros c''. subst bucket'. case_decide as Hr.
    - rewrite lookup_delete. case_decide; [by rewrite Hr|done].
    - rewrite lookup_insert. by case_decide. }
  assert (ids (if decide (bucket' = ∅) then delete key (<[key:=bucket']> routes)
               else <[key:=bucket']> routes) key' c' =
          if decide (key = key') then default [] (bucket' !! c') else ids routes key' c') as ->.
  { case_decide as He.
    - rewrite ids_delete, ids_insert. case_decide; [|done].
      by rewrite He, lookup_empty.
    - by rewrite ids_insert. }
  destruct (decide (key = key')) as [<-|Hkey].
  - rewrite Hb', (ids_lookup _ _ _ _ Hk). destruct (decide (c = c')) as [<-|Hcc].
    + rewrite decide_True by done. by rewrite Hc.
    + by rewrite decide_False by naive_solver.
  - by rewrite decide_False by naive_solver.
Qed.

Lemma tidy_remove routes c sid f : tidy routes → tidy (remove_from_route c sid f routes).
Proof.
  intros Ht. unfold remove_from_route. set (key := RouteKey_from f).
  destruct (routes !! key) as [bucket|] eqn:Hk; [|by rewrite Hk].
  destruct (Ht _ _ Hk) as [Hne Hl].
  destruct (bucket !! c) as [sids|] eqn:Hc; [|by rewrite Hk, decide_False].
  rewrite lookup_insert_eq. set (rest := filter (λ x, x ≠ sid) sids).
  set (bucket' := if decide (rest = []) then delete c bucket else <[c:=rest]> bucket).
  assert (∀ c' l, bucket' !! c' = Some l → l ≠ []) as Hl'.
  { intros c' l. subst bucket'. destruct (decide (rest = [])) as [Hr|Hr].
    - rewrite lookup_delete. case_decide; [done|apply Hl].
    - rewrite lookup_insert. case_decide; [congruence|apply Hl]. }
  case_decide as He.
  - intros k b. rewrite lookup_delete. case_decide; [done|].
    rewrite lookup_insert_ne by done. apply Ht.
  - intros k b. rewrite lookup_insert. case_decide; [|apply Ht].
    intros [= <-]. done.
Qed.

(** *** The lookup loop *)

Lemma push_new_fold entry sids :
  NoDup (entry ++ sids) → foldl push_new entry sids = entry ++ sids.
Proof.
  revert entry. induction sids as [|sid sids IH]; simpl; intros entry Hnd.
  { by rewrite app_nil_r. }
  unfold push_new at 2. rewrite decide_False.
  - rewrite IH; by rewrite <-(assoc_L (++)).
  - intros Hin. apply NoDup_app in Hnd as (_ & Hd & _). apply (Hd sid Hin). left.
Qed.

(** One bucket extends the entry of each of its connections. *)
Lemma add_bucket_lookup bucket matches c :
  add_bucket bucket matches !! c =
  match bucket !! c with
  | Some sids => Some (foldl push_new (default [] (matches !! c)) sids)
  | None => matches !! c
  end.
Proof.
  unfold add_bucket. revert c.
  apply (map_fold_weak_ind (λ acc b, ∀ c, acc !! c =
    match b !! c with
    | Some sids => Some (foldl push_new (default [] (matches !! c)) sids)
    | None => matches !! c
    end)); [intros c; by rewrite lookup_empty|].
  intros c0 sids b acc Hc0 IH c. rewrite !lookup_insert. case_decide as Hc; [|apply IH].
  subst c. by rewrite IH, Hc0.
Qed.

(** All ids of a connection under a list of keys, in the order of the keys. *)
Definition ids_under (routes : Routes) (keys : list RouteKey) (c : ConnectionId)
    : list SubscriptionId := keys ≫= λ key, ids routes key c.

Lemma collect_matches_lookup routes keys c :
  tidy routes → NoDup (ids_under routes keys c) →
  collect_matches routes keys !! c =
  if decide (ids_under routes keys c = []) then None else Some (ids_under routes keys c).
Proof.
  intros Ht. unfold collect_matches, ids_under.
  induction keys as [|key keys IH] using rev_ind; [done|].
  rewrite bind_app, foldl_app. simpl. rewrite app_nil_r. intros Hnd.
  specialize (IH (proj1 (proj1 (NoDup_app _ _) Hnd))).
  set (before := keys ≫= λ key, ids routes key c) in *.
  set (acc := foldl _ ∅ keys) in *.
  assert (default [] (acc !! c) = before) as Hacc by (rewrite IH; by case_decide).
  destruct (routes !! key) as [bucket|] eqn:Hk.
  - rewrite add_bucket_lookup, Hacc. rewrite (ids_lookup _ _ _ _ Hk) in *.
    destruct (bucket !! c) as [sids|] eqn:Hc; simpl in *.
    + destruct (Ht _ _ Hk) as [_ Hl]. rewrite push_new_fold by done.
      rewrite decide_False; [done|]. intros [_ ?]%app_nil. by eapply Hl.
    + by rewrite app_nil_r.
  - rewrite (ids_lookup_None _ _ _ Hk), app_nil_r. done.
Qed.
End index.
