(* ===== verification/Channel.v ===== *)
(** * Bounded channels

    The interface of tokio's bounded [mpsc] channel that the routing engine
    and the transport tasks rely on.  The channel itself is library code: the
    router is parametric in an implementation, and its theorems assume only
    the documented behaviour collected in [MpscLaws].  [Fifo] is the textbook
    implementation that shows the laws can hold; examples run on it. *)

From S2P Require Import Prelude.
Open Scope Z_scope.

(** The outcome of [Sender::try_send]. *)
Inductive SendResult : Type := Sent | Full | Closed.

#[export] Instance SendResult_eq_dec : EqDecision SendResult.
Proof. solve_decision. Defined.

(** The outcome of polling [Receiver::recv] once. *)
Inductive RecvResult (A : Type) : Type :=
| Received (a : A)
| Pending
| Disconnected.
Arguments Received {A} a.
Arguments Pending {A}.
Arguments Disconnected {A}.

(** Operations on the shared channel state [Chan] carrying items of type [A],
    and the observations the laws are stated with. *)
Class Mpsc (A Chan : Type) := {
  channel : Z → Chan;
  try_send : A → Chan → Chan * SendResult;
  recv : Chan → Chan * RecvResult A;
  drop_sender : Chan → Chan;
  drop_receiver : Chan → Chan;
  capacity : Chan → Z;
  queued : Chan → list A;
  rx_open : Chan → bool;
  tx_open : Chan → bool;
}.

(** The documented behaviour. *)
Class MpscLaws (A Chan : Type) `{Mpsc A Chan} := {
  channel_capacity n : 0 < n → capacity (channel n) = n;
  channel_queued n : 0 < n → queued (channel n) = [];
  channel_open n : 0 < n → rx_open (channel n) = true ∧ tx_open (channel n) = true;
  (** A send to a live receiver with room appends. *)
  try_send_room a ch ch' res :
    rx_open ch = true → Z.of_nat (length (queued ch)) < capacity ch →
    try_send a ch = (ch', res) →
    res = Sent ∧ queued ch' = queued ch ++ [a] ∧ capacity ch' = capacity ch ∧
    rx_open ch' = true ∧ tx_open ch' = tx_open ch;
  (** A send to a live receiver without room changes nothing. *)
  try_send_full a ch :
    rx_open ch = true → capacity ch ≤ Z.of_nat (length (queued ch)) →
    try_send a ch = (ch, Full);
  (** A send to a dropped receiver changes nothing. *)
  try_send_closed a ch : rx_open ch = false → try_send a ch = (ch, Closed);
  recv_item a rest ch :
    queued ch = a :: rest →
    (recv ch).2 = Received a ∧ queued (recv ch).1 = rest ∧
    capacity (recv ch).1 = capacity ch ∧ rx_open (recv ch).1 = rx_open ch ∧
    tx_open (recv ch).1 = tx_open ch;
  recv_empty ch :
    queued ch = [] → recv ch = (ch, if tx_open ch then Pending else Disconnected);
  drop_sender_obs ch :
    tx_open (drop_sender ch) = false ∧ queued (drop_sender ch) = queued ch ∧
    capacity (drop_sender ch) = capacity ch ∧ rx_open (drop_sender ch) = rx_open ch;
  drop_receiver_obs ch :
    rx_open (drop_receiver ch) = false ∧ capacity (drop_receiver ch) = capacity ch ∧
    queued (drop_receiver ch) = [];
}.

Section mpsc.
Context `{MpscLaws A Chan}.
Implicit Types (a : A) (ch : Chan).

(** Every outcome of a send, by the state it found. *)
Lemma try_send_cases a ch ch' res :
  try_send a ch = (ch', res) →
  (res = Sent ∧ rx_open ch = true ∧ Z.of_nat (length (queued ch)) < capacity ch ∧
     queued ch' = queued ch ++ [a] ∧ capacity ch' = capacity ch) ∨
  (res = Full ∧ rx_open ch = true ∧ capacity ch ≤ Z.of_nat (length (queued ch)) ∧ ch' = ch) ∨
  (res = Closed ∧ rx_open ch = false ∧ ch' = ch).
Proof.
  intros Hs. destruct (rx_open ch) eqn:Hrx.
  - destruct (Z.lt_ge_cases (Z.of_nat (length (queued ch))) (capacity ch)) as [Hlt|Hge].
    + destruct (try_send_room a ch ch' res) as (-> & -> & -> & _); auto.
      left. by split_and!.
    + rewrite try_send_full in Hs by done. simplify_eq. right; left. by split_and!.
  - rewrite try_send_closed in Hs by done. simplify_eq. right; right. by split_and!.
Qed.

(** A send never exceeds the capacity, never changes it and never loses or
    reorders queued items. *)
Lemma try_send_mono a ch ch' res :
  try_send a ch = (ch', res) →
  capacity ch' = capacity ch ∧ (∃ l, queued ch' = queued ch ++ l ∧ l ⊆ [a]) ∧
  (Z.of_nat (length (queued ch)) ≤ capacity ch →
   Z.of_nat (length (queued ch')) ≤ capacity ch').
Proof.
  intros Hs. destruct (try_send_cases _ _ _ _ Hs)
    as [(-> & _ & Hlt & Hq & Hc)|[(-> & _ & _ & ->)|(-> & _ & ->)]].
  - split; [done|]. split; [by exists [a]|]. rewrite Hq, Hc, length_app. simpl. lia.
  - split_and!; [done| |done]. exists []. rewrite app_nil_r. split; [done|set_solver].
  - split_and!; [done| |done]. exists []. rewrite app_nil_r. split; [done|set_solver].
Qed.
End mpsc.

(** ** A FIFO queue with a capacity *)

Record Fifo (A : Type) : Type := {
  ff_capacity : Z;
  ff_items : list A;
  ff_rx : bool;
  ff_tx : bool;
}.
Arguments ff_capacity {A} f.
Arguments ff_items {A} f.
Arguments ff_rx {A} f.
Arguments ff_tx {A} f.

#[export] Instance Fifo_mpsc (A : Type) : Mpsc A (Fifo A) := {
  channel n := {| ff_capacity := n; ff_items := []; ff_rx := true; ff_tx := true |};
  try_send a ch :=
    if negb (ff_rx ch) then (ch, Closed)
    else if Z.of_nat (length (ff_items ch)) <? ff_capacity ch then
      ({| ff_capacity := ff_capacity ch; ff_items := ff_items ch ++ [a];
          ff_rx := ff_rx ch; ff_tx := ff_tx ch |}, Sent)
    else (ch, Full);
  recv ch :=
    match ff_items ch with
    | a :: rest => ({| ff_capacity := ff_capacity ch; ff_items := rest;
                       ff_rx := ff_rx ch; ff_tx := ff_tx ch |}, Received a)
    | [] => (ch, if ff_tx ch then Pending else Disconnected)
    end;
  drop_sender ch := {| ff_capacity := ff_capacity ch; ff_items := ff_items ch;
                       ff_rx := ff_rx ch; ff_tx := false |};
  drop_receiver ch := {| ff_capacity := ff_capacity ch; ff_items := [];
                         ff_rx := false; ff_tx := ff_tx ch |};
  capacity := ff_capacity;
  queued := ff_items;
  rx_open := ff_rx;
  tx_open := ff_tx;
}.

#[export] Instance Fifo_laws (A : Type) : MpscLaws A (Fifo A).
Proof.
  split; simpl; try done.
  - intros a ch ch' res -> Hlt. simpl. rewrite (proj2 (Z.ltb_lt _ _)) by done.
    by intros [= <- <-].
  - intros a ch -> Hge. simpl. by rewrite (proj2 (Z.ltb_ge _ _)).
  - by intros a ch ->.
  - by intros a rest ch ->.
  - by intros ch ->.
Qed.
