(* ===== verification/Router.v ===== *)
(** * The routing engine

    router-core's [router.rs]: connections with their subscriptions and
    bounded queues, the subscription index, and the matching and fan-out of
    one message.  [RouterState] is the state behind [&self]; the sender of a
    connection and the receiver its transport task holds share one channel,
    kept in [r_channels] under the id of the connection.  An operation takes
    the state and returns the new state with the value the method returns.

    The file states what the operations promise one at a time: the mutation
    lock makes registration, subscription and removal atomic.  The steps of a
    dispatch that run between them are the subject of [Concurrency]. *)

From S2P Require Import Prelude Str Ids Message Route Metrics RouteIndex Channel.
Open Scope Z_scope.

(** ** Data *)

(** The defaults of the settings. *)
Definition default_queue_capacity : Z := 256.
Definition default_max_queue_capacity : Z := 4_096.
Definition default_subscription_limit : Z := 128.
Definition default_connection_limit : Z := 10_000.
Definition default_tenant_connection_limit : Z := 1_000.
Definition default_global_subscription_limit : Z := 100_000.
Definition default_tenant_subscription_limit : Z := 10_000.
Definition default_slow_consumer_strikes : Z := 3.

(** [RouterConfig]. *)
Record RouterConfig : Type := {
  rc_default_queue_capacity : Z;
  rc_max_queue_capacity : Z;
  rc_max_connections : Z;
  rc_max_connections_per_tenant : Z;
  rc_max_subscriptions : Z;
  rc_max_subscriptions_per_tenant : Z;
  rc_max_subscriptions_per_connection : Z;
  rc_slow_consumer_strikes : Z;
}.

(** [RouterConfig::default]. *)
Definition RouterConfig_default : RouterConfig := {|
  rc_default_queue_capacity := default_queue_capacity;
  rc_max_queue_capacity := default_max_queue_capacity;
  rc_max_connections := default_connection_limit;
  rc_max_connections_per_tenant := default_tenant_connection_limit;
  rc_max_subscriptions := default_global_subscription_limit;
  rc_max_subscriptions_per_tenant := default_tenant_subscription_limit;
  rc_max_subscriptions_per_connection := default_subscription_limit;
  rc_slow_consumer_strikes := default_slow_consumer_strikes;
|}.

(** [Delivery]. *)
Record Delivery : Type := {
  d_message : RoutedMessage;
  d_subscription_ids : list SubscriptionId;
}.

(** [ConnectionState]; its sender is the channel stored under the same id. *)
Record ConnectionState : Type := {
  cs_tenant_id : string;
  cs_protocol : DeliveryProtocol;
  cs_subscriptions : gmap SubscriptionId RouteFilter;
  cs_full_strikes : Z;
}.

(** [DispatchReport]. *)
Record DispatchReport : Type := {
  dr_matched_subscriptions : Z;
  dr_delivered_connections : Z;
  dr_full_connections : Z;
  dr_closed_connections : Z;
}.

(** [RouterStatus]. *)
Record RouterStatus : Type := {
  st_active_connections : Z;
  st_subscriptions : Z;
  st_metrics : Metrics;
}.

Abbreviation Connections := (gmap ConnectionId ConnectionState).

(** [Router]. *)
Record RouterState {Chan : Type} : Type := {
  r_config : RouterConfig;
  r_connections : Connections;
  r_routes : Routes;
  r_metrics : Metrics;
  r_channels : gmap ConnectionId Chan;
}.
Arguments RouterState Chan : clear implicits.

(** ** Operations *)

Definition with_subscriptions (f : gmap SubscriptionId RouteFilter → gmap SubscriptionId RouteFilter)
    (conn : ConnectionState) : ConnectionState := {|
  cs_tenant_id := cs_tenant_id conn; cs_protocol := cs_protocol conn;
  cs_subscriptions := f (cs_subscriptions conn); cs_full_strikes := cs_full_strikes conn |}.

Definition with_strikes (n : Z) (conn : ConnectionState) : ConnectionState := {|
  cs_tenant_id := cs_tenant_id conn; cs_protocol := cs_protocol conn;
  cs_subscriptions := cs_subscriptions conn; cs_full_strikes := n |}.

(** [connection.subscriptions.len()]. *)
Definition subscription_count (conn : ConnectionState) : Z :=
  Z.of_nat (size (cs_subscriptions conn)).

(** The number of subscriptions of the connections of one tenant. *)
Definition tenant_subscription_count (tenant : string) (conn : ConnectionState) : Z :=
  if bool_decide (cs_tenant_id conn = tenant) then subscription_count conn else 0.

Section operations.
Context `{Mpsc Delivery Chan}.
Implicit Types (r : RouterState Chan) (c : ConnectionId) (sid : SubscriptionId).

(** [Router::new]. *)
Definition Router_new (config : RouterConfig) : RouterState Chan := {|
  r_config := config; r_connections := ∅; r_routes := ∅;
  r_metrics := Metrics_default; r_channels := ∅ |}.

Definition with_metrics (f : Metrics → Metrics) r : RouterState Chan := {|
  r_config := r_config r; r_connections := r_connections r; r_routes := r_routes r;
  r_metrics := f (r_metrics r); r_channels := r_channels r |}.

(** [Router::register_connection]; [fresh] is the id [ConnectionId::new]
    draws. *)
Definition register_connection (fresh : ConnectionId) (tenant_id : string)
    (protocol : DeliveryProtocol) (queue_capacity : option Z) r
    : RouterState Chan * result CoreError ConnectionId :=
  match validate_identifier "tenant_id" tenant_id 256 with
  | Err e => (r, Err e)
  | Ok _ =>
    let cap := default (rc_default_queue_capacity (r_config r)) queue_capacity in
    if (cap =? 0) || (rc_max_queue_capacity (r_config r) <? cap) then
      (r, Err (InvalidQueueCapacity cap (rc_max_queue_capacity (r_config r))))
    else if (rc_max_connections (r_config r) <=? Z.of_nat (size (r_connections r)))
      || (rc_max_connections_per_tenant (r_config r) <=?
          map_count (λ conn, bool_decide (cs_tenant_id conn = tenant_id)) (r_connections r))
    then (with_metrics record_security_limit_rejection r, Err ConnectionLimitReached)
    else
      ({| r_config := r_config r;
          r_connections := <[fresh := {| cs_tenant_id := tenant_id; cs_protocol := protocol;
                                         cs_subscriptions := ∅; cs_full_strikes := 0 |}]>
                             (r_connections r);
          r_routes := r_routes r;
          r_metrics := record_protocol_opened protocol (r_metrics r);
          r_channels := <[fresh := channel cap]> (r_channels r) |},
       Ok fresh)
  end.

(** [Router::subscribe]. *)
Definition subscribe c sid (f : RouteFilter) r : RouterState Chan * result CoreError unit :=
  match RouteFilter_validate f with
  | Err e => (r, Err e)
  | Ok _ =>
    match r_connections r !! c with
    | None => (r, Err ConnectionNotFound)
    | Some conn =>
      if (rc_max_subscriptions (r_config r) <=? map_sum subscription_count (r_connections r))
        || (rc_max_subscriptions_per_tenant (r_config r) <=?
            map_sum (tenant_subscription_count (cs_tenant_id conn)) (r_connections r))
      then (with_metrics record_security_limit_rejection r, Err GlobalSubscriptionLimitReached)
      else if bool_decide (cs_tenant_id conn ≠ rf_tenant_id f) then (r, Err TenantMismatch)
      else if bool_decide (is_Some (cs_subscriptions conn !! sid)) then
        (r, Err SubscriptionExists)
      else if rc_max_subscriptions_per_connection (r_config r) <=? subscription_count conn then
        (r, Err SubscriptionLimitReached)
      else
        ({| r_config := r_config r;
            r_connections := <[c := with_subscriptions <[sid := f]> conn]> (r_connections r);
            r_routes := index_push (RouteKey_from f) c sid (r_routes r);
            r_metrics := record_subscription_added (cs_protocol conn) (r_metrics r);
            r_channels := r_channels r |},
         Ok tt)
    end
  end.

(** [Router::unsubscribe]. *)
Definition unsubscribe c sid r : RouterState Chan * result CoreError unit :=
  match r_connections r !! c with
  | None => (r, Err ConnectionNotFound)
  | Some conn =>
    match cs_subscriptions conn !! sid with
    | None => (r, Err SubscriptionNotFound)
    | Some f =>
      ({| r_config := r_config r;
          r_connections := <[c := with_subscriptions (delete sid) conn]> (r_connections r);
          r_routes := remove_from_route c sid f (r_routes r);
          r_metrics := record_subscription_removed (cs_protocol conn) (r_metrics r);
          r_channels := r_channels r |},
       Ok tt)
    end
  end.

(** The loop [for (subscription_id, filter) in connection.subscriptions]. *)
Definition purge c (subs : list (SubscriptionId * RouteFilter)) (routes : Routes) : Routes :=
  foldl (λ routes '(sid, f), remove_from_route c sid f routes) routes subs.

(** [Router::unregister_connection]; removing the connection drops its
    sender. *)
Definition unregister_connection c r : RouterState Chan :=
  match r_connections r !! c with
  | None => r
  | Some conn =>
    {| r_config := r_config r;
       r_connections := delete c (r_connections r);
       r_routes := purge c (map_to_list (cs_subscriptions conn)) (r_routes r);
       r_metrics := record_protocol_closed (cs_protocol conn) (subscription_count conn)
                      (r_metrics r);
       r_channels := alter drop_sender c (r_channels r) |}
  end.

(** The state of the fan-out loop. *)
Record FanOut : Type := {
  fo_router : RouterState Chan;
  fo_message : option RoutedMessage;
  fo_delivered : Z;
  fo_full : Z;
  fo_closed : Z;
  fo_disconnect : list ConnectionId;
}.

(** [connection.sender.try_send(delivery)] with the update of the strikes. *)
Definition set_connection c (conn : ConnectionState) (ch : Chan) r : RouterState Chan := {|
  r_config := r_config r; r_connections := <[c := conn]> (r_connections r);
  r_routes := r_routes r; r_metrics := r_metrics r;
  r_channels := <[c := ch]> (r_channels r) |}.

(** [slow_consumer_strikes.max(1)]. *)
Definition strike_limit (config : RouterConfig) : Z :=
  Z.max (rc_slow_consumer_strikes config) 1.

(** The [match connection.sender.try_send(delivery)]. *)
Definition deliver c (conn : ConnectionState) (ch : Chan) (d : Delivery)
    (message : option RoutedMessage) (fo : FanOut) : FanOut :=
  match try_send d ch with
  | (ch', Sent) =>
    {| fo_router := set_connection c (with_strikes 0 conn) ch' (fo_router fo);
       fo_message := message; fo_delivered := fo_delivered fo + 1; fo_full := fo_full fo;
       fo_closed := fo_closed fo; fo_disconnect := fo_disconnect fo |}
  | (ch', Full) =>
    let strikes := sat_add u32_max (cs_full_strikes conn) 1 in
    {| fo_router := set_connection c (with_strikes strikes conn) ch' (fo_router fo);
       fo_message := message; fo_delivered := fo_delivered fo; fo_full := fo_full fo + 1;
       fo_closed := fo_closed fo;
       fo_disconnect := if strike_limit (r_config (fo_router fo)) <=? strikes
                        then fo_disconnect fo ++ [c] else fo_disconnect fo |}
  | (ch', Closed) =>
    {| fo_router := set_connection c conn ch' (fo_router fo);
       fo_message := message; fo_delivered := fo_delivered fo; fo_full := fo_full fo;
       fo_closed := fo_closed fo + 1; fo_disconnect := fo_disconnect fo ++ [c] |}
  end.

(** One turn of the fan-out loop; [None] is a panic of [expect]. *)
Definition fan_out_step (connection_count : nat) (fo : FanOut)
    (item : nat * (ConnectionId * list SubscriptionId)) : option FanOut :=
  let '(index, (c, sids)) := item in
  match r_connections (fo_router fo) !! c, r_channels (fo_router fo) !! c with
  | Some conn, Some ch =>
    m ← fo_message fo;
    let rest := if decide (index + 1 = connection_count)%nat then None else fo_message fo in
    Some (deliver c conn ch {| d_message := m; d_subscription_ids := sids |} rest fo)
  | _, _ =>
    Some {| fo_router := fo_router fo; fo_message := fo_message fo;
            fo_delivered := fo_delivered fo; fo_full := fo_full fo;
            fo_closed := fo_closed fo + 1; fo_disconnect := fo_disconnect fo |}
  end.

Fixpoint fan_out (connection_count : nat) (fo : FanOut)
    (items : list (nat * (ConnectionId * list SubscriptionId))) : option FanOut :=
  match items with
  | [] => Some fo
  | item :: rest => fo ← fan_out_step connection_count fo item; fan_out connection_count fo rest
  end.

(** The removal loop [for connection_id in disconnect]. *)
Definition disconnect_all (disconnect : list ConnectionId) r : RouterState Chan :=
  foldl (λ r c, unregister_connection c (with_metrics record_slow_disconnect r)) r disconnect.

(** The fan-out of a table of matches, from the state it runs in. *)
Definition enqueue (message : RoutedMessage) (items : list (ConnectionId * list SubscriptionId))
    r : option FanOut :=
  fan_out (length items)
    {| fo_router := r; fo_message := Some message; fo_delivered := 0; fo_full := 0;
       fo_closed := 0; fo_disconnect := [] |}
    (imap pair items).

(** [Router::dispatch]; [iter] is the iteration order of the [matches] map
    and the two durations are what the clock measures. *)
Definition dispatch (iter : Bucket → list (ConnectionId * list SubscriptionId))
    (match_elapsed enqueue_elapsed : Z) (message : RoutedMessage) r
    : option (RouterState Chan * DispatchReport) :=
  let r := with_metrics record_valid_message r in
  let matches := collect_matches (r_routes r) (RouteKey_candidates (rm_metadata message)) in
  let matched := map_sum (λ sids, Z.of_nat (length sids)) matches in
  let r := with_metrics (record_latency Match match_elapsed) r in
  fo ← enqueue message (iter matches) r;
  let report := {| dr_matched_subscriptions := matched;
                   dr_delivered_connections := fo_delivered fo;
                   dr_full_connections := fo_full fo;
                   dr_closed_connections := fo_closed fo |} in
  let r := disconnect_all (fo_disconnect fo) (fo_router fo) in
  let r := with_metrics (record_latency Enqueue enqueue_elapsed) r in
  let r := with_metrics (record_dispatch matched (fo_delivered fo) (fo_full fo) (fo_closed fo)) r in
  Some (r, report).

(** [Router::status]. *)
Definition status r : RouterStatus := {|
  st_active_connections := Z.of_nat (size (r_connections r));
  st_subscriptions := map_sum subscription_count (r_connections r);
  st_metrics := Metrics_snapshot (r_metrics r) |}.

(** [Router::connections_by_protocol]. *)
Definition connections_by_protocol (p : DeliveryProtocol) r : Z :=
  map_count (λ conn, bool_decide (cs_protocol conn = p)) (r_connections r).
End operations.
