(* ===== verification/RouterInv.v ===== *)
(** * The invariant of the routing engine

    [router_ok] ties the parts of the router's state together: the index holds
    exactly the subscriptions of the connections, every limit of the
    configuration is respected, every connection has a queue within bounds and
    fewer strikes than the eviction limit, and the gauges count what they
    claim to count.  Registration, subscription and removal preserve it. *)

From S2P Require Import Prelude Str Ids Message Route Metrics RouteIndex Channel Router.
Open Scope Z_scope.

(** Configuration fields are unsigned machine integers. *)
Record config_ok (config : RouterConfig) : Prop := {
  cfg_default_queue : 0 ≤ rc_default_queue_capacity config ≤ usize_max;
  cfg_max_queue : 0 ≤ rc_max_queue_capacity config ≤ usize_max;
  cfg_connections : 0 ≤ rc_max_connections config ≤ usize_max;
  cfg_tenant_connections : 0 ≤ rc_max_connections_per_tenant config ≤ usize_max;
  cfg_subscriptions : 0 ≤ rc_max_subscriptions config ≤ usize_max;
  cfg_tenant_subscriptions : 0 ≤ rc_max_subscriptions_per_tenant config ≤ usize_max;
  cfg_connection_subscriptions : 0 ≤ rc_max_subscriptions_per_connection config ≤ usize_max;
  cfg_strikes : 0 ≤ rc_slow_consumer_strikes config ≤ u32_max;
}.

(** What the filters and the tenant of a connection satisfy. *)
Record connection_ok (config : RouterConfig) (conn : ConnectionState) : Prop := {
  co_tenant : identifier_ok (cs_tenant_id conn) 256;
  co_filters : ∀ sid f, cs_subscriptions conn !! sid = Some f →
    filter_ok f ∧ rf_tenant_id f = cs_tenant_id conn;
  co_bounded : subscription_count conn ≤ rc_max_subscriptions_per_connection config;
}.

(** The limits on the table of connections. *)
Record limits_ok (config : RouterConfig) (conns : Connections) : Prop := {
  lim_connections : Z.of_nat (size conns) ≤ rc_max_connections config;
  lim_tenant_connections : ∀ t,
    map_count (λ conn, bool_decide (cs_tenant_id conn = t)) conns
    ≤ rc_max_connections_per_tenant config;
  lim_subscriptions : map_sum subscription_count conns ≤ rc_max_subscriptions config;
  lim_tenant_subscriptions : ∀ t,
    map_sum (tenant_subscription_count t) conns ≤ rc_max_subscriptions_per_tenant config;
}.

(** The subscriptions of the connections of one protocol. *)
Definition protocol_subscription_count (p : DeliveryProtocol) (conn : ConnectionState) : Z :=
  if bool_decide (cs_protocol conn = p) then subscription_count conn else 0.

Definition is_protocol (p : DeliveryProtocol) (conn : ConnectionState) : bool :=
  bool_decide (cs_protocol conn = p).

(** The gauges agree with the table of connections. *)
Definition gauges_ok (m : Metrics) (conns : Connections) : Prop :=
  ∀ p, m_active_connections m !! protocol_index p = Some (map_count (is_protocol p) conns) ∧
       m_active_subscriptions m !! protocol_index p =
         Some (map_sum (protocol_subscription_count p) conns).

(** The index holds the subscriptions of the connections, each once. *)
Definition index_ok (routes : Routes) (conns : Connections) : Prop :=
  tidy routes ∧ (∀ key c, NoDup (ids routes key c)) ∧
  ∀ key c sid, sid ∈ ids routes key c ↔
    ∃ conn f, conns !! c = Some conn ∧ cs_subscriptions conn !! sid = Some f ∧
              RouteKey_from f = key.

Section invariant.
Context `{MpscLaws Delivery Chan}.
Implicit Types (r : RouterState Chan) (c : ConnectionId) (sid : SubscriptionId).
Implicit Types (config : RouterConfig) (conns : Connections).

(** A queue within the configured bounds. *)
Definition chan_ok config (ch : Chan) : Prop :=
  1 ≤ capacity ch ≤ rc_max_queue_capacity config ∧
  Z.of_nat (length (queued ch)) ≤ capacity ch.

Record router_inv r : Prop := {
  inv_config : config_ok (r_config r);
  inv_index : index_ok (r_routes r) (r_connections r);
  inv_connections : ∀ c conn, r_connections r !! c = Some conn → connection_ok (r_config r) conn;
  inv_limits : limits_ok (r_config r) (r_connections r);
  inv_gauges : gauges_ok (r_metrics r) (r_connections r);
  inv_channels : ∀ c conn, r_connections r !! c = Some conn →
    ∃ ch, r_channels r !! c = Some ch ∧ chan_ok (r_config r) ch;
}.

(** Every connection outside [except] is below the eviction limit. *)
Definition strikes_ok (except : list ConnectionId) r : Prop :=
  ∀ c conn, r_connections r !! c = Some conn →
    0 ≤ cs_full_strikes conn ∧
    (c ∉ except → cs_full_strikes conn < strike_limit (r_config r)).

Definition router_ok r : Prop := router_inv r ∧ strikes_ok [] r.

(** *** Counting *)

Lemma subscription_count_nonneg conn : 0 ≤ subscription_count conn.
Proof. unfold subscription_count. lia. Qed.

Lemma tenant_subscription_count_nonneg t conn : 0 ≤ tenant_subscription_count t conn.
Proof. unfold tenant_subscription_count, subscription_count. case_bool_decide; lia. Qed.

Lemma protocol_subscription_count_nonneg p conn : 0 ≤ protocol_subscription_count p conn.
Proof. unfold protocol_subscription_count, subscription_count. case_bool_decide; lia. Qed.

Lemma protocol_subscriptions_le p conns :
  map_sum (protocol_subscription_count p) conns ≤ map_sum subscription_count conns.
Proof.
  apply map_sum_le. intros conn. unfold protocol_subscription_count, subscription_count.
  case_bool_decide; lia.
Qed.

Lemma protocol_index_inj p q : protocol_index p = protocol_index q → p = q.
Proof. by destruct p, q. Qed.

(** Altering the gauge of one protocol. *)
Lemma lookup_gauge (f : Z → Z) p q (l : list Z) v :
  l !! protocol_index q = Some v →
  alter f (protocol_index p) l !! protocol_index q = Some (if decide (p = q) then f v else v).
Proof.
  intros Hl. destruct (decide (p = q)) as [->|Hne].
  - by rewrite list_lookup_alter_eq, Hl.
  - rewrite list_lookup_alter_ne; [done|]. by intros ?%protocol_index_inj.
Qed.

(** *** The gauges follow the table *)

Lemma protocol_count_nonneg p conns : 0 ≤ map_count (is_protocol p) conns.
Proof. apply map_sum_nonneg. intros a. by destruct (is_protocol p a). Qed.

Lemma gauges_opened config m conns c conn :
  config_ok config → limits_ok config (<[c:=conn]> conns) →
  gauges_ok m conns → conns !! c = None → cs_subscriptions conn = ∅ →
  gauges_ok (record_protocol_opened (cs_protocol conn) m) (<[c:=conn]> conns).
Proof.
  intros Hcfg [Hsz _ _ _] Hg Hc Hs q. destruct (Hg q) as [Hg1 Hg2].
  pose proof (map_count_le_size (is_protocol q) conns) as Hle.
  pose proof (protocol_count_nonneg q conns) as Hn.
  unfold map_count in *. rewrite !map_sum_insert by done.
  set (n := map_sum _ conns) in Hg1, Hle, Hn |- *. set (k := map_sum _ conns) in Hg2 |- *.
  unfold record_protocol_opened; simpl. split.
  - rewrite (lookup_gauge _ _ _ _ _ Hg1). f_equal. unfold is_protocol.
    case_decide as Hq; [rewrite bool_decide_true by done|by rewrite bool_decide_false].
    rewrite map_size_insert_None in Hsz by done.
    pose proof (cfg_connections _ Hcfg). unfold usize_max, u64_max in *.
    rewrite wrap64_small; lia.
  - rewrite Hg2. f_equal. unfold protocol_subscription_count, subscription_count.
    rewrite Hs, map_size_empty. case_bool_decide; lia.
Qed.

Lemma gauges_closed m conns c conn :
  gauges_ok m conns → conns !! c = Some conn →
  gauges_ok (record_protocol_closed (cs_protocol conn) (subscription_count conn) m)
    (delete c conns).
Proof.
  intros Hg Hc q. destruct (Hg q) as [Hg1 Hg2].
  pose proof (protocol_count_nonneg q (delete c conns)) as Hn1.
  pose proof (map_sum_nonneg _ (delete c conns) (protocol_subscription_count_nonneg q)) as Hn2.
  unfold map_count in *.
  rewrite (map_sum_delete _ _ _ _ Hc) in Hg1. rewrite (map_sum_delete _ _ _ _ Hc) in Hg2.
  set (n := map_sum _ (delete c conns)) in Hg1, Hn1 |- *.
  set (k := map_sum _ (delete c conns)) in Hg2, Hn2 |- *.
  unfold record_protocol_closed; simpl. split.
  - rewrite (lookup_gauge _ _ _ _ _ Hg1). f_equal. unfold is_protocol, decrement.
    case_decide; [rewrite bool_decide_true by done|by rewrite bool_decide_false].
    rewrite sat_sub_exact; lia.
  - rewrite (lookup_gauge _ _ _ _ _ Hg2). f_equal.
    unfold protocol_subscription_count, decrement.
    case_decide; [rewrite bool_decide_true by done|by rewrite bool_decide_false].
    rewrite sat_sub_exact; lia.
Qed.

(** A change of the subscriptions of one connection. *)
Lemma gauges_resubscribed (add : Z → Z) m conns c conn conn' n :
  gauges_ok m conns → conns !! c = Some conn → cs_protocol conn' = cs_protocol conn →
  subscription_count conn' = subscription_count conn + n →
  (∀ v, v = map_sum (protocol_subscription_count (cs_protocol conn)) conns → add v = v + n) →
  gauges_ok (with_active_subscriptions (alter add (protocol_index (cs_protocol conn))) m)
    (<[c:=conn']> conns).
Proof.
  intros Hg Hc Hp Hn Hadd q. destruct (Hg q) as [Hg1 Hg2]. unfold map_count in *.
  rewrite !(map_sum_update _ _ _ _ _ Hc). simpl. split.
  - rewrite Hg1. f_equal. unfold is_protocol. rewrite Hp. lia.
  - rewrite (lookup_gauge _ _ _ _ _ Hg2). f_equal.
    set (k := map_sum (protocol_subscription_count q) conns) in *.
    unfold protocol_subscription_count.
    rewrite Hp. case_decide as Hq; [|rewrite !bool_decide_false by done; lia].
    rewrite !bool_decide_true by done. subst q. rewrite (Hadd k eq_refl). lia.
Qed.

(** *** The index follows the table *)

Lemma index_fresh routes conns c conn :
  index_ok routes conns → conns !! c = None → cs_subscriptions conn = ∅ →
  index_ok routes (<[c:=conn]> conns).
Proof.
  intros (Ht & Hnd & Hin) Hc Hs. split_and!; [done..|]. intros key c' sid.
  rewrite Hin. setoid_rewrite lookup_insert. case_decide as Hcc; [subst c'|done].
  split; intros (conn' & f & Hc' & Hf & _); simplify_eq.
  by rewrite Hs, lookup_empty in Hf.
Qed.

(** A connection that is not in the table is not in the index. *)
Lemma index_absent routes conns c key :
  index_ok routes conns → conns !! c = None → ids routes key c = [].
Proof.
  intros (_ & _ & Hin) Hc. destruct (ids routes key c) as [|sid l] eqn:E; [done|].
  destruct (proj1 (Hin key c sid)) as (conn & _ & Hc' & _); [rewrite E; left|]. congruence.
Qed.

(** The ids of a connection under a key it is not subscribed with. *)
Lemma index_not_in routes conns c conn sid key :
  index_ok routes conns → conns !! c = Some conn → cs_subscriptions conn !! sid = None →
  sid ∉ ids routes key c.
Proof. intros (_ & _ & Hin) Hc Hs (conn' & f & Hc' & Hf & _)%Hin. congruence. Qed.

Lemma index_subscribed routes conns c conn sid f :
  index_ok routes conns → conns !! c = Some conn → cs_subscriptions conn !! sid = None →
  index_ok (index_push (RouteKey_from f) c sid routes)
    (<[c := with_subscriptions <[sid := f]> conn]> conns).
Proof.
  intros Hok Hc Hs. pose proof (index_not_in _ _ _ _ _ (RouteKey_from f) Hok Hc Hs) as Hni.
  destruct Hok as (Ht & Hnd & Hin). split_and!.
  - by apply tidy_push.
  - intros key c'. rewrite ids_push. case_decide as Hd; [|by rewrite app_nil_r].
    destruct Hd as [<- <-]. apply NoDup_app. split_and!; [done| |apply NoDup_singleton].
    intros x Hx ->%list_elem_of_singleton. done.
  - intros key c' sid'. rewrite ids_push, elem_of_app, Hin.
    setoid_rewrite lookup_insert. destruct (decide (c = c')) as [<-|Hne].
    2: { rewrite decide_False by naive_solver. rewrite elem_of_nil. naive_solver. }
    split.
    + intros [(conn' & f' & Hc' & Hf & Hk)|Hd].
      * simplify_eq. eexists _, f'. split_and!; [done| |done]. simpl.
        rewrite lookup_insert_ne; [done|]. congruence.
      * case_decide as Hk; [|by apply elem_of_nil in Hd].
        apply list_elem_of_singleton in Hd as ->. destruct Hk as [<- _].
        eexists _, f. split_and!; [done| |done]. simpl. by rewrite lookup_insert_eq.
    + intros (conn' & f' & Hc' & Hf & Hk). simplify_eq. simpl in Hf.
      rewrite lookup_insert in Hf. case_decide as Hsid.
      * simplify_eq. right. rewrite decide_True by done. by apply list_elem_of_singleton.
      * left. eauto.
Qed.

Lemma index_unsubscribed routes conns c conn sid f :
  index_ok routes conns → conns !! c = Some conn → cs_subscriptions conn !! sid = Some f →
  index_ok (remove_from_route c sid f routes)
    (<[c := with_subscriptions (delete sid) conn]> conns).
Proof.
  intros (Ht & Hnd & Hin) Hc Hs. split_and!.
  - by apply tidy_remove.
  - intros key c'. rewrite ids_remove by done. case_decide; [by apply NoDup_filter|done].
  - intros key c' sid'. rewrite ids_remove by done. setoid_rewrite lookup_insert.
    destruct (decide (c = c')) as [<-|Hne].
    2: { rewrite decide_False by naive_solver. apply Hin. }
    assert (sid' ∈ (if decide (RouteKey_from f = key ∧ c = c)
                    then filter (λ x, x ≠ sid) (ids routes key c) else ids routes key c) ↔
            sid' ≠ sid ∧ sid' ∈ ids routes key c) as ->.
    { case_decide as Hd; [by rewrite list_elem_of_filter|].
      split; [|naive_solver]. intros Hx. split; [|done]. intros ->.
      apply Hin in Hx as (conn' & f' & ? & ? & ?). naive_solver. }
    rewrite Hin. split.
    + intros (Hne & conn' & f' & Hc' & Hf & Hk). simplify_eq.
      eexists _, f'. split_and!; [done| |done]. simpl. by rewrite lookup_delete_ne.
    + intros (conn' & f' & Hc' & Hf & Hk). simplify_eq. simpl in Hf.
      rewrite lookup_delete in Hf. case_decide; [done|]. naive_solver.
Qed.

(** Removing the subscriptions of a connection one after the other. *)
Lemma index_purged routes conns c conn subs :
  index_ok routes (<[c := conn]> conns) → map_to_list (cs_subscriptions conn) ≡ₚ subs →
  index_ok (purge c subs routes) (<[c := with_subscriptions (λ _, ∅) conn]> conns).
Proof.
  revert routes conn. induction subs as [|[sid f] subs IH]; intros routes conn Hok Hp; simpl.
  - apply Permutation_nil_r, map_to_list_empty_iff in Hp. destruct conn; simpl in *; by subst.
  - assert (cs_subscriptions conn !! sid = Some f) as Hs.
    { apply elem_of_map_to_list. rewrite Hp. left. }
    pose proof (index_unsubscribed _ _ c conn sid f Hok (lookup_insert_eq _ _ _) Hs) as Hok'.
    rewrite insert_insert_eq in Hok'.
    apply (IH _ (with_subscriptions (delete sid) conn)); [done|]. simpl.
    apply (Permutation_cons_inv (a:=(sid, f))). rewrite <-Hp.
    rewrite <-map_to_list_insert by apply lookup_delete_eq. by rewrite insert_delete_id.
Qed.

(** A connection without subscriptions leaves no trace in the index. *)
Lemma index_forgotten routes conns c conn :
  index_ok routes (<[c := conn]> conns) → cs_subscriptions conn = ∅ →
  index_ok routes (delete c conns).
Proof.
  intros (Ht & Hnd & Hin) Hs. split_and!; [done..|]. intros key c' sid. rewrite Hin.
  setoid_rewrite lookup_insert. setoid_rewrite lookup_delete. case_decide; [|done].
  split; [|naive_solver]. intros (conn' & f & ? & Hf & _). simplify_eq.
  by rewrite Hs, lookup_empty in Hf.
Qed.

Lemma index_removed routes conns c conn subs :
  index_ok routes conns → conns !! c = Some conn →
  map_to_list (cs_subscriptions conn) ≡ₚ subs →
  index_ok (purge c subs routes) (delete c conns).
Proof.
  intros Hok Hc Hp. eapply index_forgotten.
  - eapply index_purged; [|done]. by rewrite insert_id.
  - done.
Qed.

(** Two indexes of the same table hold the same ids under every key, in some
    order. *)
Lemma index_unique (routes1 routes2 : Routes) conns key c :
  index_ok routes1 conns → index_ok routes2 conns → ids routes1 key c ≡ₚ ids routes2 key c.
Proof.
  intros (_ & Hnd1 & Hin1) (_ & Hnd2 & Hin2). apply NoDup_Permutation; [done..|].
  intros sid. by rewrite Hin1, Hin2.
Qed.

(** *** The limits *)

Lemma limits_registered config conns c conn :
  limits_ok config conns → conns !! c = None → cs_subscriptions conn = ∅ →
  Z.of_nat (size conns) < rc_max_connections config →
  map_count (λ conn', bool_decide (cs_tenant_id conn' = cs_tenant_id conn)) conns
    < rc_max_connections_per_tenant config →
  limits_ok config (<[c:=conn]> conns).
Proof.
  intros [H1 H2 H3 H4] Hc Hs Hlt Hlt'. split; unfold map_count in *.
  - rewrite map_size_insert_None by done. lia.
  - intros t. rewrite map_sum_insert by done. specialize (H2 t). case_bool_decide; subst; lia.
  - rewrite map_sum_insert by done. unfold subscription_count at 1.
    rewrite Hs, map_size_empty. lia.
  - intros t. rewrite map_sum_insert by done. specialize (H4 t).
    unfold tenant_subscription_count at 1, subscription_count.
    rewrite Hs, map_size_empty. case_bool_decide; lia.
Qed.

(** Changing the subscriptions of a connection of a tenant below its limit. *)
Lemma limits_resubscribed config conns c conn conn' n :
  limits_ok config conns → conns !! c = Some conn → cs_tenant_id conn' = cs_tenant_id conn →
  subscription_count conn' = subscription_count conn + n →
  map_sum subscription_count conns + n ≤ rc_max_subscriptions config →
  map_sum (tenant_subscription_count (cs_tenant_id conn)) conns + n
    ≤ rc_max_subscriptions_per_tenant config →
  limits_ok config (<[c:=conn']> conns).
Proof.
  intros [H1 H2 H3 H4] Hc Ht Hn Hlt Hlt'. split; unfold map_count in *.
  - by rewrite map_size_insert_Some by eauto.
  - intros t. rewrite (map_sum_update _ _ _ _ _ Hc), Ht. specialize (H2 t). lia.
  - rewrite (map_sum_update _ _ _ _ _ Hc). lia.
  - intros t. rewrite (map_sum_update _ _ _ _ _ Hc). specialize (H4 t).
    set (k := map_sum _ conns) in H4 |- *. unfold tenant_subscription_count. rewrite Ht.
    case_bool_decide as Hd; [|lia]. subst k t. lia.
Qed.

Lemma limits_removed config conns c conn :
  limits_ok config conns → conns !! c = Some conn → limits_ok config (delete c conns).
Proof.
  intros [H1 H2 H3 H4] Hc. split; unfold map_count in *.
  - rewrite map_size_delete_Some by eauto. lia.
  - intros t. specialize (H2 t). rewrite (map_sum_delete _ _ _ _ Hc) in H2.
    case_bool_decide; lia.
  - rewrite (map_sum_delete _ _ _ _ Hc) in H3. pose proof (subscription_count_nonneg conn). lia.
  - intros t. specialize (H4 t). rewrite (map_sum_delete _ _ _ _ Hc) in H4.
    pose proof (tenant_subscription_count_nonneg t conn). lia.
Qed.

(** *** Changes that keep tenants, protocols and subscriptions *)

Definition shape (conn : ConnectionState) : string * DeliveryProtocol * gmap SubscriptionId RouteFilter :=
  (cs_tenant_id conn, cs_protocol conn, cs_subscriptions conn).

Definition same_shape conns conns' : Prop :=
  ∀ c, shape <$> conns' !! c = shape <$> conns !! c.

Lemma same_shape_sum {X} (f : X → Z) (g : string * DeliveryProtocol * gmap SubscriptionId RouteFilter → X)
    conns conns' :
  same_shape conns conns' →
  map_sum (λ conn, f (g (shape conn))) conns' = map_sum (λ conn, f (g (shape conn))) conns.
Proof.
  intros Hs. apply map_sum_pointwise. intros c.
  change (λ conn, f (g (shape conn))) with ((λ s, f (g s)) ∘ shape).
  by rewrite !option_fmap_compose, Hs.
Qed.

Lemma same_shape_lookup conns conns' c conn' :
  same_shape conns conns' → conns' !! c = Some conn' →
  ∃ conn, conns !! c = Some conn ∧ shape conn = shape conn'.
Proof.
  intros Hs Hc. specialize (Hs c). rewrite Hc in Hs. symmetry in Hs.
  apply fmap_Some in Hs as (conn & ? & ?). by exists conn.
Qed.

Lemma same_shape_sym conns conns' : same_shape conns conns' → same_shape conns' conns.
Proof. by intros Hs c. Qed.

Lemma same_shape_index routes conns conns' :
  same_shape conns conns' → index_ok routes conns → index_ok routes conns'.
Proof.
  intros Hs (Ht & Hnd & Hin). split_and!; [done..|]. intros key c sid. rewrite Hin.
  split; intros (conn & f & Hc & Hf & Hk).
  - apply (same_shape_lookup _ _ _ _ (same_shape_sym _ _ Hs)) in Hc as (conn' & ? & [= _ _ He]).
    exists conn', f. by rewrite He.
  - apply (same_shape_lookup _ _ _ _ Hs) in Hc as (conn' & ? & [= _ _ He]).
    exists conn', f. by rewrite He.
Qed.

Lemma same_shape_limits config conns conns' :
  same_shape conns conns' → limits_ok config conns → limits_ok config conns'.
Proof.
  intros Hs [H1 H2 H3 H4]. split.
  - rewrite <-map_count_size in *. etrans; [|exact H1]. apply Z.eq_le_incl.
    exact (same_shape_sum (λ _, 1) (λ _, ()) _ _ Hs).
  - intros t. etrans; [|exact (H2 t)]. apply Z.eq_le_incl.
    exact (same_shape_sum (λ t', if bool_decide (t' = t) then 1 else 0) (λ s, s.1.1) _ _ Hs).
  - etrans; [|exact H3]. apply Z.eq_le_incl.
    exact (same_shape_sum (λ m, Z.of_nat (size m)) (λ s, s.2) _ _ Hs).
  - intros t. etrans; [|exact (H4 t)]. apply Z.eq_le_incl.
    exact (same_shape_sum (λ s, if bool_decide (s.1.1 = t) then Z.of_nat (size s.2) else 0)
      id _ _ Hs).
Qed.

Lemma same_shape_gauges m conns conns' :
  same_shape conns conns' → gauges_ok m conns → gauges_ok m conns'.
Proof.
  intros Hs Hg p. destruct (Hg p) as [-> ->]. unfold map_count, is_protocol,
    protocol_subscription_count, subscription_count. split; f_equal.
  - exact (same_shape_sum (λ p', if bool_decide (p' = p) then 1 else 0) (λ s, s.1.2)
      _ _ (same_shape_sym _ _ Hs)).
  - exact (same_shape_sum (λ s, if bool_decide (s.1.2 = p) then Z.of_nat (size s.2) else 0)
      id _ _ (same_shape_sym _ _ Hs)).
Qed.

Lemma same_shape_connection config conn conn' :
  shape conn = shape conn' → connection_ok config conn → connection_ok config conn'.
Proof. by intros [= Ht Hp Hs] [? ? ?]; split; unfold subscription_count in *; rewrite <-?Ht, <-?Hs. Qed.

(** *** Operations *)

Lemma Router_new_ok config : config_ok config → router_ok (Router_new config).
Proof.
  intros Hcfg. split.
  2: { intros c conn. simpl. by rewrite lookup_empty. }
  split; simpl; [done| | | | |].
  - split_and!; [apply tidy_empty|intros; rewrite ids_empty; constructor|].
    intros key c sid. rewrite ids_empty, elem_of_nil. split; [done|].
    intros (conn & f & Hc & _). by rewrite lookup_empty in Hc.
  - intros c conn Hc. by rewrite lookup_empty in Hc.
  - destruct Hcfg. split; unfold map_count; intros; rewrite ?map_size_empty, ?map_sum_empty; lia.
  - intros []; unfold map_count; rewrite !map_sum_empty; done.
  - intros c conn Hc. by rewrite lookup_empty in Hc.
Qed.

(** A metrics update that leaves the gauges alone is invisible. *)
Definition gauge_free (f : Metrics → Metrics) : Prop :=
  ∀ m, m_active_connections (f m) = m_active_connections m ∧
       m_active_subscriptions (f m) = m_active_subscriptions m.

Lemma with_metrics_inv f r : gauge_free f → router_inv r → router_inv (with_metrics f r).
Proof.
  intros Hf [???? Hg ?]. split; simpl; try done.
  intros p. destruct (Hf (r_metrics r)) as [-> ->]. apply Hg.
Qed.

Lemma with_metrics_ok f r : gauge_free f → router_ok r → router_ok (with_metrics f r).
Proof. intros Hf [Hi Hs]. split; [by apply with_metrics_inv|done]. Qed.

Lemma fetch_add_gauge_free k n : gauge_free (fetch_add k n).
Proof. done. Qed.

Lemma record_dispatch_gauge_free a b c d : gauge_free (record_dispatch a b c d).
Proof. intros m. unfold record_dispatch. by case_match. Qed.

(** Registration: a fresh id enters with an empty queue of the requested
    capacity, or nothing but a counter changes. *)
Lemma register_connection_inv fresh t p cap r :
  router_inv r → r_connections r !! fresh = None →
  (∀ n, cap = Some n → 0 ≤ n) →
  router_inv (register_connection fresh t p cap r).1.
Proof.
  intros Hok Hfresh Hcap. unfold register_connection.
  destruct (validate_identifier_total "tenant_id" t 256) as [Hv|[reason Hv]]; rewrite Hv; [|done].
  apply validate_identifier_Ok in Hv.
  pose proof Hok as [Hcfg Hidx Hconn Hlim Hg Hch].
  set (n := default (rc_default_queue_capacity (r_config r)) cap).
  assert (0 ≤ n) as Hn. { destruct cap; simpl in *; [by apply Hcap|apply Hcfg]. }
  destruct ((n =? 0) || _) eqn:Ecap; [done|].
  apply orb_false_iff in Ecap as [Hn0%Z.eqb_neq Hmax%Z.ltb_ge].
  destruct ((_ <=? _) || _) eqn:Elim.
  { apply with_metrics_inv; [apply fetch_add_gauge_free|done]. }
  apply orb_false_iff in Elim as [Hsz%Z.leb_gt Hten%Z.leb_gt].
  set (conn := {| cs_tenant_id := t |}).
  assert (limits_ok (r_config r) (<[fresh:=conn]> (r_connections r))) as Hlim'.
  { by apply limits_registered. }
  split; simpl; [done|by apply index_fresh| |done| |].
  - intros c conn'. rewrite lookup_insert. case_decide; [intros [= <-]|apply Hconn].
    split; [done| |]; simpl.
    + intros sid f. by rewrite lookup_empty.
    + unfold subscription_count. simpl. rewrite map_size_empty. apply Hcfg.
  - apply (gauges_opened (r_config r) (r_metrics r) _ _ conn); done.
  - intros c conn'. rewrite !lookup_insert. case_decide; [|apply Hch].
    intros _. exists (channel n). split; [done|].
    unfold chan_ok. rewrite channel_capacity, channel_queued by lia. simpl. lia.
Qed.

(** A connection of the new state is one of the old state with the same
    strikes and tenant, or the one just registered. *)
Lemma register_connection_lookup fresh t p cap r c conn :
  r_connections (register_connection fresh t p cap r).1 !! c = Some conn →
  r_connections r !! c = Some conn ∨
  c = fresh ∧ cs_full_strikes conn = 0 ∧
    ∃ n, (0 ≤ n → 0 < n) ∧ r_channels (register_connection fresh t p cap r).1 !! c = Some (channel n) ∧
         n = default (rc_default_queue_capacity (r_config r)) cap.
Proof.
  unfold register_connection. destruct (validate_identifier _ _ _); [|by left].
  destruct ((default _ _ =? 0) || _) eqn:Ecap; [by left|].
  apply orb_false_iff in Ecap as [Hn0%Z.eqb_neq _].
  destruct ((_ <=? _) || _); [by left|]. simpl. rewrite !lookup_insert.
  case_decide; [|by left]. intros [= <-]. right. split_and!; try done.
  eexists. split_and!; [|done..]. lia.
Qed.

Lemma subscription_count_insert conn sid f :
  cs_subscriptions conn !! sid = None →
  subscription_count (with_subscriptions <[sid:=f]> conn) = subscription_count conn + 1.
Proof. intros Hs. unfold subscription_count; simpl. rewrite map_size_insert_None by done. lia. Qed.

Lemma subscription_count_delete conn sid f :
  cs_subscriptions conn !! sid = Some f →
  subscription_count (with_subscriptions (delete sid) conn) = subscription_count conn - 1.
Proof.
  intros Hs. unfold subscription_count; simpl. rewrite map_size_delete_Some by eauto.
  assert (size (cs_subscriptions conn) ≠ 0%nat); [|lia].
  intros Hz%map_size_empty_inv. by rewrite Hz, lookup_empty in Hs.
Qed.

Lemma subscribe_inv c sid f r : router_inv r → router_inv (subscribe c sid f r).1.
Proof.
  intros Hok. unfold subscribe. destruct (RouteFilter_validate f) as [[]|e] eqn:Hv; [|done].
  apply RouteFilter_validate_Ok in Hv. destruct (r_connections r !! c) as [conn|] eqn:Hc; [|done].
  destruct ((_ <=? _) || _) eqn:Elim.
  { apply with_metrics_inv; [apply fetch_add_gauge_free|done]. }
  apply orb_false_iff in Elim as [Hmax%Z.leb_gt Hten%Z.leb_gt].
  case_bool_decide as Htenant; [done|]. case_bool_decide as Hs; [done|].
  destruct (Z.leb_spec (rc_max_subscriptions_per_connection (r_config r))
    (subscription_count conn)) as [|Hper]; [done|].
  apply eq_None_not_Some in Hs.
  destruct Hok as [Hcfg Hidx Hconn Hlim Hg Hch].
  pose proof (subscription_count_insert conn sid f Hs) as Hcount.
  assert (limits_ok (r_config r)
    (<[c := with_subscriptions <[sid:=f]> conn]> (r_connections r))) as Hlim'.
  { eapply limits_resubscribed; [done..| |]; lia. }
  split; simpl; [done|by apply index_subscribed| |done| |].
  - intros c' conn'. rewrite lookup_insert. case_decide; [intros [= <-]|apply Hconn].
    destruct (Hconn _ _ Hc) as [Ht Hf Hb]. split; [done| |lia].
    simpl. intros sid' f'. rewrite lookup_insert. case_decide; [naive_solver|apply Hf].
  - apply (gauges_resubscribed _ _ _ _ conn _ 1); [done..|].
    intros v ->. apply wrap64_small.
    pose proof (protocol_subscriptions_le (cs_protocol conn) (r_connections r)).
    pose proof (map_sum_nonneg _ (r_connections r)
      (protocol_subscription_count_nonneg (cs_protocol conn))).
    pose proof (cfg_subscriptions _ Hcfg). unfold usize_max, u64_max in *. lia.
  - intros c' conn'. rewrite lookup_insert. case_decide; [|apply Hch].
    subst c'. intros _. by eapply Hch.
Qed.

(** A connection of the new state has the strikes and the tenant it had. *)
Lemma subscribe_lookup c sid f r c' conn' :
  r_connections (subscribe c sid f r).1 !! c' = Some conn' →
  ∃ conn, r_connections r !! c' = Some conn ∧ cs_full_strikes conn' = cs_full_strikes conn ∧
          cs_tenant_id conn' = cs_tenant_id conn.
Proof.
  unfold subscribe. destruct (RouteFilter_validate f); [|eauto].
  destruct (r_connections r !! c) as [conn|] eqn:Hc; [|eauto].
  destruct (_ || _); [eauto|]. case_bool_decide; [eauto|]. case_bool_decide; [eauto|].
  destruct (_ <=? _); [eauto|]. simpl. rewrite lookup_insert.
  case_decide; [|eauto]. subst c'. intros [= <-]. eauto.
Qed.

Lemma unsubscribe_inv c sid r : router_inv r → router_inv (unsubscribe c sid r).1.
Proof.
  intros Hok. unfold unsubscribe. destruct (r_connections r !! c) as [conn|] eqn:Hc; [|done].
  destruct (cs_subscriptions conn !! sid) as [f|] eqn:Hs; [|done].
  destruct Hok as [Hcfg Hidx Hconn Hlim Hg Hch].
  pose proof (subscription_count_delete conn sid f Hs) as Hcount.
  pose proof (lim_subscriptions _ _ Hlim). pose proof (lim_tenant_subscriptions _ _ Hlim
    (cs_tenant_id conn)).
  split; simpl; [done|by apply index_unsubscribed| | | |].
  - intros c' conn'. rewrite lookup_insert. case_decide; [intros [= <-]|apply Hconn].
    destruct (Hconn _ _ Hc) as [Ht Hf Hb]. split; [done| |lia].
    simpl. intros sid' f'. rewrite lookup_delete. case_decide; [done|apply Hf].
  - eapply (limits_resubscribed _ _ _ conn _ (-1)); [done..| | |]; lia.
  - apply (gauges_resubscribed _ _ _ _ conn _ (-1)); [done..|lia|].
    intros v Hv. unfold decrement. rewrite sat_sub_exact; [lia|].
    pose proof (map_sum_lookup_le _ _ _ _
      (protocol_subscription_count_nonneg (cs_protocol conn)) Hc) as Hle.
    unfold protocol_subscription_count at 1 in Hle. rewrite bool_decide_true in Hle by done.
    pose proof (subscription_count_nonneg (with_subscriptions (delete sid) conn)). lia.
  - intros c' conn'. rewrite lookup_insert. case_decide; [|apply Hch].
    subst c'. intros _. by eapply Hch.
Qed.

Lemma unsubscribe_lookup c sid r c' conn' :
  r_connections (unsubscribe c sid r).1 !! c' = Some conn' →
  ∃ conn, r_connections r !! c' = Some conn ∧ cs_full_strikes conn' = cs_full_strikes conn ∧
          cs_tenant_id conn' = cs_tenant_id conn.
Proof.
  unfold unsubscribe. destruct (r_connections r !! c) as [conn|] eqn:Hc; [|eauto].
  destruct (cs_subscriptions conn !! sid); [|eauto]. simpl. rewrite lookup_insert.
  case_decide; [|eauto]. subst c'. intros [= <-]. eauto.
Qed.

Lemma unregister_connection_inv c r : router_inv r → router_inv (unregister_connection c r).
Proof.
  intros Hok. unfold unregister_connection.
  destruct (r_connections r !! c) as [conn|] eqn:Hc; [|done].
  destruct Hok as [Hcfg Hidx Hconn Hlim Hg Hch].
  split; simpl; [done|by eapply index_removed| |by eapply limits_removed|by apply gauges_closed|].
  - intros c' conn'. rewrite lookup_delete. case_decide; [done|apply Hconn].
  - intros c' conn'. rewrite lookup_delete. case_decide; [done|].
    rewrite lookup_alter_ne by done. apply Hch.
Qed.

(** The connection is gone and no other connection changed. *)
Lemma unregister_connections c r :
  r_connections (unregister_connection c r) = delete c (r_connections r) ∧
  r_config (unregister_connection c r) = r_config r.
Proof.
  unfold unregister_connection. destruct (r_connections r !! c) eqn:Hc; [done|].
  by rewrite delete_id.
Qed.

Lemma tidy_purge c subs routes : tidy routes → tidy (purge c subs routes).
Proof.
  revert routes. induction subs as [|[sid f] subs IH]; simpl; intros routes Ht; [done|].
  by apply IH, tidy_remove.
Qed.

Lemma ids_purge_ne c subs routes key c' :
  tidy routes → c ≠ c' → ids (purge c subs routes) key c' = ids routes key c'.
Proof.
  intros Ht Hne. revert routes Ht.
  induction subs as [|[sid f] subs IH]; simpl; intros routes Ht; [done|].
  rewrite IH, ids_remove by eauto using tidy_remove. by rewrite decide_False by naive_solver.
Qed.

(** What removal does to the index and to the channels. *)
Lemma unregister_ids c r key c' :
  router_inv r →
  ids (r_routes (unregister_connection c r)) key c' =
  if decide (c = c') then [] else ids (r_routes r) key c'.
Proof.
  intros Hinv. pose proof (unregister_connection_inv c r Hinv) as [_ (_ & _ & Hin) _ _ _ _].
  destruct (unregister_connections c r) as [Hconns _]. rewrite Hconns in Hin.
  case_decide as Hc.
  - subst c'. destruct (ids _ key c) as [|sid l] eqn:E; [done|].
    destruct (proj1 (Hin key c sid)) as (conn & f & Hc & _); [rewrite E; left|].
    by rewrite lookup_delete_eq in Hc.
  - clear Hin. unfold unregister_connection.
    destruct (r_connections r !! c) as [conn|]; [|done]. simpl.
    apply ids_purge_ne; [|done]. by destruct (inv_index _ Hinv).
Qed.

Lemma unregister_channels c r c' :
  r_channels (unregister_connection c r) !! c' =
  if decide (c = c' ∧ is_Some (r_connections r !! c))
  then drop_sender <$> r_channels r !! c' else r_channels r !! c'.
Proof.
  unfold unregister_connection. destruct (r_connections r !! c) as [conn|] eqn:Hc; simpl.
  - destruct (decide (c = c')) as [<-|Hne].
    + rewrite lookup_alter_eq, decide_True by eauto. done.
    + rewrite lookup_alter_ne, decide_False by naive_solver. done.
  - rewrite decide_False; [done|]. intros [_ [? ?]]. done.
Qed.

Lemma unregister_strikes except c r :
  strikes_ok except r → strikes_ok (filter (λ c', c' ≠ c) except) (unregister_connection c r).
Proof.
  intros Hst c' conn'. destruct (unregister_connections c r) as [-> ->].
  rewrite lookup_delete. case_decide as Hcc; [done|]. intros Hc'.
  destruct (Hst _ _ Hc') as [? Hlt]. split; [done|]. rewrite list_elem_of_filter.
  intros Hni. apply Hlt. intros ?. apply Hni. naive_solver.
Qed.

Lemma unregister_connection_ok c r : router_ok r → router_ok (unregister_connection c r).
Proof.
  intros [Hi Hs]. split; [by apply unregister_connection_inv|].
  by apply (unregister_strikes [] c).
Qed.

(** The three calls under the whole invariant. *)
Lemma register_connection_config fresh t p cap r :
  r_config (register_connection fresh t p cap r).1 = r_config r.
Proof. unfold register_connection. by repeat case_match. Qed.

Lemma register_connection_ok fresh t p cap r :
  router_ok r → r_connections r !! fresh = None → (∀ n, cap = Some n → 0 ≤ n) →
  router_ok (register_connection fresh t p cap r).1.
Proof.
  intros [Hinv Hst] Hf Hcap. split; [by apply register_connection_inv|].
  intros c conn Hc. rewrite register_connection_config.
  apply register_connection_lookup in Hc as [Hc|(-> & -> & _)]; [by apply (Hst c)|].
  unfold strike_limit. lia.
Qed.

Lemma subscribe_ok c sid f r : router_ok r → router_ok (subscribe c sid f r).1.
Proof.
  intros [Hinv Hst]. split; [by apply subscribe_inv|]. intros c' conn' Hc'.
  assert (r_config (subscribe c sid f r).1 = r_config r) as ->.
  { unfold subscribe. by repeat case_match. }
  apply subscribe_lookup in Hc' as (conn & Hc & -> & _). by apply (Hst c').
Qed.

Lemma unsubscribe_ok c sid r : router_ok r → router_ok (unsubscribe c sid r).1.
Proof.
  intros [Hinv Hst]. split; [by apply unsubscribe_inv|]. intros c' conn' Hc'.
  assert (r_config (unsubscribe c sid r).1 = r_config r) as ->.
  { unfold unsubscribe. by repeat case_match. }
  apply unsubscribe_lookup in Hc' as (conn & Hc & -> & _). by apply (Hst c').
Qed.
End invariant.
