(* ===== verification/RouterDispatch.v ===== *)
(** * Matching and fan-out

    What one call of [Router::dispatch] does.  The table of matches is the
    result of the reference matcher on every subscription
    ([dispatch_matches]); the fan-out loop never panics, treats every matched
    connection exactly once and independently of the others
    ([fan_out_spec]); the state stays within the invariant. *)

From S2P Require Import Prelude Str Ids Message Route Metrics RouteIndex Channel Router.
From S2P Require Import RouterInv.
Open Scope Z_scope.

(** ** Matching *)

(** The matches of a message in an index. *)
Definition matches_of (routes : Routes) (message : RoutedMessage) : Bucket :=
  collect_matches routes (RouteKey_candidates (rm_metadata message)).

(** The recipient fields of a message are paired, as
    [RoutedMessage_new_with_trace_context] enforces. *)
Definition message_paired (message : RoutedMessage) : Prop :=
  recipient_paired (md_recipient_type (rm_metadata message))
    (md_recipient_identity (rm_metadata message)) = true.

Section matching.
Context (routes : Routes) (conns : Connections) (message : RoutedMessage).
Context (Hidx : index_ok routes conns) (Hpair : message_paired message).
Context (Hfilters : ∀ c conn sid f, conns !! c = Some conn →
           cs_subscriptions conn !! sid = Some f → filter_ok f).

Local Abbreviation keys := (RouteKey_candidates (rm_metadata message)).

(** The ids gathered for a connection are its matching subscriptions. *)
Lemma elem_of_ids_under c sid :
  sid ∈ ids_under routes keys c ↔
  ∃ conn f, conns !! c = Some conn ∧ cs_subscriptions conn !! sid = Some f ∧
            RouteFilter_matches f (rm_metadata message) = true.
Proof.
  destruct Hidx as (Ht & Hnd & Hin). unfold ids_under. rewrite list_elem_of_bind. split.
  - intros (key & (conn & f & Hc & Hs & Hk)%Hin & Hkey). exists conn, f. split_and!; try done.
    subst key. apply elem_of_candidates in Hkey. apply RouteFilter_matches_true; try done.
    by destruct (Hfilters _ _ _ _ Hc Hs).
  - intros (conn & f & Hc & Hs & Hm). exists (RouteKey_from f). split.
    + apply Hin. eauto.
    + apply elem_of_candidates, RouteFilter_matches_true; try done.
      by destruct (Hfilters _ _ _ _ Hc Hs).
Qed.

Lemma ids_under_NoDup c : NoDup (ids_under routes keys c).
Proof.
  destruct Hidx as (Ht & Hnd & Hin). unfold ids_under.
  pose proof (candidates_NoDup_paired _ Hpair) as Hk. induction Hk as [|key l Hkey Hl IH]; simpl.
  { constructor. }
  apply NoDup_app. split_and!; [done| |done].
  intros sid (conn & f & Hc & Hs & Hkf)%Hin (key' & (conn' & f' & Hc' & Hs' & Hkf')%Hin & Hl')
    %list_elem_of_bind.
  by simplify_eq.
Qed.

(** A connection is in the table with exactly its matching subscriptions,
    each once; it is absent when it has none. *)
Lemma dispatch_matches c :
  match matches_of routes message !! c with
  | Some sids => sids ≠ [] ∧ NoDup sids ∧
      ∀ sid, sid ∈ sids ↔ ∃ conn f, conns !! c = Some conn ∧
        cs_subscriptions conn !! sid = Some f ∧
        RouteFilter_matches f (rm_metadata message) = true
  | None => ∀ conn sid f, conns !! c = Some conn → cs_subscriptions conn !! sid = Some f →
      RouteFilter_matches f (rm_metadata message) = false
  end.
Proof.
  unfold matches_of.
  rewrite collect_matches_lookup; [|by destruct Hidx|apply ids_under_NoDup].
  case_decide as Hnil.
  - intros conn sid f Hc Hs. apply not_true_is_false. intros Hm.
    assert (sid ∈ ids_under routes keys c) as Hin by (apply elem_of_ids_under; eauto).
    rewrite Hnil in Hin. by apply elem_of_nil in Hin.
  - split_and!; [done|apply ids_under_NoDup|]. intros sid. apply elem_of_ids_under.
Qed.

(** Only connections of the router, of the message's tenant, are matched. *)
Lemma matched_connection c sids :
  (∀ c conn sid f, conns !! c = Some conn → cs_subscriptions conn !! sid = Some f →
     rf_tenant_id f = cs_tenant_id conn) →
  matches_of routes message !! c = Some sids →
  ∃ conn, conns !! c = Some conn ∧ cs_tenant_id conn = md_tenant_id (rm_metadata message).
Proof.
  intros Hten Hm. pose proof (dispatch_matches c) as Hd. rewrite Hm in Hd.
  destruct Hd as (Hne & _ & Hin). destruct sids as [|sid sids]; [done|].
  destruct (proj1 (Hin sid)) as (conn & f & Hc & Hs & Hf); [left|].
  exists conn. split; [done|]. rewrite <-(Hten _ _ _ _ Hc Hs).
  apply generalizes_tenant, RouteFilter_matches_true; try done.
  by destruct (Hfilters _ _ _ _ Hc Hs).
Qed.
End matching.

(** ** Fan-out *)

Section fan_out.
Context `{MpscLaws Delivery Chan}.
Implicit Types (r : RouterState Chan) (c : ConnectionId) (sid : SubscriptionId).
Implicit Types (item : ConnectionId * list SubscriptionId).
Implicit Types (items : list (ConnectionId * list SubscriptionId)).

(** What the attempt to enqueue a message for one matched connection does:
    the connection and channel after it and the outcome. *)
Definition attempt r (m : RoutedMessage) item : option (ConnectionState * Chan * SendResult) :=
  conn ← r_connections r !! item.1;
  ch ← r_channels r !! item.1;
  let '(ch', res) := try_send {| d_message := m; d_subscription_ids := item.2 |} ch in
  Some (match res with
        | Sent => with_strikes 0 conn
        | Full => with_strikes (sat_add u32_max (cs_full_strikes conn) 1) conn
        | Closed => conn
        end, ch', res).

(** The connections a fan-out marks for removal. *)
Definition evicted r m item : bool :=
  match attempt r m item with
  | Some (conn, _, Full) => strike_limit (r_config r) <=? cs_full_strikes conn
  | Some (_, _, Closed) => true
  | _ => false
  end.

(** The contribution of an item to a counter of the report. *)
Definition outcome_is (res : SendResult) r m item : Z :=
  match attempt r m item with
  | Some (_, _, res') => if decide (res' = res) then 1 else 0
  | None => if decide (res = Closed) then 1 else 0
  end.

(** Items other than [c] see the same connections and channels. *)
Definition agree_off c r r' : Prop :=
  r_config r' = r_config r ∧
  ∀ c', c' ≠ c → r_connections r' !! c' = r_connections r !! c' ∧
                  r_channels r' !! c' = r_channels r !! c'.

Lemma attempt_agree c r r' m item :
  agree_off c r r' → item.1 ≠ c → attempt r' m item = attempt r m item.
Proof. intros [_ Ha] Hne. unfold attempt. by destruct (Ha _ Hne) as [-> ->]. Qed.

Lemma evicted_agree c r r' m item :
  agree_off c r r' → item.1 ≠ c → evicted r' m item = evicted r m item.
Proof. intros Ha Hne. unfold evicted. rewrite (attempt_agree c r) by done. by destruct Ha as [-> _]. Qed.

Lemma outcome_agree c r r' res m item :
  agree_off c r r' → item.1 ≠ c → outcome_is res r' m item = outcome_is res r m item.
Proof. intros Ha Hne. unfold outcome_is. by rewrite (attempt_agree c r). Qed.

(** One turn of the loop. *)
Lemma fan_out_step_spec n (fo : FanOut) i item m :
  fo_message fo = Some m →
  ∃ fo', fan_out_step n fo (i, item) = Some fo' ∧
    ((i + 1 ≠ n)%nat → fo_message fo' = Some m) ∧
    agree_off item.1 (fo_router fo) (fo_router fo') ∧
    r_routes (fo_router fo') = r_routes (fo_router fo) ∧
    r_metrics (fo_router fo') = r_metrics (fo_router fo) ∧
    match attempt (fo_router fo) m item with
    | Some (conn, ch, _) => r_connections (fo_router fo') !! item.1 = Some conn ∧
                            r_channels (fo_router fo') !! item.1 = Some ch
    | None => fo_router fo' = fo_router fo
    end ∧
    fo_delivered fo' = fo_delivered fo + outcome_is Sent (fo_router fo) m item ∧
    fo_full fo' = fo_full fo + outcome_is Full (fo_router fo) m item ∧
    fo_closed fo' = fo_closed fo + outcome_is Closed (fo_router fo) m item ∧
    fo_disconnect fo' = fo_disconnect fo ++
      (if evicted (fo_router fo) m item then [item.1] else []).
Proof.
  intros Hm. destruct item as [c sids]. unfold fan_out_step, outcome_is, evicted, attempt. simpl.
  destruct (r_connections (fo_router fo) !! c) as [conn|] eqn:Hc; simpl.
  2: { eexists. split; [done|]. simpl. rewrite Hm, app_nil_r. by split_and!; try lia. }
  destruct (r_channels (fo_router fo) !! c) as [ch|] eqn:Hch; simpl.
  2: { eexists. split; [done|]. simpl. rewrite Hm, app_nil_r. by split_and!; try lia. }
  rewrite Hm. simpl. eexists. split; [done|]. unfold deliver.
  destruct (try_send _ ch) as [ch' res].
  assert (∀ conn', agree_off c (fo_router fo) (set_connection c conn' ch' (fo_router fo))) as Hag.
  { intros conn'. split; [done|]. intros c' Hne. simpl. by rewrite !lookup_insert_ne. }
  assert ((i + 1 ≠ n)%nat → (if decide (i + 1 = n)%nat then None else Some m) = Some m) as Hrest.
  { intros ?. by rewrite decide_False. }
  destruct res; simpl; rewrite ?app_nil_r, ?lookup_insert_eq; split_and!; auto; try lia.
  destruct (_ <=? _); by rewrite ?app_nil_r.
Qed.

(** The whole loop, from any state: no panic, every item is attempted once
    in the state the loop started from, nothing else changes. *)
Lemma fan_out_spec m items n k (fo : FanOut) :
  NoDup items.*1 → (k + length items = n)%nat → (items ≠ [] → fo_message fo = Some m) →
  ∃ fo', fan_out n fo (imap (λ i x, ((k + i)%nat, x)) items) = Some fo' ∧
    r_config (fo_router fo') = r_config (fo_router fo) ∧
    r_routes (fo_router fo') = r_routes (fo_router fo) ∧
    r_metrics (fo_router fo') = r_metrics (fo_router fo) ∧
    (∀ c, c ∉ items.*1 →
      r_connections (fo_router fo') !! c = r_connections (fo_router fo) !! c ∧
      r_channels (fo_router fo') !! c = r_channels (fo_router fo) !! c) ∧
    (∀ item, item ∈ items →
      match attempt (fo_router fo) m item with
      | Some (conn, ch, _) => r_connections (fo_router fo') !! item.1 = Some conn ∧
                              r_channels (fo_router fo') !! item.1 = Some ch
      | None => r_connections (fo_router fo') !! item.1 = r_connections (fo_router fo) !! item.1 ∧
                r_channels (fo_router fo') !! item.1 = r_channels (fo_router fo) !! item.1
      end) ∧
    fo_delivered fo' = fo_delivered fo + sumZ (outcome_is Sent (fo_router fo) m) items ∧
    fo_full fo' = fo_full fo + sumZ (outcome_is Full (fo_router fo) m) items ∧
    fo_closed fo' = fo_closed fo + sumZ (outcome_is Closed (fo_router fo) m) items ∧
    fo_disconnect fo' = fo_disconnect fo ++
      (filter (λ item, evicted (fo_router fo) m item = true) items).*1.
Proof.
  revert k fo. induction items as [|item items IH]; intros k fo Hnd Hn Hm.
  { exists fo. rewrite app_nil_r. split_and!; simpl; try done; try lia.
    intros item Hin. by apply elem_of_nil in Hin. }
  simpl in Hnd. apply NoDup_cons in Hnd as [Hni Hnd]. simpl in Hn.
  destruct (fan_out_step_spec n fo (k + 0)%nat item m) as
    (fo1 & Hstep & Hm1 & Hagr & Hr1 & Hmt1 & Hatt & Hd1 & Hf1 & Hc1 & Hx1); [by apply Hm|].
  destruct (IH (S k) fo1) as
    (fo' & Hrun & Hcfg & Hr & Hmt & Hoff & Hon & Hd & Hf & Hcl & Hx); [done|lia| |].
  { intros Hne. apply Hm1. destruct items; simpl in *; [done|lia]. }
  assert (∀ it, it ∈ items → it.1 ≠ item.1) as Hne.
  { intros it Hit Heq. apply Hni. rewrite <-Heq. by apply list_elem_of_fmap_2. }
  assert (∀ res, sumZ (outcome_is res (fo_router fo1) m) items =
    sumZ (outcome_is res (fo_router fo) m) items) as Hsum.
  { intros res. apply sumZ_ext. intros it Hit. apply (outcome_agree item.1); auto. }
  exists fo'. split_and!.
  - rewrite imap_cons. cbn [fan_out]. rewrite Hstep. cbn [mbind option_bind].
    rewrite <-Hrun. f_equal. apply imap_ext. intros i x _. unfold compose. f_equal. lia.
  - rewrite Hcfg. apply Hagr.
  - congruence.
  - congruence.
  - intros c. simpl. rewrite not_elem_of_cons. intros [Hc Hcs].
    destruct (Hoff _ Hcs) as [-> ->]. by apply Hagr.
  - intros it [->|Hit]%elem_of_cons.
    + destruct (Hoff _ Hni) as [-> ->].
      destruct (attempt (fo_router fo) m item) as [[[conn ch] res]|]; [done|].
      by rewrite Hatt.
    + specialize (Hon it Hit). rewrite (attempt_agree item.1 (fo_router fo)) in Hon by auto.
      destruct Hagr as [_ Hagr]. destruct (Hagr _ (Hne _ Hit)) as [Ha1 Ha2].
      by rewrite Ha1, Ha2 in Hon.
  - rewrite Hd, Hd1, Hsum, sumZ_cons. lia.
  - rewrite Hf, Hf1, Hsum, sumZ_cons. lia.
  - rewrite Hcl, Hc1, Hsum, sumZ_cons. lia.
  - rewrite Hx, Hx1, filter_cons.
    rewrite (filter_iff_in _ (λ it, evicted (fo_router fo) m it = true) items).
    + case_decide as He; [rewrite He|apply not_true_is_false in He; rewrite He];
        by rewrite <-(assoc_L (++)).
    + intros it Hit. by rewrite (evicted_agree item.1 (fo_router fo)) by auto.
Qed.
End fan_out.

(** ** Dispatch *)

Section dispatch.
Context `{MpscLaws Delivery Chan}.
Implicit Types (r : RouterState Chan) (c : ConnectionId) (sid : SubscriptionId).
Implicit Types (item : ConnectionId * list SubscriptionId).
Implicit Types (items : list (ConnectionId * list SubscriptionId)).

(** [fan_out_spec] for a whole table. *)
Lemma enqueue_spec m items r :
  NoDup items.*1 →
  ∃ fo, enqueue m items r = Some fo ∧
    r_config (fo_router fo) = r_config r ∧
    r_routes (fo_router fo) = r_routes r ∧
    r_metrics (fo_router fo) = r_metrics r ∧
    (∀ c, c ∉ items.*1 →
      r_connections (fo_router fo) !! c = r_connections r !! c ∧
      r_channels (fo_router fo) !! c = r_channels r !! c) ∧
    (∀ item, item ∈ items →
      match attempt r m item with
      | Some (conn, ch, _) => r_connections (fo_router fo) !! item.1 = Some conn ∧
                              r_channels (fo_router fo) !! item.1 = Some ch
      | None => r_connections (fo_router fo) !! item.1 = r_connections r !! item.1 ∧
                r_channels (fo_router fo) !! item.1 = r_channels r !! item.1
      end) ∧
    fo_delivered fo = sumZ (outcome_is Sent r m) items ∧
    fo_full fo = sumZ (outcome_is Full r m) items ∧
    fo_closed fo = sumZ (outcome_is Closed r m) items ∧
    fo_disconnect fo = (filter (λ item, evicted r m item = true) items).*1.
Proof.
  intros Hnd. destruct (fan_out_spec m items (length items) 0
    {| fo_router := r; fo_message := Some m; fo_delivered := 0; fo_full := 0;
       fo_closed := 0; fo_disconnect := [] |}) as (fo & Hrun & Hrest); [done..|].
  exists fo. split; [|done]. unfold enqueue. rewrite <-Hrun. f_equal.
Qed.

Lemma attempt_inv r m item conn' ch' res :
  attempt r m item = Some (conn', ch', res) →
  ∃ conn ch, r_connections r !! item.1 = Some conn ∧ r_channels r !! item.1 = Some ch ∧
    try_send {| d_message := m; d_subscription_ids := item.2 |} ch = (ch', res) ∧
    conn' = match res with
            | Sent => with_strikes 0 conn
            | Full => with_strikes (sat_add u32_max (cs_full_strikes conn) 1) conn
            | Closed => conn
            end.
Proof.
  unfold attempt. destruct (r_connections r !! item.1) as [conn|]; [|done]. simpl.
  destruct (r_channels r !! item.1) as [ch|]; [|done]. simpl.
  destruct (try_send _ ch) as [ch'' res'] eqn:E. intros [= <- <- <-]. eauto 10.
Qed.

(** Every connection keeps its tenant, protocol and subscriptions. *)
Lemma enqueue_shape m items r fo :
  NoDup items.*1 → enqueue m items r = Some fo →
  same_shape (r_connections r) (r_connections (fo_router fo)).
Proof.
  intros Hnd Hrun c. destruct (enqueue_spec m items r Hnd) as
    (fo' & Hrun' & _ & _ & _ & Hoff & Hon & _). simplify_eq.
  destruct (decide (c ∈ items.*1)) as [(item & -> & Hin)%list_elem_of_fmap|Hni].
  - specialize (Hon _ Hin). destruct (attempt r m item) as [[[conn' ch'] res]|] eqn:E.
    + apply attempt_inv in E as (conn & ch & Hc & _ & _ & ->).
      destruct Hon as [-> _]. rewrite Hc. by destruct res.
    + by destruct Hon as [-> _].
  - by destruct (Hoff _ Hni) as [-> _].
Qed.

Lemma enqueue_inv m items r fo :
  router_inv r → NoDup items.*1 → enqueue m items r = Some fo → router_inv (fo_router fo).
Proof.
  intros [Hcfg Hidx Hconn Hlim Hg Hch] Hnd Hrun.
  pose proof (enqueue_shape _ _ _ _ Hnd Hrun) as Hsh.
  destruct (enqueue_spec m items r Hnd) as
    (fo' & Hrun' & Ec & Er & Em & Hoff & Hon & _). simplify_eq.
  split; rewrite ?Ec, ?Er, ?Em.
  - done.
  - by eapply same_shape_index.
  - intros c conn' Hc'. destruct (same_shape_lookup _ _ _ _ Hsh Hc') as (conn & Hc & He).
    eapply same_shape_connection; eauto.
  - by eapply same_shape_limits.
  - by eapply same_shape_gauges.
  - intros c conn' Hc'. destruct (same_shape_lookup _ _ _ _ Hsh Hc') as (conn & Hc & He).
    destruct (Hch _ _ Hc) as (ch & Hchan & Hok).
    destruct (decide (c ∈ items.*1)) as [(item & -> & Hin)%list_elem_of_fmap|Hni].
    + specialize (Hon _ Hin). destruct (attempt r m item) as [[[conn1 ch'] res]|] eqn:E.
      * apply attempt_inv in E as (conn2 & ch2 & Hc2 & Hch2 & Hsend & _). simplify_eq.
        exists ch'. split; [by destruct Hon|].
        destruct (try_send_mono _ _ _ _ Hsend) as (Hcap & _ & Hle), Hok as [Hb Hq].
        unfold chan_ok. rewrite Hcap in *. auto.
      * destruct Hon as [_ ->]. eauto.
    + destruct (Hoff _ Hni) as [_ ->]. eauto.
Qed.

(** Connections that stay below the limit keep fewer strikes than it. *)
Lemma enqueue_strikes m items r fo :
  config_ok (r_config r) → strikes_ok [] r → NoDup items.*1 → enqueue m items r = Some fo →
  strikes_ok (fo_disconnect fo) (fo_router fo).
Proof.
  intros Hcfg Hst Hnd Hrun c conn' Hc'. destruct (enqueue_spec m items r Hnd) as
    (fo' & Hrun' & Ec & Er & Em & Hoff & Hon & _ & _ & _ & Ex). simplify_eq. rewrite Ec, Ex.
  destruct (decide (c ∈ items.*1)) as [(item & -> & Hin)%list_elem_of_fmap|Hni].
  2: { destruct (Hoff _ Hni) as [Ho _]. rewrite Ho in Hc'.
       destruct (Hst _ _ Hc') as [? Hlt]. split; [done|]. intros _. apply Hlt, not_elem_of_nil. }
  specialize (Hon _ Hin). destruct (attempt r m item) as [[[conn1 ch'] res]|] eqn:E.
  2: { destruct Hon as [Ho _]. rewrite Ho in Hc'.
       destruct (Hst _ _ Hc') as [? Hlt]. split; [done|]. intros _. apply Hlt, not_elem_of_nil. }
  destruct Hon as [Ho _]. rewrite Ho in Hc'. simplify_eq.
  pose proof E as (conn & ch & Hc & Hch & Hsend & ->)%attempt_inv.
  destruct (Hst _ _ Hc) as [Hnn Hlt]. specialize (Hlt (not_elem_of_nil _)).
  destruct Hcfg. unfold strike_limit in *. destruct res; simpl in *.
  - lia.
  - split; [unfold sat_add, u32_max in *; lia|]. intros Hni.
    apply Z.nle_gt. intros Hle. apply Hni, list_elem_of_fmap. exists item. split; [done|].
    apply list_elem_of_filter. split; [|done]. unfold evicted. rewrite E. simpl.
    by apply Z.leb_le.
  - split; [done|]. intros _. lia.
Qed.

(** *** Removal of the marked connections *)

Lemma disconnect_all_inv l r : router_inv r → router_inv (disconnect_all l r).
Proof.
  unfold disconnect_all. revert r. induction l as [|c l IH]; simpl; intros r Hr; [done|].
  by apply IH, unregister_connection_inv, with_metrics_inv.
Qed.

Lemma disconnect_all_connections l r c :
  r_config (disconnect_all l r) = r_config r ∧
  r_connections (disconnect_all l r) !! c =
    if decide (c ∈ l) then None else r_connections r !! c.
Proof.
  unfold disconnect_all. revert r. induction l as [|c0 l IH]; simpl; intros r.
  { done. }
  destruct (IH (unregister_connection c0 (with_metrics record_slow_disconnect r))) as [-> ->].
  destruct (unregister_connections c0 (with_metrics record_slow_disconnect r)) as [-> ->].
  simpl. split; [done|]. rewrite lookup_delete.
  destruct (decide (c ∈ l)), (decide (c ∈ c0 :: l)), (decide (c0 = c)); set_solver.
Qed.

Lemma disconnect_all_strikes l r : strikes_ok l r → strikes_ok [] (disconnect_all l r).
Proof.
  intros Hst c conn. destruct (disconnect_all_connections l r c) as [-> ->].
  case_decide; [done|]. intros Hc. destruct (Hst _ _ Hc). auto.
Qed.

Lemma disconnect_all_ids l r key c :
  router_inv r →
  ids (r_routes (disconnect_all l r)) key c =
  if decide (c ∈ l) then [] else ids (r_routes r) key c.
Proof.
  unfold disconnect_all. revert r. induction l as [|c0 l IH]; simpl; intros r Hr.
  { done. }
  assert (router_inv (with_metrics record_slow_disconnect r)) by by apply with_metrics_inv.
  rewrite IH by by apply unregister_connection_inv. rewrite unregister_ids by done. simpl.
  destruct (decide (c ∈ l)), (decide (c ∈ c0 :: l)), (decide (c0 = c)); set_solver.
Qed.

Lemma disconnect_all_channels l r c :
  r_channels (disconnect_all l r) !! c =
  if decide (c ∈ l ∧ is_Some (r_connections r !! c))
  then drop_sender <$> r_channels r !! c else r_channels r !! c.
Proof.
  unfold disconnect_all. revert r. induction l as [|c0 l IH]; simpl; intros r.
  { done. }
  set (r0 := with_metrics record_slow_disconnect r).
  rewrite IH, unregister_channels. destruct (unregister_connections c0 r0) as [-> _].
  subst r0; simpl. pose proof (lookup_delete (r_connections r) c0 c) as Hdel.
  pose proof (elem_of_cons l c c0) as Hcons. assert (¬ is_Some (@None ConnectionState)) by by intros [].
  destruct (decide (c0 = c)) as [->|Hne]; rewrite Hdel; repeat case_decide; try done; naive_solver.
Qed.
End dispatch.
