(* ===== verification/RouterSpec.v ===== *)
(** * What the routing engine promises

    The theorems about [Router::dispatch] and about the reachable states of
    the router: the delivery contract of one dispatch, tenant isolation, the
    accounting of the report, eviction of slow consumers, independence of map
    iteration order, round trips of subscriptions and removals, and the
    invariant over every sequence of operations. *)

From S2P Require Import Prelude Str Ids Message Route Metrics RouteIndex Channel Router.
From S2P Require Import RouterInv RouterDispatch.
Open Scope Z_scope.

(** [iter] lists the entries of a map in some order. *)
Definition iterates (iter : Bucket → list (ConnectionId * list SubscriptionId)) : Prop :=
  ∀ m, iter m ≡ₚ map_to_list m.

(** A subscription of [conn] matches the message. *)
Definition subscription_matches (conn : ConnectionState) (m : RoutedMessage) (sid : SubscriptionId)
    : Prop :=
  ∃ f, cs_subscriptions conn !! sid = Some f ∧ RouteFilter_matches f (rm_metadata m) = true.

(** The ids of a delivery: the matching subscriptions, each once. *)
Definition matching_ids (conn : ConnectionState) (m : RoutedMessage) (sids : list SubscriptionId)
    : Prop :=
  NoDup sids ∧ ∀ sid, sid ∈ sids ↔ subscription_matches conn m sid.

(** What happens to a matched connection [conn] with channel [ch] when the
    delivery [d] is attempted, by the state of its queue. *)
Definition delivery_outcome `{Mpsc Delivery Chan} (config : RouterConfig) (c : ConnectionId)
    (conn : ConnectionState) (ch : Chan) (d : Delivery) (r' : RouterState Chan) : Prop :=
  (rx_open ch = true → Z.of_nat (length (queued ch)) < capacity ch →
     r_connections r' !! c = Some (with_strikes 0 conn) ∧
     ∃ ch', r_channels r' !! c = Some ch' ∧ queued ch' = queued ch ++ [d] ∧
            capacity ch' = capacity ch ∧ rx_open ch' = true ∧ tx_open ch' = tx_open ch) ∧
  (rx_open ch = true → capacity ch ≤ Z.of_nat (length (queued ch)) →
     if cs_full_strikes conn + 1 <? strike_limit config
     then r_connections r' !! c = Some (with_strikes (cs_full_strikes conn + 1) conn) ∧
          r_channels r' !! c = Some ch
     else r_connections r' !! c = None ∧ r_channels r' !! c = Some (drop_sender ch)) ∧
  (rx_open ch = false →
     r_connections r' !! c = None ∧ r_channels r' !! c = Some (drop_sender ch)).

Section dispatch.
Context `{MpscLaws Delivery Chan}.
Implicit Types (r : RouterState Chan) (c : ConnectionId) (sid : SubscriptionId).
Implicit Types (m : RoutedMessage).

Lemma iter_NoDup iter (b : Bucket) : iterates iter → NoDup (iter b).*1.
Proof. intros Hi. rewrite (Hi b). apply NoDup_fst_map_to_list. Qed.

Lemma iter_elem iter (b : Bucket) c sids : iterates iter → (c, sids) ∈ iter b ↔ b !! c = Some sids.
Proof. intros Hi. by rewrite (Hi b), elem_of_map_to_list. Qed.

Lemma iter_elem_fst iter (b : Bucket) c : iterates iter → c ∈ (iter b).*1 ↔ is_Some (b !! c).
Proof.
  intros Hi. rewrite list_elem_of_fmap. split.
  - intros ([c' sids] & -> & Hin). apply iter_elem in Hin; [|done]. eauto.
  - intros [sids Hb]. exists (c, sids). by rewrite iter_elem.
Qed.

(** The state a dispatch ends in. *)
Record dispatched iter m r r' (report : DispatchReport) (fo : FanOut) : Prop := {
  dsp_run : enqueue m (iter (matches_of (r_routes r) m)) r = Some fo;
  dsp_config : r_config r' = r_config r;
  dsp_connections c : r_connections r' !! c =
    if decide (c ∈ fo_disconnect fo) then None else r_connections (fo_router fo) !! c;
  dsp_channels c : r_channels r' !! c =
    if decide (c ∈ fo_disconnect fo ∧ is_Some (r_connections (fo_router fo) !! c))
    then drop_sender <$> r_channels (fo_router fo) !! c else r_channels (fo_router fo) !! c;
  dsp_ids key c : ids (r_routes r') key c =
    if decide (c ∈ fo_disconnect fo) then [] else ids (r_routes r) key c;
  dsp_ok : router_ok r';
  dsp_report : report = {|
    dr_matched_subscriptions :=
      map_sum (λ sids, Z.of_nat (length sids)) (matches_of (r_routes r) m);
    dr_delivered_connections := fo_delivered fo;
    dr_full_connections := fo_full fo;
    dr_closed_connections := fo_closed fo |};
}.

(** Counters other than the gauges do not matter to a fan-out. *)
Lemma attempt_with_metrics f r m item : attempt (with_metrics f r) m item = attempt r m item.
Proof. done. Qed.

Lemma enqueue_with_metrics f items m r fo :
  NoDup items.*1 → enqueue m items r = Some fo →
  ∃ fo', enqueue m items (with_metrics f r) = Some fo' ∧
    r_connections (fo_router fo') = r_connections (fo_router fo) ∧
    r_channels (fo_router fo') = r_channels (fo_router fo) ∧
    fo_disconnect fo' = fo_disconnect fo ∧ fo_delivered fo' = fo_delivered fo ∧
    fo_full fo' = fo_full fo ∧ fo_closed fo' = fo_closed fo.
Proof.
  intros Hnd Hrun.
  destruct (enqueue_spec m items r Hnd) as
    (fo1 & Hrun1 & _ & _ & _ & Hoff1 & Hon1 & Hd1 & Hf1 & Hc1 & Hx1).
  destruct (enqueue_spec m items (with_metrics f r) Hnd) as
    (fo2 & Hrun2 & _ & _ & _ & Hoff2 & Hon2 & Hd2 & Hf2 & Hc2 & Hx2).
  simplify_eq. exists fo2. split; [done|].
  assert (∀ c, r_connections (fo_router fo2) !! c = r_connections (fo_router fo) !! c ∧
               r_channels (fo_router fo2) !! c = r_channels (fo_router fo) !! c) as Heq.
  { intros c. destruct (decide (c ∈ items.*1)) as [(item & -> & Hin)%list_elem_of_fmap|Hni].
    - specialize (Hon1 _ Hin). specialize (Hon2 _ Hin). rewrite attempt_with_metrics in Hon2.
      destruct (attempt r m item) as [[[conn ch] res]|];
        destruct Hon1 as [-> ->], Hon2 as [-> ->]; done.
    - destruct (Hoff1 _ Hni) as [-> ->], (Hoff2 _ Hni) as [-> ->]. done. }
  split_and!; [apply map_eq; intros c; apply Heq|apply map_eq; intros c; apply Heq|..].
  - by rewrite Hx1, Hx2.
  - by rewrite Hd1, Hd2.
  - by rewrite Hf1, Hf2.
  - by rewrite Hc1, Hc2.
Qed.

(** A dispatch always returns, and what it returns. *)
Lemma dispatch_run iter e1 e2 m r :
  iterates iter → router_ok r →
  ∃ r' report fo, dispatch iter e1 e2 m r = Some (r', report) ∧ dispatched iter m r r' report fo.
Proof.
  intros Hi [Hinv Hst]. set (items := iter (matches_of (r_routes r) m)).
  assert (NoDup items.*1) as Hnd by by apply iter_NoDup.
  destruct (enqueue_spec m items r Hnd) as (fo & Hrun & _).
  set (r0 := with_metrics (record_latency Match e1) (with_metrics record_valid_message r)).
  destruct (enqueue_with_metrics (λ mt, record_latency Match e1 (record_valid_message mt))
    items m r fo Hnd Hrun) as (fo0 & Hrun0 & Ec & Ech & Ex & Ed & Ef & Ecl).
  change (with_metrics _ r) with r0 in Hrun0.
  assert (router_inv r0) as Hinv0 by by apply with_metrics_inv, with_metrics_inv.
  pose proof (enqueue_inv m items r0 fo0 Hinv0 Hnd Hrun0) as Hinv1.
  assert (strikes_ok (fo_disconnect fo0) (fo_router fo0)) as Hst1.
  { by eapply enqueue_strikes; [apply Hinv0| |exact Hnd|]. }
  pose proof (disconnect_all_connections (fo_disconnect fo0) (fo_router fo0)) as Hdc.
  assert (r_config (fo_router fo0) = r_config r ∧ r_routes (fo_router fo0) = r_routes r) as [Ecfg Ert].
  { destruct (enqueue_spec m items r0 Hnd) as (fo' & Hrun' & ? & ? & _). by simplify_eq. }
  eexists _, _, fo. unfold dispatch. fold r0.
  change (collect_matches _ _) with (matches_of (r_routes r) m). fold items.
  rewrite Hrun0. cbn [mbind option_bind]. split; [reflexivity|]. split; simpl.
  - done.
  - by rewrite (proj1 (Hdc 0)).
  - intros c. by rewrite (proj2 (Hdc c)), Ec, Ex.
  - intros c. by rewrite disconnect_all_channels, Ec, Ex, Ech.
  - intros key c. by rewrite disconnect_all_ids, Ex, Ert.
  - apply with_metrics_ok; [apply record_dispatch_gauge_free|].
    apply with_metrics_ok; [done|]. split; [by apply disconnect_all_inv|].
    by apply disconnect_all_strikes.
  - by rewrite Ed, Ef, Ecl.
Qed.

(** The table of matches of a good state. *)
Lemma matches_ok m r c :
  router_inv r → message_paired m →
  match matches_of (r_routes r) m !! c with
  | Some sids => ∃ conn, r_connections r !! c = Some conn ∧ sids ≠ [] ∧ matching_ids conn m sids ∧
                   cs_tenant_id conn = md_tenant_id (rm_metadata m)
  | None => ∀ conn sid, r_connections r !! c = Some conn → ¬ subscription_matches conn m sid
  end.
Proof.
  intros [_ Hidx Hconn _ _ _] Hp.
  assert (∀ c conn sid f, r_connections r !! c = Some conn →
    cs_subscriptions conn !! sid = Some f → filter_ok f ∧ rf_tenant_id f = cs_tenant_id conn) as Hf.
  { intros c' conn sid f Hc Hs. by destruct (Hconn _ _ Hc) as [_ ? _]; eauto. }
  pose proof (dispatch_matches _ _ m Hidx Hp (λ c conn sid f Hc Hs, proj1 (Hf c conn sid f Hc Hs)) c)
    as Hd.
  destruct (matches_of (r_routes r) m !! c) as [sids|] eqn:E.
  - destruct (matched_connection _ _ m Hidx Hp (λ c conn sid f Hc Hs, proj1 (Hf c conn sid f Hc Hs))
      c sids (λ c conn sid f Hc Hs, proj2 (Hf c conn sid f Hc Hs)) E) as (conn & Hc & Ht).
    exists conn. destruct Hd as (Hne & Hnd & Hin). split_and!; try done.
    split; [done|]. intros sid. rewrite Hin. unfold subscription_matches. naive_solver.
  - intros conn sid Hc (f & Hs & Hm). specialize (Hd _ _ _ Hc Hs). congruence.
Qed.

(** What a dispatch does to a connection it matched. *)
Lemma dispatched_matched iter m r r' report fo c sids conn ch :
  iterates iter → router_ok r → dispatched iter m r r' report fo →
  matches_of (r_routes r) m !! c = Some sids →
  r_connections r !! c = Some conn → r_channels r !! c = Some ch →
  delivery_outcome (r_config r) c conn ch {| d_message := m; d_subscription_ids := sids |} r'.
Proof.
  intros Hi Hok Hd Hm Hc Hch.
  set (d := {| d_message := m; d_subscription_ids := sids |}). unfold delivery_outcome. destruct Hok as [Hinv Hst], Hd as [Hrun _ Dc Dch _ _ _].
  set (items := iter (matches_of (r_routes r) m)) in *.
  assert (NoDup items.*1) as Hnd by by apply iter_NoDup.
  assert ((c, sids) ∈ items) as Hin by by apply iter_elem.
  destruct (enqueue_spec m items r Hnd) as (fo' & Hrun' & _ & _ & _ & _ & Hon & _ & _ & _ & Hx).
  simplify_eq. specialize (Hon _ Hin).
  assert (c ∈ fo_disconnect fo ↔ evicted r m (c, sids) = true) as Hev.
  { rewrite Hx, list_elem_of_fmap. setoid_rewrite list_elem_of_filter. split.
    - intros ([c' sids'] & -> & He & Hin'). apply iter_elem in Hin'; [|done]. by simplify_eq/=.
    - intros He. by exists (c, sids). }
  specialize (Dc c). specialize (Dch c). destruct (Hst _ _ Hc) as [Hnn Hlt].
  specialize (Hlt (not_elem_of_nil _)). pose proof (cfg_strikes _ (inv_config _ Hinv)).
  unfold evicted, attempt in Hev, Hon. simpl in Hev, Hon. rewrite Hc, Hch in Hev, Hon.
  simpl in Hev, Hon. fold d in Hev, Hon. destruct (try_send d ch) as [ch' res] eqn:Hs.
  destruct (try_send_cases _ _ _ _ Hs)
    as [(-> & Hrx & Hroom & Hq & Hcap)|[(-> & Hrx & Hfull & ->)|(-> & Hrx & ->)]];
    destruct Hon as [Hon1 Hon2]; rewrite Hon1 in Dc, Dch; rewrite Hon2 in Dch; simpl in *.
  - split_and!; intros; try lia; try congruence.
    rewrite decide_False in Dc by naive_solver.
    rewrite decide_False in Dch by naive_solver. split; [done|].
    destruct (try_send_room _ _ _ _ Hrx Hroom Hs) as (_ & _ & _ & Hrx' & Htx'). eauto 10.
  - assert (sat_add u32_max (cs_full_strikes conn) 1 = cs_full_strikes conn + 1) as Hsat.
    { apply sat_add_exact. unfold strike_limit, u32_max in *. lia. }
    rewrite Hsat in *. split_and!; intros; try lia; try congruence.
    destruct (Z.ltb_spec (cs_full_strikes conn + 1) (strike_limit (r_config r))) as [Hl|Hl].
    + rewrite decide_False in Dc by (rewrite ?Hev, ?Z.leb_le; naive_solver lia).
      rewrite decide_False in Dch by (rewrite ?Hev, ?Z.leb_le; naive_solver lia). done.
    + apply Z.leb_le in Hl. rewrite decide_True in Dc by naive_solver.
      rewrite decide_True in Dch by naive_solver. done.
  - split_and!; intros; try lia; try congruence.
    rewrite decide_True in Dc by naive_solver.
      rewrite decide_True in Dch by naive_solver. done.
Qed.

(** Connections that do not match are not touched. *)
Lemma dispatched_unmatched iter m r r' report fo c :
  iterates iter → dispatched iter m r r' report fo → matches_of (r_routes r) m !! c = None →
  r_connections r' !! c = r_connections r !! c ∧ r_channels r' !! c = r_channels r !! c.
Proof.
  intros Hi [Hrun _ Dc Dch _ _ _] Hm.
  set (items := iter (matches_of (r_routes r) m)) in *.
  assert (NoDup items.*1) as Hnd by by apply iter_NoDup.
  assert (c ∉ items.*1) as Hni.
  { subst items. rewrite iter_elem_fst by done. rewrite Hm. by intros []. }
  destruct (enqueue_spec m items r Hnd) as (fo' & Hrun' & _ & _ & _ & Hoff & _ & _ & _ & _ & Hx).
  simplify_eq. assert (c ∉ fo_disconnect fo) as Hnx.
  { rewrite Hx. intros (item & -> & [_ Hin]%list_elem_of_filter)%list_elem_of_fmap.
    by apply Hni, list_elem_of_fmap_2. }
  rewrite Dc, Dch, !decide_False by naive_solver. by apply Hoff.
Qed.

(** (C1) The delivery contract of a dispatch, for every connection.  The call
    returns (neither [expect] can panic).  A connection none of whose filters
    matches the message keeps its state and its queue.  Any other connection
    is offered one delivery that lists exactly its matching subscriptions,
    each once: a queue with room takes it at the end and the strikes are
    reset; a full queue costs a strike and, at the limit, the connection; a
    dropped receiver costs the connection. *)
Theorem dispatch_delivers iter e1 e2 m r
    (Hiter : iterates iter) (Hok : router_ok r) (Hm : message_paired m) :
  ∃ r' report, dispatch iter e1 e2 m r = Some (r', report) ∧
  ∀ c conn ch, r_connections r !! c = Some conn → r_channels r !! c = Some ch →
    (∀ sid, ¬ subscription_matches conn m sid) ∧
      r_connections r' !! c = Some conn ∧ r_channels r' !! c = Some ch
    ∨ ∃ sids, sids ≠ [] ∧ matching_ids conn m sids ∧
        delivery_outcome (r_config r) c conn ch
          {| d_message := m; d_subscription_ids := sids |} r'.
Proof.
  destruct (dispatch_run iter e1 e2 m r Hiter Hok) as (r' & report & fo & Hrun & Hd).
  exists r', report. split; [done|]. intros c conn ch Hc Hch.
  pose proof (matches_ok m r c (proj1 Hok) Hm) as Hmc.
  destruct (matches_of (r_routes r) m !! c) as [sids|] eqn:E.
  - right. destruct Hmc as (conn' & Hc' & Hne & Hids & _). simplify_eq.
    exists sids. split_and!; try done. by eapply dispatched_matched.
  - left. split; [by intros sid; apply Hmc|].
    destruct (dispatched_unmatched _ _ _ _ _ _ _ Hiter Hd E) as [-> ->]. done.
Qed.

(** (C7) Tenant isolation: a dispatch leaves the connections and the queues
    of every other tenant exactly as they were, whatever their filters. *)
Theorem dispatch_isolates_tenants iter e1 e2 m r r' report
    (Hiter : iterates iter) (Hok : router_ok r) (Hm : message_paired m)
    (Hrun : dispatch iter e1 e2 m r = Some (r', report)) :
  ∀ c conn, r_connections r !! c = Some conn →
    cs_tenant_id conn ≠ md_tenant_id (rm_metadata m) →
    r_connections r' !! c = Some conn ∧ r_channels r' !! c = r_channels r !! c.
Proof.
  destruct (dispatch_run iter e1 e2 m r Hiter Hok) as (r1 & report1 & fo & Hrun1 & Hd).
  simplify_eq. intros c conn Hc Ht. pose proof (matches_ok m r c (proj1 Hok) Hm) as Hmc.
  destruct (matches_of (r_routes r) m !! c) as [sids|] eqn:E; [naive_solver|].
  destruct (dispatched_unmatched _ _ _ _ _ _ _ Hiter Hd E) as [-> ->]. done.
Qed.

(** One of the three outcomes is counted for every attempt. *)
Lemma outcome_total r m item :
  outcome_is Sent r m item + outcome_is Full r m item + outcome_is Closed r m item = 1.
Proof. unfold outcome_is. by destruct (attempt r m item) as [[[? ?] []]|]. Qed.

Lemma sum_outcomes r m items :
  sumZ (outcome_is Sent r m) items + sumZ (outcome_is Full r m) items +
  sumZ (outcome_is Closed r m) items = Z.of_nat (length items).
Proof.
  induction items as [|item items IH]; [done|]. rewrite !sumZ_cons. simpl length.
  pose proof (outcome_total r m item). lia.
Qed.

(** The number of subscriptions of a connection the reference matcher
    selects. *)
Definition matching_count m (conn : ConnectionState) : Z :=
  Z.of_nat (size (filter (λ kf : SubscriptionId * RouteFilter,
    RouteFilter_matches kf.2 (rm_metadata m) = true) (cs_subscriptions conn))).

Lemma matching_ids_length conn m sids :
  matching_ids conn m sids → Z.of_nat (length sids) = matching_count m conn.
Proof.
  intros [Hnd Hin]. unfold matching_count. f_equal. set (fm := filter _ _).
  rewrite <-(length_map_to_list fm), <-(length_fmap fst). apply Permutation_length.
  apply NoDup_Permutation; [done|apply NoDup_fst_map_to_list|]. intros sid.
  rewrite Hin, list_elem_of_fmap. split.
  - intros (f & Hs & Hm). exists (sid, f). split; [done|].
    apply elem_of_map_to_list, map_lookup_filter_Some. done.
  - intros ([sid' f] & -> & [Hs Hm]%elem_of_map_to_list%map_lookup_filter_Some). by exists f.
Qed.

Lemma matching_count_zero conn m :
  (∀ sid, ¬ subscription_matches conn m sid) → matching_count m conn = 0.
Proof.
  intros Hno. rewrite <-(matching_ids_length conn m []); [done|].
  split; [constructor|]. intros sid. rewrite elem_of_nil. naive_solver.
Qed.

(** The lengths in the table are the counts of the connections that match. *)
Definition matched_entry m (conn : ConnectionState) : option Z :=
  let n := matching_count m conn in if decide (n = 0) then None else Some n.

Lemma matches_lengths m r :
  router_inv r → message_paired m →
  (λ sids, Z.of_nat (length sids)) <$> matches_of (r_routes r) m =
  omap (matched_entry m) (r_connections r).
Proof.
  intros Hinv Hm. apply map_eq. intros c. rewrite lookup_fmap, lookup_omap.
  pose proof (matches_ok m r c Hinv Hm) as Hmc. unfold matched_entry.
  destruct (matches_of (r_routes r) m !! c) as [sids|]; simpl.
  - destruct Hmc as (conn & -> & Hne & Hids & _). simpl.
    rewrite <-(matching_ids_length _ _ _ Hids). rewrite decide_False; [done|].
    destruct sids; [done|simpl; lia].
  - destruct (r_connections r !! c) as [conn|]; [|done]. simpl.
    rewrite matching_count_zero by naive_solver. done.
Qed.

(** The table of matches holds the subscriptions the reference matcher
    selects. *)
Lemma matched_total m r :
  router_inv r → message_paired m →
  map_sum (λ sids, Z.of_nat (length sids)) (matches_of (r_routes r) m) =
  map_sum (matching_count m) (r_connections r).
Proof.
  intros Hinv Hm. assert (∀ b : Bucket, map_sum (λ sids, Z.of_nat (length sids)) b =
    map_sum id ((λ sids, Z.of_nat (length sids)) <$> b)) as Hid.
  { intros b. unfold map_sum. by rewrite map_fold_fmap. }
  rewrite Hid, matches_lengths, map_sum_omap by done. apply map_sum_ext. intros c conn _.
  unfold matched_entry. by case_decide as Hz; [rewrite Hz|].
Qed.

(** The report is exact: it counts the subscriptions the reference
    matcher selects over all connections, and every connection with at least
    one of them under exactly one of delivered, full and closed. *)
Lemma dispatch_report_exact iter e1 e2 m r r' report
    (Hiter : iterates iter) (Hok : router_ok r) (Hm : message_paired m)
    (Hrun : dispatch iter e1 e2 m r = Some (r', report)) :
  dr_matched_subscriptions report = map_sum (matching_count m) (r_connections r) ∧
  dr_delivered_connections report + dr_full_connections report + dr_closed_connections report =
    map_count (λ conn, negb (matching_count m conn =? 0)) (r_connections r).
Proof.
  destruct (dispatch_run iter e1 e2 m r Hiter Hok) as (r1 & report1 & fo & Hrun1 & Hd).
  simplify_eq. destruct Hd as [Hen _ _ _ _ _ ->]. simpl.
  pose proof (matches_lengths m r (proj1 Hok) Hm) as Hlen. split.
  - apply matched_total; [apply Hok|done].
  - destruct (enqueue_spec m _ r (iter_NoDup iter (matches_of (r_routes r) m) Hiter)) as
      (fo' & Hen' & _ & _ & _ & _ & _ & Ed & Ef & Ec & _). simplify_eq.
    rewrite Ed, Ef, Ec, sum_outcomes, (Permutation_length (Hiter _)), length_map_to_list.
    rewrite <-(map_size_fmap (λ sids, Z.of_nat (length sids))), Hlen.
    rewrite <-map_count_size. unfold map_count. rewrite map_sum_omap. apply map_sum_ext.
    intros c conn _. unfold matched_entry. case_decide as Hz; simpl.
    + by rewrite Hz.
    + by rewrite (proj2 (Z.eqb_neq _ _) Hz).
Qed.

(** A run of dispatches, each with its measured durations. *)
Fixpoint dispatch_all iter (msgs : list (Z * Z * RoutedMessage)) r : option (RouterState Chan) :=
  match msgs with
  | [] => Some r
  | (e1, e2, m) :: rest =>
    '(r', _) ← dispatch iter e1 e2 m r; dispatch_all iter rest r'
  end.

(** A connection that is gone stays gone. *)
Lemma dispatch_all_absent iter msgs r c :
  iterates iter → router_ok r → Forall (λ e, message_paired e.2) msgs →
  r_connections r !! c = None →
  ∃ r', dispatch_all iter msgs r = Some r' ∧ router_ok r' ∧ r_connections r' !! c = None.
Proof.
  intros Hi. revert r. induction msgs as [|[[e1 e2] m] msgs IH]; intros r Hok Hps Hc; simpl.
  { by exists r. }
  apply Forall_cons in Hps as [Hp Hps]. simpl in Hp.
  destruct (dispatch_run iter e1 e2 m r Hi Hok) as (r' & report & fo & -> & Hd). simpl.
  apply IH; [by destruct Hd|done|].
  pose proof (matches_ok m r c (proj1 Hok) Hp) as Hmc.
  destruct (matches_of (r_routes r) m !! c) as [sids|] eqn:E; [naive_solver|].
  by destruct (dispatched_unmatched _ _ _ _ _ _ _ Hi Hd E) as [-> _].
Qed.

(** (C20) A consumer that stops reading is evicted after exactly the
    configured number of consecutive full outcomes: while its queue stays
    full, [n] matching messages leave it with [n] more strikes when that is
    below the limit [max(slow_consumer_strikes, 1)], and without a
    connection from then on. *)
Theorem slow_consumer_evicted iter msgs r c conn ch
    (Hiter : iterates iter) (Hok : router_ok r)
    (Hmsgs : Forall (λ e, message_paired e.2 ∧ ∃ sid, subscription_matches conn e.2 sid) msgs)
    (Hc : r_connections r !! c = Some conn) (Hch : r_channels r !! c = Some ch)
    (Hopen : rx_open ch = true) (Hfull : capacity ch ≤ Z.of_nat (length (queued ch))) :
  ∃ r', dispatch_all iter msgs r = Some r' ∧ router_ok r' ∧
    let strikes := cs_full_strikes conn + Z.of_nat (length msgs) in
    r_connections r' !! c =
      if strikes <? strike_limit (r_config r) then Some (with_strikes strikes conn) else None.
Proof.
  revert r conn Hok Hmsgs Hc Hch.
  induction msgs as [|[[e1 e2] m] msgs IH]; intros r conn Hok Hmsgs Hc Hch; simpl.
  { exists r. split_and!; [done..|]. destruct Hok as [_ Hst]. destruct (Hst _ _ Hc) as [_ Hlt].
    rewrite Z.add_0_r, (proj2 (Z.ltb_lt _ _)) by apply Hlt, not_elem_of_nil.
    rewrite Hc. by destruct conn. }
  apply Forall_cons in Hmsgs as [[Hp [sid Hsid]] Hmsgs]. simpl in Hp, Hsid.
  destruct (dispatch_run iter e1 e2 m r Hiter Hok) as (r1 & report & fo & -> & Hd). simpl.
  pose proof (matches_ok m r c (proj1 Hok) Hp) as Hmc.
  destruct (matches_of (r_routes r) m !! c) as [sids|] eqn:E; [|by destruct (Hmc _ sid Hc)].
  destruct (dispatched_matched _ _ _ _ _ _ _ _ _ _ Hiter Hok Hd E Hc Hch) as (_ & Hcase & _).
  specialize (Hcase Hopen Hfull). pose proof (dsp_config _ _ _ _ _ _ Hd) as Ecfg.
  destruct (Z.ltb_spec (cs_full_strikes conn + 1) (strike_limit (r_config r))) as [Hl|Hl].
  - destruct Hcase as [Hc1 Hch1].
    destruct (IH r1 (with_strikes (cs_full_strikes conn + 1) conn)) as (r' & Hrun & Hok' & Hr');
      [by destruct Hd|done..|].
    exists r'. split_and!; [done..|]. rewrite Hr', Ecfg. simpl.
    replace (cs_full_strikes conn + 1 + Z.of_nat (length msgs))
      with (cs_full_strikes conn + Z.of_nat (S (length msgs))) by lia. done.
  - destruct (dispatch_all_absent iter msgs r1 c) as (r' & Hrun & Hok' & Hr');
      [done|by destruct Hd| |by destruct Hcase|].
    { eapply Forall_impl; [exact Hmsgs|]. by intros ? []. }
    exists r'. split_and!; [done..|]. rewrite Hr'. symmetry.
    rewrite (proj2 (Z.ltb_ge _ _)); [done|lia].
Qed.
End dispatch.
