(* ===== verification/RouterOps.v ===== *)
(** * Sequences of router operations

    Round trips and closed forms of the operations that change the
    subscription table, independence of [dispatch] from map iteration order,
    and the reachable states of a router as a step relation over every public
    operation and every move of a consumer. *)

From S2P Require Import Prelude Str Ids Message Route Metrics RouteIndex Channel Router.
From S2P Require Import RouterInv RouterDispatch RouterSpec.
Open Scope Z_scope.

Section operations.
Context `{MpscLaws Delivery Chan}.
Implicit Types (r : RouterState Chan) (c : ConnectionId) (sid : SubscriptionId).
Implicit Types (m : RoutedMessage).

(** Everything but the metrics. *)
Definition same_tables r1 r2 : Prop :=
  r_config r1 = r_config r2 ∧ r_connections r1 = r_connections r2 ∧
  r_routes r1 = r_routes r2 ∧ r_channels r1 = r_channels r2.

#[global] Instance same_tables_equiv : Equivalence same_tables.
Proof.
  split.
  - intros r. by split_and!.
  - intros r1 r2 (?&?&?&?). by split_and!.
  - intros r1 r2 r3 (?&?&?&?) (?&?&?&?). split_and!; congruence.
Qed.

(** Iteration order is immaterial: two orders in which the table of
    matches may be walked give the same report, connections, index and
    queues. *)
Lemma dispatch_order_independent iter1 iter2 e1 e2 e1' e2' m r
    (Hi1 : iterates iter1) (Hi2 : iterates iter2) (Hok : router_ok r) :
  ∃ r1 r2 report, dispatch iter1 e1 e2 m r = Some (r1, report) ∧
    dispatch iter2 e1' e2' m r = Some (r2, report) ∧ same_tables r1 r2.
Proof.
  destruct (dispatch_run iter1 e1 e2 m r Hi1 Hok) as (r1 & rep1 & fo1 & Hr1 & D1).
  destruct (dispatch_run iter2 e1' e2' m r Hi2 Hok) as (r2 & rep2 & fo2 & Hr2 & D2).
  destruct D1 as [Hrun1 Cf1 C1 Ch1 I1 [Inv1 _] ->], D2 as [Hrun2 Cf2 C2 Ch2 I2 [Inv2 _] ->].
  set (b := matches_of (r_routes r) m) in *.
  assert (iter1 b ≡ₚ iter2 b) as Hperm by by rewrite (Hi1 b), (Hi2 b).
  destruct (enqueue_spec m _ r (iter_NoDup iter1 b Hi1)) as
    (f1 & E1 & _ & _ & _ & Hoff1 & Hon1 & Hd1 & Hf1 & Hc1 & Hx1).
  destruct (enqueue_spec m _ r (iter_NoDup iter2 b Hi2)) as
    (f2 & E2 & _ & _ & _ & Hoff2 & Hon2 & Hd2 & Hf2 & Hc2 & Hx2).
  simplify_eq.
  assert (∀ c, r_connections (fo_router fo1) !! c = r_connections (fo_router fo2) !! c ∧
               r_channels (fo_router fo1) !! c = r_channels (fo_router fo2) !! c) as Heq.
  { intros c. destruct (decide (c ∈ (iter1 b).*1)) as [Hin|Hni].
    - apply list_elem_of_fmap in Hin as (item & -> & Hin). specialize (Hon1 _ Hin).
      rewrite Hperm in Hin. specialize (Hon2 _ Hin).
      destruct (attempt r m item) as [[[conn ch] res]|];
        destruct Hon1 as [-> ->], Hon2 as [-> ->]; done.
    - destruct (Hoff1 _ Hni) as [-> ->]. rewrite Hperm in Hni.
      destruct (Hoff2 _ Hni) as [-> ->]. done. }
  assert (∀ c, c ∈ fo_disconnect fo1 ↔ c ∈ fo_disconnect fo2) as Hx.
  { intros c. rewrite Hx1, Hx2. by rewrite Hperm. }
  eexists _, _, _. split; [done|]. split.
  { rewrite Hr2, Hd1, Hd2, Hf1, Hf2, Hc1, Hc2. by rewrite !(sumZ_perm _ _ _ Hperm). }
  assert (∀ {X} c (x y : X), (if decide (c ∈ fo_disconnect fo1) then x else y) =
    if decide (c ∈ fo_disconnect fo2) then x else y) as Hdec.
  { intros X c x y. apply decide_ext. apply Hx. }
  split_and!; [congruence|..].
  - apply map_eq. intros c. by rewrite C1, C2, Hdec, (proj1 (Heq c)).
  - apply tidy_ext; [by destruct (inv_index _ Inv1)|by destruct (inv_index _ Inv2)|].
    intros key c. by rewrite I1, I2, Hdec.
  - apply map_eq. intros c. rewrite Ch1, Ch2, (proj2 (Heq c)). apply decide_ext.
    by rewrite Hx, (proj1 (Heq c)).
Qed.

(** Subscribing and unsubscribing the same id is the identity on the
    connections, the index and the queues. *)
Lemma subscribe_unsubscribe_roundtrip c sid f r r'
    (Hok : router_ok r) (Hsub : subscribe c sid f r = (r', Ok tt)) :
  ∃ r'', unsubscribe c sid r' = (r'', Ok tt) ∧ same_tables r'' r.
Proof.
  pose proof (subscribe_ok c sid f r Hok) as Hok'. rewrite Hsub in Hok'. simpl in Hok'.
  unfold subscribe in Hsub. destruct (RouteFilter_validate f); [|done].
  destruct (r_connections r !! c) as [conn|] eqn:Hc; [|done].
  destruct (_ || _); [done|]. case_bool_decide; [done|].
  case_bool_decide as Hs; [done|]. destruct (_ <=? _); [done|]. apply eq_None_not_Some in Hs.
  injection Hsub as <-. set (r' := {| r_config := _ |}) in *.
  pose proof (unsubscribe_ok c sid r' Hok') as Hok''. unfold unsubscribe in *. simpl in *.
  rewrite lookup_insert_eq in *. simpl in *. rewrite lookup_insert_eq in *.
  eexists. split; [done|]. destruct Hok'' as [[_ [Ht'' _] _ _ _ _] _].
  destruct Hok as [[_ Hidx _ _ _ _] _].
  pose proof (index_not_in _ _ _ _ _ (RouteKey_from f) Hidx Hc Hs) as Hni.
  destruct Hidx as (Ht & _ & _). simpl in *. split_and!; simpl; [done| | |done].
  - rewrite insert_insert_eq. apply insert_id. rewrite Hc. f_equal.
    destruct conn; simpl in *. unfold with_subscriptions; simpl. by rewrite delete_insert_id.
  - apply tidy_ext; [done..|]. intros key c'. rewrite ids_remove by by apply tidy_push.
    rewrite ids_push. case_decide as Hd; [|by rewrite app_nil_r].
    destruct Hd as [<- <-]. rewrite filter_app, filter_cons_False by naive_solver.
    rewrite filter_nil, app_nil_r. apply filter_all. intros x Hx ->. done.
Qed.

(** Removing a connection removes it and every trace of it from the
    index, closes its queue for sending without losing what is queued, and
    touches nothing else; a second removal changes nothing. *)
Lemma unregister_removes_everything c r (Hok : router_ok r) :
  let r' := unregister_connection c r in
  r_connections r' = delete c (r_connections r) ∧
  (∀ key c', ids (r_routes r') key c' = if decide (c = c') then [] else ids (r_routes r) key c') ∧
  (∀ c', c' ≠ c → r_channels r' !! c' = r_channels r !! c') ∧
  (∀ conn ch, r_connections r !! c = Some conn → r_channels r !! c = Some ch →
     ∃ ch', r_channels r' !! c = Some ch' ∧ tx_open ch' = false ∧ queued ch' = queued ch) ∧
  unregister_connection c r' = r'.
Proof.
  intros r'. destruct (unregister_connections c r) as [Hc _]. split_and!.
  - done.
  - intros key c'. by apply unregister_ids, Hok.
  - intros c' Hne. unfold r'. rewrite unregister_channels, decide_False; [done|]. naive_solver.
  - intros conn ch Hconn Hch. exists (drop_sender ch).
    unfold r'. rewrite unregister_channels, decide_True by (rewrite Hconn; eauto).
    rewrite Hch. split; [done|]. destruct (drop_sender_obs ch) as (? & ? & _). done.
  - unfold unregister_connection at 1. fold r' in Hc. by rewrite Hc, lookup_delete_eq.
Qed.

(** The tables a client sees: everything but metrics and closed queues. *)
Definition same_subscriptions r1 r2 : Prop :=
  r_config r1 = r_config r2 ∧ r_connections r1 = r_connections r2 ∧ r_routes r1 = r_routes r2.

(** Subscriptions do not touch queues. *)
Lemma subscribe_channels c sid f r : r_channels (subscribe c sid f r).1 = r_channels r.
Proof. unfold subscribe. by repeat case_match. Qed.
Lemma unsubscribe_channels c sid r : r_channels (unsubscribe c sid r).1 = r_channels r.
Proof. unfold unsubscribe. by repeat case_match. Qed.

(** The queues other than that of [c] are those of [r0]. *)
Definition queues_kept c r0 r : Prop := ∀ c', c' ≠ c → r_channels r !! c' = r_channels r0 !! c'.

Lemma queues_kept_refl c r : queues_kept c r r.
Proof. done. Qed.

Lemma register_queues c t p cap r : queues_kept c r (register_connection c t p cap r).1.
Proof.
  intros c' Hne. unfold register_connection. repeat case_match; simpl; try done.
  by rewrite lookup_insert_ne.
Qed.

Lemma unregister_queues c r0 r : queues_kept c r0 r → queues_kept c r0 (unregister_connection c r).
Proof. intros Hk c' Hne. rewrite unregister_channels, decide_False by naive_solver. by apply Hk. Qed.

(** *** Setting up and tearing down several connections *)

(** Dropping the owner of some connections removes them in order. *)
Definition unregister_all (own : list ConnectionId) r : RouterState Chan :=
  foldl (λ r c, unregister_connection c r) r own.

(** [r] differs from [r0] at most at the connections [own]. *)
Definition extends_by (own : list ConnectionId) r0 r : Prop :=
  r_config r = r_config r0 ∧
  ∀ c, c ∉ own → r_connections r !! c = r_connections r0 !! c ∧
                 ∀ key, ids (r_routes r) key c = ids (r_routes r0) key c.

Lemma extends_by_refl own r : extends_by own r r.
Proof. done. Qed.

Lemma register_extends own fresh t p cap r0 r r1 res :
  register_connection fresh t p cap r = (r1, res) → extends_by own r0 r →
  extends_by (if is_ok res then own ++ [fresh] else own) r0 r1.
Proof.
  intros Hreg [Hc He]. unfold register_connection in Hreg.
  repeat case_match; simplify_eq/=; try by split. split; [done|]. intros c Hni. simpl.
  rewrite lookup_insert_ne by set_solver. apply He. set_solver.
Qed.

Lemma subscribe_extends own c sid f r0 r r1 res :
  c ∈ own → subscribe c sid f r = (r1, res) → extends_by own r0 r → extends_by own r0 r1.
Proof.
  intros Hin Hsub [Hc He]. unfold subscribe in Hsub. repeat case_match; simplify_eq/=; try by split.
  split; [done|]. intros c' Hni. simpl. rewrite lookup_insert_ne by set_solver.
  destruct (He c' Hni) as [Hconn Hids]. split; [done|]. intros key.
  rewrite ids_push, decide_False, app_nil_r by set_solver. apply Hids.
Qed.

Lemma unsubscribe_extends own c sid r0 r r1 res :
  router_inv r → c ∈ own → unsubscribe c sid r = (r1, res) → extends_by own r0 r → extends_by own r0 r1.
Proof.
  intros Hinv Hin Hsub [Hc He]. unfold unsubscribe in Hsub. repeat case_match; simplify_eq/=; try by split.
  split; [done|]. intros c' Hni. simpl. rewrite lookup_insert_ne by set_solver.
  destruct (He c' Hni) as [Hconn Hids]. split; [done|]. intros key.
  rewrite ids_remove by (by destruct (inv_index _ Hinv)). case_decide; [set_solver|]. apply Hids.
Qed.

Lemma unregister_extends own c r0 r :
  router_inv r → r_connections r0 !! c = None → router_inv r0 → extends_by (c :: own) r0 r →
  extends_by own r0 (unregister_connection c r).
Proof.
  intros Hinv Hc Hinv0 [Hcfg He]. destruct (unregister_connections c r) as [Ec Ecfg].
  split; [congruence|]. intros c' Hni. rewrite Ec. setoid_rewrite unregister_ids; [|done].
  destruct (decide (c = c')) as [<-|Hne].
  - rewrite lookup_delete_eq. split; [done|]. intros key.
    symmetry. by eapply index_absent; [apply Hinv0|].
  - rewrite lookup_delete_ne by done. apply He. set_solver.
Qed.

(** A connection that was registered and given one subscription. *)
Lemma attached_tables c sid f t p cap r r1 r2 :
  (∀ n, cap = Some n → 0 ≤ n) → config_ok (r_config r) →
  register_connection c t p cap r = (r1, Ok c) → subscribe c sid f r1 = (r2, Ok tt) →
  ∃ n conn, 0 < n ∧ cs_subscriptions conn = {[sid := f]} ∧
    r_connections r2 = <[c := conn]> (r_connections r) ∧
    r_channels r2 = <[c := channel n]> (r_channels r).
Proof.
  intros Hcap Hcfg Hreg Hsub.
  assert (∃ n conn, 0 < n ∧ cs_subscriptions conn = ∅ ∧
    r_connections r1 = <[c := conn]> (r_connections r) ∧
    r_channels r1 = <[c := channel n]> (r_channels r)) as (n & conn & Hn & Hs & Ec & Ech).
  { unfold register_connection in Hreg.
    assert (0 ≤ default (rc_default_queue_capacity (r_config r)) cap) as Hpos.
    { destruct cap; simpl; [by apply Hcap|]. apply (cfg_default_queue _ Hcfg). }
    repeat case_match; simplify_eq/=. eexists _, _. split; [|split; [|done]]; [lia|done]. }
  unfold subscribe in Hsub. rewrite Ec, lookup_insert_eq in Hsub.
  repeat case_match; simplify_eq/=. exists n, (with_subscriptions <[sid := f]> conn). simpl.
  rewrite Hs. split_and!; [done|done| |done]. by rewrite ?Ec, insert_insert_eq.
Qed.

(** Removing the connections that were added restores the tables. *)
Lemma unregister_all_restores own r0 r :
  router_inv r0 → router_inv r → (∀ c, c ∈ own → r_connections r0 !! c = None) →
  extends_by own r0 r → same_subscriptions (unregister_all own r) r0.
Proof.
  intros Hinv0. revert r. induction own as [|c own IH]; simpl; intros r Hinv Hnew Hext.
  - destruct Hext as [Hcfg He]. split_and!; [done| |].
    + apply map_eq. intros c. apply He. set_solver.
    + apply tidy_ext; [by destruct (inv_index _ Hinv)|by destruct (inv_index _ Hinv0)|].
      intros key c. apply He. set_solver.
  - apply IH; [by apply unregister_connection_inv|set_solver|].
    apply unregister_extends; auto. apply Hnew. left.
Qed.

(** A refused registration or subscription changes no table: at most
    the counter of rejections moves. *)
Lemma refused_operations_change_nothing r fresh t p cap c sid f e :
  ((register_connection fresh t p cap r).2 = Err e →
     same_tables (register_connection fresh t p cap r).1 r) ∧
  ((subscribe c sid f r).2 = Err e → same_tables (subscribe c sid f r).1 r) ∧
  ((unsubscribe c sid r).2 = Err e → (unsubscribe c sid r).1 = r).
Proof.
  split_and!.
  - unfold register_connection. repeat case_match; simpl; done.
  - unfold subscribe. repeat case_match; simpl; done.
  - unfold unsubscribe. repeat case_match; simpl; done.
Qed.
End operations.

(** ** Reachable states *)

Section steps.
Context `{MpscLaws Delivery Chan}.
Implicit Types (r : RouterState Chan) (c : ConnectionId) (sid : SubscriptionId).
Implicit Types (m : RoutedMessage).

(** A move of the task that owns the receiver of [c]. *)
Definition consume (f : Chan → Chan) c r : RouterState Chan := {|
  r_config := r_config r; r_connections := r_connections r; r_routes := r_routes r;
  r_metrics := r_metrics r; r_channels := alter f c (r_channels r) |}.

(** Calls that take the mutation lock, and moves of consumers.  The id
    [ConnectionId::new] draws was never drawn before, and capacities are
    unsigned. *)
Inductive mutation : RouterState Chan → RouterState Chan → Prop :=
| mut_register fresh t p cap r :
    r_connections r !! fresh = None → r_channels r !! fresh = None →
    (∀ n, cap = Some n → 0 ≤ n) →
    mutation r (register_connection fresh t p cap r).1
| mut_subscribe c sid f r : mutation r (subscribe c sid f r).1
| mut_unsubscribe c sid r : mutation r (unsubscribe c sid r).1
| mut_unregister c r : mutation r (unregister_connection c r)
| mut_recv c r : mutation r (consume (λ ch, (recv ch).1) c r)
| mut_drop_receiver c r : mutation r (consume drop_receiver c r).

Inductive router_step : RouterState Chan → RouterState Chan → Prop :=
| step_mutation r r' : mutation r r' → router_step r r'
| step_dispatch iter e1 e2 m r r' report :
    iterates iter → dispatch iter e1 e2 m r = Some (r', report) → router_step r r'.

Lemma recv_obs (ch : Chan) :
  capacity (recv ch).1 = capacity ch ∧ ∃ l, queued ch = l ++ queued (recv ch).1.
Proof.
  destruct (queued ch) as [|a rest] eqn:E.
  - rewrite recv_empty by done. split; [done|]. exists []. simpl. by rewrite E.
  - destruct (recv_item a rest ch E) as (_ & -> & -> & _). split; [done|]. by exists [a].
Qed.

Lemma consume_inv f c r :
  (∀ ch, capacity (f ch) = capacity ch ∧ (length (queued (f ch)) ≤ length (queued ch))%nat) →
  router_inv r → router_inv (consume f c r).
Proof.
  intros Hf [???? Hg Hch]. split; simpl; try done.
  intros c' conn' Hc'. destruct (Hch _ _ Hc') as (ch & Hlk & Hok).
  destruct (decide (c = c')) as [->|Hne]; [|rewrite lookup_alter_ne; eauto].
  rewrite lookup_alter_eq, Hlk. eexists. split; [reflexivity|]. destruct (Hf ch) as [Hcap Hlen], Hok as [Hb Hq].
  unfold chan_ok. rewrite Hcap. lia.
Qed.

Lemma recv_inv c r : router_inv r → router_inv (consume (λ ch, (recv ch).1) c r).
Proof.
  apply consume_inv. intros ch. destruct (recv_obs ch) as (Hcap & l & Hq). split; [done|].
  rewrite Hq, length_app. lia.
Qed.

Lemma drop_receiver_inv c r : router_inv r → router_inv (consume drop_receiver c r).
Proof.
  apply consume_inv. intros ch. destruct (drop_receiver_obs ch) as (_ & -> & ->).
  split; [done|simpl; lia].
Qed.

Lemma mutation_ok r r' : mutation r r' → router_ok r → router_ok r'.
Proof.
  intros [] Hok; [by apply register_connection_ok|by apply subscribe_ok|by apply unsubscribe_ok
    |by apply unregister_connection_ok|..]; destruct Hok as [Hinv Hst]; (split; [|done]).
  - by apply recv_inv.
  - by apply drop_receiver_inv.
Qed.

Lemma router_step_ok r r' : router_step r r' → router_ok r → router_ok r'.
Proof.
  intros [|iter e1 e2 m r1 r2 report Hi Hrun] Hok; [by eapply mutation_ok|].
  destruct (dispatch_run iter e1 e2 m r1 Hi Hok) as (r3 & report' & fo & Hrun' & D).
  simplify_eq. by destruct D.
Qed.

(** (C6) The invariant of every reachable state.  Whatever sequence of
    registrations, subscriptions, removals, dispatches and consumer moves a
    router goes through: the index holds exactly the subscriptions of its
    connections and no empty bucket; filters are valid and of the tenant of
    their connection; every limit of the configuration holds; queues stay
    within their capacity; strikes stay below the eviction limit; the
    gauges count the connections and subscriptions per protocol. *)
Theorem reachable_router_ok config r
    (Hcfg : config_ok config) (Hreach : rtc router_step (Router_new config) r) :
  router_ok r.
Proof.
  remember (Router_new config) as r0 eqn:E.
  assert (router_ok r0) as Hok by (subst r0; by apply Router_new_ok). clear E.
  induction Hreach as [|r1 r2 r3 Hstep _ IH]; [done|]. by apply IH, (router_step_ok r1).
Qed.

(** Reachable states only hold ids that were drawn once. *)
Lemma connection_has_channel r c conn :
  router_inv r → r_connections r !! c = Some conn → is_Some (r_channels r !! c).
Proof. intros Hinv Hc. destruct (inv_channels _ Hinv _ _ Hc) as (ch & -> & _). eauto. Qed.
End steps.
