(* ===== verification/Concurrency.v ===== *)
(** * Dispatch interleaved with mutations

    [Router::dispatch] does not take the mutation lock: each lookup of a
    route key, each send to a connection and each removal of a marked
    connection is atomic on its own (a shard lock of the maps, or the mutation
    lock), and anything may happen in between.  This file runs any number of
    dispatches step by step against each other and against registrations,
    subscriptions, removals and consumers, and shows what survives every
    interleaving: the invariant of the tables, tenant isolation of every
    queue, and that no dispatch panics.

    [subscribe] and [unsubscribe] touch [routes] in one map operation, and
    [dispatch] reads nothing else they change, so treating a call as one step
    loses no behaviour.  [unregister_connection] first removes the connection
    and then its index entries; a dispatch that reads the index in between
    finds the connection gone, as one that read it before the call does. *)

From S2P Require Import Prelude Str Ids Message Route Metrics RouteIndex Channel Router.
From S2P Require Import RouterInv RouterDispatch RouterSpec RouterOps.
Open Scope Z_scope.

(** A dispatch in flight. *)
Inductive Task : Type :=
| Matching (m : RoutedMessage) (keys : list RouteKey) (acc : Bucket)
| Sending (m : RoutedMessage) (count : nat) (message : option RoutedMessage)
    (items : list (nat * (ConnectionId * list SubscriptionId)))
    (report : DispatchReport) (disconnect : list ConnectionId)
| Removing (report : DispatchReport) (disconnect : list ConnectionId).

Section interleaving.
Context `{MpscLaws Delivery Chan}.
Implicit Types (r : RouterState Chan) (c : ConnectionId) (ts : list Task).
Implicit Types (m : RoutedMessage).

(** One turn of a loop of [dispatch], in the state it finds. *)
Inductive task_step : RouterState Chan → Task → RouterState Chan → option Task → Prop :=
| ts_lookup r m key keys acc :
    task_step r (Matching m (key :: keys) acc) r
      (Some (Matching m keys
        match r_routes r !! key with Some bucket => add_bucket bucket acc | None => acc end))
| ts_matched iter elapsed r m acc :
    iterates iter →
    task_step r (Matching m [] acc) (with_metrics (record_latency Match elapsed) r)
      (Some (Sending m (length (iter acc)) (Some m) (imap pair (iter acc))
        {| dr_matched_subscriptions := map_sum (λ sids, Z.of_nat (length sids)) acc;
           dr_delivered_connections := 0; dr_full_connections := 0;
           dr_closed_connections := 0 |} []))
| ts_send r m count message item items rep disconnect fo :
    fan_out_step count
      {| fo_router := r; fo_message := message; fo_delivered := dr_delivered_connections rep;
         fo_full := dr_full_connections rep; fo_closed := dr_closed_connections rep;
         fo_disconnect := disconnect |} item = Some fo →
    task_step r (Sending m count message (item :: items) rep disconnect) (fo_router fo)
      (Some (Sending m count (fo_message fo) items
        {| dr_matched_subscriptions := dr_matched_subscriptions rep;
           dr_delivered_connections := fo_delivered fo; dr_full_connections := fo_full fo;
           dr_closed_connections := fo_closed fo |} (fo_disconnect fo)))
| ts_sent r m count message rep disconnect :
    task_step r (Sending m count message [] rep disconnect) r (Some (Removing rep disconnect))
| ts_remove r rep c disconnect :
    task_step r (Removing rep (c :: disconnect))
      (unregister_connection c (with_metrics record_slow_disconnect r))
      (Some (Removing rep disconnect))
| ts_done elapsed r rep :
    task_step r (Removing rep [])
      (with_metrics (record_dispatch (dr_matched_subscriptions rep)
          (dr_delivered_connections rep) (dr_full_connections rep) (dr_closed_connections rep))
        (with_metrics (record_latency Enqueue elapsed) r)) None.

(** The router with the dispatches in flight. *)
Inductive sys_step : RouterState Chan * list Task → RouterState Chan * list Task → Prop :=
| sys_mutation r r' ts : mutation r r' → sys_step (r, ts) (r', ts)
| sys_begin m r ts :
    message_paired m →
    sys_step (r, ts)
      (with_metrics record_valid_message r,
       Matching m (RouteKey_candidates (rm_metadata m)) ∅ :: ts)
| sys_task r r' ts1 t t' ts2 :
    task_step r t r' t' → sys_step (r, ts1 ++ t :: ts2) (r', ts1 ++ option_list t' ++ ts2).

(** The connection of id [c], if any, is of this tenant, and the id was drawn. *)
Definition addressed r (tenant : string) c : Prop :=
  is_Some (r_channels r !! c) ∧
  ∀ conn, r_connections r !! c = Some conn → cs_tenant_id conn = tenant.

(** What holds of a dispatch between its steps. *)
Definition task_ok r (t : Task) : Prop :=
  match t with
  | Matching m keys acc =>
      message_paired m ∧ (∀ k, k ∈ keys → rk_tenant_id k = md_tenant_id (rm_metadata m)) ∧
      ∀ c, is_Some (acc !! c) → addressed r (md_tenant_id (rm_metadata m)) c
  | Sending m count message items _ _ =>
      (∀ item, item ∈ items → addressed r (md_tenant_id (rm_metadata m)) item.2.1) ∧
      (message = None ∨ message = Some m) ∧
      ∃ k its, items = imap (λ i x, ((k + i)%nat, x)) its ∧ (k + length its = count)%nat ∧
        (its ≠ [] → message = Some m)
  | Removing _ _ => True
  end.

(** Every queued delivery is of the tenant of its connection. *)
Definition queues_isolated r : Prop :=
  ∀ c conn ch, r_connections r !! c = Some conn → r_channels r !! c = Some ch →
    Forall (λ d, md_tenant_id (rm_metadata (d_message d)) = cs_tenant_id conn) (queued ch).

Definition sys_ok (s : RouterState Chan * list Task) : Prop :=
  router_inv s.1 ∧ queues_isolated s.1 ∧ Forall (task_ok s.1) s.2.

(** A step of the tables that never gives an id to another tenant. *)
Definition tenants_kept r r' : Prop :=
  (∀ c, is_Some (r_channels r !! c) → is_Some (r_channels r' !! c)) ∧
  ∀ c conn', r_connections r' !! c = Some conn' → is_Some (r_channels r !! c) →
    ∃ conn, r_connections r !! c = Some conn ∧ cs_tenant_id conn = cs_tenant_id conn'.

Lemma addressed_kept r r' tenant c :
  tenants_kept r r' → addressed r tenant c → addressed r' tenant c.
Proof.
  intros [Hch Hc] [Hs Ht]. split; [by apply Hch|]. intros conn' Hc'.
  destruct (Hc _ _ Hc' Hs) as (conn & ? & <-). by apply Ht.
Qed.

Lemma task_kept r r' t : tenants_kept r r' → task_ok r t → task_ok r' t.
Proof.
  intros Hk. destruct t; simpl; [|naive_solver eauto using addressed_kept|done].
  intros (? & ? & Ha). split_and!; [done..|]. intros c Hc. by eapply addressed_kept, Ha.
Qed.

Lemma tenants_kept_refl r : tenants_kept r r.
Proof. split; [done|]. eauto. Qed.

(** *** Mutations *)

Lemma mutation_inv r r' : mutation r r' → router_inv r → router_inv r'.
Proof.
  intros [] Hinv; [by apply register_connection_inv|by apply subscribe_inv
    |by apply unsubscribe_inv|by apply unregister_connection_inv|by apply recv_inv
    |by apply drop_receiver_inv].
Qed.

(** The queues of the connections of [r'] are, up to items already consumed,
    those of [r] under the same tenant, or empty. *)
Definition queues_from r r' : Prop :=
  ∀ c conn' ch', r_connections r' !! c = Some conn' → r_channels r' !! c = Some ch' →
    queued ch' = [] ∨
    ∃ conn ch, r_connections r !! c = Some conn ∧ r_channels r !! c = Some ch ∧
      cs_tenant_id conn = cs_tenant_id conn' ∧ queued ch' ⊆ queued ch.

Lemma isolated_from r r' : queues_from r r' → queues_isolated r → queues_isolated r'.
Proof.
  intros Hf Hi c conn' ch' Hc' Hch'.
  destruct (Hf _ _ _ Hc' Hch') as [->|(conn & ch & Hc & Hch & Ht & Hq)]; [constructor|].
  specialize (Hi _ _ _ Hc Hch). rewrite Ht in Hi. rewrite Forall_forall in *. auto.
Qed.

Lemma register_channels fresh t p cap r c :
  is_Some (r_channels r !! c) → r_channels r !! fresh = None →
  r_channels (register_connection fresh t p cap r).1 !! c = r_channels r !! c.
Proof.
  intros Hc Hf. unfold register_connection. repeat case_match; simpl; try done.
  rewrite lookup_insert_ne; [done|]. intros ->. rewrite Hf in Hc. by destruct Hc.
Qed.

Lemma unregister_kept c r : tenants_kept r (unregister_connection c r).
Proof.
  split; intros c'.
  - rewrite unregister_channels. case_decide; [|done]. intros [ch ->]. eauto.
  - intros conn'. destruct (unregister_connections c r) as [-> _].
    rewrite lookup_delete. case_decide; [done|]. eauto.
Qed.

Lemma unregister_from c r : queues_from r (unregister_connection c r).
Proof.
  intros c' conn' ch'. destruct (unregister_connections c r) as [-> _].
  rewrite lookup_delete, unregister_channels. case_decide; [done|].
  rewrite decide_False by naive_solver. intros Hc Hch. right. eauto 10.
Qed.

Lemma consume_kept f c r : tenants_kept r (consume f c r).
Proof.
  split; [|simpl; eauto]. intros c' [ch Hch]. simpl. destruct (decide (c = c')) as [->|Hne].
  - rewrite lookup_alter_eq, Hch. eauto.
  - rewrite lookup_alter_ne; eauto.
Qed.

Lemma consume_from f c r :
  (∀ ch, queued (f ch) ⊆ queued ch) → queues_from r (consume f c r).
Proof.
  intros Hf c' conn' ch' Hc'. simpl in *. destruct (decide (c = c')) as [->|Hne].
  - rewrite lookup_alter_eq. intros (ch & Hch & ->)%fmap_Some. right. eauto 10.
  - rewrite lookup_alter_ne by done. right. eauto 10.
Qed.

Lemma mutation_kept r r' : mutation r r' → tenants_kept r r'.
Proof.
  intros [fresh t p cap r0 Hf1 Hf2 Hcap|c sid f|c sid|c|c|c];
    try apply consume_kept; try apply unregister_kept.
  - split.
    + intros c Hc. by rewrite register_channels.
    + intros c conn' [Hc'|(-> & _)]%register_connection_lookup Hch; [eauto|].
      rewrite Hf2 in Hch. by destruct Hch.
  - split; [by rewrite subscribe_channels|].
    intros c' conn' (conn & ? & _ & ?)%subscribe_lookup _. eauto.
  - split; [by rewrite unsubscribe_channels|].
    intros c' conn' (conn & ? & _ & ?)%unsubscribe_lookup _. eauto.
Qed.

Lemma mutation_from r r' : mutation r r' → router_inv r → queues_from r r'.
Proof.
  intros [fresh t p cap r0 Hf1 Hf2 Hcap|c sid f|c sid|c|c r0|c r0] Hinv; try apply unregister_from.
  - intros c conn' ch' Hc' Hch'. pose proof Hc' as Hc.
    apply register_connection_lookup in Hc as [Hc|(-> & _ & n & Hn & Hch & En)].
    + rewrite register_channels in Hch' by eauto using connection_has_channel. right. eauto 10.
    + left. rewrite Hch in Hch'. simplify_eq. apply channel_queued, Hn.
      destruct cap as [n|]; simpl; [by apply Hcap|]. apply (inv_config _ Hinv).
  - intros c' conn' ch' (conn & ? & _ & ?)%subscribe_lookup. rewrite subscribe_channels.
    right. eauto 10.
  - intros c' conn' ch' (conn & ? & _ & ?)%unsubscribe_lookup. rewrite unsubscribe_channels.
    right. eauto 10.
  - apply consume_from. intros ch. destruct (recv_obs ch) as (_ & l & ->). set_solver.
  - apply consume_from. intros ch. destruct (drop_receiver_obs ch) as (_ & _ & ->). set_solver.
Qed.

(** *** Steps of a dispatch *)

(** A connection found under a key is of the tenant of the key. *)
Lemma bucket_addressed r key bucket c :
  router_inv r → r_routes r !! key = Some bucket → is_Some (bucket !! c) →
  addressed r (rk_tenant_id key) c.
Proof.
  intros Hinv Hk [sids Hb]. destruct (inv_index _ Hinv) as (Ht & _ & Hin).
  destruct sids as [|sid sids]; [by destruct (Ht _ _ Hk) as [_ Hl]; destruct (Hl _ _ Hb)|].
  assert (sid ∈ ids (r_routes r) key c) as Hsid.
  { rewrite (ids_lookup _ _ _ _ Hk), Hb. left. }
  apply Hin in Hsid as (conn & f & Hc & Hs & <-).
  destruct (inv_connections _ Hinv _ _ Hc) as [_ Hf _]. destruct (Hf _ _ Hs) as [_ Htf].
  split; [by eapply connection_has_channel|]. intros conn' Hc'. by simplify_eq.
Qed.

(** The tables after one send are those of the fan-out of one item. *)
Lemma fan_out_step_enqueue n (fo fo' : FanOut) i item m :
  fo_message fo = Some m → fan_out_step n fo (i, item) = Some fo' →
  ∃ fo1, enqueue m [item] (fo_router fo) = Some fo1 ∧ fo_router fo1 = fo_router fo'.
Proof.
  intros Hm. destruct item as [c sids]. unfold enqueue, fan_out_step. simpl.
  destruct (r_connections (fo_router fo) !! c) as [conn|]; [|intros [= <-]; eauto].
  destruct (r_channels (fo_router fo) !! c) as [ch|]; [|intros [= <-]; eauto].
  rewrite Hm. simpl. unfold deliver. simpl.
  destruct (try_send _ ch) as [ch' []]; intros [= <-]; eauto.
Qed.

Lemma send_kept n (fo fo' : FanOut) i item m :
  fo_message fo = Some m → router_inv (fo_router fo) → fan_out_step n fo (i, item) = Some fo' →
  addressed (fo_router fo) (md_tenant_id (rm_metadata m)) item.1 →
  queues_isolated (fo_router fo) →
  router_inv (fo_router fo') ∧ tenants_kept (fo_router fo) (fo_router fo') ∧
  queues_isolated (fo_router fo').
Proof.
  intros Hm Hinv Hstep Haddr Hiso.
  assert (NoDup [item].*1) as Hnd by apply NoDup_singleton.
  destruct (fan_out_step_enqueue _ _ _ _ _ _ Hm Hstep) as (fo1 & Hen & Heq).
  pose proof (enqueue_inv _ _ _ _ Hinv Hnd Hen) as Hinv'.
  pose proof (enqueue_shape _ _ _ _ Hnd Hen) as Hsh. rewrite Heq in Hinv', Hsh.
  destruct (fan_out_step_spec n fo i item m Hm) as
    (fo2 & Hstep2 & _ & [_ Hag] & _ & _ & Hat & _). simplify_eq.
  assert (∀ c conn', r_connections (fo_router fo') !! c = Some conn' →
    ∃ conn, r_connections (fo_router fo) !! c = Some conn ∧
            cs_tenant_id conn = cs_tenant_id conn') as Hten.
  { intros c conn' Hc'. destruct (same_shape_lookup _ _ _ _ Hsh Hc') as (conn & Hc & [= ? _ _]).
    eauto. }
  destruct (attempt (fo_router fo) m item) as [[[conn1 ch1] res]|] eqn:E;
    [|by rewrite Hat; split_and!; [|apply tenants_kept_refl|]].
  destruct Hat as [Hc1 Hch1].
  split_and!; [done|split; [|by eauto]|].
  - intros c Hs. destruct (decide (c = item.1)) as [->|Hne]; [eauto|].
    by destruct (Hag _ Hne) as [_ ->].
  - intros c conn' ch' Hc' Hch'. destruct (decide (c = item.1)) as [->|Hne].
    2: { destruct (Hag _ Hne) as [E1 E2]. rewrite E1 in Hc'. rewrite E2 in Hch'.
         by eapply Hiso. }
    destruct (Hten _ _ Hc') as (conn & Hc & Ht).
    apply attempt_inv in E as (conn2 & ch2 & Hc2 & Hch2 & Hsend & _). simplify_eq.
    destruct (try_send_mono _ _ _ _ Hsend) as (_ & (l & Hq & Hl) & _). rewrite Hq.
    pose proof (Hiso _ _ _ Hc2 Hch2) as Hold. rewrite Ht in Hold.
    apply Forall_app. split; [done|]. apply Forall_forall. intros d Hd.
    apply Hl, list_elem_of_singleton in Hd as ->. simpl.
    rewrite <-Ht. symmetry. by apply Haddr.
Qed.

Lemma with_metrics_kept f r : tenants_kept r (with_metrics f r).
Proof. split; simpl; eauto. Qed.

Lemma task_step_ok r t r' t' :
  task_step r t r' t' → router_inv r → queues_isolated r → task_ok r t →
  router_inv r' ∧ tenants_kept r r' ∧ queues_isolated r' ∧ from_option (task_ok r') True t'.
Proof.
  intros Hstep Hinv Hiso Hok. destruct Hstep as
    [r m key keys acc|iter elapsed r m acc Hi|r m count message [i item] items rep dis fo Hstep
    |r m count message rep dis|r rep c dis|elapsed r rep]; simpl in Hok |- *.
  - split; [done|]. split; [apply tenants_kept_refl|]. split; [done|].
    destruct Hok as (Hp & Hkeys & Hacc). split_and!; [done|intros k Hk; apply Hkeys; by right|].
    intros c. destruct (r_routes r !! key) as [bucket|] eqn:Hk; [|apply Hacc].
    rewrite add_bucket_lookup. destruct (bucket !! c) eqn:Hb; [|apply Hacc].
    intros _. rewrite <-(Hkeys key) by left. eapply bucket_addressed; eauto.
  - split_and!; [by apply with_metrics_inv|apply with_metrics_kept|done| |by right|].
    + intros [i [c sids]] Hin. apply elem_of_lookup_imap in Hin as (j & x & [= -> <-] & Hx).
      apply Hok. simpl. exists sids. apply iter_elem with (iter := iter); [done|].
      by eapply list_elem_of_lookup_2.
    + exists 0%nat, (iter acc). split_and!; done.
  - destruct Hok as (Haddr & Hmsg & k & its & Hits & Hlen & Hsome).
    destruct its as [|it its]; [done|]. rewrite imap_cons in Hits. injection Hits as -> <- ->.
    specialize (Hsome ltac:(done)). subst message. simpl in Hlen.
    set (fo0 := {| fo_router := r |}) in Hstep.
    destruct (send_kept count fo0 fo (k + 0)%nat item m eq_refl Hinv Hstep) as (Hi' & Hk' & Hq');
      [by apply (Haddr ((k + 0)%nat, item)); left|done|].
    split_and!; [done..| | |].
    + intros x Hx. eapply addressed_kept; [done|]. apply Haddr. by right.
    + unfold fan_out_step, deliver in Hstep. destruct item as [c sids]. simpl in Hstep.
      repeat case_match; simplify_eq/=; auto.
    + exists (S k), its. split_and!; [|lia|].
      * apply imap_ext. intros j x _. unfold compose. f_equal. lia.
      * intros Hne. destruct (fan_out_step_spec count fo0 (k + 0)%nat item m eq_refl)
          as (fo' & Hs' & Hm' & _).
        simplify_eq. apply Hm'. destruct its; simpl in *; [done|lia].
  - split_and!; [done|apply tenants_kept_refl|done..].
  - split_and!; [by apply unregister_connection_inv, with_metrics_inv
      |apply (unregister_kept c (with_metrics record_slow_disconnect r))| |done].
    by apply (isolated_from (with_metrics record_slow_disconnect r)), Hiso; apply unregister_from.
  - split_and!; [|split; simpl; eauto|done..].
    apply with_metrics_inv; [apply record_dispatch_gauge_free|by apply with_metrics_inv].
Qed.

Lemma sys_step_ok s s' : sys_step s s' → sys_ok s → sys_ok s'.
Proof.
  intros [r r' ts Hmut|m r ts Hp|r r' ts1 t t' ts2 Hstep] (Hinv & Hiso & Hts); simpl in *.
  - pose proof (mutation_kept _ _ Hmut) as Hk. split_and!; simpl.
    + by eapply mutation_inv.
    + by eapply isolated_from; [eapply mutation_from|].
    + eapply Forall_impl; [done|]. intros t. by apply task_kept.
  - split_and!; simpl; [by apply with_metrics_inv|done|]. apply Forall_cons. split.
    + split_and!; [done|by intros k [? _ _ _ _ _]%elem_of_candidates|].
      intros c. rewrite lookup_empty. by intros [].
    + eapply Forall_impl; [done|]. intros t. apply task_kept, with_metrics_kept.
  - apply Forall_app in Hts as [Hts1 Hts]. apply Forall_cons in Hts as [Ht Hts2].
    destruct (task_step_ok _ _ _ _ Hstep Hinv Hiso Ht) as (Hinv' & Hk & Hiso' & Ht').
    split_and!; simpl; [done..|]. rewrite !Forall_app. split_and!.
    + eapply Forall_impl; [done|]. intros ?. by apply task_kept.
    + destruct t'; simpl; by repeat constructor.
    + eapply Forall_impl; [done|]. intros ?. by apply task_kept.
Qed.

(** A dispatch in flight can always take its next step. *)
Lemma task_progress r t : task_ok r t → ∃ r' t', task_step r t r' t'.
Proof.
  intros Hok. destruct t as [m [|key keys] acc|m count message [|[i item] items] rep dis
    |rep [|c dis]].
  - eexists _, _. apply (ts_matched map_to_list 0). by intros b.
  - eexists _, _. constructor.
  - eexists _, _. constructor.
  - simpl in Hok. destruct Hok as (_ & _ & k & its & Hits & _ & Hm).
    destruct its as [|it its]; [done|]. specialize (Hm ltac:(done)). subst message.
    destruct (fan_out_step_spec count {| fo_router := r; fo_message := Some m;
      fo_delivered := dr_delivered_connections rep; fo_full := dr_full_connections rep;
      fo_closed := dr_closed_connections rep; fo_disconnect := dis |} i item m eq_refl)
      as (fo & Hstep & _).
    eexists _, _. constructor. exact Hstep.
  - eexists _, _. apply (ts_done 0).
  - eexists _, _. constructor.
Qed.

(** (C15) Every interleaving is safe.  However dispatches interleave with
    each other, with registrations, subscriptions and removals and with
    consumers, the tables keep their invariant (index, limits, queue bounds,
    gauges), every delivery in the queue of a connection is a message of the
    connection's tenant, and no dispatch in flight panics or blocks: it can
    take its next step. *)
Theorem interleavings_safe config r ts
    (Hcfg : config_ok config) (Hreach : rtc sys_step (Router_new config, []) (r, ts)) :
  router_inv r ∧ queues_isolated r ∧
  ∀ t, t ∈ ts → ∃ r' t', task_step r t r' t'.
Proof.
  assert (sys_ok (Router_new config, [])) as Hok0.
  { split_and!; simpl; [by apply Router_new_ok| |constructor].
    intros c conn ch Hc. simpl in Hc. by rewrite lookup_empty in Hc. }
  assert (sys_ok (r, ts)) as (Hinv & Hiso & Hts).
  { remember (Router_new config, []) as s0 eqn:E. clear E.
    induction Hreach as [|s1 s2 s3 Hstep _ IH]; [done|]. by apply IH, (sys_step_ok s1). }
  split_and!; [done..|]. intros t Ht. rewrite Forall_forall in Hts.
  by apply task_progress, Hts.
Qed.
End interleaving.
