(* ===== verification/RouterExamples.v ===== *)
(** * The routing engine on concrete inputs

    A small router over FIFO channels: one connection of [tenant-a] with a
    queue of one delivery and two subscriptions, one connection of
    [tenant-b].  The examples run the scenarios of the unit tests of
    [router.rs]; the witnesses apply the theorems of the engine here. *)

From S2P Require Import Prelude Str Ids Message Route Metrics RouteIndex Channel Router.
From S2P Require Import RouterInv RouterDispatch RouterSpec RouterOps Concurrency.
Open Scope Z_scope.

Abbreviation FifoRouter := (RouterState (Fifo Delivery)).

Definition tenant_filter (tenant : string) : RouteFilter := {|
  rf_tenant_id := tenant; rf_kind := None; rf_message_type := None; rf_channel := None;
  rf_actor_id := None; rf_recipient_type := None; rf_recipient_identity := None |}.

Definition example_message : RoutedMessage := {|
  rm_metadata := example_metadata; rm_payload := "hello"; rm_trace_context := None |}.

Definition router0 : FifoRouter := Router_new RouterConfig_default.
Definition router1 : FifoRouter :=
  (register_connection 7 "tenant-a" WebSocket (Some 1) router0).1.
Definition router2 : FifoRouter := (register_connection 8 "tenant-b" Sse None router1).1.
Definition router3 : FifoRouter := (subscribe 7 "by-channel" example_filter router2).1.
Definition router4 : FifoRouter := (subscribe 7 "all" (tenant_filter "tenant-a") router3).1.
Definition router5 : FifoRouter := (subscribe 8 "all" (tenant_filter "tenant-b") router4).1.

Lemma config_default_ok : config_ok RouterConfig_default.
Proof. split; vm_compute; split; discriminate. Qed.

Lemma router1_ok : router_ok router1.
Proof.
  apply register_connection_ok; [apply Router_new_ok, config_default_ok|done|].
  intros n [= <-]. lia.
Qed.

Lemma router2_ok : router_ok router2.
Proof. apply register_connection_ok; [apply router1_ok|vm_compute; reflexivity|done]. Qed.

Lemma router5_ok : router_ok router5.
Proof. repeat apply subscribe_ok. apply router2_ok. Qed.

Lemma map_to_list_iterates : iterates map_to_list.
Proof. intros m. reflexivity. Qed.

(** The connection of [tenant-a] before any dispatch. *)
Definition connection7 : ConnectionState := {|
  cs_tenant_id := "tenant-a"; cs_protocol := WebSocket;
  cs_subscriptions := <["all" := tenant_filter "tenant-a"]> {["by-channel" := example_filter]};
  cs_full_strikes := 0 |}.

(** The queue of connection 7 once it holds its one delivery. *)
Definition full_channel : Fifo Delivery := {|
  ff_capacity := 1; ff_rx := true; ff_tx := true;
  ff_items := [{| d_message := example_message;
                  d_subscription_ids := ["by-channel"; "all"] |}] |}.

Definition connection8 : ConnectionState := {|
  cs_tenant_id := "tenant-b"; cs_protocol := Sse;
  cs_subscriptions := {["all" := tenant_filter "tenant-b"]}; cs_full_strikes := 0 |}.

(** A dispatch of the example message at [router5] returns. *)
Lemma router5_dispatch :
  ∃ r' report, dispatch map_to_list 1 2 example_message router5 = Some (r', report).
Proof.
  destruct (dispatch_run map_to_list 1 2 example_message router5 map_to_list_iterates router5_ok)
    as (r' & report & fo & Hrun & _). eauto.
Qed.

(** What a dispatch of the example message leaves in a queue. *)
Definition queue_after (r : FifoRouter) (c : ConnectionId) : option (list (list SubscriptionId)) :=
  '(r', _) ← dispatch map_to_list 0 0 example_message r;
  ch ← r_channels r' !! c;
  Some (d_subscription_ids <$> queued ch).

(** [deduplicates_multiple_matching_filters_per_connection]. *)
Example two_filters_one_delivery : queue_after router5 7 = Some [["by-channel"; "all"]].
Proof. vm_compute. reflexivity. Qed.

Example other_tenant_gets_nothing : queue_after router5 8 = Some [].
Proof. vm_compute. reflexivity. Qed.

(** The router after the queue of connection 7 has filled up. *)
Definition router6 : FifoRouter :=
  default router5 (fst <$> dispatch map_to_list 0 0 example_message router5).

Lemma router6_ok : router_ok router6.
Proof.
  destruct (dispatch_run map_to_list 0 0 example_message router5 map_to_list_iterates router5_ok)
    as (r' & report & fo & Hrun & D).
  unfold router6. rewrite Hrun. simpl. by destruct D.
Qed.

(** [bounded_queue_triggers_configured_slow_consumer_policy]: three strikes. *)
Example third_strike_evicts :
  (λ n, (λ r, is_some (r_connections r !! 7)) <$>
     dispatch_all map_to_list (replicate n (0, 0, example_message)) router6) <$> [0; 1; 2; 3; 4]%nat
  = [Some true; Some true; Some true; Some false; Some false].
Proof. vm_compute. reflexivity. Qed.

(** [rejects_cross_tenant_subscription]. *)
Example cross_tenant_subscription :
  (subscribe 7 "other" (tenant_filter "tenant-b") router5).2 = Err TenantMismatch.
Proof. vm_compute. reflexivity. Qed.

(** ** Witnesses *)

Lemma dispatch_delivers_witness :
  ∃ r' report, dispatch map_to_list 1 2 example_message router5 = Some (r', report) ∧
    ((∀ sid, ¬ subscription_matches connection7 example_message sid) ∧
      r_connections r' !! 7 = Some connection7 ∧ r_channels r' !! 7 = Some (channel 1)
    ∨ ∃ sids, sids ≠ [] ∧ matching_ids connection7 example_message sids ∧
        delivery_outcome RouterConfig_default 7 connection7 (channel 1)
          {| d_message := example_message; d_subscription_ids := sids |} r').
Proof.
  destruct (dispatch_delivers map_to_list 1 2 example_message router5
    map_to_list_iterates router5_ok eq_refl) as (r' & report & Hrun & Hd).
  exists r', report. split; [exact Hrun|].
  apply (Hd 7 connection7 (channel 1)); vm_compute; reflexivity.
Defined.

Lemma dispatch_isolates_tenants_witness :
  ∃ r' report, dispatch map_to_list 1 2 example_message router5 = Some (r', report) ∧
    r_connections r' !! 8 = Some connection8.
Proof.
  destruct router5_dispatch as (r' & report & E). exists r', report. split; [exact E|].
  apply (dispatch_isolates_tenants map_to_list 1 2 example_message router5 r' report
    map_to_list_iterates router5_ok eq_refl E 8 connection8); [vm_compute; reflexivity|].
  vm_compute. discriminate.
Defined.

Lemma slow_consumer_evicted_witness :
  ∃ r', dispatch_all map_to_list (replicate 3 (0, 0, example_message)) router6 = Some r' ∧
    r_connections r' !! 7 = None.
Proof.
  destruct (slow_consumer_evicted map_to_list (replicate 3 (0, 0, example_message)) router6 7
    connection7 full_channel map_to_list_iterates router6_ok) as (r' & Hrun & _ & Hr').
  - apply Forall_replicate. split; [vm_compute; reflexivity|].
    exists "all", (tenant_filter "tenant-a"). vm_compute. split; reflexivity.
  - vm_compute. reflexivity.
  - vm_compute. reflexivity.
  - reflexivity.
  - vm_compute. discriminate.
  - exists r'. split; [exact Hrun|]. rewrite Hr'. vm_compute. reflexivity.
Defined.

Lemma reachable_router_ok_witness : router_ok router3.
Proof.
  apply (reachable_router_ok RouterConfig_default router3 config_default_ok).
  eapply rtc_l; [apply step_mutation, (mut_register 7 "tenant-a" WebSocket (Some 1))|].
  - reflexivity.
  - reflexivity.
  - intros n [= <-]. lia.
  - eapply rtc_l; [apply step_mutation, (mut_register 8 "tenant-b" Sse None)|].
    + vm_compute. reflexivity.
    + vm_compute. reflexivity.
    + discriminate.
    + apply rtc_once, step_mutation, (mut_subscribe 7 "by-channel" example_filter).
Defined.

Lemma interleavings_safe_witness :
  queues_isolated router1 ∧
  ∃ r' t', task_step (with_metrics record_valid_message router1)
    (Matching example_message (RouteKey_candidates example_metadata) ∅) r' t'.
Proof.
  assert (rtc sys_step (router0, [])
    (with_metrics record_valid_message router1,
     [Matching example_message (RouteKey_candidates example_metadata) ∅])) as Hreach.
  { eapply rtc_l; [apply sys_mutation, (mut_register 7 "tenant-a" WebSocket (Some 1))|].
    - reflexivity.
    - reflexivity.
    - intros n [= <-]. lia.
    - apply rtc_once, (sys_begin example_message). vm_compute. reflexivity. }
  destruct (interleavings_safe RouterConfig_default _ _ config_default_ok Hreach) as (_ & Hq & Hp).
  split; [exact Hq|]. apply Hp. left.
Defined.
