(* ===== verification/RouterModel.v ===== *)
(** * The router without its index

    An abstract specification of the routing engine, and the theorem that the
    engine implements it.  The specification has no index, no metrics and no
    iteration order: it keeps the table of connections and, for each receiver,
    the messages that wait for it, and it routes a message by asking the
    reference matcher about every subscription of every connection.  The
    subscriptions a delivery lists are a set.  [abs] forgets what the
    specification does not have; a run of operations on the router gives the
    same answers as the same run of the specification. *)

From S2P Require Import Prelude Str Ids Message Route Metrics RouteIndex Channel Router.
From S2P Require Import RouterInv RouterDispatch RouterSpec RouterOps RouterExamples.
Open Scope Z_scope.

(** ** The specification *)

(** What waits for a receiver, and whether more can come. *)
Definition Item : Type := RoutedMessage * gset SubscriptionId.
Record Inbox : Type := {
  ib_capacity : Z;
  ib_items : list Item;
  ib_open : bool;
}.

(** The state; the inbox of a receiver that was dropped is [None]. *)
Record SpecRouter : Type := {
  sr_config : RouterConfig;
  sr_connections : Connections;
  sr_inboxes : gmap ConnectionId (option Inbox);
}.

Definition spec_new (config : RouterConfig) : SpecRouter :=
  {| sr_config := config; sr_connections := ∅; sr_inboxes := ∅ |}.

Definition hang_up (inbox : option Inbox) : option Inbox :=
  (λ ib, {| ib_capacity := ib_capacity ib; ib_items := ib_items ib; ib_open := false |}) <$> inbox.
Definition put (item : Item) (inbox : option Inbox) : option Inbox :=
  (λ ib, {| ib_capacity := ib_capacity ib; ib_items := ib_items ib ++ [item];
            ib_open := ib_open ib |}) <$> inbox.

(** Why a connection is refused, if it is. *)
Definition register_error (t : string) (cap : Z) (s : SpecRouter) : option CoreError :=
  let config := sr_config s in
  match validate_identifier "tenant_id" t 256 with
  | Err e => Some e
  | Ok _ =>
    if decide (1 ≤ cap ≤ rc_max_queue_capacity config) then
      if decide (Z.of_nat (size (sr_connections s)) < rc_max_connections config ∧
                 map_count (λ conn, bool_decide (cs_tenant_id conn = t)) (sr_connections s)
                   < rc_max_connections_per_tenant config)
      then None else Some ConnectionLimitReached
    else Some (InvalidQueueCapacity cap (rc_max_queue_capacity config))
  end.

Definition spec_register (c : ConnectionId) (t : string) (p : DeliveryProtocol) (cap : option Z)
    (s : SpecRouter) : SpecRouter * result CoreError ConnectionId :=
  let cap := default (rc_default_queue_capacity (sr_config s)) cap in
  match register_error t cap s with
  | Some e => (s, Err e)
  | None =>
    ({| sr_config := sr_config s;
        sr_connections := <[c := {| cs_tenant_id := t; cs_protocol := p; cs_subscriptions := ∅;
                                    cs_full_strikes := 0 |}]> (sr_connections s);
        sr_inboxes := <[c := Some {| ib_capacity := cap; ib_items := []; ib_open := true |}]>
                        (sr_inboxes s) |}, Ok c)
  end.

(** Why a filter is refused for a connection, if it is. *)
Definition subscribe_error (conn : ConnectionState) (sid : SubscriptionId) (f : RouteFilter)
    (s : SpecRouter) : option CoreError :=
  let config := sr_config s in
  if negb (bool_decide (map_sum subscription_count (sr_connections s) < rc_max_subscriptions config ∧
       map_sum (tenant_subscription_count (cs_tenant_id conn)) (sr_connections s)
         < rc_max_subscriptions_per_tenant config))
  then Some GlobalSubscriptionLimitReached
  else if decide (cs_tenant_id conn ≠ rf_tenant_id f) then Some TenantMismatch
  else if decide (is_Some (cs_subscriptions conn !! sid)) then Some SubscriptionExists
  else if decide (subscription_count conn < rc_max_subscriptions_per_connection config) then None
  else Some SubscriptionLimitReached.

(** The connections with one of them changed or removed. *)
Definition with_connection (c : ConnectionId) (conn : option ConnectionState) (s : SpecRouter)
    : SpecRouter := {|
  sr_config := sr_config s; sr_connections := partial_alter (λ _, conn) c (sr_connections s);
  sr_inboxes := sr_inboxes s |}.

Definition spec_subscribe (c : ConnectionId) (sid : SubscriptionId) (f : RouteFilter)
    (s : SpecRouter) : SpecRouter * result CoreError unit :=
  match RouteFilter_validate f, sr_connections s !! c with
  | Err e, _ => (s, Err e)
  | Ok _, None => (s, Err ConnectionNotFound)
  | Ok _, Some conn =>
    match subscribe_error conn sid f s with
    | Some e => (s, Err e)
    | None => (with_connection c (Some (with_subscriptions <[sid := f]> conn)) s, Ok tt)
    end
  end.

Definition spec_unsubscribe (c : ConnectionId) (sid : SubscriptionId) (s : SpecRouter)
    : SpecRouter * result CoreError unit :=
  match sr_connections s !! c with
  | None => (s, Err ConnectionNotFound)
  | Some conn =>
    if decide (is_Some (cs_subscriptions conn !! sid))
    then (with_connection c (Some (with_subscriptions (delete sid) conn)) s, Ok tt)
    else (s, Err SubscriptionNotFound)
  end.

Definition spec_unregister (c : ConnectionId) (s : SpecRouter) : SpecRouter :=
  match sr_connections s !! c with
  | None => s
  | Some _ => {| sr_config := sr_config s; sr_connections := delete c (sr_connections s);
                 sr_inboxes := alter hang_up c (sr_inboxes s) |}
  end.

(** The subscriptions of a connection that match. *)
Definition selected (m : RoutedMessage) (conn : ConnectionState) : gset SubscriptionId :=
  dom (filter (λ kf : SubscriptionId * RouteFilter,
    RouteFilter_matches kf.2 (rm_metadata m) = true) (cs_subscriptions conn)).

(** What a delivery comes to. *)
Definition outcome_of (inbox : option Inbox) : SendResult :=
  match inbox with
  | None => Closed
  | Some ib => if decide (Z.of_nat (length (ib_items ib)) < ib_capacity ib) then Sent else Full
  end.

(** The outcome for every connection with a matching subscription. *)
Definition spec_outcomes (m : RoutedMessage) (s : SpecRouter) : gmap ConnectionId SendResult :=
  map_imap (λ c conn, if decide (selected m conn = ∅) then None
                      else Some (outcome_of (sr_inboxes s !! c ≫= id))) (sr_connections s).

(** What becomes of a connection. *)
Definition after_outcome (config : RouterConfig) (o : option SendResult) (conn : ConnectionState)
    : option ConnectionState :=
  match o with
  | None => Some conn
  | Some Sent => Some (with_strikes 0 conn)
  | Some Full =>
      if decide (cs_full_strikes conn + 1 < strike_limit config)
      then Some (with_strikes (cs_full_strikes conn + 1) conn) else None
  | Some Closed => None
  end.

(** What becomes of an inbox: a delivery is appended, and a connection that is
    removed hangs up. *)
Definition inbox_after (m : RoutedMessage) (conn : ConnectionState) (o : option SendResult)
    (kept : bool) (inbox : option Inbox) : option Inbox :=
  let inbox := if decide (o = Some Sent) then put (m, selected m conn) inbox else inbox in
  if kept then inbox else hang_up inbox.

Definition spec_dispatch (m : RoutedMessage) (s : SpecRouter) : SpecRouter * DispatchReport :=
  let outcomes := spec_outcomes m s in
  let after c conn := after_outcome (sr_config s) (outcomes !! c) conn in
  let counted o := map_count (λ o', bool_decide (o' = o)) outcomes in
  ({| sr_config := sr_config s;
      sr_connections := map_imap after (sr_connections s);
      sr_inboxes := map_imap (λ c inbox, Some
        match sr_connections s !! c with
        | None => inbox
        | Some conn =>
            inbox_after m conn (outcomes !! c) (bool_decide (is_Some (after c conn))) inbox
        end) (sr_inboxes s) |},
   {| dr_matched_subscriptions :=
        map_sum (λ conn, Z.of_nat (size (selected m conn))) (sr_connections s);
      dr_delivered_connections := counted Sent; dr_full_connections := counted Full;
      dr_closed_connections := counted Closed |}).

(** Polling a receiver; there is none once it was dropped. *)
Definition spec_poll (c : ConnectionId) (s : SpecRouter) : SpecRouter * option (RecvResult Item) :=
  match sr_inboxes s !! c with
  | Some (Some ib) =>
    match ib_items ib with
    | [] => (s, Some (if ib_open ib then Pending else Disconnected))
    | item :: rest =>
      ({| sr_config := sr_config s; sr_connections := sr_connections s;
          sr_inboxes := <[c := Some {| ib_capacity := ib_capacity ib; ib_items := rest;
                                       ib_open := ib_open ib |}]> (sr_inboxes s) |},
       Some (Received item))
    end
  | _ => (s, None)
  end.

Definition spec_drop_receiver (c : ConnectionId) (s : SpecRouter) : SpecRouter := {|
  sr_config := sr_config s; sr_connections := sr_connections s;
  sr_inboxes := alter (λ _, None) c (sr_inboxes s) |}.

(** ** Operations and their answers *)

Inductive Op : Type :=
| OpRegister (fresh : ConnectionId) (t : string) (p : DeliveryProtocol) (cap : option Z)
| OpSubscribe (c : ConnectionId) (sid : SubscriptionId) (f : RouteFilter)
| OpUnsubscribe (c : ConnectionId) (sid : SubscriptionId)
| OpUnregister (c : ConnectionId)
| OpDispatch (iter : Bucket → list (ConnectionId * list SubscriptionId)) (e1 e2 : Z)
    (m : RoutedMessage)
| OpPoll (c : ConnectionId)
| OpDropReceiver (c : ConnectionId).

Inductive Answer : Type :=
| AnRegistered (res : result CoreError ConnectionId)
| AnDone (res : result CoreError unit)
| AnRouted (report : DispatchReport)
| AnPolled (res : option (RecvResult Item))
| AnNothing.

Definition spec_exec (op : Op) (s : SpecRouter) : SpecRouter * Answer :=
  match op with
  | OpRegister fresh t p cap => let '(s, res) := spec_register fresh t p cap s in (s, AnRegistered res)
  | OpSubscribe c sid f => let '(s, res) := spec_subscribe c sid f s in (s, AnDone res)
  | OpUnsubscribe c sid => let '(s, res) := spec_unsubscribe c sid s in (s, AnDone res)
  | OpUnregister c => (spec_unregister c s, AnNothing)
  | OpDispatch _ _ _ m => let '(s, report) := spec_dispatch m s in (s, AnRouted report)
  | OpPoll c => let '(s, res) := spec_poll c s in (s, AnPolled res)
  | OpDropReceiver c => (spec_drop_receiver c s, AnNothing)
  end.

Fixpoint spec_run (ops : list Op) (s : SpecRouter) : SpecRouter * list Answer :=
  match ops with
  | [] => (s, [])
  | op :: ops =>
      let '(s, answer) := spec_exec op s in
      let '(s, answers) := spec_run ops s in (s, answer :: answers)
  end.

(** ** The abstraction *)

Definition item_of (d : Delivery) : Item := (d_message d, list_to_set (d_subscription_ids d)).

Section abstraction.
Context `{MpscLaws Delivery Chan}.
Implicit Types (r : RouterState Chan) (c : ConnectionId) (ch : Chan) (m : RoutedMessage).

Definition inbox_of ch : option Inbox :=
  if rx_open ch then Some {| ib_capacity := capacity ch; ib_items := item_of <$> queued ch;
                             ib_open := tx_open ch |}
  else None.

Definition abs r : SpecRouter := {|
  sr_config := r_config r; sr_connections := r_connections r;
  sr_inboxes := inbox_of <$> r_channels r |}.

(** A poll of the receiver, which exists until it is dropped. *)
Definition poll c r : RouterState Chan * option (RecvResult Item) :=
  match r_channels r !! c with
  | Some ch =>
      if rx_open ch then
        (consume (λ ch, (recv ch).1) c r,
         Some match (recv ch).2 with
              | Received d => Received (item_of d)
              | Pending => Pending
              | Disconnected => Disconnected
              end)
      else (r, None)
  | None => (r, None)
  end.

(** An operation on the router; [None] is a panic. *)
Definition exec (op : Op) r : option (RouterState Chan * Answer) :=
  match op with
  | OpRegister fresh t p cap =>
      let '(r, res) := register_connection fresh t p cap r in Some (r, AnRegistered res)
  | OpSubscribe c sid f => let '(r, res) := subscribe c sid f r in Some (r, AnDone res)
  | OpUnsubscribe c sid => let '(r, res) := unsubscribe c sid r in Some (r, AnDone res)
  | OpUnregister c => Some (unregister_connection c r, AnNothing)
  | OpDispatch iter e1 e2 m => '(r, report) ← dispatch iter e1 e2 m r; Some (r, AnRouted report)
  | OpPoll c => let '(r, res) := poll c r in Some (r, AnPolled res)
  | OpDropReceiver c => Some (consume drop_receiver c r, AnNothing)
  end.

Fixpoint run_ops (ops : list Op) r : option (RouterState Chan * list Answer) :=
  match ops with
  | [] => Some (r, [])
  | op :: ops =>
      '(r, answer) ← exec op r;
      '(r, answers) ← run_ops ops r; Some (r, answer :: answers)
  end.

(** ** Simulation, operation by operation *)

Lemma inbox_of_drop_sender ch : inbox_of (drop_sender ch) = hang_up (inbox_of ch).
Proof.
  unfold inbox_of. destruct (drop_sender_obs ch) as (Ht & Hq & Hc & Hr).
  rewrite Hr. destruct (rx_open ch); [|done]. simpl. by rewrite Ht, Hq, Hc.
Qed.

Lemma SpecRouter_eq s1 s2 :
  sr_config s1 = sr_config s2 → sr_connections s1 = sr_connections s2 →
  sr_inboxes s1 = sr_inboxes s2 → s1 = s2.
Proof. destruct s1, s2; simpl; intros; by subst. Qed.

Lemma register_sim fresh t p cap r :
  (∀ n, cap = Some n → 0 ≤ n) → config_ok (r_config r) →
  spec_register fresh t p cap (abs r) =
  (abs (register_connection fresh t p cap r).1, (register_connection fresh t p cap r).2).
Proof.
  intros Hcap Hcfg. unfold spec_register, register_error, register_connection. simpl.
  set (n := default (rc_default_queue_capacity (r_config r)) cap).
  assert (0 ≤ n) as Hn.
  { subst n. destruct cap; simpl; [by apply Hcap|]. pose proof (cfg_default_queue _ Hcfg). lia. }
  destruct (validate_identifier "tenant_id" t 256); [|done].
  destruct (decide (1 ≤ n ≤ rc_max_queue_capacity (r_config r))) as [Hin|Hout].
  - rewrite (proj2 (orb_false_iff _ _)) by (split; [apply Z.eqb_neq|apply Z.ltb_ge]; lia).
    destruct (decide (Z.of_nat (size _) < _ ∧ _)) as [Hl|Hl].
    + rewrite (proj2 (orb_false_iff _ _)) by (rewrite !Z.leb_gt; lia).
      unfold abs; simpl. rewrite fmap_insert. do 3 f_equal. unfold inbox_of.
      destruct (channel_open (A := Delivery) (Chan := Chan) n) as [-> ->]; [lia|].
      by rewrite channel_capacity, channel_queued by lia.
    + rewrite (proj2 (orb_true_iff _ _)) by (rewrite !Z.leb_le; lia). done.
  - rewrite (proj2 (orb_true_iff _ _)) by (rewrite Z.eqb_eq, Z.ltb_lt; lia). done.
Qed.

Lemma subscribe_sim c sid f r :
  spec_subscribe c sid f (abs r) = (abs (subscribe c sid f r).1, (subscribe c sid f r).2).
Proof.
  unfold spec_subscribe, subscribe. simpl. destruct (RouteFilter_validate f); [|done].
  destruct (r_connections r !! c) as [conn|]; [|done]. unfold subscribe_error. simpl.
  case_bool_decide as Hl; simpl.
  - rewrite (proj2 (orb_false_iff _ _)) by (rewrite !Z.leb_gt; lia).
    destruct (decide (cs_tenant_id conn ≠ rf_tenant_id f)) as [Ht|Ht];
      [by rewrite bool_decide_eq_true_2|rewrite bool_decide_eq_false_2 by done].
    destruct (decide (is_Some (cs_subscriptions conn !! sid))) as [Hs|Hs];
      [by rewrite bool_decide_eq_true_2|rewrite bool_decide_eq_false_2 by done].
    case_decide; [rewrite (proj2 (Z.leb_gt _ _)) by lia|rewrite (proj2 (Z.leb_le _ _)) by lia]; done.
  - rewrite (proj2 (orb_true_iff _ _)) by (rewrite !Z.leb_le; lia). done.
Qed.

Lemma unsubscribe_sim c sid r :
  spec_unsubscribe c sid (abs r) = (abs (unsubscribe c sid r).1, (unsubscribe c sid r).2).
Proof.
  unfold spec_unsubscribe, unsubscribe. simpl. destruct (r_connections r !! c) as [conn|]; [|done].
  destruct (cs_subscriptions conn !! sid) as [f|]; case_decide as Hs; try done;
    naive_solver.
Qed.

Lemma unregister_sim c r : spec_unregister c (abs r) = abs (unregister_connection c r).
Proof.
  unfold spec_unregister, unregister_connection. simpl.
  destruct (r_connections r !! c) as [conn|]; [|done]. unfold abs; simpl. f_equal.
  apply map_eq. intros c'. rewrite lookup_fmap.
  destruct (decide (c = c')) as [->|Hne].
  - rewrite !lookup_alter_eq, lookup_fmap. destruct (r_channels r !! c'); [|done]. simpl.
    by rewrite inbox_of_drop_sender.
  - by rewrite !lookup_alter_ne, lookup_fmap by done.
Qed.

Lemma poll_sim c r : spec_poll c (abs r) = (abs (poll c r).1, (poll c r).2).
Proof.
  unfold spec_poll, poll. simpl. rewrite lookup_fmap.
  destruct (r_channels r !! c) as [ch|] eqn:Hch; [|done]. simpl.
  unfold inbox_of at 1. destruct (rx_open ch) eqn:Hrx; [|done]. simpl.
  assert (∀ ib, inbox_of (recv ch).1 = ib →
    inbox_of <$> alter (λ ch, (recv ch).1) c (r_channels r) =
    <[c := ib]> (inbox_of <$> r_channels r)) as Halter.
  { intros ib <-. apply map_eq. intros c'. rewrite lookup_fmap.
    destruct (decide (c = c')) as [<-|Hne];
      [rewrite lookup_alter_eq, lookup_insert_eq, Hch; done
      |by rewrite lookup_alter_ne, lookup_insert_ne, lookup_fmap by done]. }
  destruct (queued ch) as [|d rest] eqn:Hq; simpl.
  - pose proof (recv_empty ch Hq) as Hr. rewrite Hr. simpl. f_equal.
    + unfold abs; simpl. f_equal. rewrite (Halter (inbox_of ch)) by by rewrite Hr.
      rewrite insert_id; [done|]. by rewrite lookup_fmap, Hch.
    + by destruct (tx_open ch).
  - destruct (recv_item d rest ch Hq) as (-> & Hq' & Hc' & Hr' & Ht'). f_equal.
    unfold abs; simpl. f_equal. symmetry. apply Halter. unfold inbox_of.
    by rewrite Hr', Hrx, Hq', Hc', Ht'.
Qed.

Lemma drop_receiver_sim c r :
  spec_drop_receiver c (abs r) = abs (consume drop_receiver c r).
Proof.
  unfold spec_drop_receiver, abs; simpl. f_equal. apply map_eq. intros c'. rewrite lookup_fmap.
  destruct (decide (c = c')) as [<-|Hne].
  - rewrite !lookup_alter_eq, lookup_fmap. destruct (r_channels r !! c) as [ch|]; [|done]. simpl.
    unfold inbox_of. by destruct (drop_receiver_obs ch) as (-> & _).
  - by rewrite !lookup_alter_ne, lookup_fmap by done.
Qed.

(** *** Dispatch *)

Lemma elem_of_selected m conn sid : sid ∈ selected m conn ↔ subscription_matches conn m sid.
Proof.
  unfold selected, subscription_matches. rewrite elem_of_dom. split.
  - intros [f [Hf Hm]%map_lookup_filter_Some]. eauto.
  - intros (f & Hf & Hm). exists f. by apply map_lookup_filter_Some.
Qed.

Lemma matching_selected conn m sids : matching_ids conn m sids → list_to_set sids = selected m conn.
Proof.
  intros [_ Hin]. apply set_eq. intros sid. by rewrite elem_of_list_to_set, Hin, elem_of_selected.
Qed.

Lemma selected_size m conn : Z.of_nat (size (selected m conn)) = matching_count m conn.
Proof. unfold selected, matching_count. by rewrite size_dom. Qed.

(** The outcome is what [try_send] returns. *)
Lemma outcome_try_send d ch : outcome_of (inbox_of ch) = (try_send d ch).2.
Proof.
  unfold inbox_of. destruct (try_send d ch) as [ch' res] eqn:E.
  destruct (try_send_cases _ _ _ _ E) as [(-> & Hrx & Hl & _)|[(-> & Hrx & Hl & _)|(-> & Hrx & _)]];
    rewrite Hrx; simpl; rewrite ?length_fmap; [by rewrite decide_True|by rewrite decide_False by lia|done].
Qed.

(** The outcomes of the specification are those of the attempts. *)
Lemma spec_outcomes_lookup m r c :
  router_ok r → message_paired m →
  spec_outcomes m (abs r) !! c =
  match matches_of (r_routes r) m !! c with
  | None => None
  | Some sids => (λ a, a.2) <$> attempt r m (c, sids)
  end.
Proof.
  intros [Hinv _] Hm. unfold spec_outcomes. rewrite map_lookup_imap. simpl.
  pose proof (matches_ok m r c Hinv Hm) as Hmc.
  destruct (matches_of (r_routes r) m !! c) as [sids|].
  - destruct Hmc as (conn & Hc & Hne & Hids & _). rewrite Hc. simpl.
    destruct (inv_channels _ Hinv _ _ Hc) as (ch & Hch & _).
    rewrite decide_False.
    2: { rewrite <-(matching_selected _ _ _ Hids). destruct sids as [|sid sids]; [done|]. set_solver. }
    unfold attempt. simpl. rewrite Hc, lookup_fmap, Hch. simpl.
    rewrite (outcome_try_send {| d_message := m; d_subscription_ids := sids |}).
    by destruct (try_send _ ch).
  - destruct (r_connections r !! c) as [conn|]; [|done]. simpl. rewrite decide_True; [done|].
    apply set_eq. intros sid. rewrite elem_of_selected. split; [|set_solver].
    intros Hs. by destruct (Hmc _ sid eq_refl).
Qed.

(** What a dispatch does to one connection and its inbox. *)
Lemma dispatch_sim_at iter m r r' report fo c :
  iterates iter → router_ok r → message_paired m → dispatched iter m r r' report fo →
  let s' := (spec_dispatch m (abs r)).1 in
  sr_connections s' !! c = r_connections r' !! c ∧
  sr_inboxes s' !! c = inbox_of <$> r_channels r' !! c.
Proof.
  intros Hiter Hok Hm Hd. simpl. rewrite !map_lookup_imap. simpl. rewrite lookup_fmap.
  pose proof (spec_outcomes_lookup m r c Hok Hm) as Ho.
  pose proof (matches_ok m r c (proj1 Hok) Hm) as Hmc.
  destruct (matches_of (r_routes r) m !! c) as [sids|] eqn:E.
  - destruct Hmc as (conn & Hc & Hne & Hids & _).
    destruct (inv_channels _ (proj1 Hok) _ _ Hc) as (ch & Hch & _).
    pose proof (dispatched_matched _ _ _ _ _ _ _ _ _ _ Hiter Hok Hd E Hc Hch) as (Hsent & Hfull & Hcl).
    unfold attempt in Ho. simpl in Ho. rewrite Hc, Hch in Ho. simpl in Ho.
    rewrite Hc, Hch, Ho. simpl.
    destruct (try_send _ ch) as [ch' res] eqn:Hs. simpl.
    destruct (try_send_cases _ _ _ _ Hs) as [(-> & Hrx & Hl & _)|[(-> & Hrx & Hl & _)|(-> & Hrx & _)]].
    + destruct (Hsent Hrx Hl) as [-> (ch1 & -> & Hq & Hcap & Hrx1 & Htx)]. split; [done|].
      simpl. unfold inbox_after, inbox_of. rewrite Hrx, Hrx1, Hq, Hcap, Htx, fmap_app. simpl.
      unfold item_of at 3. simpl. by rewrite (matching_selected _ _ _ Hids).
    + specialize (Hfull Hrx Hl). simpl. unfold inbox_after. simpl.
      destruct (Z.ltb_spec (cs_full_strikes conn + 1) (strike_limit (r_config r))) as [Hlt|Hge];
        destruct Hfull as [-> ->].
      * by rewrite decide_True by done.
      * rewrite decide_False by lia. simpl. by rewrite inbox_of_drop_sender.
    + destruct (Hcl Hrx) as [-> ->]. simpl. split; [done|].
      unfold inbox_after. simpl. by rewrite inbox_of_drop_sender.
  - destruct (dispatched_unmatched _ _ _ _ _ _ _ Hiter Hd E) as [-> ->]. rewrite Ho. simpl.
    destruct (r_connections r !! c) as [conn|]; simpl; (split; [done|]);
      by destruct (r_channels r !! c).
Qed.

(** A count over a map of results is a sum over the entries they come from. *)
Lemma map_count_imap `{Countable K} {A B} (p : B → bool) (g : K → A → option B) (b : gmap K A) :
  map_count p (map_imap g b) =
  sumZ (λ ka, match g ka.1 ka.2 with Some x => if p x then 1 else 0 | None => 0 end) (map_to_list b).
Proof.
  unfold map_count. induction b as [|k a b Hk IH] using map_ind.
  { by rewrite map_imap_empty, map_to_list_empty, map_sum_empty. }
  rewrite (sumZ_perm _ _ _ (map_to_list_insert b k a Hk)), sumZ_cons, <-IH. simpl.
  assert (map_imap g b !! k = None) as Hno by by rewrite map_lookup_imap, Hk.
  destruct (g k a) as [x|] eqn:Hg.
  - rewrite (map_imap_insert_Some _ _ _ _ _ Hg), map_sum_insert by done. lia.
  - rewrite (map_imap_insert_None _ _ _ _ Hg), delete_id by done. lia.
Qed.

Lemma outcomes_counted m r res iter :
  iterates iter → router_ok r → message_paired m →
  map_count (λ o, bool_decide (o = res)) (spec_outcomes m (abs r)) =
  sumZ (outcome_is res r m) (iter (matches_of (r_routes r) m)).
Proof.
  intros Hiter Hok Hm.
  assert (spec_outcomes m (abs r) =
    map_imap (λ c sids, (λ a, a.2) <$> attempt r m (c, sids)) (matches_of (r_routes r) m)) as ->.
  { apply map_eq. intros c. rewrite spec_outcomes_lookup, map_lookup_imap by done.
    by destruct (matches_of (r_routes r) m !! c). }
  rewrite map_count_imap, (sumZ_perm _ _ _ (Hiter _)). apply sumZ_ext.
  intros [c sids] Hin%elem_of_map_to_list. simpl. unfold outcome_is.
  pose proof (matches_ok m r c (proj1 Hok) Hm) as Hmc. rewrite Hin in Hmc.
  destruct Hmc as (conn & Hc & _). destruct (inv_channels _ (proj1 Hok) _ _ Hc) as (ch & Hch & _).
  unfold attempt. simpl. rewrite Hc, Hch. simpl. destruct (try_send _ ch) as [ch' o]. simpl.
  case_bool_decide; by case_decide.
Qed.

Lemma dispatch_sim iter e1 e2 m r :
  iterates iter → router_ok r → message_paired m →
  ∃ r' report, dispatch iter e1 e2 m r = Some (r', report) ∧ router_ok r' ∧
    spec_dispatch m (abs r) = (abs r', report) ∧ dom (r_channels r') = dom (r_channels r).
Proof.
  intros Hiter Hok Hm. destruct (dispatch_run iter e1 e2 m r Hiter Hok) as (r' & report & fo & Hrun & Hd).
  exists r', report. split; [done|]. split; [by destruct Hd|].
  pose proof (dispatch_sim_at iter m r r' report fo) as Hat. split.
  - rewrite (surjective_pairing (spec_dispatch m (abs r))). f_equal.
    + apply SpecRouter_eq; [symmetry; apply (dsp_config _ _ _ _ _ _ Hd)|apply map_eq; intros c..];
        destruct (Hat c Hiter Hok Hm Hd) as [Hc Hi]; [exact Hc|].
      rewrite Hi. simpl. by rewrite lookup_fmap.
    + destruct Hd as [Hen _ _ _ _ _ ->]. simpl.
      destruct (enqueue_spec m _ r (iter_NoDup iter (matches_of (r_routes r) m) Hiter)) as
        (fo' & Hen' & _ & _ & _ & _ & _ & Ed & Ef & Ec & _). simplify_eq.
      rewrite !(outcomes_counted m r _ iter) by done. rewrite Ed, Ef, Ec. f_equal.
      rewrite (matched_total m r (proj1 Hok) Hm). apply map_sum_ext. intros c conn _.
      apply selected_size.
  - apply set_eq. intros c. rewrite !elem_of_dom. destruct (Hat c Hiter Hok Hm Hd) as [_ Hi].
    revert Hi. simpl. rewrite map_lookup_imap. simpl. rewrite lookup_fmap.
    destruct (r_channels r !! c), (r_channels r' !! c); simpl; try done; intros _; split; eauto.
Qed.

(** ** Runs *)

(** What the callers ensure: capacities are unsigned, the recipient fields of
    a message are paired, and a map is walked over all of its entries. *)
Definition op_ok (op : Op) : Prop :=
  match op with
  | OpRegister _ _ _ cap => ∀ n, cap = Some n → 0 ≤ n
  | OpDispatch iter _ _ m => iterates iter ∧ message_paired m
  | _ => True
  end.

(** The connection ids a run draws. *)
Definition drawn (op : Op) : list ConnectionId :=
  match op with OpRegister fresh _ _ _ => [fresh] | _ => [] end.

Lemma registered_channels fresh t p cap r c :
  c ∈ dom (r_channels (register_connection fresh t p cap r).1) → c = fresh ∨ c ∈ dom (r_channels r).
Proof. unfold register_connection. repeat case_match; simpl; set_solver. Qed.

Lemma consume_channels f c r : dom (r_channels (consume f c r)) = dom (r_channels r).
Proof. simpl. apply dom_alter_L. Qed.

(** One operation: the router does not panic, stays well formed, answers as
    the specification does and ends in a state with the abstraction the
    specification has; only a drawn id gets a channel. *)
Lemma exec_refines op r :
  router_ok r → op_ok op → (∀ c, c ∈ drawn op → c ∉ dom (r_channels r)) →
  ∃ r' answer, exec op r = Some (r', answer) ∧ router_ok r' ∧
    spec_exec op (abs r) = (abs r', answer) ∧
    ∀ c, c ∈ dom (r_channels r') → c ∈ drawn op ∨ c ∈ dom (r_channels r).
Proof.
  intros Hok Hop Hnew. pose proof (inv_config _ (proj1 Hok)) as Hcfg.
  destruct op as [fresh t p cap|c sid f|c sid|c|iter e1 e2 m|c|c];
    cbn [exec spec_exec drawn op_ok] in *.
  - assert (fresh ∉ dom (r_channels r)) as Hf by (apply Hnew; left).
    assert (r_channels r !! fresh = None ∧ r_connections r !! fresh = None) as [Hch Hc].
    { split; [by apply not_elem_of_dom|]. apply eq_None_not_Some. intros [conn Hconn].
      apply Hf, elem_of_dom. by eapply connection_has_channel; [apply Hok|]. }
    rewrite register_sim by done. destruct (register_connection _ _ _ _ _) as [r1 res] eqn:E.
    pose proof (register_connection_ok fresh t p cap r) as Hok1. rewrite E in Hok1.
    pose proof (registered_channels fresh t p cap r) as Hdom. rewrite E in Hdom.
    eexists _, _. split_and!; [done|by apply Hok1|done|]. set_solver.
  - rewrite subscribe_sim. pose proof (subscribe_ok c sid f r Hok) as Hok1.
    pose proof (subscribe_channels c sid f r) as Hch.
    destruct (subscribe c sid f r) as [r1 res]. simpl in *.
    eexists _, _. split_and!; [done..|]. rewrite Hch. auto.
  - rewrite unsubscribe_sim. pose proof (unsubscribe_ok c sid r Hok) as Hok1.
    pose proof (unsubscribe_channels c sid r) as Hch.
    destruct (unsubscribe c sid r) as [r1 res]. simpl in *.
    eexists _, _. split_and!; [done..|]. rewrite Hch. auto.
  - rewrite unregister_sim. eexists _, _. split_and!; [done|by apply unregister_connection_ok|done|].
    intros c'. rewrite !elem_of_dom, unregister_channels. case_decide; [|auto].
    rewrite fmap_is_Some. auto.
  - destruct Hop as [Hiter Hm].
    destruct (dispatch_sim iter e1 e2 m r Hiter Hok Hm) as (r' & report & -> & Hok' & -> & Hdom).
    eexists _, _. split_and!; [done..|]. rewrite Hdom. auto.
  - rewrite poll_sim. unfold poll. destruct (r_channels r !! c) as [ch|] eqn:Hch;
      [destruct (rx_open ch)|]; simpl; eexists _, _; split_and!; try done; try by auto.
    + destruct Hok as [Hinv Hst]. split; [by apply recv_inv|done].
    + intros c'. rewrite consume_channels. auto.
  - rewrite drop_receiver_sim. eexists _, _. split_and!; try done.
    + destruct Hok as [Hinv Hst]. split; [by apply drop_receiver_inv|done].
    + intros c'. rewrite consume_channels. auto.
Qed.

Lemma run_refines ops r :
  router_ok r → Forall op_ok ops → NoDup (ops ≫= drawn) →
  (∀ c, c ∈ ops ≫= drawn → c ∉ dom (r_channels r)) →
  ∃ r' answers, run_ops ops r = Some (r', answers) ∧ router_ok r' ∧
    spec_run ops (abs r) = (abs r', answers).
Proof.
  revert r. induction ops as [|op ops IH]; intros r Hok Hops Hnd Hnew; simpl.
  { exists r, []. done. }
  apply Forall_cons in Hops as [Hop Hops]. simpl in Hnd, Hnew.
  apply NoDup_app in Hnd as (_ & Hdisj & Hnd).
  destruct (exec_refines op r Hok Hop) as (r1 & answer & -> & Hok1 & -> & Hdom);
    [intros c Hc; apply Hnew; set_solver|]. simpl.
  destruct (IH r1 Hok1 Hops Hnd) as (r' & answers & -> & Hok' & ->).
  { intros c Hc Hin. destruct (Hdom c Hin) as [Hd|Hd]; [by apply (Hdisj c)|].
    apply (Hnew c); [set_solver|done]. }
  exists r', (answer :: answers). done.
Qed.

(** (C4) The routing engine implements its specification.  For every sequence
    of registrations, subscriptions, removals, dispatches, polls and dropped
    receivers on a new router, whose connection ids are drawn once: no
    operation panics, and every answer (the errors of refused calls, the
    counts of dispatch reports, the messages each receiver gets, with their
    subscriptions, in their order) is the answer of the specification, which
    has no index and matches every filter against every message; the states
    correspond at the end. *)
Theorem router_implements_spec config ops
    (Hconfig : config_ok config) (Hops : Forall op_ok ops) (Hdrawn : NoDup (ops ≫= drawn)) :
  ∃ r answers, run_ops ops (Router_new config) = Some (r, answers) ∧ router_ok r ∧
    spec_run ops (spec_new config) = (abs r, answers).
Proof.
  destruct (run_refines ops (Router_new config) (Router_new_ok _ Hconfig) Hops Hdrawn)
    as (r & answers & Hrun & Hok & Hspec).
  - intros c _. simpl. rewrite dom_empty_L. set_solver.
  - exists r, answers. split_and!; [done..|]. rewrite <-Hspec. f_equal.
Qed.
End abstraction.

(** ** Concrete run *)

(** Two connections of two tenants, one of which overlaps two filters; a
    message, its poll, a slow consumer's removal and the end of its queue. *)
Definition model_ops : list Op :=
  let send := OpDispatch map_to_list 0 0 example_message in
  [OpRegister 7 "tenant-a" WebSocket (Some 1); OpRegister 8 "tenant-b" Sse None;
   OpSubscribe 7 "all" (tenant_filter "tenant-a"); OpSubscribe 7 "again" (tenant_filter "tenant-a");
   OpSubscribe 8 "all" (tenant_filter "tenant-a"); send; OpPoll 7; send; send; send; send;
   OpPoll 7; OpPoll 7; OpPoll 8].

Definition answers_of (config : RouterConfig) (ops : list Op) : list Answer :=
  (spec_run ops (spec_new config)).2.

Example model_answers :
  answers_of RouterConfig_default model_ops =
  let ids : gset SubscriptionId := {["again"; "all"]} in
  let report d f := AnRouted {| dr_matched_subscriptions := 2; dr_delivered_connections := d;
                                dr_full_connections := f; dr_closed_connections := 0 |} in
  [AnRegistered (Ok 7); AnRegistered (Ok 8); AnDone (Ok tt); AnDone (Ok tt);
   AnDone (Err TenantMismatch); report 1 0; AnPolled (Some (Received (example_message, ids)));
   report 1 0; report 0 1; report 0 1; report 0 1;
   AnPolled (Some (Received (example_message, ids))); AnPolled (Some Disconnected);
   AnPolled (Some Pending)].
Proof. vm_compute. reflexivity. Qed.

Lemma router_implements_spec_witness :
  ∃ r : FifoRouter, run_ops model_ops (Router_new RouterConfig_default) =
    Some (r, answers_of RouterConfig_default model_ops) ∧ router_ok r.
Proof.
  destruct (router_implements_spec (Chan := Fifo Delivery) RouterConfig_default model_ops)
    as (r & answers & Hrun & Hok & Hspec).
  - exact config_default_ok.
  - repeat constructor; try apply map_to_list_iterates; try discriminate; intros n [= <-]; discriminate.
  - apply (bool_decide_unpack _). vm_compute. reflexivity.
  - exists r. unfold answers_of. rewrite Hspec. split; [exact Hrun|exact Hok].
Defined.
