(* ===== verification/TopicLog.v ===== *)
(** * Topics as logs

    What the crash models rely on of Kafka: a partition is a sequence of
    records at increasing offsets that only grows at its end, and a consumer
    reads the first record at or after its offset. *)

From S2P Require Import Prelude.
Open Scope Z_scope.

Section log.
Context {A : Type}.
Implicit Types (log : gmap (string * Z * Z) A) (t : string) (p o : Z) (a : A).

(** The first record of a partition at or after an offset. *)
Definition next_in log t p (from : Z) o a : Prop :=
  log !! (t, p, o) = Some a ∧ from ≤ o ∧ ∀ o', from ≤ o' < o → log !! (t, p, o') = None.

(** All records of a partition are before an offset. *)
Definition ends_at log t p o : Prop := ∀ o', is_Some (log !! (t, p, o')) → o' < o.

Lemma ends_at_new log t p o t' p' o' :
  ends_at log t p o → is_Some (log !! (t', p', o')) → (t, p, o) ≠ (t', p', o').
Proof. intros Hend Hs [= -> -> ->]. specialize (Hend _ Hs). lia. Qed.

(** What was there stays, and the only new record is the one at the end. *)
Lemma lookup_append log t p o a t' p' o' a' :
  ends_at log t p o → log !! (t', p', o') = Some a' → <[(t, p, o) := a]> log !! (t', p', o') = Some a'.
Proof. intros Hend Hl. rewrite lookup_insert_ne; [done|]. eapply ends_at_new; eauto. Qed.

(** Every record before [upto] satisfies [P], where that is known before [from],
    is known before the record after [from] as well if it holds of it. *)
Definition all_before (P : A → Prop) log t p (start upto : Z) : Prop :=
  ∀ o a, log !! (t, p, o) = Some a → start ≤ o < upto → P a.

Lemma all_before_next P log t p start from o a :
  next_in log t p from o a → all_before P log t p start from → P a →
  all_before P log t p start (o + 1).
Proof.
  intros (Hl & Hle & Hgap) Hb Ho o' a' Hl' Hr.
  destruct (decide (o' = o)) as [->|]; [by rewrite Hl in Hl'; simplify_eq|].
  destruct (decide (o' < from)); [by eapply Hb; eauto; lia|].
  rewrite Hgap in Hl' by lia. done.
Qed.

Lemma all_before_append P log t p o a t' p' start upto :
  ends_at log t p o → ((t', p') = (t, p) → upto ≤ o) →
  all_before P log t' p' start upto → all_before P (<[(t, p, o) := a]> log) t' p' start upto.
Proof.
  intros Hend Hup Hb o' a' Hl Hr. destruct (decide ((t, p, o) = (t', p', o'))) as [[= -> -> ->]|Hne].
  - specialize (Hup eq_refl). lia.
  - rewrite lookup_insert_ne in Hl by done. by eapply Hb.
Qed.

Lemma all_before_impl (P Q : A → Prop) log t p start upto :
  (∀ a, P a → Q a) → all_before P log t p start upto → all_before Q log t p start upto.
Proof. intros HPQ Hb o a Hl Hr. by eapply HPQ, Hb. Qed.
End log.
