(* ===== verification/Kafka.v ===== *)
(** * Kafka records: publishing and decoding

    router-core's [publisher.rs] and router-kafka's [config.rs],
    [publisher.rs] and [decoder.rs].  A command accepted by the publisher is
    turned into a keyed record with routing headers; the decoder turns a
    record back into a routed message.  The MIME parser and the producer are
    library code and parameters; a [ClientConfig] is the sequence of its
    [set] calls, of which librdkafka honours the last one per key. *)

From S2P Require Import Prelude Str Ids Message.
Open Scope Z_scope.

(** ** Publishing: router-core *)

(** [PublishCommand]. *)
Record PublishCommand : Type := {
  pc_message_id : string;
  pc_tenant_id : string;
  pc_kind : option string;
  pc_message_type : option string;
  pc_channel : option string;
  pc_actor_id : option string;
  pc_recipient_type : option string;
  pc_recipient_identity : option string;
  pc_ordering_key : option string;
  pc_content_type : string;
  pc_payload : string;
}.

(** [PublishReceipt]. *)
Record PublishReceipt : Type := {
  pr_message_id : string;
  pr_topic : string;
  pr_partition : Z;
  pr_offset : Z;
}.

(** [PublishErrorKind] and [PublishError] with its constructors. *)
Inductive PublishErrorKind : Type := InvalidInput | Timeout | QueueFull | Backend.

Record PublishError : Type := {
  pe_kind : PublishErrorKind;
  pe_message : string;
}.

Definition invalid_input (message : string) : PublishError :=
  {| pe_kind := InvalidInput; pe_message := message |}.
Definition backend (message : string) : PublishError :=
  {| pe_kind := Backend; pe_message := message |}.
Definition timeout (message : string) : PublishError :=
  {| pe_kind := Timeout; pe_message := message |}.
Definition queue_full (message : string) : PublishError :=
  {| pe_kind := QueueFull; pe_message := message |}.

(** The [mime] crate: type, subtype and suffix of a parsed MIME type. *)
Record Mime : Type := {
  mime_type : string;
  mime_subtype : string;
  mime_suffix : option string;
}.

Class MimeParser := parse_mime : string → option Mime.

(** The metadata [validate] builds from a command. *)
Definition command_metadata (c : PublishCommand) (source : option KafkaPosition)
    (timestamp : option Z) : RoutingMetadata := {|
  md_message_id := pc_message_id c; md_tenant_id := pc_tenant_id c; md_kind := pc_kind c;
  md_message_type := pc_message_type c; md_channel := pc_channel c; md_actor_id := pc_actor_id c;
  md_recipient_type := pc_recipient_type c; md_recipient_identity := pc_recipient_identity c;
  md_content_type := pc_content_type c; md_timestamp_ms := timestamp; md_source := source |}.

(** [PublishCommand::validate]. *)
Definition PublishCommand_validate `{MimeParser} (c : PublishCommand) : result PublishError unit :=
  _ ← map_err (λ e, invalid_input (CoreError_to_string e))
        (RoutingMetadata_validate (command_metadata c None None));
  content_type ← ok_or (parse_mime (pc_content_type c))
                   (invalid_input "content_type must be a valid MIME type");
  _ ← ensure (negb (bool_decide (mime_type content_type = "*") ||
                bool_decide (mime_subtype content_type = "*")))
        (invalid_input "content_type wildcards are not allowed");
  match pc_ordering_key c with
  | Some key => map_err (λ e, invalid_input (CoreError_to_string e))
                  (validate_identifier "ordering_key" key 256)
  | None => Ok tt
  end.

(** ** Configuration *)

(** The defaults of the settings. *)
Definition default_brokers : string := "localhost:9092".
Definition default_group_id : string := "kafka-edge-router-local".
Definition default_consumer_client_id : string := "kafka-edge-router-consumer".
Definition default_producer_client_id : string := "kafka-edge-router-producer".
Definition default_topic : string := "router.input".
Definition default_topics : list string := [default_topic].
Definition default_auto_offset_reset : string := "earliest".
Definition default_max_payload_bytes : Z := 1_048_576.
Definition default_delivery_timeout_ms : Z := 10_000.

(** [KafkaConsumerConfig] and [KafkaProducerConfig] with their defaults. *)
Record KafkaConsumerConfig : Type := {
  kc_brokers : string;
  kc_group_id : string;
  kc_client_id : string;
  kc_topics : list string;
  kc_auto_offset_reset : string;
  kc_max_payload_bytes : Z;
  kc_commit_invalid_messages : bool;
  kc_properties : gmap string string;
}.

Definition KafkaConsumerConfig_default : KafkaConsumerConfig := {|
  kc_brokers := default_brokers; kc_group_id := default_group_id;
  kc_client_id := default_consumer_client_id; kc_topics := default_topics;
  kc_auto_offset_reset := default_auto_offset_reset; kc_max_payload_bytes := default_max_payload_bytes;
  kc_commit_invalid_messages := true; kc_properties := ∅ |}.

Record KafkaProducerConfig : Type := {
  kpc_enabled : bool;
  kpc_brokers : string;
  kpc_client_id : string;
  kpc_topic : string;
  kpc_delivery_timeout_ms : Z;
  kpc_properties : gmap string string;
}.

Definition KafkaProducerConfig_default : KafkaProducerConfig := {|
  kpc_enabled := true; kpc_brokers := default_brokers;
  kpc_client_id := default_producer_client_id; kpc_topic := default_topic;
  kpc_delivery_timeout_ms := default_delivery_timeout_ms; kpc_properties := ∅ |}.

(** The [set] calls on a [ClientConfig], in order. *)
Abbreviation ClientConfig := (list (string * string)).

(** The value a key ends up with: that of the last call. *)
Fixpoint effective (client : ClientConfig) (key : string) : option string :=
  match client with
  | [] => None
  | (k, v) :: rest =>
      match effective rest key with
      | Some v' => Some v'
      | None => if bool_decide (k = key) then Some v else None
      end
  end.

(** [producer_client_config]. *)
Definition producer_client_config (config : KafkaProducerConfig) : ClientConfig :=
  btree_entries (kpc_properties config) ++
  [("bootstrap.servers", kpc_brokers config); ("client.id", kpc_client_id config);
   ("message.timeout.ms", pretty (kpc_delivery_timeout_ms config));
   ("enable.idempotence", "true"); ("acks", "all")].

(** The client configuration of [KafkaIngestor::with_pre_commit_sinks]. *)
Definition consumer_client_config (config : KafkaConsumerConfig) : ClientConfig :=
  btree_entries (kc_properties config) ++
  [("bootstrap.servers", kc_brokers config); ("group.id", kc_group_id config);
   ("client.id", kc_client_id config); ("enable.auto.commit", "false");
   ("enable.auto.offset.store", "false"); ("auto.offset.reset", kc_auto_offset_reset config);
   ("statistics.interval.ms", "10000")].

(** ** Publishing: the Kafka producer *)

(** A header: its key and an optional byte value. *)
Abbreviation Header := (string * option string)%type.

(** [FutureRecord] as [publish] fills it in. *)
Record FutureRecord : Type := {
  fr_topic : string;
  fr_key : string;
  fr_payload : string;
  fr_headers : list Header;
}.

(** The codes of [KafkaError::rdkafka_error_code] the code distinguishes. *)
Inductive RDKafkaErrorCode : Type :=
| CodeQueueFull | CodeMessageTimedOut | CodeOperationTimedOut | CodeRequestTimedOut
| CodeTimedOutQueue | OtherCode (n : Z).

Record KafkaError : Type := {
  ke_code : option RDKafkaErrorCode;
  ke_display : string;
}.

(** [insert_optional]. *)
Definition insert_optional (headers : list Header) (key : string) (value : option string)
    : list Header :=
  match value with Some v => headers ++ [(key, Some v)] | None => headers end.

(** [classify_delivery_error]. *)
Definition classify_delivery_error (error : KafkaError) : PublishError :=
  match ke_code error with
  | Some CodeQueueFull => queue_full (ke_display error)
  | Some (CodeMessageTimedOut | CodeOperationTimedOut | CodeRequestTimedOut | CodeTimedOutQueue) =>
      timeout (ke_display error)
  | _ => backend (ke_display error)
  end.

(** [kafka_key]. *)
Definition kafka_key (c : PublishCommand) : string :=
  match pc_ordering_key c with
  | Some ordering_key => pc_tenant_id c +:+ ":explicit:" +:+ ordering_key
  | None =>
    match pc_recipient_type c, pc_recipient_identity c with
    | Some rtype, Some rident => pc_tenant_id c +:+ ":" +:+ rtype +:+ ":" +:+ rident
    | _, _ =>
      match pc_channel c with
      | None => pc_tenant_id c
      | Some channel => pc_tenant_id c +:+ ":channel:" +:+ channel
      end
    end
  end.

(** The headers [publish] attaches. *)
Definition publish_headers (c : PublishCommand) : list Header :=
  let headers := [("x-message-id", Some (pc_message_id c)); ("x-tenant-id", Some (pc_tenant_id c));
                  ("x-content-type", Some (pc_content_type c))] in
  let headers := insert_optional headers "x-kind" (pc_kind c) in
  let headers := insert_optional headers "x-type" (pc_message_type c) in
  let headers := insert_optional headers "x-channel" (pc_channel c) in
  let headers := insert_optional headers "x-actor-id" (pc_actor_id c) in
  let headers := insert_optional headers "x-recipient-type" (pc_recipient_type c) in
  insert_optional headers "x-recipient-identity" (pc_recipient_identity c).

(** [KafkaPublisher::publish]; [send] is what the producer reports for a
    record: a partition and offset, or an error. *)
Definition publish `{MimeParser} (config : KafkaProducerConfig)
    (send : FutureRecord → result KafkaError (Z * Z)) (c : PublishCommand)
    : result PublishError PublishReceipt :=
  _ ← PublishCommand_validate c;
  delivery ← map_err classify_delivery_error
    (send {| fr_topic := kpc_topic config; fr_key := kafka_key c;
             fr_payload := pc_payload c; fr_headers := publish_headers c |});
  Ok {| pr_message_id := pc_message_id c; pr_topic := kpc_topic config;
        pr_partition := delivery.1; pr_offset := delivery.2 |}.

(** ** Decoding *)

(** [DecodeError]. *)
Inductive DecodeError : Type :=
| MissingHeader (name : string)
| InvalidUtf8 (name : string)
| DuplicateHeader (name : string)
| PayloadTooLarge (actual limit : Z)
| InvalidMetadata (reason : string).

(** What the [Message] trait of rdkafka exposes of a consumed record. *)
Record KafkaRecord : Type := {
  kr_payload : option string;
  kr_topic : string;
  kr_partition : Z;
  kr_offset : Z;
  kr_timestamp_ms : option Z;
  kr_headers : option (list Header);
}.

(** The loop of [optional_header]; [value] is the accumulator. *)
Fixpoint scan_headers (name : string) (headers : list Header) (value : option (option string))
    : result DecodeError (option string) :=
  match headers with
  | [] => Ok (mjoin value)
  | (key, bytes) :: rest =>
    if eq_ignore_ascii_case key name then
      match value with
      | Some _ => Err (DuplicateHeader name)
      | None =>
        match bytes with
        | None => scan_headers name rest (Some None)
        | Some bytes =>
          match from_utf8 bytes with
          | Some text => scan_headers name rest (Some (Some text))
          | None => Err (InvalidUtf8 name)
          end
        end
      end
    else scan_headers name rest value
  end.

(** [optional_header] and [required_header]. *)
Definition optional_header (record : KafkaRecord) (name : string)
    : result DecodeError (option string) :=
  match kr_headers record with
  | None => Ok None
  | Some headers => scan_headers name headers None
  end.

Definition required_header (record : KafkaRecord) (name : string) : result DecodeError string :=
  value ← optional_header record name; ok_or value (MissingHeader name).

(** The [match (traceparent, tracestate)] of [decode_message]. *)
Definition decode_trace_context (traceparent tracestate : option string)
    : result DecodeError (option TraceContext) :=
  match traceparent, tracestate with
  | Some traceparent, tracestate =>
      Some <$> map_err (λ e, InvalidMetadata (CoreError_to_string e))
                 (TraceContext_new traceparent tracestate)
  | None, Some _ => Err (InvalidMetadata "tracestate requires traceparent")
  | None, None => Ok None
  end.

(** [decode_message]. *)
Definition decode_message (record : KafkaRecord) (max_payload_bytes : Z)
    : result DecodeError RoutedMessage :=
  let payload := default "" (kr_payload record) in
  _ ← ensure (str_len payload <=? max_payload_bytes)
        (PayloadTooLarge (str_len payload) max_payload_bytes);
  tenant_id ← required_header record "x-tenant-id";
  message_id ← optional_header record "x-message-id";
  let message_id := default (kr_topic record +:+ ":" +:+ pretty (kr_partition record) +:+ ":" +:+
                             pretty (kr_offset record)) message_id in
  content_type ← optional_header record "x-content-type";
  let content_type := default "application/octet-stream" content_type in
  traceparent ← optional_header record "traceparent";
  tracestate ← optional_header record "tracestate";
  trace_context ← decode_trace_context traceparent tracestate;
  kind ← optional_header record "x-kind";
  message_type ← optional_header record "x-type";
  channel ← optional_header record "x-channel";
  actor_id ← optional_header record "x-actor-id";
  recipient_type ← optional_header record "x-recipient-type";
  recipient_identity ← optional_header record "x-recipient-identity";
  map_err (λ e, InvalidMetadata (CoreError_to_string e))
    (RoutedMessage_new_with_trace_context
      {| md_message_id := message_id; md_tenant_id := tenant_id; md_kind := kind;
         md_message_type := message_type; md_channel := channel; md_actor_id := actor_id;
         md_recipient_type := recipient_type; md_recipient_identity := recipient_identity;
         md_content_type := content_type; md_timestamp_ms := kr_timestamp_ms record;
         md_source := Some {| kp_topic := kr_topic record; kp_partition := kr_partition record;
                              kp_offset := kr_offset record |} |}
      payload trace_context).
