(* ===== verification/KafkaSpec.v ===== *)
(** * What the Kafka boundary promises

    The decoder accepts a record only with unambiguous, valid routing headers
    and a payload within the limit, and what a publisher writes it reads back
    unchanged.  Client configurations keep their delivery guarantees whatever
    free-form properties say.  Kafka keys are namespaced by tenant, as far as
    tenant names without a colon go. *)

From S2P Require Import Prelude Str Ids Message Kafka.
Open Scope Z_scope.

(** ** Headers *)

(** The headers of a name, in order. *)
Definition occurrences (name : string) (headers : list Header) : list Header :=
  filter (λ h : Header, eq_ignore_ascii_case h.1 name = true) headers.

(** The value of the header that is found first, or why it is refused. *)
Definition header_value (name : string) (found : list Header) : result DecodeError (option string) :=
  match found with
  | [] => Ok None
  | (_, Some bytes) :: rest =>
      if utf8_valid bytes then
        match rest with [] => Ok (Some bytes) | _ => Err (DuplicateHeader name) end
      else Err (InvalidUtf8 name)
  | (_, None) :: rest => match rest with [] => Ok None | _ => Err (DuplicateHeader name) end
  end.

Lemma scan_headers_later name headers v :
  scan_headers name headers (Some v) =
  match occurrences name headers with [] => Ok v | _ => Err (DuplicateHeader name) end.
Proof.
  unfold occurrences. induction headers as [|[key bytes] rest IH]; simpl; [done|].
  destruct (eq_ignore_ascii_case key name) eqn:E; simpl.
  - by rewrite filter_cons_True.
  - rewrite filter_cons_False; [done|]. simpl. congruence.
Qed.

Lemma scan_headers_spec name headers :
  scan_headers name headers None = header_value name (occurrences name headers).
Proof.
  unfold occurrences. induction headers as [|[key bytes] rest IH]; simpl; [done|].
  destruct (eq_ignore_ascii_case key name) eqn:E; simpl.
  - rewrite filter_cons_True by done. simpl. unfold from_utf8.
    destruct bytes as [bytes|]; [destruct (utf8_valid bytes)|];
      rewrite ?scan_headers_later; unfold occurrences; done.
  - rewrite filter_cons_False; [done|]. simpl. congruence.
Qed.

(** The header list of a record. *)
Definition headers_of (record : KafkaRecord) : list Header := default [] (kr_headers record).

Lemma optional_header_spec record name :
  optional_header record name = header_value name (occurrences name (headers_of record)).
Proof. unfold optional_header, headers_of. destruct (kr_headers record); [apply scan_headers_spec|done]. Qed.

(** A header value that is accepted: at most one header has the name. *)
Lemma header_value_Ok name found v :
  header_value name found = Ok v →
  (length found ≤ 1)%nat ∧ mjoin (snd <$> head found) = v ∧
  ∀ s, v = Some s → utf8_valid s = true.
Proof.
  unfold header_value. intros Hv.
  destruct found as [|[key [bytes|]] [|h rest]]; simpl in *; simplify_eq/=.
  - split_and!; [lia|done..].
  - destruct (utf8_valid bytes) eqn:E; simplify_eq. split_and!; [lia|done|naive_solver].
  - by destruct (utf8_valid bytes).
  - split_and!; [lia|done..].
Qed.

(** ** Decoding *)

(** The trace context two header values stand for: none without a [traceparent],
    which a [tracestate] needs. *)
Definition trace_context_ok (traceparent tracestate : option string) (tc : option TraceContext) : Prop :=
  match traceparent with
  | Some tp => tc = Some {| tc_traceparent := tp; tc_tracestate := tracestate |} ∧
      identifier_ok tp 256 ∧ from_option (λ ts, identifier_ok ts 512) True tracestate
  | None => tc = None ∧ tracestate = None
  end.

Lemma decode_trace_context_Ok tp ts tc :
  decode_trace_context tp ts = Ok tc → trace_context_ok tp ts tc.
Proof.
  unfold decode_trace_context, trace_context_ok. destruct tp as [tp|]; [|destruct ts; naive_solver].
  rewrite fmap_result_Ok. intros (t & Ht & ->). apply map_err_Ok in Ht.
  unfold TraceContext_new in Ht. bind_step Ht as [], Htp%validate_identifier_Ok.
  bind_step Ht as [], Hts. injection Ht as <-. split_and!; [done..|].
  destruct ts as [ts|]; [by apply validate_identifier_Ok in Hts|done].
Qed.

(** The value of a header, when the record is accepted. *)
Definition header (record : KafkaRecord) (name : string) : option string :=
  mjoin (snd <$> head (occurrences name (headers_of record))).

(** (C36) An accepted record is unambiguous and valid: its payload is within
    the limit and kept byte for byte; every routing header occurs at most once
    (ignoring ASCII case), is UTF-8 and is the field of the message; the
    tenant header is present; the message id and content type have their
    documented defaults; [traceparent] and [tracestate] are the trace context,
    which [tracestate] alone is not; the time and the source are those of the
    record; and the metadata satisfies every rule of
    [RoutingMetadata::validate]. *)
Theorem decoded_message_valid (record : KafkaRecord) (limit : Z) (msg : RoutedMessage)
    (Hdec : decode_message record limit = Ok msg) :
  let md := rm_metadata msg in
  metadata_ok md ∧
  rm_payload msg = default "" (kr_payload record) ∧ str_len (rm_payload msg) ≤ limit ∧
  (∀ name, name ∈ ["x-tenant-id"; "x-message-id"; "x-content-type"; "traceparent"; "tracestate";
      "x-kind"; "x-type"; "x-channel"; "x-actor-id"; "x-recipient-type"; "x-recipient-identity"] →
    (length (occurrences name (headers_of record)) ≤ 1)%nat ∧
    ∀ value, header record name = Some value → utf8_valid value = true) ∧
  header record "x-tenant-id" = Some (md_tenant_id md) ∧
  md_message_id md = default (kr_topic record +:+ ":" +:+ pretty (kr_partition record) +:+ ":" +:+
                              pretty (kr_offset record)) (header record "x-message-id") ∧
  md_content_type md = default "application/octet-stream" (header record "x-content-type") ∧
  md_kind md = header record "x-kind" ∧ md_message_type md = header record "x-type" ∧
  md_channel md = header record "x-channel" ∧ md_actor_id md = header record "x-actor-id" ∧
  md_recipient_type md = header record "x-recipient-type" ∧
  md_recipient_identity md = header record "x-recipient-identity" ∧
  trace_context_ok (header record "traceparent") (header record "tracestate")
    (rm_trace_context msg) ∧
  md_timestamp_ms md = kr_timestamp_ms record ∧
  md_source md = Some {| kp_topic := kr_topic record; kp_partition := kr_partition record;
                         kp_offset := kr_offset record |}.
Proof.
  unfold decode_message, required_header in Hdec. rewrite !optional_header_spec in Hdec.
  invert_binds. rewrite map_err_Ok, RoutedMessage_new_with_trace_context_Ok in Hdec.
  destruct Hdec as [Hmd ->]. simpl.
  rewrite ensure_Ok, Z.leb_le in *.
  repeat match goal with
  | H : header_value _ _ = Ok _ |- _ => apply header_value_Ok in H as (? & ? & ?)
  | H : ok_or _ _ = Ok _ |- _ => apply ok_or_Ok in H
  | H : decode_trace_context _ _ = Ok _ |- _ => apply decode_trace_context_Ok in H
  end.
  unfold header. split_and!; try done; try congruence.
  - intros name Hname. rewrite !elem_of_cons, elem_of_nil in Hname. naive_solver.
Qed.

(** ** Publish then decode *)

Lemma occurrences_app name hs hs' : occurrences name (hs ++ hs') = occurrences name hs ++ occurrences name hs'.
Proof. apply filter_app. Qed.

Lemma occurrences_insert name hs key v :
  occurrences name (insert_optional hs key v) =
  occurrences name hs ++
    if eq_ignore_ascii_case key name then from_option (λ v, [(key, Some v)]) [] v else [].
Proof.
  unfold insert_optional. destruct v as [v|]; simpl; [|by case_match; rewrite app_nil_r].
  rewrite occurrences_app. f_equal. unfold occurrences.
  destruct (eq_ignore_ascii_case key name) eqn:E.
  - by rewrite filter_cons_True.
  - rewrite filter_cons_False; [done|]. simpl. congruence.
Qed.

(** A field that is absent or UTF-8. *)
Lemma header_value_optional name key (v : option string) :
  (∀ s, v = Some s → utf8_valid s = true) →
  header_value name (from_option (λ v, [(key, Some v)]) [] v) = Ok v.
Proof. intros Hv. destruct v as [v|]; simpl; [|done]. by rewrite Hv. Qed.

(** The record the broker hands out for a published record. *)
Definition published_record (r : FutureRecord) (partition offset : Z) (timestamp : option Z)
    : KafkaRecord := {|
  kr_payload := Some (fr_payload r); kr_topic := fr_topic r; kr_partition := partition;
  kr_offset := offset; kr_timestamp_ms := timestamp; kr_headers := Some (fr_headers r) |}.

Lemma validate_metadata `{MimeParser} c :
  PublishCommand_validate c = Ok tt → metadata_ok (command_metadata c None None).
Proof.
  unfold PublishCommand_validate. intros (? & Hv & _)%bind_Ok.
  destruct x. by apply map_err_Ok, RoutingMetadata_validate_Ok in Hv.
Qed.

(** Evaluates the comparisons of literal header names. *)
Ltac eval_header_names := repeat match goal with
  | |- context [eq_ignore_ascii_case ?a ?b] =>
      let r := eval vm_compute in (eq_ignore_ascii_case a b) in
      change (eq_ignore_ascii_case a b) with r
  end.

Section roundtrip.
Context `{MimeParser} (c : PublishCommand) (Hc : PublishCommand_validate c = Ok tt).
Context (topic key : string) (partition offset : Z) (timestamp : option Z).

Local Abbreviation record := (published_record
  {| fr_topic := topic; fr_key := key; fr_payload := pc_payload c;
     fr_headers := publish_headers c |} partition offset timestamp).

(** The three fixed headers and the six optional ones. *)
Lemma published_headers name :
  occurrences name (headers_of record) =
  occurrences name [("x-message-id", Some (pc_message_id c));
    ("x-tenant-id", Some (pc_tenant_id c)); ("x-content-type", Some (pc_content_type c))] ++
  foldr (λ '(key, v) acc, (if eq_ignore_ascii_case key name
      then from_option (λ v, [(key, Some v)]) [] v else []) ++ acc) []
    [("x-kind", pc_kind c); ("x-type", pc_message_type c); ("x-channel", pc_channel c);
     ("x-actor-id", pc_actor_id c); ("x-recipient-type", pc_recipient_type c);
     ("x-recipient-identity", pc_recipient_identity c)].
Proof.
  unfold headers_of, publish_headers. simpl. rewrite !occurrences_insert.
  by rewrite <-!(assoc_L (++)), app_nil_r.
Qed.

(** Every value of a command is UTF-8. *)
Lemma command_utf8 v :
  v ∈ [None; Some (pc_message_id c); Some (pc_tenant_id c); Some (pc_content_type c); pc_kind c;
       pc_message_type c; pc_channel c; pc_actor_id c; pc_recipient_type c;
       pc_recipient_identity c] → ∀ s, v = Some s → utf8_valid s = true.
Proof.
  intros Hv s ->. destruct (validate_metadata c Hc) as [H1 H2 H3 H4 _]. simpl in *.
  rewrite !elem_of_cons in Hv.
  destruct Hv as [?|[[= ->]|[[= ->]|[[= ->]|Hv]]]]; [done|..]; eauto using identifier_ok_utf8.
  eapply identifier_ok_utf8, H4. by rewrite !elem_of_cons.
Qed.

Lemma read_published name v :
  (name, v) ∈ [("x-message-id", Some (pc_message_id c)); ("x-tenant-id", Some (pc_tenant_id c));
    ("x-content-type", Some (pc_content_type c)); ("traceparent", None); ("tracestate", None);
    ("x-kind", pc_kind c); ("x-type", pc_message_type c); ("x-channel", pc_channel c);
    ("x-actor-id", pc_actor_id c); ("x-recipient-type", pc_recipient_type c);
    ("x-recipient-identity", pc_recipient_identity c)] →
  optional_header record name = Ok v.
Proof.
  intros Hin. rewrite optional_header_spec, published_headers.
  pose proof (λ v Hv, header_value_optional name name v (command_utf8 v Hv)) as Hopt.
  rewrite !elem_of_cons, elem_of_nil in Hin.
  repeat match type of Hin with _ ∨ _ => destruct Hin as [[= -> ->]|Hin] end; [..|done].
  all: etrans; [|apply Hopt; rewrite !elem_of_cons; tauto]; f_equal; unfold occurrences; simpl;
    rewrite ?filter_cons; simpl; eval_header_names; simpl; by rewrite ?app_nil_r.
Qed.
End roundtrip.

(** Decoding what [publish] sent. *)
Lemma published_outcome `{MimeParser} (config : KafkaProducerConfig)
    (send : FutureRecord → result KafkaError (Z * Z)) (c : PublishCommand)
    (receipt : PublishReceipt) :
  publish config send c = Ok receipt →
  ∃ record, send record = Ok (pr_partition receipt, pr_offset receipt) ∧
    ∀ timestamp limit,
      decode_message (published_record record (pr_partition receipt) (pr_offset receipt) timestamp)
        limit =
      if str_len (pc_payload c) <=? limit then
        Ok {| rm_metadata := command_metadata c
                (Some {| kp_topic := pr_topic receipt; kp_partition := pr_partition receipt;
                         kp_offset := pr_offset receipt |}) timestamp;
              rm_payload := pc_payload c; rm_trace_context := None |}
      else Err (PayloadTooLarge (str_len (pc_payload c)) limit).
Proof.
  intros Hpub. unfold publish in Hpub. bind_step Hpub as [], Hc.
  apply bind_Ok in Hpub as ([partition offset] & Hsend%map_err_Ok & Hr). injection Hr as <-.
  eexists. split; [exact Hsend|]. intros timestamp limit. simpl.
  unfold decode_message, required_header.
  pose proof (read_published c Hc (kpc_topic config) (kafka_key c) partition offset timestamp)
    as Hread.
  repeat match goal with
  | |- context [optional_header _ ?name] =>
      erewrite (Hread name) by (repeat first [apply list_elem_of_here | apply list_elem_of_further])
  end.
  simpl. destruct (str_len (pc_payload c) <=? limit); [|done]. simpl.
  unfold RoutedMessage_new_with_trace_context.
  assert (RoutingMetadata_validate (command_metadata c (Some {| kp_topic := kpc_topic config;
    kp_partition := partition; kp_offset := offset |}) timestamp) = Ok tt) as Hv.
  { apply RoutingMetadata_validate_Ok. by destruct (validate_metadata c Hc). }
  unfold command_metadata in *. rewrite Hv. reflexivity.
Qed.

(** (C19) What is published is what is routed: an acknowledged publish handed
    the producer one record, and decoding that record as the broker returns
    it yields exactly the message of the command (every field, the payload
    byte for byte, no trace context), at the acknowledged position. *)
Theorem publish_decode_roundtrip `{MimeParser} (config : KafkaProducerConfig)
    (send : FutureRecord → result KafkaError (Z * Z)) (c : PublishCommand)
    (receipt : PublishReceipt) (limit : Z)
    (Hpub : publish config send c = Ok receipt) (Hlimit : str_len (pc_payload c) ≤ limit) :
  ∃ record, send record = Ok (pr_partition receipt, pr_offset receipt) ∧
    ∀ timestamp,
      decode_message (published_record record (pr_partition receipt) (pr_offset receipt) timestamp)
        limit =
      Ok {| rm_metadata := command_metadata c
              (Some {| kp_topic := pr_topic receipt; kp_partition := pr_partition receipt;
                       kp_offset := pr_offset receipt |}) timestamp;
            rm_payload := pc_payload c; rm_trace_context := None |}.
Proof.
  destruct (published_outcome _ _ _ _ Hpub) as (record & Hsend & Hdec). exists record.
  split; [done|]. intros timestamp. rewrite Hdec. by rewrite (proj2 (Z.leb_le _ _)).
Qed.

(** ** Client configurations *)

Lemma effective_app a b key :
  effective (a ++ b) key = match effective b key with Some v => Some v | None => effective a key end.
Proof.
  induction a as [|[k v] a IH]; simpl; [by destruct (effective b key)|].
  rewrite IH. by destruct (effective b key).
Qed.

Lemma effective_list_to_map (l : ClientConfig) key :
  NoDup l.*1 → effective l key = (list_to_map l : gmap string string) !! key.
Proof.
  induction l as [|[k v] l IH]; [done|]. rewrite fmap_cons. intros [Hk Hl]%NoDup_cons. simpl.
  rewrite IH by done. destruct (decide (k = key)) as [->|Hne].
  - rewrite bool_decide_true, lookup_insert_eq by done.
    by rewrite (not_elem_of_list_to_map_1 _ _ Hk).
  - rewrite bool_decide_false, lookup_insert_ne by done. by destruct (list_to_map l !! key).
Qed.

(** Settings applied last win; the others are those of the map. *)
Lemma effective_override (properties : gmap string string) (fixed : ClientConfig) key :
  NoDup fixed.*1 →
  effective (btree_entries properties ++ fixed) key = (list_to_map fixed ∪ properties) !! key.
Proof.
  intros Hnd. rewrite effective_app, effective_list_to_map by done.
  rewrite (effective_list_to_map (btree_entries _)) by apply btree_entries_keys.
  rewrite btree_entries_to_map, lookup_union.
  destruct (list_to_map fixed !! key), (properties !! key); done.
Qed.

(** Free-form properties cannot weaken the delivery guarantees, and are
    otherwise passed on: whatever [properties] contains, the producer is
    idempotent with full acknowledgement and the configured timeout, and the
    consumer commits only explicitly, under the configured group and brokers;
    every setting that is not one of these is exactly the property of that
    name. *)
Lemma client_guarantees_fixed (pconfig : KafkaProducerConfig) (cconfig : KafkaConsumerConfig)
    (key : string) :
  effective (producer_client_config pconfig) key =
    (list_to_map [("enable.idempotence", "true"); ("acks", "all");
       ("message.timeout.ms", pretty (kpc_delivery_timeout_ms pconfig));
       ("bootstrap.servers", kpc_brokers pconfig); ("client.id", kpc_client_id pconfig)]
     ∪ kpc_properties pconfig) !! key ∧
  effective (consumer_client_config cconfig) key =
    (list_to_map [("enable.auto.commit", "false"); ("enable.auto.offset.store", "false");
       ("group.id", kc_group_id cconfig); ("bootstrap.servers", kc_brokers cconfig);
       ("client.id", kc_client_id cconfig);
       ("auto.offset.reset", kc_auto_offset_reset cconfig); ("statistics.interval.ms", "10000")]
     ∪ kc_properties cconfig) !! key.
Proof.
  unfold producer_client_config, consumer_client_config. split.
  all: rewrite effective_override by (apply (bool_decide_unpack _); vm_compute; exact I).
  all: do 2 f_equal.
Qed.

(** ** Kafka keys *)

Definition colon : ascii := Ascii.ascii_of_nat 58.

(** A tenant name without a colon. *)
Definition no_colon (s : string) : Prop := split_first colon s = s.

Lemma split_first_prefix t rest :
  no_colon t → (rest = "" ∨ ∃ rest', rest = String colon rest') →
  split_first colon (t +:+ rest) = t.
Proof.
  unfold no_colon. induction t as [|a t IH]; simpl; intros Ht Hrest.
  - by destruct Hrest as [->|[rest' ->]].
  - change (String a t +:+ rest) with (String a (t +:+ rest)). simpl.
    case_bool_decide; [done|]. injection Ht as Ht. by rewrite IH.
Qed.

(** A key is the tenant, alone or followed by a colon. *)
Lemma kafka_key_prefix c :
  ∃ rest, kafka_key c = pc_tenant_id c +:+ rest ∧ (rest = "" ∨ ∃ rest', rest = String colon rest').
Proof.
  assert (∃ rest, pc_tenant_id c = pc_tenant_id c +:+ rest ∧
    (rest = "" ∨ ∃ rest', rest = String colon rest')) as Hplain.
  { exists "". rewrite str_app_nil_r. auto. }
  unfold kafka_key. destruct (pc_ordering_key c), (pc_recipient_type c), (pc_recipient_identity c),
    (pc_channel c); try done; (eexists; split; [reflexivity|right; eexists; reflexivity]).
Qed.

(** ** Concrete inputs *)

Definition example_command (tenant : string) (ordering_key : option string) : PublishCommand := {|
  pc_message_id := "m-1"; pc_tenant_id := tenant; pc_kind := Some "content";
  pc_message_type := None; pc_channel := None; pc_actor_id := None; pc_recipient_type := None;
  pc_recipient_identity := None; pc_ordering_key := ordering_key;
  pc_content_type := "application/json"; pc_payload := "{}" |}.

(** A parser that knows one type, enough for the examples. *)
Definition example_mime : MimeParser := λ s,
  if bool_decide (s = "application/json")
  then Some {| mime_type := "application"; mime_subtype := "json"; mime_suffix := None |}
  else None.

(** (C37) Keys keep tenants apart as long as tenant names have no colon: equal
    keys then come from the same tenant.  The separation does not hold for
    every valid tenant name, since a colon is allowed: a command of the tenant
    ["t"] with the ordering key ["x"] and one of the tenant ["t:explicit:x"]
    without an ordering key are both accepted and have the same key. *)
Theorem kafka_key_tenant :
  (∀ c1 c2 : PublishCommand, no_colon (pc_tenant_id c1) → no_colon (pc_tenant_id c2) →
     kafka_key c1 = kafka_key c2 → pc_tenant_id c1 = pc_tenant_id c2) ∧
  (let c1 := example_command "t" (Some "x") in
   let c2 := example_command "t:explicit:x" None in
   @PublishCommand_validate example_mime c1 = Ok tt ∧
   @PublishCommand_validate example_mime c2 = Ok tt ∧
   pc_tenant_id c1 ≠ pc_tenant_id c2 ∧ kafka_key c1 = kafka_key c2).
Proof.
  split; [|split_and!; [vm_compute; reflexivity..|done|vm_compute; reflexivity]].
  intros c1 c2 H1 H2 Hkey.
  destruct (kafka_key_prefix c1) as (r1 & E1 & Hr1), (kafka_key_prefix c2) as (r2 & E2 & Hr2).
  rewrite <-(split_first_prefix _ _ H1 Hr1), <-(split_first_prefix _ _ H2 Hr2). congruence.
Qed.

Lemma publish_decode_roundtrip_witness :
  ∃ record, (λ _ : FutureRecord, Ok (3, 42) : result KafkaError (Z * Z)) record = Ok (3, 42) ∧
    decode_message (published_record record 3 42 (Some 5)) 100 =
    Ok {| rm_metadata := command_metadata (example_command "t" None)
            (Some {| kp_topic := "router.input"; kp_partition := 3; kp_offset := 42 |}) (Some 5);
          rm_payload := "{}"; rm_trace_context := None |}.
Proof.
  destruct (@publish_decode_roundtrip example_mime KafkaProducerConfig_default
    (λ _, Ok (3, 42)) (example_command "t" None)
    {| pr_message_id := "m-1"; pr_topic := "router.input"; pr_partition := 3; pr_offset := 42 |} 100)
    as (record & Hs & Hd).
  - vm_compute. reflexivity.
  - vm_compute. discriminate.
  - exists record. split; [exact Hs|]. apply (Hd (Some 5)).
Defined.

Definition example_record : KafkaRecord := {|
  kr_payload := Some "{}"; kr_topic := "router.input"; kr_partition := 0; kr_offset := 9;
  kr_timestamp_ms := None; kr_headers := Some [("X-Tenant-Id", Some "t"); ("other", None)] |}.

Lemma decoded_message_valid_witness :
  ∃ msg, decode_message example_record 10 = Ok msg ∧
    md_message_id (rm_metadata msg) = "router.input:0:9" ∧ md_tenant_id (rm_metadata msg) = "t".
Proof.
  destruct (decode_message example_record 10) as [msg|e] eqn:E; [|vm_compute in E; discriminate].
  exists msg. split; [reflexivity|].
  destruct (decoded_message_valid example_record 10 msg E) as (_ & _ & _ & _ & Ht & Hm & _).
  split; [rewrite Hm; vm_compute; reflexivity|]. 
  assert (header example_record "x-tenant-id" = Some "t") as Hh by (vm_compute; reflexivity).
  rewrite Hh in Ht. injection Ht as Ht. by rewrite Ht.
Defined.
