(* ===== verification/Ingestor.v ===== *)
(** * The Kafka consumer loop

    router-kafka's [ingestor.rs] and [health.rs]: the callbacks of the
    consumer context and the loop of [KafkaIngestor::run] that decodes a
    record, dispatches it, hands it to the durable sinks and only then commits
    its offset.  [PreCommitSink] is the trait of the same name.  The effects
    that matter for delivery are logged, so that the order of persistence and
    commit is a statement about the log.  The clock readings, the outcome of
    [commit_message] and the records are inputs of the loop. *)

From S2P Require Import Prelude Str Ids Message Route Metrics RouteIndex Channel Router.
From S2P Require Import RouterInv RouterDispatch RouterSpec RouterExamples Kafka KafkaSpec.
Open Scope Z_scope.

(** ** Connectivity health *)

(** [KafkaHealth]; clock readings are milliseconds since the epoch. *)
Record KafkaHealth : Type := {
  kh_connected : bool;
  kh_last_healthy_epoch_millis : Z;
}.

(** [KafkaHealth::default]. *)
Definition KafkaHealth_default : KafkaHealth :=
  {| kh_connected := false; kh_last_healthy_epoch_millis := 0 |}.

(** [epoch_millis] of the system clock, in milliseconds around the epoch. *)
Definition epoch_millis (clock : Z) : Z := clamp_u64 (Z.max 0 clock).

(** [mark_healthy], [mark_unhealthy] and [is_healthy]. *)
Definition mark_healthy (clock : Z) (h : KafkaHealth) : KafkaHealth :=
  {| kh_connected := true; kh_last_healthy_epoch_millis := epoch_millis clock |}.
Definition mark_unhealthy (h : KafkaHealth) : KafkaHealth :=
  {| kh_connected := false; kh_last_healthy_epoch_millis := kh_last_healthy_epoch_millis h |}.
Definition is_healthy (stale_after_millis clock : Z) (h : KafkaHealth) : bool :=
  kh_connected h && negb (kh_last_healthy_epoch_millis h =? 0) &&
  (sat_sub (epoch_millis clock) (kh_last_healthy_epoch_millis h) <=? clamp_u64 stale_after_millis).

(** ** Callbacks of [RouterConsumerContext] *)

(** The fields of [Statistics] that [stats] reads: the partitions with their
    lag, and the broker states. *)
Record Statistics : Type := {
  sx_partitions : list (Z * Z);
  sx_broker_states : list string;
}.

(** The fold over the partitions. *)
Definition total_lag (partitions : list (Z * Z)) : Z :=
  foldl (λ total '(_, lag), sat_add u64_max total lag) 0
    (filter (λ '(partition, lag), 0 ≤ partition ∧ 0 ≤ lag) partitions).

(** [ClientContext::stats]. *)
Definition on_stats (clock : Z) (s : Statistics) (mh : Metrics * KafkaHealth)
    : Metrics * KafkaHealth :=
  (set_kafka_lag_messages (total_lag (sx_partitions s)) mh.1,
   if existsb (λ state, bool_decide (state = "UP")) (sx_broker_states s)
   then mark_healthy clock mh.2 else mark_unhealthy mh.2).

(** [Rebalance]. *)
Inductive Rebalance : Type := Assign (count : Z) | Revoke | RebalanceError.

(** [ConsumerContext::pre_rebalance]. *)
Definition pre_rebalance (clock : Z) (rebalance : Rebalance) (mh : Metrics * KafkaHealth)
    : Metrics * KafkaHealth :=
  match rebalance with
  | Assign count =>
      (set_kafka_assigned_partitions count (record_kafka_rebalance_assignment mh.1),
       mark_healthy clock mh.2)
  | Revoke => (set_kafka_assigned_partitions 0 (record_kafka_rebalance_revocation mh.1), mh.2)
  | RebalanceError =>
      (set_kafka_assigned_partitions 0 (record_kafka_rebalance_error mh.1), mark_unhealthy mh.2)
  end.

(** [ConsumerContext::commit_callback]. *)
Definition commit_callback (ok : bool) (m : Metrics) : Metrics :=
  if ok then m else record_kafka_commit_error m.

(** ** The consumer loop *)

(** [PreCommitSink]: a sink of state [Sink], which may share the router,
    persists a message or reports why not; [None] is a call that never
    returns.  [env] is what the outside answers during the call. *)
Class PreCommitSink (Chan Env Sink : Type) :=
  persist : Env → RoutedMessage → Sink → RouterState Chan →
            option (RouterState Chan * Sink * result string unit).

(** What the loop does to the outside, in order. *)
Inductive Effect : Type :=
| Dispatched (m : RoutedMessage)
| Persisted (sink : nat) (m : RoutedMessage)
| PersistFailed (sink : nat) (m : RoutedMessage) (reason : string)
| Rejected (pos : KafkaPosition) (error : DecodeError)
| Committed (pos : KafkaPosition) (ok : bool).

(** A turn of [select!], with what the clock, the sinks' outside ([env i] for
    the [i]-th sink) and the broker answer. *)
Inductive Event (Env : Type) : Type :=
| ShutdownChanged (changed_is_err value : bool)
| RecvError
| RecvRecord (record : KafkaRecord) (iter : Bucket → list (ConnectionId * list SubscriptionId))
    (clock decode_ns match_ns enqueue_ns end_to_end_ns : Z) (env : nat → Env) (commit_ok : bool).
Arguments ShutdownChanged {Env}.
Arguments RecvError {Env}.
Arguments RecvRecord {Env}.

Inductive Control : Type := Continue | Stop.

Definition position_of (record : KafkaRecord) : KafkaPosition :=
  {| kp_topic := kr_topic record; kp_partition := kr_partition record;
     kp_offset := kr_offset record |}.

Section ingestor.
Context `{Mpsc Delivery Chan} `{PreCommitSink Chan Env Sink}.

(** [KafkaIngestor], with the log of effects. *)
Record Ingestor : Type := {
  ig_router : RouterState Chan;
  ig_max_payload_bytes : Z;
  ig_commit_invalid_messages : bool;
  ig_sinks : list Sink;
  ig_health : KafkaHealth;
  ig_log : list Effect;
}.

Definition ig_with (router : RouterState Chan) (sinks : list Sink) (health : KafkaHealth)
    (effects : list Effect) (g : Ingestor) : Ingestor := {|
  ig_router := router; ig_max_payload_bytes := ig_max_payload_bytes g;
  ig_commit_invalid_messages := ig_commit_invalid_messages g;
  ig_sinks := sinks; ig_health := health; ig_log := ig_log g ++ effects |}.

(** The loop over the sinks, from index [i]; stops at the first failure. *)
Fixpoint persist_all (env : nat → Env) (i : nat) (m : RoutedMessage) (sinks : list Sink)
    (router : RouterState Chan) : option (RouterState Chan * list Sink * list Effect * bool) :=
  match sinks with
  | [] => Some (router, [], [], true)
  | sink :: rest =>
    '(router, sink, res) ← persist (env i) m sink router;
    match res with
    | Err reason => Some (router, sink :: rest, [PersistFailed i m reason], false)
    | Ok _ =>
      '(router, rest, effects, ok) ← persist_all env (S i) m rest router;
      Some (router, sink :: rest, Persisted i m :: effects, ok)
    end
  end.

(** [commit_message] with the metric of a failure to enqueue the commit. *)
Definition commit_metric (ok : bool) (m : Metrics) : Metrics :=
  if ok then m else record_kafka_commit_error m.

(** The [Ok(record)] arm of [run]; [None] is a panic of [dispatch] or a sink
    that never returns. *)
Definition handle_record (record : KafkaRecord) iter
    (clock decode_ns match_ns enqueue_ns end_to_end_ns : Z) (env : nat → Env) (commit_ok : bool)
    (g : Ingestor)
    : option (Ingestor * Control) :=
  let health := mark_healthy clock (ig_health g) in
  let router := with_metrics (record_kafka_message (from_option str_len 0 (kr_payload record)))
                  (ig_router g) in
  let decoded := decode_message record (ig_max_payload_bytes g) in
  let router := with_metrics (record_latency Decode decode_ns) router in
  match decoded with
  | Ok message =>
    '(router, _) ← dispatch iter match_ns enqueue_ns message router;
    '(router, sinks, effects, ok) ← persist_all env 0 message (ig_sinks g) router;
    if negb ok then Some (ig_with router sinks health (Dispatched message :: effects) g, Stop)
    else
      let router := with_metrics (commit_metric commit_ok) router in
      let router := with_metrics (record_latency EndToEnd end_to_end_ns) router in
      Some (ig_with router sinks health
              (Dispatched message :: effects ++ [Committed (position_of record) commit_ok]) g,
            Continue)
  | Err error =>
    let router := with_metrics record_invalid_message router in
    if ig_commit_invalid_messages g then
      let router := with_metrics (commit_metric commit_ok) router in
      Some (ig_with router (ig_sinks g) health
              [Rejected (position_of record) error; Committed (position_of record) commit_ok] g,
            Continue)
    else
      Some (ig_with router (ig_sinks g) health [Rejected (position_of record) error] g, Stop)
  end.

(** The body of the loop after the check of the shutdown flag. *)
Definition handle_event (e : Event Env) (g : Ingestor) : option (Ingestor * Control) :=
  match e with
  | ShutdownChanged changed_is_err value =>
      Some (g, if changed_is_err || value then Stop else Continue)
  | RecvError => Some (ig_with (ig_router g) (ig_sinks g) (mark_unhealthy (ig_health g)) [] g,
                       Continue)
  | RecvRecord record iter clock d m q t env ok => handle_record record iter clock d m q t env ok g
  end.

(** [KafkaIngestor::run] on a stream of events, each with the value of the
    shutdown flag at the top of the loop. *)
Fixpoint run (events : list (bool * Event Env)) (g : Ingestor) : option (Ingestor * Control) :=
  match events with
  | [] => Some (g, Continue)
  | (shutdown, e) :: rest =>
    if shutdown then Some (g, Stop)
    else
      '(g, control) ← handle_event e g;
      match control with Stop => Some (g, Stop) | Continue => run rest g end
  end.
End ingestor.
Arguments Ingestor Chan Sink : clear implicits.

(** What the loop relies on.  Between two messages the sinks are ready, which
    depends only on their own state and on the connections and queues of the
    router; once a message has been dispatched, ready sinks return, keep the
    router well formed and, if none fails, are ready again. *)
Class SinkContract `{Mpsc Delivery Chan} `{PreCommitSink Chan Env Sink} := {
  sinks_ready : list Sink → RouterState Chan → Prop;
  sinks_ready_tables sinks r r' :
    r_connections r' = r_connections r → r_channels r' = r_channels r →
    sinks_ready sinks r → sinks_ready sinks r';
  persist_all_returns iter e1 e2 m env sinks r r1 report :
    iterates iter → router_ok r → message_paired m → sinks_ready sinks r →
    dispatch iter e1 e2 m r = Some (r1, report) →
    ∃ r2 sinks' effects ok, persist_all env 0 m sinks r1 = Some (r2, sinks', effects, ok) ∧
      router_ok r2 ∧ (ok = true → sinks_ready sinks' r2);
}.

(** ** Commit safety *)

(** What justifies the commit of a position: the message decoded from it was
    dispatched and persisted by each of [n] sinks, or the record was rejected
    and rejected records are committed. *)
Definition commit_justified (n : nat) (commit_invalid : bool) (before : list Effect)
    (pos : KafkaPosition) : Prop :=
  (∃ m, md_source (rm_metadata m) = Some pos ∧ Dispatched m ∈ before ∧
        ∀ i, (i < n)%nat → Persisted i m ∈ before) ∨
  (commit_invalid = true ∧ ∃ error, Rejected pos error ∈ before).

(** Every commit of a log is justified by what precedes it. *)
Definition commits_justified (n : nat) (commit_invalid : bool) (log : list Effect) : Prop :=
  ∀ before pos ok after, log = before ++ Committed pos ok :: after →
    commit_justified n commit_invalid before pos.

(** The effects after which nothing may be committed. *)
Definition is_fatal (commit_invalid : bool) (e : Effect) : bool :=
  match e with
  | PersistFailed _ _ _ => true
  | Rejected _ _ => negb commit_invalid
  | _ => false
  end.

Section safety.
Context `{MpscLaws Delivery Chan} `{PreCommitSink Chan Env Sink}.
Implicit Types (g : Ingestor Chan Sink).

Lemma persist_all_spec env i m sinks r r' sinks' effects ok :
  persist_all env i m sinks r = Some (r', sinks', effects, ok) →
  length sinks' = length sinks ∧
  (∀ pos b, Committed pos b ∉ effects) ∧
  if ok then effects = (λ k, Persisted k m) <$> seq i (length sinks)
  else ∃ k reason, (k < length sinks)%nat ∧
    effects = ((λ k, Persisted k m) <$> seq i k) ++ [PersistFailed (i + k) m reason].
Proof.
  revert i r r' sinks' effects ok.
  induction sinks as [|sink rest IH]; simpl; intros i r r' sinks' effects ok.
  { intros [= <- <- <- <-]. split_and!; [done| |done]. intros ? ? []%elem_of_nil. }
  destruct (persist (env i) m sink r) as [[[r1 sink'] [[]|reason]]|]; simpl; [| |done].
  - destruct (persist_all env (S i) m rest r1) as [[[[r2 rest'] effects'] ok']|] eqn:E; [|done].
    simpl. intros [= <- <- <- <-]. destruct (IH _ _ _ _ _ _ E) as (Hlen & Hc & He).
    split_and!; [simpl; lia|set_solver|]. destruct ok'.
    + by rewrite He.
    + destruct He as (k & reason & Hk & ->). exists (S k), reason. split; [lia|].
      simpl. by replace (i + S k)%nat with (S i + k)%nat by lia.
  - intros [= <- <- <- <-]. split_and!; [done|set_solver|].
    exists 0%nat, reason. split; [lia|]. simpl. by rewrite Nat.add_0_r.
Qed.

(** One event appends a block of effects: nothing, a committed message, a
    committed rejection, or a block that ends with a fatal effect and stops
    the loop. *)
Inductive block (n : nat) (commit_invalid : bool) : Control → list Effect → Prop :=
| block_none control : block n commit_invalid control []
| block_message m pos ok :
    md_source (rm_metadata m) = Some pos →
    block n commit_invalid Continue
      (Dispatched m :: ((λ k, Persisted k m) <$> seq 0 n) ++ [Committed pos ok])
| block_failed m k reason :
    (k < n)%nat →
    block n commit_invalid Stop
      (Dispatched m :: ((λ k, Persisted k m) <$> seq 0 k) ++ [PersistFailed k m reason])
| block_rejected pos error ok :
    commit_invalid = true →
    block n commit_invalid Continue [Rejected pos error; Committed pos ok]
| block_refused pos error :
    commit_invalid = false →
    block n commit_invalid Stop [Rejected pos error].

Lemma decoded_ok record limit m :
  decode_message record limit = Ok m →
  metadata_ok (rm_metadata m) ∧ md_source (rm_metadata m) = Some (position_of record).
Proof.
  unfold decode_message. intros Hd.
  repeat match type of Hd with _ ≫= _ = Ok _ => bind_step Hd as ?, _ end.
  rewrite map_err_Ok, RoutedMessage_new_with_trace_context_Ok in Hd. by destruct Hd as [? ->].
Qed.

Lemma handle_event_block e g g' control :
  handle_event e g = Some (g', control) →
  length (ig_sinks g') = length (ig_sinks g) ∧
  ig_commit_invalid_messages g' = ig_commit_invalid_messages g ∧
  ∃ effects, ig_log g' = ig_log g ++ effects ∧
    block (length (ig_sinks g)) (ig_commit_invalid_messages g) control effects.
Proof.
  destruct e as [err value| |record iter clock d mt q t env ok]; simpl.
  - intros [= <- <-]. split_and!; [done..|]. exists []. rewrite app_nil_r. split; [done|constructor].
  - intros [= <- <-]. split_and!; [done..|]. exists []. split; [done|constructor].
  - unfold handle_record. destruct (decode_message record (ig_max_payload_bytes g)) as [m|error] eqn:E.
    + destruct (dispatch iter mt q m _) as [[router report]|]; simpl; [|done].
      destruct (persist_all env 0 m (ig_sinks g) router) as [[[[r2 sinks] effects] success]|] eqn:Ep;
        simpl; [|done].
      destruct (persist_all_spec _ _ _ _ _ _ _ _ _ Ep) as (Hlen & _ & He).
      destruct success; simpl; intros [= <- <-]; (split_and!; [done..|]);
        (eexists; split; [reflexivity|]).
      * rewrite He. constructor. by eapply decoded_ok.
      * destruct He as (k & reason & Hk & ->). by constructor.
    + destruct (ig_commit_invalid_messages g) eqn:Ec; intros [= <- <-];
        (split_and!; [done|simpl; congruence|]);
        (eexists; split; [reflexivity|by constructor]).
Qed.

(** A commit inside a block is justified within the block. *)
Lemma block_justified n ci control effects before pos ok after :
  block n ci control effects → effects = before ++ Committed pos ok :: after →
  commit_justified n ci before pos.
Proof.
  intros Hb Heq. assert (Committed pos ok ∈ effects) as Hin by (rewrite Heq; set_solver).
  destruct Hb as [|m pos' ok' Hs|m k reason Hk|pos' error ok' Hci|pos' error Hci].
  - by apply elem_of_nil in Hin.
  - assert (Committed pos ok ∉ Dispatched m :: ((λ k, Persisted k m) <$> seq 0 n)) as Hni.
    { rewrite elem_of_cons, list_elem_of_fmap. naive_solver. }
    change (Dispatched m :: ?l ++ ?k) with ((Dispatched m :: l) ++ k) in *.
    destruct (app_eq_snoc_split _ _ _ _ _ Hni Heq) as (-> & [= -> ->] & ->).
    left. exists m. split_and!; [done|left|]. intros i Hi. right.
    apply list_elem_of_fmap. exists i. split; [done|]. apply elem_of_seq. lia.
  - rewrite elem_of_cons, elem_of_app, list_elem_of_fmap, list_elem_of_singleton in Hin.
    naive_solver.
  - assert (Committed pos ok ∉ [Rejected pos' error]) as Hni by set_solver.
    change [Rejected pos' error; ?x] with ([Rejected pos' error] ++ [x]) in Heq.
    destruct (app_eq_snoc_split _ _ _ _ _ Hni Heq) as (-> & [= -> ->] & ->).
    right. split; [done|]. exists error. left.
  - apply list_elem_of_singleton in Hin. done.
Qed.

Lemma justified_mono n ci before before' pos :
  before ⊆ before' → commit_justified n ci before pos → commit_justified n ci before' pos.
Proof. unfold commit_justified. set_solver. Qed.

Lemma commits_justified_app n ci control log effects :
  commits_justified n ci log → block n ci control effects →
  commits_justified n ci (log ++ effects).
Proof.
  intros Hlog Hb before pos ok after Heq.
  apply app_eq_app in Heq as (l & [[-> Hl]|[-> Hl]]).
  - destruct l as [|x l].
    + rewrite app_nil_r in *. simpl in Hl. eapply justified_mono; [|eapply (block_justified _ _ _ _ []);
        [done|by rewrite <-Hl]]. set_solver.
    + injection Hl as <- ->. by eapply Hlog.
  - eapply justified_mono; [|by eapply block_justified]. set_solver.
Qed.

(** Where a fatal effect can be: at the end of a block that stops. *)
Lemma block_fatal n ci control effects before e after :
  block n ci control effects → is_fatal ci e = true → effects = before ++ e :: after →
  control = Stop ∧ after = [].
Proof.
  intros Hb Hf Heq. assert (e ∈ effects) as Hin by (rewrite Heq; set_solver).
  assert (∀ m k, e ≠ Dispatched m ∧ e ≠ Persisted k m) as Hne by (destruct e; naive_solver).
  destruct Hb as [|m pos' ok' Hs|m k reason Hk|pos' error ok' ->|pos' error Hci].
  - by apply elem_of_nil in Hin.
  - rewrite elem_of_cons, elem_of_app, list_elem_of_fmap, list_elem_of_singleton in Hin.
    naive_solver.
  - assert (e ∉ Dispatched m :: ((λ k, Persisted k m) <$> seq 0 k)) as Hni.
    { rewrite elem_of_cons, list_elem_of_fmap. naive_solver. }
    change (Dispatched m :: ?l ++ ?k) with ((Dispatched m :: l) ++ k) in *.
    by destruct (app_eq_snoc_split _ _ _ _ _ Hni Heq) as (_ & _ & ->).
  - rewrite !elem_of_cons, elem_of_nil in Hin. by destruct Hin as [->|[->|[]]].
  - by destruct before as [|? []]; simplify_eq/=.
Qed.

(** A fatal effect is the last of the log. *)
Definition fatal_last (ci : bool) (log : list Effect) : Prop :=
  ∀ before e after, log = before ++ e :: after → is_fatal ci e = true → after = [].

Definition no_fatal (ci : bool) (log : list Effect) : Prop := ∀ e, e ∈ log → is_fatal ci e = false.

Lemma run_log events g g' control :
  run events g = Some (g', control) →
  let n := length (ig_sinks g) in let ci := ig_commit_invalid_messages g in
  commits_justified n ci (ig_log g) → no_fatal ci (ig_log g) →
  commits_justified n ci (ig_log g') ∧ fatal_last ci (ig_log g').
Proof.
  revert g. induction events as [|[shutdown e] events IH]; simpl; intros g Hrun Hj Hnf.
  all: assert (fatal_last (ig_commit_invalid_messages g) (ig_log g)) as Hfl
    by (intros before e0 after Heq Hf; rewrite (Hnf e0) in Hf by (rewrite Heq; set_solver); done).
  { by simplify_eq. }
  destruct shutdown; [by simplify_eq|].
  destruct (handle_event e g) as [[g1 c1]|] eqn:He; simpl in Hrun; [|done].
  destruct (handle_event_block _ _ _ _ He) as (Hlen & Hci & effects & Hlog & Hb).
  pose proof (commits_justified_app _ _ _ _ _ Hj Hb) as Hj1. rewrite <-Hlog in Hj1.
  destruct c1.
  - rewrite <-Hlen, <-Hci in *. apply (IH g1); [done..|]. intros x. rewrite Hlog, elem_of_app.
    intros [Hx|Hx]; [by apply Hnf|]. destruct (is_fatal _ x) eqn:Hf; [|done].
    apply list_elem_of_split in Hx as (l1 & l2 & Heq).
    by destruct (block_fatal _ _ _ _ _ _ _ Hb Hf Heq).
  - simplify_eq. split; [done|]. intros before x after Heq Hf. rewrite Hlog in Heq.
    apply app_eq_app in Heq as (l & [[Hl Hr]|[-> Hr]]).
    + destruct l as [|y l]; simpl in Hr.
      * symmetry in Hr. by destruct (block_fatal _ _ _ _ [] _ _ Hb Hf Hr).
      * injection Hr as <- ->. rewrite (Hnf x) in Hf; [done|]. rewrite Hl. set_solver.
    + by destruct (block_fatal _ _ _ _ _ _ _ Hb Hf Hr).
Qed.

(** The events of a run list maps in some order. *)
Definition event_ok (e : bool * Event Env) : Prop :=
  match e.2 with RecvRecord _ iter _ _ _ _ _ _ _ => iterates iter | _ => True end.

Lemma decoded_paired record limit m :
  decode_message record limit = Ok m → message_paired m.
Proof. intros Hd. apply (mdok_paired _ (proj1 (decoded_ok _ _ _ Hd))). Qed.

Context `{!SinkContract}.

Lemma handle_event_total e g :
  event_ok (false, e) → router_ok (ig_router g) → sinks_ready (ig_sinks g) (ig_router g) →
  ∃ g' control, handle_event e g = Some (g', control) ∧ router_ok (ig_router g') ∧
    (control = Continue → sinks_ready (ig_sinks g') (ig_router g')).
Proof.
  intros Hok Hr Hsinks. destruct e as [err value| |record iter clock d mt q t env ok]; simpl.
  - eauto.
  - eexists _, _. split_and!; [done|done|done].
  - unfold handle_record. cbv zeta.
    set (router := with_metrics (record_latency Decode d) _).
    assert (router_ok router) as Hr1.
    { apply with_metrics_ok; [done|]. by apply with_metrics_ok. }
    assert (sinks_ready (ig_sinks g) router) as Hs1.
    { revert Hsinks. by apply sinks_ready_tables. }
    assert (gauge_free (commit_metric ok)) as Hcm by (intros m; by destruct ok).
    destruct (decode_message record (ig_max_payload_bytes g)) as [m|error] eqn:Ed.
    + destruct (dispatch_run iter mt q m router Hok Hr1) as (r' & report & fo & Hrun & D).
      rewrite Hrun. simpl.
      destruct (persist_all_returns _ _ _ _ env _ _ _ _ Hok Hr1 (decoded_paired _ _ _ Ed) Hs1 Hrun)
        as (r2 & sinks & effects & success & -> & Hr2 & Hs2). simpl.
      destruct success; simpl; (eexists _, _; split; [reflexivity|]); simpl; [|done].
      split; [by apply with_metrics_ok, with_metrics_ok|]. intros _.
      apply (sinks_ready_tables sinks r2); auto.
    + destruct (ig_commit_invalid_messages g); (eexists _, _; split; [reflexivity|]); simpl.
      * split; [apply with_metrics_ok; [done|]; by apply with_metrics_ok|]. intros _.
        by apply (sinks_ready_tables (ig_sinks g) router).
      * split; [by apply with_metrics_ok|done].
Qed.

Lemma run_total events g :
  Forall event_ok events → router_ok (ig_router g) → sinks_ready (ig_sinks g) (ig_router g) →
  ∃ g' control, run events g = Some (g', control) ∧ router_ok (ig_router g').
Proof.
  revert g. induction events as [|[shutdown e] events IH]; simpl; intros g Hes Hr Hs; [eauto|].
  apply Forall_cons in Hes as [He Hes]. destruct shutdown; [eauto|].
  destruct (handle_event_total e g He Hr Hs) as (g1 & c1 & -> & Hr1 & Hs1). simpl.
  destruct c1; [by apply IH; auto|eauto].
Qed.

(** (C8) Offsets are committed only after persistence.  Whatever records,
    errors and shutdown signals the consumer sees, with sinks that keep their
    contract the loop runs to its end without a panic and keeps the router's
    invariant; every offset it commits belongs to a message that was
    dispatched and that every durable sink persisted before, or, when
    configured so, to a record that was rejected before; and a failed sink, or
    a rejected record that must not be committed, is the last effect: no later
    commit can skip it. *)
Theorem commit_after_persist events g
    (Hevents : Forall event_ok events) (Hrouter : router_ok (ig_router g))
    (Hready : sinks_ready (ig_sinks g) (ig_router g)) (Hlog : ig_log g = []) :
  ∃ g' control, run events g = Some (g', control) ∧ router_ok (ig_router g') ∧
    commits_justified (length (ig_sinks g)) (ig_commit_invalid_messages g) (ig_log g') ∧
    ∀ before e after, ig_log g' = before ++ e :: after →
      is_fatal (ig_commit_invalid_messages g) e = true → after = [].
Proof.
  destruct (run_total events g Hevents Hrouter Hready) as (g' & control & Hrun & Hr').
  exists g', control. split_and!; [done..| |].
  all: apply run_log in Hrun as [Hj Hf]; [done| |]; rewrite Hlog;
    [intros [] ? ? ? ?; done|by intros ? ?%elem_of_nil].
Qed.
End safety.

(** Health is recent contact: the signal is healthy exactly when the
    consumer is marked connected and the last healthy mark lies at most the
    stale limit in the past; marking it unhealthy wins at once. *)
Lemma kafka_health_recent (clock mark stale : Z) (h : KafkaHealth)
    (Hmark : 0 < mark) (Horder : mark ≤ clock) (Hclock : clock ≤ u64_max)
    (Hstale : 0 ≤ stale ≤ u64_max) :
  (is_healthy stale clock (mark_healthy mark h) = true ↔ clock - mark ≤ stale) ∧
  is_healthy stale clock (mark_unhealthy (mark_healthy mark h)) = false ∧
  is_healthy stale clock KafkaHealth_default = false.
Proof.
  assert (epoch_millis mark = mark ∧ epoch_millis clock = clock) as [E1 E2].
  { unfold epoch_millis, clamp_u64. rewrite !Z.max_r by lia.
    by rewrite !(proj2 (Z.leb_le _ _)) by lia. }
  unfold is_healthy, mark_healthy, clamp_u64. simpl. rewrite E1, E2.
  rewrite (proj2 (Z.eqb_neq mark 0)) by lia. simpl.
  rewrite (proj2 (Z.leb_le stale u64_max)) by lia.
  split_and!; [|done..]. rewrite Z.leb_le, sat_sub_exact; lia.
Qed.

(** ** Concrete inputs *)

(** A sink that remembers what it persisted and fails once it holds two. *)
#[local] Instance example_sink {Chan} : PreCommitSink Chan unit (list RoutedMessage) :=
  λ _ m kept r, Some (if (2 <=? length kept)%nat then (r, kept, Err "sink full")
                      else (r, kept ++ [m], Ok tt)).

(** It needs nothing of the router. *)
#[local, program] Instance example_sink_contract :
  SinkContract (Chan:=Fifo Delivery) (Env:=unit) (Sink:=list RoutedMessage) :=
  {| sinks_ready _ _ := True |}.
Next Obligation. done. Qed.
Next Obligation.
  intros iter e1 e2 m env sinks r r1 report Hi Hok _ _ Hrun.
  assert (∀ i, ∃ sinks' effects ok,
    persist_all env i m sinks r1 = Some (r1, sinks', effects, ok)) as Hp.
  { induction sinks as [|kept sinks IH]; intros i; simpl; [eauto|].
    change (persist (env i) m kept r1) with (Some (if (2 <=? length kept)%nat
      then (r1, kept, Err "sink full") else (r1, kept ++ [m], @Ok string unit tt))).
    destruct (IH (S i)) as (s' & e' & ok' & Hrest).
    destruct kept as [|m1 [|m2 kept]]; simpl; rewrite ?Hrest; simpl; by eexists _, _, _. }
  destruct (Hp 0%nat) as (sinks' & effects & ok & ->). eexists _, _, _, _. split_and!; [done| |done].
  destruct (dispatch_run iter e1 e2 m r Hi Hok) as (r' & report' & fo & Hrun' & D).
  rewrite Hrun in Hrun'. simplify_eq. apply D.
Qed.

Definition example_ingestor : Ingestor (Fifo Delivery) (list RoutedMessage) := {|
  ig_router := router5; ig_max_payload_bytes := 10; ig_commit_invalid_messages := true;
  ig_sinks := [[]]; ig_health := KafkaHealth_default; ig_log := [] |}.

Definition example_event : bool * Event unit :=
  (false, RecvRecord example_record map_to_list 1 0 0 0 0 (λ _, tt) true).

(** Two records are committed; at the third the sink fails and the loop
    stops before the commit. *)
Example third_record_not_committed :
  (λ '(g, _), (λ e, match e with Committed _ _ => "commit" | PersistFailed _ _ _ => "failed"
                     | _ => "other" end) <$> ig_log g)
    <$> run (replicate 4 example_event) example_ingestor
  = Some ["other"; "other"; "commit"; "other"; "other"; "commit"; "other"; "failed"].
Proof. vm_compute. reflexivity. Qed.

Lemma commit_after_persist_witness :
  ∃ g' control, run [example_event; example_event] example_ingestor = Some (g', control) ∧
    commits_justified 1 true (ig_log g').
Proof.
  destruct (commit_after_persist [example_event; example_event] example_ingestor)
    as (g' & control & Hrun & _ & Hj & _).
  - repeat constructor; apply map_to_list_iterates.
  - exact router5_ok.
  - exact I.
  - reflexivity.
  - exists g', control. split; [exact Hrun|exact Hj].
Defined.

