(* ===== verification/IngestorCrash.v ===== *)
(** * The consumer across crashes and rebalances

    The consumer loop with its source topics and its consumer group, as a
    system that runs for ever: records are appended, the loop handles the next
    record of a partition, the broker gets to the commits that were requested
    whenever it does (they are asynchronous), partitions are taken away and
    given back, sessions and workers change the router, and the process may die at any point, also between the effects
    of one record, and start again from the offsets the broker has. *)

From S2P Require Import Prelude Str Ids Message Route Metrics RouteIndex Channel Router.
From S2P Require Import RouterInv RouterDispatch RouterSpec RouterExamples TopicLog.
From S2P Require Import Kafka KafkaSpec Ingestor.
Open Scope Z_scope.

Section record.
Context `{MpscLaws Delivery Chan} `{PreCommitSink Chan Env Sink}.
Context (sinks : nat) (max_payload_bytes : Z) (commit_invalid : bool).
Implicit Types (g : Ingestor Chan Sink).

(** A consumer as it is set up. *)
Definition configured (g : Ingestor Chan Sink) : Prop :=
  length (ig_sinks g) = sinks ∧ ig_max_payload_bytes g = max_payload_bytes ∧
  ig_commit_invalid_messages g = commit_invalid.

(** What is to happen to a record: the message it decodes to is dispatched and
    persisted by every sink; one that does not decode is rejected, and the
    consumer is to go on after that. *)
Definition record_handled (history : list Effect) (record : KafkaRecord) : Prop :=
  match decode_message record max_payload_bytes with
  | Ok m => Dispatched m ∈ history ∧ ∀ i, (i < sinks)%nat → Persisted i m ∈ history
  | Err error => commit_invalid = true ∧ Rejected (position_of record) error ∈ history
  end.

Lemma record_handled_mono h1 h2 record :
  h1 ⊆ h2 → record_handled h1 record → record_handled h2 record.
Proof. unfold record_handled. destruct (decode_message _ _); set_solver. Qed.

(** What one record leads to: at most one commit, the last effect, of its own
    position and after it was handled; and the loop goes on only with it. *)
Lemma record_effects record iter clock e1 e2 e3 e4 env ok g g' control l :
  configured g →
  handle_event (RecvRecord record iter clock e1 e2 e3 e4 env ok) g = Some (g', control) →
  ig_log g' = ig_log g ++ l →
  configured g' ∧ ∃ before, (∀ pos b, Committed pos b ∉ before) ∧
    (control = Stop ∧ l = before ∨
     l = before ++ [Committed (position_of record) ok] ∧ record_handled before record).
Proof.
  intros (Hs & Hm & Hi). simpl. unfold handle_record, record_handled, configured. rewrite Hm.
  destruct (decode_message record max_payload_bytes) as [m|error].
  - destruct (dispatch iter e2 e3 m _) as [[router report]|]; simpl; [|done].
    destruct (persist_all env 0 m (ig_sinks g) router) as [[[[r2 s2] effects] success]|] eqn:Ep;
      simpl; [|done].
    destruct (persist_all_spec _ _ _ _ _ _ _ _ _ Ep) as (Hlen & Hc & He).
    destruct success; simpl; intros [= <- <-] <-%app_inv_head; simpl;
      (split; [by rewrite Hlen|]); exists (Dispatched m :: effects); (split; [set_solver|]); [right|by left].
    split; [done|]. split; [left|]. intros i Hlt. right. rewrite He, Hs.
    apply list_elem_of_fmap. exists i. split; [done|]. apply elem_of_seq. lia.
  - rewrite Hi. destruct commit_invalid; intros [= <- <-] <-%app_inv_head; (split; [done|]);
      exists [Rejected (position_of record) error]; (split; [set_solver|]); [right|by left].
    split; [done|]. split; [done|]. left.
Qed.

(** Whatever part of it is done: what is committed was handled. *)
Lemma part_handled record iter clock e1 e2 e3 e4 env ok g g' control l part pos b :
  configured g →
  handle_event (RecvRecord record iter clock e1 e2 e3 e4 env ok) g = Some (g', control) →
  ig_log g' = ig_log g ++ l → part `prefix_of` l → Committed pos b ∈ part →
  pos = position_of record ∧ record_handled part record.
Proof.
  intros Hg He Hl [rest Hpart] Hin.
  destruct (record_effects _ _ _ _ _ _ _ _ _ _ _ _ _ Hg He Hl) as (_ & before & Hno & [[_ ->]|[-> Hr]]).
  - destruct (Hno pos b). rewrite Hpart. set_solver.
  - apply list_elem_of_split in Hin as (l1 & l2 & ->). symmetry in Hpart.
    rewrite <-app_assoc, <-app_comm_cons in Hpart.
    destruct (app_eq_snoc_split _ _ _ _ _ (Hno pos b) (eq_sym Hpart)) as (-> & [= -> ->] & _).
    split; [done|]. eapply record_handled_mono; [|done]. set_solver.
Qed.
End record.

Section system.
Context `{MpscLaws Delivery Chan} `{PreCommitSink Chan Env Sink}.
Context (start : string → Z → Z) (sinks : nat) (max_payload_bytes : Z) (commit_invalid : bool).
#[local] Abbreviation configured := (configured sinks max_payload_bytes commit_invalid).
#[local] Abbreviation record_handled := (record_handled sinks max_payload_bytes commit_invalid).

(** The offset a partition is read from: the one the group has, or where the
    group starts. *)
Definition offset_at (offsets : gmap (string * Z) Z) (t : string) (p : Z) : Z :=
  default (start t p) (offsets !! (t, p)).

(** The topics, the committed offsets and the positions of the consumer, the
    running consumer, and what all consumers have done. *)
Record SourceSystem : Type := {
  sr_topics : gmap (string * Z * Z) KafkaRecord;
  sr_committed : gmap (string * Z) Z;
  sr_positions : gmap (string * Z) Z;
  sr_ingestor : Ingestor Chan Sink;
  sr_history : list Effect;
}.

Inductive source_step : SourceSystem → SourceSystem → Prop :=
| source_append t p o record sy :
    position_of record = {| kp_topic := t; kp_partition := p; kp_offset := o |} →
    ends_at (sr_topics sy) t p o →
    source_step sy {| sr_topics := <[(t, p, o) := record]> (sr_topics sy);
      sr_committed := sr_committed sy; sr_positions := sr_positions sy;
      sr_ingestor := sr_ingestor sy; sr_history := sr_history sy |}
| source_record t p o record iter clock e1 e2 e3 e4 env ok g' l sy :
    next_in (sr_topics sy) t p (offset_at (sr_positions sy) t p) o record →
    handle_event (RecvRecord record iter clock e1 e2 e3 e4 env ok) (sr_ingestor sy)
      = Some (g', Continue) →
    ig_log g' = ig_log (sr_ingestor sy) ++ l →
    source_step sy {| sr_topics := sr_topics sy; sr_committed := sr_committed sy;
      sr_positions := <[(t, p) := o + 1]> (sr_positions sy);
      sr_ingestor := g'; sr_history := sr_history sy ++ l |}
| source_die t p o record iter clock e1 e2 e3 e4 env ok g' control l done g0 sy :
    next_in (sr_topics sy) t p (offset_at (sr_positions sy) t p) o record →
    handle_event (RecvRecord record iter clock e1 e2 e3 e4 env ok) (sr_ingestor sy)
      = Some (g', control) →
    ig_log g' = ig_log (sr_ingestor sy) ++ l → done `prefix_of` l → configured g0 →
    source_step sy {| sr_topics := sr_topics sy; sr_committed := sr_committed sy;
      sr_positions := sr_committed sy; sr_ingestor := g0; sr_history := sr_history sy ++ done |}
| source_restart g0 sy :
    configured g0 →
    source_step sy {| sr_topics := sr_topics sy; sr_committed := sr_committed sy;
      sr_positions := sr_committed sy; sr_ingestor := g0; sr_history := sr_history sy |}
| source_commit pos sy :
    Committed pos true ∈ sr_history sy →
    source_step sy {| sr_topics := sr_topics sy;
      sr_committed := <[(kp_topic pos, kp_partition pos) := kp_offset pos + 1]> (sr_committed sy);
      sr_positions := sr_positions sy; sr_ingestor := sr_ingestor sy; sr_history := sr_history sy |}
| source_rebalance t p sy :
    source_step sy {| sr_topics := sr_topics sy; sr_committed := sr_committed sy;
      sr_positions := <[(t, p) := offset_at (sr_committed sy) t p]> (sr_positions sy);
      sr_ingestor := sr_ingestor sy; sr_history := sr_history sy |}
| source_clients router sy :
    source_step sy {| sr_topics := sr_topics sy; sr_committed := sr_committed sy;
      sr_positions := sr_positions sy;
      sr_ingestor := ig_with router (ig_sinks (sr_ingestor sy)) (ig_health (sr_ingestor sy)) []
                       (sr_ingestor sy);
      sr_history := sr_history sy |}.

Definition source_start (g : Ingestor Chan Sink) : SourceSystem := {|
  sr_topics := ∅; sr_committed := ∅; sr_positions := ∅; sr_ingestor := g; sr_history := [] |}.

Definition source_reachable (sy : SourceSystem) : Prop :=
  ∃ g, configured g ∧ rtc source_step (source_start g) sy.

(** ** What the system keeps *)

(** Everything before an offset was handled, and the offset is where the
    group starts or follows a record. *)
Definition safe_offset (topics : gmap (string * Z * Z) KafkaRecord) (history : list Effect)
    (t : string) (p upto : Z) : Prop :=
  all_before (record_handled history) topics t p (start t p) upto ∧
  (upto = start t p ∨ is_Some (topics !! (t, p, upto - 1))).

Record source_inv (sy : SourceSystem) : Prop := {
  si_places t p o record : sr_topics sy !! (t, p, o) = Some record →
    position_of record = {| kp_topic := t; kp_partition := p; kp_offset := o |};
  si_configured : configured (sr_ingestor sy);
  si_committed t p : safe_offset (sr_topics sy) (sr_history sy) t p (offset_at (sr_committed sy) t p);
  si_positions t p : safe_offset (sr_topics sy) (sr_history sy) t p (offset_at (sr_positions sy) t p);
  si_history pos ok : Committed pos ok ∈ sr_history sy →
    safe_offset (sr_topics sy) (sr_history sy) (kp_topic pos) (kp_partition pos) (kp_offset pos + 1);
}.

Lemma offset_at_insert offsets t p o t' p' :
  offset_at (<[(t, p) := o]> offsets) t' p' =
  if decide ((t, p) = (t', p')) then o else offset_at offsets t' p'.
Proof.
  unfold offset_at. case_decide as Heq; [by rewrite Heq, lookup_insert_eq|by rewrite lookup_insert_ne].
Qed.

Lemma safe_offset_start topics history t p : safe_offset topics history t p (start t p).
Proof. split; [|by left]. intros o a _ Hr. lia. Qed.

Lemma safe_offset_mono topics history l t p upto :
  safe_offset topics history t p upto → safe_offset topics (history ++ l) t p upto.
Proof.
  intros [Hb Hend]. split; [|done]. eapply all_before_impl; [|done]. intros record.
  apply record_handled_mono. set_solver.
Qed.

Lemma safe_offset_append topics history t p o record t' p' upto :
  ends_at topics t p o → safe_offset topics history t' p' upto →
  safe_offset (<[(t, p, o) := record]> topics) history t' p' upto.
Proof.
  intros Hend [Hb [->|[a Ha]]]; [apply safe_offset_start|]. split.
  - apply all_before_append; [done| |done]. intros [= -> ->].
    specialize (Hend (upto - 1) ltac:(eauto)). lia.
  - right. exists a. by apply lookup_append.
Qed.

Lemma safe_offset_next topics history l t p from o record :
  next_in topics t p from o record → safe_offset topics history t p from →
  record_handled (history ++ l) record → safe_offset topics (history ++ l) t p (o + 1).
Proof.
  intros Hn [Hb _]%(safe_offset_mono _ _ l) Ho. split; [by eapply all_before_next|].
  right. rewrite Z.add_simpl_r. eexists. apply Hn.
Qed.

Lemma source_inv_start g : configured g → source_inv (source_start g).
Proof.
  intros Hg. split; simpl; [done|done| | |].
  1,2: intros t p; apply safe_offset_start.
  by intros pos ok ?%elem_of_nil.
Qed.

Lemma source_inv_step sy sy' : source_step sy sy' → source_inv sy → source_inv sy'.
Proof.
  destruct 1 as [t p o record sy Hp Hend|t p o record iter clock e1 e2 e3 e4 env ok g' l sy Hn He Hl
    |t p o record iter clock e1 e2 e3 e4 env ok g' control l part g0 sy Hn He Hl Hpart Hg0
    |g0 sy Hg0|pos sy Hin|t p sy|router sy]; intros [Hpl Hg Hc Hq Hh].
  - split; simpl; eauto using safe_offset_append.
    intros t' p' o' record'. destruct (decide ((t, p, o) = (t', p', o'))) as [[= <- <- <-]|].
    + rewrite lookup_insert_eq. by intros [= <-].
    + rewrite lookup_insert_ne by done. apply Hpl.
  - pose proof (Hpl _ _ _ _ (proj1 Hn)) as Hp.
    destruct (record_effects _ _ _ _ _ _ _ _ _ _ _ _ _ _ _ _ Hg He Hl)
      as (Hg' & before & Hno & [[[=] _]|[-> Hr]]).
    assert (safe_offset (sr_topics sy) (sr_history sy ++ before ++ [Committed (position_of record) ok])
              t p (o + 1)) as Hnext.
    { eapply safe_offset_next; [done|done|]. eapply record_handled_mono; [|done]. set_solver. }
    split; simpl; [done|done|eauto using safe_offset_mono| |].
    + intros t' p'. rewrite offset_at_insert. case_decide as Heq; [|eauto using safe_offset_mono].
      by simplify_eq.
    + intros pos b. rewrite !elem_of_app, list_elem_of_singleton.
      intros [Hb|[Hb|[= -> ->]]]; [eauto using safe_offset_mono|by destruct (Hno _ _ Hb)|by rewrite Hp in *].
  - pose proof (Hpl _ _ _ _ (proj1 Hn)) as Hp.
    split; simpl; [done|done|eauto using safe_offset_mono..|].
    intros pos b [Hb|Hb]%elem_of_app; [eauto using safe_offset_mono|].
    destruct (part_handled _ _ _ _ _ _ _ _ _ _ _ _ _ _ _ _ _ _ _ Hg He Hl Hpart Hb) as [-> Hr].
    rewrite Hp. eapply safe_offset_next; [done|done|]. eapply record_handled_mono; [|done]. set_solver.
  - by split.
  - split; simpl; [done|done| |done|done]. intros t' p'. rewrite offset_at_insert.
    case_decide as Heq; [|done]. injection Heq as <- <-. eauto.
  - split; simpl; [done|done|done| |done]. intros t' p'. rewrite offset_at_insert.
    case_decide as Heq; [|done]. by injection Heq as <- <-.
  - by split.
Qed.

Lemma source_inv_reachable sy : source_reachable sy → source_inv sy.
Proof.
  intros (g & Hg & Hsteps). apply source_inv_start in Hg.
  induction Hsteps; eauto using source_inv_step.
Qed.

(** (C9) No source record is lost.  In every state the consumer can reach,
    however often it died between the effects of a record and was started
    again, lost and regained partitions, whatever its clients did to the
    router, and whenever the broker got to the commits it had requested: for
    each record the group has moved past, the message it decodes to was
    dispatched to the router and persisted by every durable sink, or the
    record does not decode, was rejected, and the configuration allows such
    records to be skipped.  The same holds for each
    record the running consumer has read past. *)
Theorem source_never_lost sy t p o record
    (Hreach : source_reachable sy) (Hrecord : sr_topics sy !! (t, p, o) = Some record)
    (Hpast : start t p ≤ o < Z.max (offset_at (sr_committed sy) t p) (offset_at (sr_positions sy) t p)) :
  record_handled (sr_history sy) record.
Proof.
  apply source_inv_reachable in Hreach as [_ _ Hc Hq _].
  destruct (Z.max_spec (offset_at (sr_committed sy) t p) (offset_at (sr_positions sy) t p)) as [[_ E]|[_ E]];
    rewrite E in Hpast; [by eapply (Hq t p)|by eapply (Hc t p)].
Qed.
End system.
Arguments SourceSystem Chan Sink : clear implicits.

(** ** A concrete history *)

#[local] Existing Instance example_sink.

Definition example_turn : Event unit :=
  RecvRecord example_record map_to_list 1 0 0 0 0 (λ _, tt) true.

(** The consumer after the record. *)
Definition example_after : Ingestor (Fifo Delivery) (list RoutedMessage) :=
  from_option fst example_ingestor (handle_event example_turn example_ingestor).

Lemma example_handled : handle_event example_turn example_ingestor = Some (example_after, Continue).
Proof.
  assert (match handle_event example_turn example_ingestor with
          | Some (_, Continue) => true | _ => false end = true) as Hc by (vm_compute; reflexivity).
  unfold example_after. by destruct (handle_event _ _) as [[g []]|].
Qed.

Lemma example_commits : Committed (position_of example_record) true ∈ ig_log example_after.
Proof.
  assert (configured 1 10 true example_ingestor) as Hg by done.
  destruct (record_effects 1 10 true _ _ _ _ _ _ _ _ _ _ _ _ (ig_log example_after) Hg example_handled)
    as (_ & before & _ & [[[=] _]|[-> _]]); [done|]. set_solver.
Qed.

(** The record is appended; the first consumer dies when it has only
    dispatched it; the second reads it again and its commit arrives. *)
Definition example_history : SourceSystem (Fifo Delivery) (list RoutedMessage) := {|
  sr_topics := {[("router.input", 0, 9) := example_record]};
  sr_committed := {[("router.input", 0) := 10]};
  sr_positions := {[("router.input", 0) := 10]};
  sr_ingestor := example_after;
  sr_history := take 1 (ig_log example_after) ++ ig_log example_after |}.

Lemma example_reached : source_reachable (λ _ _, 0) 1 10 true example_history.
Proof.
  assert (next_in {[("router.input", 0, 9) := example_record]} "router.input" 0 0 9 example_record) as Hn.
  { split_and!; [by simplify_map_eq|lia|]. intros o' Ho. rewrite lookup_singleton_ne; [done|].
    intros [=]. lia. }
  exists example_ingestor. split; [done|].
  eapply rtc_l; [eapply (source_append _ _ _ _ "router.input" 0 9 example_record); [done|]|].
  { intros o' [? Hl]. done. }
  eapply rtc_l; [eapply (source_die _ _ _ _ "router.input" 0 9 example_record); simpl;
    [exact Hn|exact example_handled|reflexivity|apply (prefix_take _ 1)|]|].
  { by instantiate (1 := example_ingestor). }
  eapply rtc_l; [eapply (source_record _ _ _ _ "router.input" 0 9 example_record); simpl;
    [exact Hn|exact example_handled|reflexivity]|].
  apply rtc_once, (source_commit _ _ _ _ (position_of example_record)).
  apply elem_of_app. right. exact example_commits.
Qed.

Lemma source_never_lost_witness : record_handled 1 10 true (sr_history example_history) example_record.
Proof.
  apply (source_never_lost (λ _ _, 0) 1 10 true example_history "router.input" 0 9 example_record
    example_reached); [reflexivity|vm_compute; split; congruence].
Defined.
