(* ===== verification/Limits.v ===== *)
(** * Rate limits and readiness

    router-api's [state.rs] (limits, health gates, the process-wide rate
    limiter), the per-connection command limiter of [http.rs], and routerd's
    [readiness.rs].  [Instant]s are nanoseconds of a monotonic clock; each
    reading of the clock is an argument, in the order the code takes them. *)

From S2P Require Import Prelude Str Ids Metrics.
From Stdlib Require Import Sorting.Sorted.
Open Scope Z_scope.

(** ** Configuration *)

(** The defaults of the settings. *)
Definition default_http_body_limit : Z := 1_048_576.
Definition default_stream_queue_capacity : Z := 256.
Definition default_max_stream_queue_capacity : Z := 4_096.
Definition default_sse_keep_alive_secs : Z := 15.
Definition default_ws_max_message_bytes : Z := 65_536.
Definition default_ws_max_frame_bytes : Z := 65_536.
Definition default_ws_max_commands_per_second : Z := 32.
Definition default_grpc_max_decoding_message_bytes : Z := 4 * 1_024 * 1_024.
Definition default_grpc_max_encoding_message_bytes : Z := 4 * 1_024 * 1_024.
Definition default_grpc_concurrency_limit : Z := 256.
Definition default_grpc_keep_alive_interval_secs : Z := 30.
Definition default_grpc_keep_alive_timeout_secs : Z := 10.
Definition default_grpc_health_enabled : bool := true.
Definition default_publish_max_payload_bytes : Z := 1_048_576.
Definition default_max_rate_limit_principals : Z := 10_000.
Definition default_global_command_rate : Z := 10_000.
Definition default_principal_command_rate : Z := 64.
Definition default_global_publish_rate : Z := 1_000.
Definition default_principal_publish_rate : Z := 32.

(** [ApiConfig]. *)
Record ApiConfig : Type := {
  ac_http_body_limit_bytes : Z;
  ac_stream_queue_capacity : Z;
  ac_max_stream_queue_capacity : Z;
  ac_sse_keep_alive_secs : Z;
  ac_ws_max_message_bytes : Z;
  ac_ws_max_frame_bytes : Z;
  ac_ws_max_commands_per_second : Z;
  ac_grpc_max_decoding_message_bytes : Z;
  ac_grpc_max_encoding_message_bytes : Z;
  ac_grpc_concurrency_limit : Z;
  ac_grpc_keep_alive_interval_secs : Z;
  ac_grpc_keep_alive_timeout_secs : Z;
  ac_grpc_health_enabled : bool;
  ac_grpc_reflection_enabled : bool;
  ac_publish_max_payload_bytes : Z;
  ac_max_rate_limit_principals : Z;
  ac_global_commands_per_second : Z;
  ac_principal_commands_per_second : Z;
  ac_global_publishes_per_second : Z;
  ac_principal_publishes_per_second : Z;
}.

(** [ApiConfig::default]. *)
Definition ApiConfig_default : ApiConfig := {|
  ac_http_body_limit_bytes := default_http_body_limit;
  ac_stream_queue_capacity := default_stream_queue_capacity;
  ac_max_stream_queue_capacity := default_max_stream_queue_capacity;
  ac_sse_keep_alive_secs := default_sse_keep_alive_secs;
  ac_ws_max_message_bytes := default_ws_max_message_bytes;
  ac_ws_max_frame_bytes := default_ws_max_frame_bytes;
  ac_ws_max_commands_per_second := default_ws_max_commands_per_second;
  ac_grpc_max_decoding_message_bytes := default_grpc_max_decoding_message_bytes;
  ac_grpc_max_encoding_message_bytes := default_grpc_max_encoding_message_bytes;
  ac_grpc_concurrency_limit := default_grpc_concurrency_limit;
  ac_grpc_keep_alive_interval_secs := default_grpc_keep_alive_interval_secs;
  ac_grpc_keep_alive_timeout_secs := default_grpc_keep_alive_timeout_secs;
  ac_grpc_health_enabled := default_grpc_health_enabled;
  ac_grpc_reflection_enabled := false;
  ac_publish_max_payload_bytes := default_publish_max_payload_bytes;
  ac_max_rate_limit_principals := default_max_rate_limit_principals;
  ac_global_commands_per_second := default_global_command_rate;
  ac_principal_commands_per_second := default_principal_command_rate;
  ac_global_publishes_per_second := default_global_publish_rate;
  ac_principal_publishes_per_second := default_principal_publish_rate;
|}.

(** [resolve_stream_queue_capacity]. *)
Definition resolve_stream_queue_capacity (config : ApiConfig) (requested : option Z) : result Z Z :=
  let capacity := default (ac_stream_queue_capacity config) requested in
  if (capacity =? 0) || (ac_max_stream_queue_capacity config <? capacity)
  then Err (ac_max_stream_queue_capacity config)
  else Ok capacity.

(** ** Health gates *)

(** A [watch] channel: the value last sent and how often one was sent. *)
Record Watch : Type := {
  wt_value : bool;
  wt_version : nat;
}.

(** [send_replace]: every call is a new version, also of the same value. *)
Definition send_replace (value : bool) (w : Watch) : Watch :=
  {| wt_value := value; wt_version := S (wt_version w) |}.

(** [HealthState]. *)
Record HealthState : Type := {
  hs_live : bool;
  hs_ready : bool;
  hs_ready_changes : Watch;
}.

Definition HealthState_default : HealthState :=
  {| hs_live := false; hs_ready := false;
     hs_ready_changes := {| wt_value := false; wt_version := 0 |} |}.

Definition set_live (value : bool) (h : HealthState) : HealthState :=
  {| hs_live := value; hs_ready := hs_ready h; hs_ready_changes := hs_ready_changes h |}.
Definition set_ready (value : bool) (h : HealthState) : HealthState :=
  {| hs_live := hs_live h; hs_ready := value;
     hs_ready_changes := send_replace value (hs_ready_changes h) |}.

(** [ReadinessHysteresis]. *)
Record ReadinessHysteresis : Type := {
  rh_ready : bool;
  rh_successes : Z;
  rh_failures : Z;
  rh_success_threshold : Z;
  rh_failure_threshold : Z;
}.

Definition ReadinessHysteresis_new (success_threshold failure_threshold : Z)
    : ReadinessHysteresis := {|
  rh_ready := false; rh_successes := 0; rh_failures := 0;
  rh_success_threshold := success_threshold; rh_failure_threshold := failure_threshold |}.

(** [ReadinessHysteresis::observe]; the value returned is [rh_ready]. *)
Definition observe (healthy : bool) (h : ReadinessHysteresis) : ReadinessHysteresis :=
  if healthy then
    let successes := sat_add u32_max (rh_successes h) 1 in
    {| rh_ready := if rh_success_threshold h <=? successes then true else rh_ready h;
       rh_successes := successes; rh_failures := 0;
       rh_success_threshold := rh_success_threshold h;
       rh_failure_threshold := rh_failure_threshold h |}
  else
    let failures := sat_add u32_max (rh_failures h) 1 in
    {| rh_ready := if rh_failure_threshold h <=? failures then false else rh_ready h;
       rh_successes := 0; rh_failures := failures;
       rh_success_threshold := rh_success_threshold h;
       rh_failure_threshold := rh_failure_threshold h |}.

(** A turn of the loop of [monitor_kafka_readiness]: a tick with the Kafka
    health at that moment, or a change of the shutdown channel. *)
Inductive MonitorEvent : Type :=
| Tick (kafka_healthy : bool)
| ShutdownChange (changed_is_err value : bool).

(** [monitor_kafka_readiness] on a sequence of turns. *)
Fixpoint monitor (events : list MonitorEvent) (hysteresis : ReadinessHysteresis)
    (health : HealthState) : HealthState :=
  match events with
  | [] => health
  | Tick healthy :: rest =>
      let hysteresis := observe healthy hysteresis in
      monitor rest hysteresis (set_ready (rh_ready hysteresis) health)
  | ShutdownChange err value :: rest =>
      if err || value then health else monitor rest hysteresis health
  end.

(** ** The process-wide limiter *)

Definition one_second : Z := 1_000_000_000.

(** [RateKind]. *)
Inductive RateKind : Type := Command | Publish_.

(** The counters of a window: [PrincipalRate], and [RateState] without its
    map. *)
Record Window : Type := {
  w_started : Z;
  w_commands : Z;
  w_publishes : Z;
}.

(** [RateState]. *)
Record RateState : Type := {
  rs_window : Window;
  rs_principals : gmap string Window;
}.

Definition fresh_window (now : Z) : Window := {| w_started := now; w_commands := 0; w_publishes := 0 |}.

(** [AbuseLimiter::new]. *)
Definition AbuseLimiter_new (now : Z) : RateState :=
  {| rs_window := fresh_window now; rs_principals := ∅ |}.

Definition used (kind : RateKind) (w : Window) : Z :=
  match kind with Command => w_commands w | Publish_ => w_publishes w end.

Definition bump (kind : RateKind) (w : Window) : Window :=
  match kind with
  | Command => {| w_started := w_started w; w_commands := w_commands w + 1;
                  w_publishes := w_publishes w |}
  | Publish_ => {| w_started := w_started w; w_commands := w_commands w;
                  w_publishes := w_publishes w + 1 |}
  end.

Definition global_limit (config : ApiConfig) (kind : RateKind) : Z :=
  match kind with
  | Command => ac_global_commands_per_second config
  | Publish_ => ac_global_publishes_per_second config
  end.

Definition principal_limit (config : ApiConfig) (kind : RateKind) : Z :=
  match kind with
  | Command => ac_principal_commands_per_second config
  | Publish_ => ac_principal_publishes_per_second config
  end.

(** The reset of an elapsed window: [w.window_started.elapsed() >= 1s]. *)
Definition expired (reading : Z) (w : Window) : bool := one_second <=? sat_sub reading (w_started w).

(** [AbuseLimiter::allow]: [now] is the first clock reading, [t1] and [t2]
    those of the two [elapsed()] calls. *)
Definition allow (config : ApiConfig) (now t1 t2 : Z) (tenant : string) (kind : RateKind)
    (s : RateState) : RateState * bool :=
  let s := if expired t1 (rs_window s) then AbuseLimiter_new now else s in
  if global_limit config kind <=? used kind (rs_window s) then (s, false)
  else if bool_decide (rs_principals s !! tenant = None)
          && (ac_max_rate_limit_principals config <=? Z.of_nat (size (rs_principals s)))
  then (s, false)
  else
    let principal := default (fresh_window now) (rs_principals s !! tenant) in
    let principal := if expired t2 principal then fresh_window now else principal in
    if principal_limit config kind <=? used kind principal then
      ({| rs_window := rs_window s; rs_principals := <[tenant := principal]> (rs_principals s) |},
       false)
    else
      ({| rs_window := bump kind (rs_window s);
          rs_principals := <[tenant := bump kind principal]> (rs_principals s) |}, true).

(** [ApiState::allow_rate]. *)
Definition allow_rate (config : ApiConfig) (now t1 t2 : Z) (tenant : string) (kind : RateKind)
    (s : RateState) (m : Metrics) : RateState * Metrics * bool :=
  let '(s, allowed) := allow config now t1 t2 tenant kind s in
  (s, if allowed then m else record_security_limit_rejection m, allowed).

(** [CommandRateLimiter] of one WebSocket connection. *)
Record CommandRateLimiter : Type := {
  cl_window_started : Z;
  cl_accepted : Z;
  cl_limit : Z;
}.

Definition CommandRateLimiter_new (now limit : Z) : CommandRateLimiter :=
  {| cl_window_started := now; cl_accepted := 0; cl_limit := limit |}.

(** [CommandRateLimiter::allow]: the two readings are [elapsed()] and
    [Instant::now()]. *)
Definition command_allow (t1 t2 : Z) (l : CommandRateLimiter) : CommandRateLimiter * bool :=
  let l := if one_second <=? sat_sub t1 (cl_window_started l)
           then {| cl_window_started := t2; cl_accepted := 0; cl_limit := cl_limit l |} else l in
  if cl_limit l <=? cl_accepted l then (l, false)
  else ({| cl_window_started := cl_window_started l; cl_accepted := cl_accepted l + 1;
           cl_limit := cl_limit l |}, true).

(** ** What the limiter promises *)

(** One call of [allow]. *)
Record Call : Type := {
  call_now : Z; call_t1 : Z; call_t2 : Z; call_tenant : string; call_kind : RateKind;
}.

#[export] Instance RateKind_eq_dec : EqDecision RateKind.
Proof. solve_decision. Defined.

(** A sequence of calls: the calls that were allowed, each with the start of the
    window it was counted in. *)
Fixpoint allow_all (config : ApiConfig) (calls : list Call) (s : RateState)
    : RateState * list (Z * Call) :=
  match calls with
  | [] => (s, [])
  | c :: rest =>
      let '(s, ok) := allow config (call_now c) (call_t1 c) (call_t2 c) (call_tenant c)
                        (call_kind c) s in
      let entry := (w_started (rs_window s), c) in
      let '(s, accepted) := allow_all config rest s in
      (s, if ok then entry :: accepted else accepted)
  end.

(** How many entries satisfy a predicate. *)
Definition tally (P : Z * Call → bool) (log : list (Z * Call)) : Z :=
  sumZ (λ e, if P e then 1 else 0) log.

(** Entries of a kind, of a kind by one tenant, of one window, and of any
    second; and those whose tenant counters were looked at after the window's
    second, which the window's own check did not see. *)
Definition of_kind (k : RateKind) (e : Z * Call) : bool := bool_decide (call_kind e.2 = k).
Definition of_tenant (k : RateKind) (t : string) (e : Z * Call) : bool :=
  bool_decide (call_kind e.2 = k ∧ call_tenant e.2 = t).
Definition in_window (start : Z) (e : Z * Call) : bool := bool_decide (e.1 = start).
Definition in_second (from : Z) (e : Z * Call) : bool :=
  bool_decide (from ≤ call_t1 e.2 < from + one_second).
Definition straddles (e : Z * Call) : bool := bool_decide (e.1 + one_second ≤ call_t2 e.2).

(** The clock does not go back, within a call and from one call to the next, and
    no call is held up for a second between its first two readings. *)
Fixpoint clock_ordered (from : Z) (calls : list Call) : Prop :=
  match calls with
  | [] => True
  | c :: rest => from ≤ call_now c ≤ call_t1 c ∧ call_t1 c < call_now c + one_second ∧
      call_t1 c ≤ call_t2 c ∧ clock_ordered (call_t2 c) rest
  end.

Lemma tally_cons P e log : tally P (e :: log) = (if P e then 1 else 0) + tally P log.
Proof. apply sumZ_cons. Qed.

Lemma tally_nonneg P log : 0 ≤ tally P log.
Proof. induction log as [|e log IH]; [done|]. rewrite tally_cons. destruct (P e); lia. Qed.

(** What satisfies one predicate satisfies one of two others. *)
Lemma tally_two P Q R log :
  (∀ e, e ∈ log → P e = true → Q e = true ∨ R e = true) → tally P log ≤ tally Q log + tally R log.
Proof.
  induction log as [|e log IH]; intros Himp; [done|]. rewrite !tally_cons.
  specialize (IH ltac:(intros e' He'; apply Himp; by right)). specialize (Himp e ltac:(left)).
  destruct (P e), (Q e), (R e); naive_solver lia.
Qed.

Lemma tally_zero P log : (∀ e, e ∈ log → P e = false) → tally P log = 0.
Proof.
  induction log as [|e log IH]; intros Hno; [done|]. rewrite tally_cons, Hno by left.
  rewrite IH; [done|]. intros e' He'. apply Hno. by right.
Qed.

Lemma strongly_sorted_total {A} (R : A → A → Prop) l x y :
  StronglySorted R l → x ∈ l → y ∈ l → x = y ∨ R x y ∨ R y x.
Proof.
  induction 1 as [|a l Hsort IH Ha]; [by intros ?%elem_of_nil|]. rewrite Forall_forall in Ha.
  rewrite !elem_of_cons. naive_solver.
Qed.

Section limiter.
Context (config : ApiConfig).

(** The counters of the current window. *)
Record window_inv (s : RateState) : Prop := {
  wi_principals : ∀ t w, rs_principals s !! t = Some w → w_started (rs_window s) ≤ w_started w;
  wi_global : ∀ k, used k (rs_window s) ≤ Z.max 0 (global_limit config k);
  wi_principal : ∀ k t w, rs_principals s !! t = Some w →
    used k w ≤ Z.max 0 (principal_limit config k);
  wi_size : Z.of_nat (size (rs_principals s)) ≤ Z.max 0 (ac_max_rate_limit_principals config);
}.

(** The count of a tenant in the table. *)
Definition tenant_used (k : RateKind) (t : string) (s : RateState) : Z :=
  default 0 (used k <$> rs_principals s !! t).

Lemma used_bump k k' w : used k (bump k' w) = used k w + if decide (k' = k) then 1 else 0.
Proof. destruct k, k'; simpl; lia. Qed.

Lemma used_fresh k now : used k (fresh_window now) = 0.
Proof. by destruct k. Qed.

Lemma started_bump k w : w_started (bump k w) = w_started w.
Proof. by destruct k. Qed.

Lemma new_inv now : window_inv (AbuseLimiter_new now).
Proof.
  split; simpl; [intros t w; by rewrite lookup_empty| |intros k t w; by rewrite lookup_empty|].
  - intros k. rewrite used_fresh. lia.
  - rewrite map_size_empty. lia.
Qed.

Lemma tenant_used_bound k t s : window_inv s → tenant_used k t s ≤ Z.max 0 (principal_limit config k).
Proof.
  intros Hinv. unfold tenant_used. destruct (rs_principals s !! t) as [w|] eqn:E; simpl; [|lia].
  by eapply wi_principal.
Qed.

(** [allow] after the reset of the window. *)
Definition allow_in_window (now t2 : Z) (tenant : string) (kind : RateKind) (s : RateState)
    : RateState * bool :=
  if global_limit config kind <=? used kind (rs_window s) then (s, false)
  else if bool_decide (rs_principals s !! tenant = None)
          && (ac_max_rate_limit_principals config <=? Z.of_nat (size (rs_principals s)))
  then (s, false)
  else
    let principal := default (fresh_window now) (rs_principals s !! tenant) in
    let principal := if expired t2 principal then fresh_window now else principal in
    if principal_limit config kind <=? used kind principal then
      ({| rs_window := rs_window s; rs_principals := <[tenant := principal]> (rs_principals s) |},
       false)
    else
      ({| rs_window := bump kind (rs_window s);
          rs_principals := <[tenant := bump kind principal]> (rs_principals s) |}, true).

Lemma allow_split now t1 t2 tenant kind s :
  allow config now t1 t2 tenant kind s =
  allow_in_window now t2 tenant kind (if expired t1 (rs_window s) then AbuseLimiter_new now else s).
Proof. done. Qed.

(** One call within a window: an allowed call is counted once globally and, as
    long as the tenant's counters are not reset, once for the tenant; a refused
    call changes no count. *)
Lemma in_window_counts now t2 tenant kind s s' ok :
  window_inv s → w_started (rs_window s) ≤ now →
  allow_in_window now t2 tenant kind s = (s', ok) →
  window_inv s' ∧ w_started (rs_window s') = w_started (rs_window s) ∧
  (∀ k, used k (rs_window s') =
     used k (rs_window s) + if ok then if decide (kind = k) then 1 else 0 else 0) ∧
  (t2 < w_started (rs_window s) + one_second ∨ rs_principals s = ∅ →
   ∀ k t, tenant_used k t s' = tenant_used k t s +
     if ok then if decide (kind = k ∧ tenant = t) then 1 else 0 else 0).
Proof.
  intros Hinv Hnow. unfold allow_in_window. pose proof Hinv as [Hps Hg Hp Hsz].
  destruct (Z.leb_spec (global_limit config kind) (used kind (rs_window s))) as [|Hgl].
  { intros [= <- <-]. split_and!; [done|done|intros; lia..]. }
  destruct (bool_decide _ && _) eqn:Ecap.
  { intros [= <- <-]. split_and!; [done|done|intros; lia..]. }
  set (w0 := if expired t2 _ then _ else _).
  assert (w_started (rs_window s) ≤ w_started w0) as Hw0.
  { subst w0. destruct (expired _ _); [done|].
    destruct (rs_principals s !! tenant) eqn:E; simpl; [by eapply Hps|done]. }
  assert (∀ k, used k w0 ≤ Z.max 0 (principal_limit config k)) as Hb0.
  { intros k. subst w0. destruct (expired _ _); [rewrite used_fresh; lia|].
    destruct (rs_principals s !! tenant) eqn:E; simpl; [by eapply Hp|rewrite used_fresh; lia]. }
  assert (t2 < w_started (rs_window s) + one_second ∨ rs_principals s = ∅ →
          ∀ k, used k w0 = tenant_used k tenant s) as Hu0.
  { intros Hfresh k. subst w0. unfold tenant_used.
    destruct (rs_principals s !! tenant) as [w|] eqn:E; simpl.
    - destruct Hfresh as [Ht2|He]; [|by rewrite He, lookup_empty in E].
      assert (expired t2 w = false) as ->; [|done]. specialize (Hps _ _ E).
      unfold expired, sat_sub, one_second in *. apply Z.leb_gt. lia.
    - destruct (expired _ _); apply used_fresh. }
  assert (∀ w, Z.of_nat (size (<[tenant := w]> (rs_principals s))) ≤
    Z.max 0 (ac_max_rate_limit_principals config)) as Hsz'.
  { intros w. rewrite map_size_insert. apply andb_false_iff in Ecap.
    destruct (rs_principals s !! tenant) eqn:E; [done|].
    rewrite bool_decide_true in Ecap by done. destruct Ecap as [|Hlt%Z.leb_gt]; [done|]. lia. }
  clearbody w0.
  destruct (Z.leb_spec (principal_limit config kind) (used kind w0)) as [|Hpl];
    intros [= <- <-]; (split_and!; [split; simpl; try done|..]).
  - intros t w. rewrite lookup_insert. case_decide; [by intros [= <-]|apply Hps].
  - intros k t w. rewrite lookup_insert. case_decide; [by intros [= <-]|apply Hp].
  - done.
  - intros; simpl; lia.
  - intros Hfresh k t. unfold tenant_used at 1. simpl. rewrite lookup_insert.
    case_decide as E; [subst t; simpl; rewrite (Hu0 Hfresh); lia|]. unfold tenant_used. lia.
  - intros t w. rewrite lookup_insert, started_bump. case_decide; [|apply Hps].
    intros [= <-]. by rewrite started_bump.
  - intros k. rewrite used_bump. specialize (Hg k). case_decide; subst; lia.
  - intros k t w. rewrite lookup_insert. case_decide; [|apply Hp].
    intros [= <-]. rewrite used_bump. specialize (Hb0 k). case_decide; subst; lia.
  - apply started_bump.
  - intros k. simpl. apply used_bump.
  - intros Hfresh k t. unfold tenant_used at 1. simpl. rewrite lookup_insert.
    case_decide as E; [subst t|rewrite decide_False by naive_solver; unfold tenant_used; lia].
    simpl. rewrite used_bump, (Hu0 Hfresh).
    case_decide; [rewrite decide_True|rewrite decide_False]; naive_solver lia.
Qed.

(** One call: it is counted in the current window, or the second is over and it
    opens the next one. *)
Lemma allow_counts c s s' ok :
  let start := w_started (rs_window s) in let start' := w_started (rs_window s') in
  window_inv s → start ≤ call_now c ≤ call_t1 c → call_t1 c < call_now c + one_second →
  allow config (call_now c) (call_t1 c) (call_t2 c) (call_tenant c) (call_kind c) s = (s', ok) →
  let g k := if ok then if decide (call_kind c = k) then 1 else 0 else 0 in
  let p k t := if ok then if decide (call_kind c = k ∧ call_tenant c = t) then 1 else 0 else 0 in
  window_inv s' ∧
  ((start' = start ∧ call_t1 c < start + one_second ∧
    (∀ k, used k (rs_window s') = used k (rs_window s) + g k) ∧
    (call_t2 c < start + one_second → ∀ k t, tenant_used k t s' = tenant_used k t s + p k t)) ∨
   (start' = call_now c ∧ start < start' ∧ start + one_second ≤ call_t1 c ∧
    (∀ k, used k (rs_window s') = g k) ∧ (∀ k t, tenant_used k t s' = p k t))).
Proof.
  intros start start' Hinv Hnow Ht1 Hrun g p. rewrite allow_split in Hrun.
  unfold expired in Hrun. fold start in Hrun.
  destruct (Z.leb_spec one_second (sat_sub (call_t1 c) start)) as [He|He].
  - destruct (in_window_counts _ _ _ _ _ _ _ (new_inv (call_now c)) (Z.le_refl _) Hrun)
      as (Hinv' & Hst & Hg & Hp). split; [done|]. right. fold start' in Hst. simpl in Hst.
    unfold sat_sub, one_second in *. split_and!; [done|lia|lia|..].
    + intros k. rewrite Hg. simpl rs_window. rewrite used_fresh. subst g. simpl. lia.
    + intros k t. rewrite Hp by (by right). unfold tenant_used. simpl. rewrite lookup_empty. done.
  - destruct (in_window_counts _ _ _ _ _ _ _ Hinv (proj1 Hnow) Hrun) as (Hinv' & Hst & Hg & Hp).
    split; [done|]. left. unfold sat_sub, one_second in *. split_and!; [done|lia|done|].
    intros Ht2. apply Hp. left. done.
Qed.

(** ** Runs *)

(** Of two entries, the second is of the same window, or of one that starts
    after the first was read, and was read a second after the first's start. *)
Definition later (e e' : Z * Call) : Prop :=
  e.1 = e'.1 ∨ (call_t1 e.2 ≤ e'.1 ∧ e.1 + one_second ≤ call_t1 e'.2).

(** What the log of a run from a state says: the windows with what the state has
    counted, and the order of the entries. *)
Record log_ok (from : Z) (s : RateState) (log : list (Z * Call)) : Prop := {
  lo_global start k :
    tally (λ e, in_window start e && of_kind k e) log +
    (if decide (start = w_started (rs_window s)) then used k (rs_window s) else 0)
    ≤ Z.max 0 (global_limit config k);
  lo_tenant start k t :
    tally (λ e, in_window start e && of_tenant k t e && negb (straddles e)) log +
    (if decide (start = w_started (rs_window s) ∧ from < start + one_second)
     then tenant_used k t s else 0)
    ≤ Z.max 0 (principal_limit config k);
  lo_straddle start :
    tally (λ e, in_window start e && straddles e) log +
    (if decide (start = w_started (rs_window s) ∧ start + one_second ≤ from) then 1 else 0) ≤ 1;
  lo_entries e : e ∈ log → e.1 ≤ call_now e.2 ≤ call_t1 e.2 ∧ call_t1 e.2 < e.1 + one_second ∧
    from ≤ call_t1 e.2 ∧
    (e.1 = w_started (rs_window s) ∨
     (from ≤ e.1 ∧ w_started (rs_window s) + one_second ≤ call_t1 e.2));
  lo_sorted : StronglySorted later log;
}.

Lemma log_ok_nil from s : window_inv s → log_ok from s [].
Proof.
  intros Hinv. split; [..|by intros e ?%elem_of_nil|constructor]; unfold tally; simpl; intros.
  - pose proof (wi_global _ Hinv k). case_decide; lia.
  - pose proof (tenant_used_bound k t _ Hinv). case_decide; lia.
  - case_decide; lia.
Qed.

(** One more call in front of a run. *)
Section one_more.
Context (from : Z) (c : Call) (s s1 : RateState) (ok : bool) (log : list (Z * Call)).
Hypothesis Hinv : window_inv s.
Hypothesis Hfrom : w_started (rs_window s) ≤ from ≤ call_now c.
Hypothesis Hnow : call_now c ≤ call_t1 c.
Hypothesis Hshort : call_t1 c < call_now c + one_second.
Hypothesis Ht2 : call_t1 c ≤ call_t2 c.
Hypothesis Hrun :
  allow config (call_now c) (call_t1 c) (call_t2 c) (call_tenant c) (call_kind c) s = (s1, ok).
Hypothesis Hlog : log_ok (call_t2 c) s1 log.
#[local] Abbreviation start := (w_started (rs_window s)).
#[local] Abbreviation start1 := (w_started (rs_window s1)).
#[local] Abbreviation log1 := (if ok then (start1, c) :: log else log).

(** Once the window is left, nothing is counted in it any more. *)
Lemma window_left Q :
  start1 ≠ start ∨ start + one_second ≤ call_t2 c →
  tally (λ e, in_window start e && Q e) log = 0.
Proof using Hinv Hfrom Hnow Hshort Ht2 Hrun Hlog.
  destruct (allow_counts c s s1 ok Hinv ltac:(lia) Hshort Hrun) as (_ & Hcase).
  intros Hgone. apply tally_zero. intros e He. unfold in_window.
  rewrite bool_decide_eq_false_2; [done|]. destruct (lo_entries _ _ _ Hlog e He) as (Hen & Het & Hef & Hew).
  destruct Hcase as [(Hst & _)|(Hst & Hlt & _)]; lia.
Qed.

Lemma tally_more P :
  tally P log1 = (if ok then if P (start1, c) then 1 else 0 else 0) + tally P log.
Proof. destruct ok; [by rewrite tally_cons|lia]. Qed.

Ltac by_cases :=
  destruct ok; repeat case_decide; repeat case_bool_decide; simplify_eq/=; naive_solver lia.

Lemma more_global W k :
  tally (λ e, in_window W e && of_kind k e) log1 +
  (if decide (W = start) then used k (rs_window s) else 0) ≤ Z.max 0 (global_limit config k).
Proof using Hinv Hfrom Hnow Hshort Ht2 Hrun Hlog.
  destruct (allow_counts c s s1 ok Hinv ltac:(lia) Hshort Hrun) as (_ & Hcase).
  rewrite tally_more. pose proof (lo_global _ _ _ Hlog W k) as Lg.
  pose proof (wi_global _ Hinv k) as Hb. unfold in_window at 1, of_kind at 1. simpl.
  destruct Hcase as [(Hst & _ & Hu & _)|(Hst & Hlt & _ & Hu & _)]; rewrite Hu in Lg; [by_cases|].
  destruct (decide (W = start)) as [->|HW]; [|by_cases].
  rewrite window_left by lia. rewrite bool_decide_eq_false_2 by lia. by_cases.
Qed.

Lemma more_tenant W k t :
  tally (λ e, in_window W e && of_tenant k t e && negb (straddles e)) log1 +
  (if decide (W = start ∧ from < W + one_second) then tenant_used k t s else 0)
  ≤ Z.max 0 (principal_limit config k).
Proof using Hinv Hfrom Hnow Hshort Ht2 Hrun Hlog.
  destruct (allow_counts c s s1 ok Hinv ltac:(lia) Hshort Hrun) as (_ & Hcase).
  rewrite tally_more. pose proof (lo_tenant _ _ _ Hlog W k t) as Lt.
  pose proof (tenant_used_bound k t _ Hinv) as Hb.
  assert (start1 ≠ start ∨ start + one_second ≤ call_t2 c → tally (λ e, in_window start e &&
    of_tenant k t e && negb (straddles e)) log = 0) as Hzero.
  { intros Hgone. rewrite <-(window_left (λ e, of_tenant k t e && negb (straddles e)) Hgone).
    unfold tally. apply sumZ_ext. intros e _. by rewrite andb_assoc. }
  unfold in_window at 1, of_tenant at 1, straddles at 1. simpl.
  destruct (decide (W = start)) as [->|HW].
  - destruct (decide (start1 ≠ start ∨ start + one_second ≤ call_t2 c)) as [Hgone|Hstay].
    + rewrite (Hzero Hgone). by_cases.
    + destruct Hcase as [(Hst & _ & _ & Hu)|(Hst & Hlt & _)]; [|lia]. rewrite Hu in Lt by lia. by_cases.
  - destruct Hcase as [(Hst & _)|(Hst & Hlt & _ & _ & Hu)]; [|rewrite Hu in Lt]; by_cases.
Qed.

Lemma more_straddle W :
  tally (λ e, in_window W e && straddles e) log1 +
  (if decide (W = start ∧ W + one_second ≤ from) then 1 else 0) ≤ 1.
Proof using Hinv Hfrom Hnow Hshort Ht2 Hrun Hlog.
  destruct (allow_counts c s s1 ok Hinv ltac:(lia) Hshort Hrun) as (_ & Hcase).
  rewrite tally_more. pose proof (lo_straddle _ _ _ Hlog W) as Ls.
  unfold in_window at 1, straddles at 1. simpl.
  destruct (decide (W = start)) as [->|HW]; [|by_cases].
  destruct Hcase as [(Hst & Hin & _)|(Hst & Hlt & _)]; [by_cases|].
  rewrite window_left by lia. by_cases.
Qed.

Lemma log_ok_cons : log_ok from s log1.
Proof using Hinv Hfrom Hnow Hshort Ht2 Hrun Hlog.
  destruct (allow_counts c s s1 ok Hinv ltac:(lia) Hshort Hrun) as (_ & Hcase).
  split; [exact more_global|exact more_tenant|exact more_straddle|..].
  - intros e He. assert (e = (start1, c) ∨ e ∈ log) as [->|Hin]
      by (destruct ok; [by apply elem_of_cons in He|by right]).
    + simpl. destruct Hcase as [(Hst & Hin & _)|(Hst & Hlt & Hex & _)]; lia.
    + destruct (lo_entries _ _ _ Hlog e Hin) as (Hen & Het & Hef & Hew).
      destruct Hcase as [(Hst & _)|(Hst & Hlt & Hex & _)]; lia.
  - destruct ok; [|apply Hlog]. constructor; [apply Hlog|]. rewrite Forall_forall. intros e He.
    destruct (lo_entries _ _ _ Hlog e He) as (Hen & Het & Hef & [Hw|Hw]); [by left|right]. simpl. lia.
Qed.
End one_more.

Lemma allow_all_log from calls s s' log :
  window_inv s → w_started (rs_window s) ≤ from → clock_ordered from calls →
  allow_all config calls s = (s', log) → log_ok from s log ∧ window_inv s'.
Proof.
  revert from s log. induction calls as [|c calls IH]; simpl; intros from s log Hinv Hfrom Hord.
  { intros [= <- <-]. split; [by apply log_ok_nil|done]. }
  destruct Hord as (Hnow & Hshort & Ht2 & Hord).
  destruct (allow _ _ _ _ _ _ s) as [s1 ok] eqn:E1.
  destruct (allow_all config calls s1) as [s2 acc] eqn:E2. intros [= <- <-].
  destruct (allow_counts c s s1 ok Hinv ltac:(lia) Hshort E1) as (Hinv1 & Hcase).
  destruct (IH (call_t2 c) s1 acc Hinv1) as [Hlog Hinv2]; [|done|done|].
  { destruct Hcase as [(Hst & _)|(Hst & _)]; lia. }
  split; [|done]. eapply log_ok_cons; eauto; lia.
Qed.

(** Within any second the entries are of two windows at most. *)
Lemma second_two_windows a log :
  StronglySorted later log →
  ∃ W1 W2, ∀ e, e ∈ log → in_second a e = true → in_window W1 e || in_window W2 e = true.
Proof.
  intros Hsort. induction Hsort as [|e log Hsort IH Hlater].
  { exists 0, 0. by intros e ?%elem_of_nil. }
  destruct (in_second a e) eqn:Es.
  2: { destruct IH as (W1 & W2 & HW). exists W1, W2. intros e' [->|He']%elem_of_cons; [congruence|].
       by apply HW. }
  clear IH. rewrite Forall_forall in Hlater. unfold in_second in *.
  apply bool_decide_eq_true in Es.
  destruct (decide (Exists (λ x, in_second a x = true ∧ x.1 ≠ e.1) log)) as [Hx|Hx].
  - apply Exists_exists in Hx as (x & Hx & Hxs & Hxe). exists e.1, x.1.
    unfold in_second in Hxs. apply bool_decide_eq_true in Hxs.
    intros y [->|Hy]%elem_of_cons Hys; unfold in_window; apply orb_true_iff;
      rewrite !bool_decide_eq_true; [by left|]. apply bool_decide_eq_true in Hys.
    destruct (Hlater x Hx) as [?|[Hx1 _]]; [congruence|].
    destruct (Hlater y Hy) as [?|[Hy1 _]]; [by left|]. right.
    destruct (strongly_sorted_total later log x y Hsort Hx Hy) as [->|[[?|[_ H]]|[?|[_ H]]]]; try done; lia.
  - exists e.1, e.1. intros y [->|Hy]%elem_of_cons Hys; unfold in_window.
    + by rewrite bool_decide_eq_true_2.
    + rewrite bool_decide_eq_true_2; [done|]. destruct (decide (y.1 = e.1)); [done|].
      destruct Hx. apply Exists_exists. exists y. done.
Qed.
End limiter.


(** Forty publishes of one tenant at nine tenths of a second, and forty more in
    the window that opens after it. *)
Definition example_call (time : Z) : Call := {|
  call_now := time; call_t1 := time; call_t2 := time; call_tenant := "tenant-a";
  call_kind := Publish_ |}.
Definition example_calls : list Call :=
  replicate 40 (example_call 900_000_000) ++ replicate 40 (example_call 1_100_000_000).

Example two_windows_filled :
  length (allow_all ApiConfig_default example_calls (AbuseLimiter_new 0)).2 = 64%nat.
Proof. vm_compute. reflexivity. Qed.

(** The call that straddles the end of its window is one more than the limit. *)
Example straddling_call :
  let late := {| call_now := 999_999_999; call_t1 := 999_999_999; call_t2 := 1_000_000_000;
                 call_tenant := "tenant-a"; call_kind := Publish_ |} in
  length (allow_all ApiConfig_default (replicate 32 (example_call 0) ++ [late])
            (AbuseLimiter_new 0)).2 = 33%nat.
Proof. vm_compute. reflexivity. Qed.


(** ** Readiness *)

(** The length of the run of [b] at the end of a sequence of observations. *)
Fixpoint leading (b : bool) (l : list bool) : Z :=
  match l with
  | x :: rest => if Bool.eqb x b then 1 + leading b rest else 0
  | [] => 0
  end.
Definition trailing (b : bool) (l : list bool) : Z := leading b (reverse l).

Definition observe_all (l : list bool) (h : ReadinessHysteresis) : ReadinessHysteresis :=
  foldl (λ h b, observe b h) h l.

Lemma trailing_snoc b l x :
  trailing b (l ++ [x]) = if Bool.eqb x b then 1 + trailing b l else 0.
Proof. unfold trailing. by rewrite reverse_snoc. Qed.

Lemma trailing_nonneg b l : 0 ≤ trailing b l.
Proof.
  unfold trailing. induction (reverse l) as [|x r IH]; simpl; [lia|]. destruct (Bool.eqb x b); lia.
Qed.

Lemma observations_snoc l b h : observe_all (l ++ [b]) h = observe b (observe_all l h).
Proof. unfold observe_all. by rewrite foldl_app. Qed.

Lemma observe_counts s f l :
  let h := observe_all l (ReadinessHysteresis_new s f) in
  rh_successes h = Z.min u32_max (trailing true l) ∧
  rh_failures h = Z.min u32_max (trailing false l) ∧
  rh_success_threshold h = s ∧ rh_failure_threshold h = f.
Proof.
  induction l as [|b l IH] using rev_ind; [done|]. rewrite observations_snoc, !trailing_snoc.
  destruct IH as (IH1 & IH2 & IH3 & IH4). pose proof (trailing_nonneg true l).
  pose proof (trailing_nonneg false l).
  destruct b; simpl; unfold sat_add, u32_max in *; split_and!; try done; lia.
Qed.

(** Readiness has hysteresis: it turns true exactly at an observation
    that completes a run of at least [success_threshold] healthy ones, turns
    false exactly at one that completes a run of at least [failure_threshold]
    unhealthy ones, and otherwise keeps its value; and the health gate shows
    that value after every tick. *)
Lemma readiness_hysteresis (s f : Z) (l : list bool) (b : bool)
    (Hs : s ≤ u32_max) (Hf : f ≤ u32_max) :
  let before := rh_ready (observe_all l (ReadinessHysteresis_new s f)) in
  let after := rh_ready (observe_all (l ++ [b]) (ReadinessHysteresis_new s f)) in
  after = (if b then if s <=? trailing true (l ++ [b]) then true else before
           else if f <=? trailing false (l ++ [b]) then false else before) ∧
  ∀ h, hs_ready (monitor (Tick <$> (l ++ [b])) (ReadinessHysteresis_new s f) h) = after.
Proof.
  intros before after. split.
  - subst before after. rewrite observations_snoc, !trailing_snoc.
    destruct (observe_counts s f l) as (Es & Ef & Et1 & Et2).
    assert (∀ t v, t ≤ u32_max → 0 ≤ v →
      (t <=? sat_add u32_max (Z.min u32_max v) 1) = (t <=? 1 + v)) as Hsat.
    { intros t v Ht Hv. apply eq_bool_prop_intro. rewrite !Is_true_true, !Z.leb_le.
      unfold sat_add, u32_max in *. lia. }
    destruct b; simpl; [rewrite Et1, Es|rewrite Et2, Ef]; rewrite Hsat; auto using trailing_nonneg.
  - intros h. subst after. generalize (ReadinessHysteresis_new s f). clear.
    induction l as [|x l IH] in h |- *; intros hy; [done|]. simpl. apply IH.
Qed.

Example ready_after_three :
  rh_ready (observe_all ([true; true] ++ [true]) (ReadinessHysteresis_new 3 2)) = true.
Proof.
  destruct (readiness_hysteresis 3 2 [true; true] true) as [-> _]; [unfold u32_max; lia..|].
  reflexivity.
Qed.
