(* ===== verification/Security.v ===== *)
(** * Webhook egress controls

    router-webhook's [security.rs]: validation of a configured destination
    URL and the resolution step that pins the addresses of one attempt.  The
    URL parser and the resolver are library code: a parsed [Url] is the record
    of the accessor results the code reads, the resolver's answer is an
    argument.  The address parser and the address predicates are the standard
    library's and are modelled after it. *)

From S2P Require Import Prelude Str.
Open Scope Z_scope.

(** [WebhookError] of [manager.rs]. *)
Inductive WebhookError : Type :=
| InvalidUrl (reason : string)
| HostNotAllowed (host : string)
| InvalidHeader (name reason : string)
| ClientError (reason : string)
| Registration (id reason : string)
| Durable (reason : string)
| Worker (id reason : string).

(** ** Addresses *)

Inductive IpAddr : Type :=
| V4 (a b c d : Z)
| V6 (segments : list Z).

#[export] Instance IpAddr_eq_dec : EqDecision IpAddr.
Proof. solve_decision. Defined.

(** A parser consumes a prefix of the text. *)
Definition Parser (A : Type) : Type := string → option (A * string).

(** The value of a digit in a radix. *)
Definition digit (radix : Z) (c : ascii) : option Z :=
  let b := byte_of c in
  let v := if in_range 48 57 b then Some (b - 48)
           else if in_range 97 102 b then Some (b - 87)
           else if in_range 65 70 b then Some (b - 55)
           else None in
  v ← v; if v <? radix then Some v else None.

(** The leading digits of a text, with the rest. *)
Fixpoint digits (radix : Z) (s : string) : list Z * string :=
  match s with
  | EmptyString => ([], s)
  | String c rest =>
    match digit radix c with
    | Some v => let '(vs, rest) := digits radix rest in (v :: vs, rest)
    | None => ([], s)
    end
  end.

(** [read_number(radix, max_digits, allow_zero_prefix)] into an integer of at
    most [limit]. *)
Definition read_number (radix : Z) (max_digits : nat) (allow_zero_prefix : bool) (limit : Z)
    : Parser Z := λ s,
  let '(vs, rest) := digits radix s in
  let value := foldl (λ acc v, acc * radix + v) 0 vs in
  let zero_prefix := match vs with 0 :: _ :: _ => true | _ => false end in
  if bool_decide (vs = []) || bool_decide (max_digits < length vs)%nat || (limit <? value)
     || (zero_prefix && negb allow_zero_prefix)
  then None else Some (value, rest).

Definition read_given_char (c : ascii) : Parser unit := λ s,
  match s with
  | String a rest => if bool_decide (a = c) then Some (tt, rest) else None
  | EmptyString => None
  end.

(** [read_separator(sep, index, inner)]. *)
Definition read_separator {A} (sep : ascii) (index : nat) (inner : Parser A) : Parser A := λ s,
  if bool_decide (index = O) then inner s
  else '(_, s) ← read_given_char sep s; inner s.

Definition ch_dot : ascii := Ascii.ascii_of_nat 46.
Definition ch_colon : ascii := Ascii.ascii_of_nat 58.

(** [read_ipv4_addr]: four octets without leading zeros. *)
Definition read_octet (i : nat) : Parser Z := read_separator ch_dot i (read_number 10 3 false 255).

Definition read_ipv4_addr : Parser (Z * Z * Z * Z) := λ s,
  '(a, s) ← read_octet 0 s; '(b, s) ← read_octet 1 s;
  '(c, s) ← read_octet 2 s; '(d, s) ← read_octet 3 s;
  Some (a, b, c, d, s).

(** [read_groups]: up to [limit] groups from index [i], the last two possibly
    written as an embedded IPv4 address; returns the groups and whether one
    was read. *)
Fixpoint read_groups (fuel : nat) (i limit : nat) (s : string) : list Z * bool * string :=
  match fuel with
  | O => ([], false, s)
  | S fuel =>
    if (limit <=? i)%nat then ([], false, s)
    else
      match (if (i <? limit - 1)%nat then read_separator ch_colon i read_ipv4_addr s else None) with
      | Some (a, b, c, d, rest) => ([a * 256 + b; c * 256 + d], true, rest)
      | None =>
        match read_separator ch_colon i (read_number 16 4 true 65535) s with
        | Some (g, rest) =>
            let '(gs, v4, rest) := read_groups fuel (i + 1) limit rest in (g :: gs, v4, rest)
        | None => ([], false, s)
        end
      end
  end.

(** [read_ipv6_addr]. *)
Definition read_ipv6_addr : Parser (list Z) := λ s,
  let '(head, head_ipv4, s) := read_groups 8 0 8 s in
  if (length head =? 8)%nat then Some (head, s)
  else if head_ipv4 then None
  else
    '(_, s) ← read_given_char ch_colon s;
    '(_, s) ← read_given_char ch_colon s;
    let limit := (8 - (length head + 1))%nat in
    let '(tail, _, s) := read_groups 7 0 limit s in
    Some (head ++ replicate (8 - length head - length tail) 0 ++ tail, s).

(** [str::parse::<IpAddr>]: the whole text must be consumed. *)
Definition parse_ip (s : string) : option IpAddr :=
  match read_ipv4_addr s with
  | Some (a, b, c, d, EmptyString) => Some (V4 a b c d)
  | _ =>
    match read_ipv6_addr s with
    | Some (segments, EmptyString) => Some (V6 segments)
    | _ => None
    end
  end.

(** Predicates of [std::net::Ipv4Addr]. *)
Definition v4_is_private (a b : Z) : bool :=
  (a =? 10) || ((a =? 172) && in_range 16 31 b) || ((a =? 192) && (b =? 168)).
Definition v4_is_documentation (a b c : Z) : bool :=
  ((a =? 192) && (b =? 0) && (c =? 2)) || ((a =? 198) && (b =? 51) && (c =? 100))
  || ((a =? 203) && (b =? 0) && (c =? 113)).

(** [ipv4_private_or_special]. *)
Definition ipv4_private_or_special (a b c d : Z) : bool :=
  v4_is_private a b
  || (a =? 127)
  || ((a =? 169) && (b =? 254))
  || ((a =? 255) && (b =? 255) && (c =? 255) && (d =? 255))
  || v4_is_documentation a b c
  || ((a =? 0) && (b =? 0) && (c =? 0) && (d =? 0))
  || in_range 224 239 a
  || (a =? 0)
  || ((a =? 100) && in_range 64 127 b)
  || ((a =? 192) && (b =? 0) && (c =? 0))
  || ((a =? 192) && (b =? 88) && (c =? 99))
  || ((a =? 198) && in_range 18 19 b)
  || (240 <=? a).

(** [Ipv6Addr::to_ipv4_mapped]. *)
Definition to_ipv4_mapped (segments : list Z) : option (Z * Z * Z * Z) :=
  match segments with
  | [0; 0; 0; 0; 0; 65535; ab; cd] => Some (ab / 256, ab mod 256, cd / 256, cd mod 256)
  | _ => None
  end.

(** [ipv6_private_or_special]. *)
Definition ipv6_private_or_special (segments : list Z) : bool :=
  match segments with
  | [s0; s1; s2; s3; s4; s5; s6; s7] =>
    bool_decide (segments = [0; 0; 0; 0; 0; 0; 0; 1])
    || bool_decide (segments = [0; 0; 0; 0; 0; 0; 0; 0])
    || (Z.land s0 0xff00 =? 0xff00)
    || (Z.land s0 0xfe00 =? 0xfc00)
    || (Z.land s0 0xffc0 =? 0xfe80)
    || ((s0 =? 0x0064) && (s1 =? 0xff9b))
    || ((s0 =? 0x0100) && (s1 =? 0) && (s2 =? 0) && (s3 =? 0))
    || ((s0 =? 0x2001) && (s1 <? 0x0200))
    || ((s0 =? 0x2001) && (s1 =? 0x0db8))
    || (s0 =? 0x2002)
    || ((s0 =? 0x3fff) && (s1 <? 0x1000))
    || (s0 =? 0x5f00)
    || match to_ipv4_mapped segments with
       | Some (a, b, c, d) => ipv4_private_or_special a b c d
       | None => false
       end
  | _ => false
  end.

(** [is_private_or_special]. *)
Definition is_private_or_special (address : IpAddr) : bool :=
  match address with
  | V4 a b c d => ipv4_private_or_special a b c d
  | V6 segments => ipv6_private_or_special segments
  end.

(** ** URLs *)

(** What the code reads of a [Url]. *)
Record Url : Type := {
  u_text : string;
  u_scheme : string;
  u_username : string;
  u_password : option string;
  u_fragment : option string;
  u_host_str : option string;
  u_port_or_known_default : option Z;
}.

(** The [url] crate. *)
Class UrlParser := parse_url : string → result string Url.

(** The text without its last character, when that is [c]. *)
Fixpoint strip_suffix (c : ascii) (s : string) : option string :=
  match s with
  | EmptyString => None
  | String a EmptyString => if bool_decide (a = c) then Some EmptyString else None
  | String a rest => String a <$> strip_suffix c rest
  end.

(** [normalized_host]: brackets around an IPv6 literal are dropped. *)
Definition normalized_host (host : string) : string :=
  match host with
  | String a rest =>
      if bool_decide (a = Ascii.ascii_of_nat 91)
      then default host (strip_suffix (Ascii.ascii_of_nat 93) rest) else host
  | EmptyString => host
  end.

(** The scheme, credential and fragment checks. *)
Definition quoted (s : string) : string :=
  String (Ascii.ascii_of_nat 34) s +:+ String (Ascii.ascii_of_nat 34) "".

(** [validate_destination_url]. *)
Definition validate_destination_url `{UrlParser} (raw : string) (allowed_hosts : list string)
    (allow_private_ips allow_http : bool) : result WebhookError Url :=
  url ← map_err InvalidUrl (parse_url raw);
  _ ← ensure (bool_decide (u_scheme url = "https") ||
              (bool_decide (u_scheme url = "http") && allow_http))
        (InvalidUrl ("scheme " +:+ quoted (u_scheme url) +:+ " is not permitted"));
  _ ← ensure (negb (negb (is_empty (u_username url)) || bool_decide (is_Some (u_password url))))
        (InvalidUrl "embedded credentials are not permitted");
  _ ← ensure (negb (bool_decide (is_Some (u_fragment url))))
        (InvalidUrl "URL fragments are not permitted");
  host ← ok_or (u_host_str url) (InvalidUrl "host is required");
  let host := normalized_host host in
  _ ← ensure (bool_decide (allowed_hosts = []) ||
              existsb (λ allowed, eq_ignore_ascii_case allowed host) allowed_hosts)
        (HostNotAllowed host);
  _ ← ensure (allow_private_ips || negb (from_option is_private_or_special false (parse_ip host)))
        (InvalidUrl "private or special destination address is not allowed");
  Ok url.

(** [validate_destination_port]. *)
Definition validate_destination_port (url : Url) (allowed_ports : list Z) : result WebhookError unit :=
  port ← ok_or (u_port_or_known_default url) (InvalidUrl "destination port is required");
  ensure (if bool_decide (allowed_ports = [])
          then (bool_decide (u_scheme url = "https") && (port =? 443))
               || (bool_decide (u_scheme url = "http") && (port =? 80))
          else bool_decide (port ∈ allowed_ports))
    (InvalidUrl ("destination port " +:+ pretty port +:+ " is not permitted")).

(** ** Pinned resolution *)

Definition MAX_RESOLVED_ADDRESSES : nat := 16.

(** The loop over the resolver's answer. *)
Fixpoint collect_addresses (resolved : list (IpAddr * Z)) (addresses : list (IpAddr * Z))
    : result WebhookError (list (IpAddr * Z)) :=
  match resolved with
  | [] => Ok addresses
  | address :: rest =>
    if bool_decide (length addresses = MAX_RESOLVED_ADDRESSES)
    then Err (InvalidUrl "destination resolves to too many addresses")
    else collect_addresses rest
           (if bool_decide (address ∈ addresses) then addresses else addresses ++ [address])
  end.

(** The settings of reqwest's [ClientBuilder] that matter here. *)
Record PinnedClient : Type := {
  pin_host : string;
  pin_addresses : list (IpAddr * Z);
  pin_follows_redirects : bool;
  pin_uses_proxy : bool;
  pin_connect_timeout : option Z;
  pin_timeout : option Z;
}.

(** [Client::builder] as it comes: redirects and the system's proxies are used,
    names are resolved again, and nothing times out; and its methods. *)
Definition ClientBuilder : PinnedClient := {|
  pin_host := ""; pin_addresses := []; pin_follows_redirects := true; pin_uses_proxy := true;
  pin_connect_timeout := None; pin_timeout := None |}.
Definition redirect_none (c : PinnedClient) : PinnedClient := {|
  pin_host := pin_host c; pin_addresses := pin_addresses c; pin_follows_redirects := false;
  pin_uses_proxy := pin_uses_proxy c; pin_connect_timeout := pin_connect_timeout c;
  pin_timeout := pin_timeout c |}.
Definition no_proxy (c : PinnedClient) : PinnedClient := {|
  pin_host := pin_host c; pin_addresses := pin_addresses c;
  pin_follows_redirects := pin_follows_redirects c; pin_uses_proxy := false;
  pin_connect_timeout := pin_connect_timeout c; pin_timeout := pin_timeout c |}.
Definition connect_timeout (timeout : Z) (c : PinnedClient) : PinnedClient := {|
  pin_host := pin_host c; pin_addresses := pin_addresses c;
  pin_follows_redirects := pin_follows_redirects c; pin_uses_proxy := pin_uses_proxy c;
  pin_connect_timeout := Some timeout; pin_timeout := pin_timeout c |}.
Definition request_timeout (timeout : Z) (c : PinnedClient) : PinnedClient := {|
  pin_host := pin_host c; pin_addresses := pin_addresses c;
  pin_follows_redirects := pin_follows_redirects c; pin_uses_proxy := pin_uses_proxy c;
  pin_connect_timeout := pin_connect_timeout c; pin_timeout := Some timeout |}.
Definition resolve_to_addrs (host : string) (addresses : list (IpAddr * Z)) (c : PinnedClient)
    : PinnedClient := {|
  pin_host := host; pin_addresses := addresses; pin_follows_redirects := pin_follows_redirects c;
  pin_uses_proxy := pin_uses_proxy c; pin_connect_timeout := pin_connect_timeout c;
  pin_timeout := pin_timeout c |}.

(** [pinned_client]; [lookup] is the resolver ([None]: resolution failed) and
    [build] the error of [ClientBuilder::build], if any. *)
Definition pinned_client (lookup : string → Z → option (list (IpAddr * Z)))
    (build : PinnedClient → option string) (url : Url) (allow_private_ips : bool) (timeout : Z)
    : result WebhookError PinnedClient :=
  host ← ok_or (u_host_str url) (InvalidUrl "host is required");
  let host := normalized_host host in
  port ← ok_or (u_port_or_known_default url) (InvalidUrl "destination port is required");
  addresses ←
    match parse_ip host with
    | Some address => Ok [(address, port)]
    | None =>
        resolved ← ok_or (lookup host port) (InvalidUrl "destination DNS resolution failed");
        collect_addresses resolved []
    end;
  _ ← ensure (negb (bool_decide (addresses = [])))
        (InvalidUrl "destination resolved to no addresses");
  _ ← ensure (allow_private_ips || negb (existsb (λ a, is_private_or_special a.1) addresses))
        (InvalidUrl "destination DNS includes a private or special address");
  let client := resolve_to_addrs host addresses (request_timeout timeout (connect_timeout timeout
                  (no_proxy (redirect_none ClientBuilder)))) in
  match build client with
  | Some error => Err (ClientError error)
  | None => Ok client
  end.

(** ** The blocked ranges *)

(** The 32-bit value of an IPv4 address, and a prefix of [len] bits. *)
Definition v4_value (a b c d : Z) : Z := ((a * 256 + b) * 256 + c) * 256 + d.
Definition in_cidr (base len value : Z) : bool := value / 2 ^ (32 - len) =? base / 2 ^ (32 - len).

(** The special-purpose IPv4 blocks, in CIDR form. *)
Definition special_v4 : list (Z * Z) :=
  [(v4_value 0 0 0 0, 8); (v4_value 10 0 0 0, 8); (v4_value 100 64 0 0, 10);
   (v4_value 127 0 0 0, 8); (v4_value 169 254 0 0, 16); (v4_value 172 16 0 0, 12);
   (v4_value 192 0 0 0, 24); (v4_value 192 0 2 0, 24); (v4_value 192 88 99 0, 24);
   (v4_value 192 168 0 0, 16); (v4_value 198 18 0 0, 15); (v4_value 198 51 100 0, 24);
   (v4_value 203 0 113 0, 24); (v4_value 224 0 0 0, 4); (v4_value 240 0 0 0, 4)].

(** The special-purpose IPv6 blocks: ranges of the first two segments. *)
Definition special_v6 : list (Z * Z) :=
  [(0x0064ff9b, 0x0064ff9b); (0x20010000, 0x200101ff); (0x20010db8, 0x20010db8);
   (0x20020000, 0x2002ffff); (0x3fff0000, 0x3fff0fff); (0x5f000000, 0x5f00ffff);
   (0xfc000000, 0xfdffffff); (0xfe800000, 0xfebfffff); (0xff000000, 0xffffffff)].

(** Octets and segments. *)
Definition octet (x : Z) : Prop := 0 ≤ x < 256.
Definition segment (x : Z) : Prop := 0 ≤ x < 65536.

(** Masking the low [k] of 16 bits away. *)
Lemma land_top x k :
  0 ≤ k ≤ 16 → segment x → Z.land x (Z.shiftl (Z.ones (16 - k)) k) = x / 2 ^ k * 2 ^ k.
Proof.
  unfold segment. intros Hk Hx. rewrite <-Z.shiftr_div_pow2, <-Z.shiftl_mul_pow2 by lia.
  apply Z.bits_inj'. intros n Hn. rewrite Z.land_spec, !Z.shiftl_spec by done.
  destruct (Z.lt_ge_cases n k).
  { rewrite !(Z.testbit_neg_r _ (n - k)) by lia. by rewrite andb_false_r. }
  rewrite Z.shiftr_spec by lia. replace (n - k + k) with n by lia.
  destruct (Z.lt_ge_cases n 16).
  - rewrite Z.ones_spec_low by lia. by rewrite andb_true_r.
  - rewrite Z.ones_spec_high, andb_false_r by lia. symmetry.
    destruct (decide (x = 0)) as [->|]; [apply Z.testbit_0_l|].
    apply Z.bits_above_log2; [lia|]. assert (Z.log2 x < 16); [|lia]. apply Z.log2_lt_pow2; lia.
Qed.

(** The three masks of the IPv6 check are ranges. *)
Lemma mask_range x k lo :
  0 ≤ k ≤ 16 → segment x → lo mod 2 ^ k = 0 →
  (Z.land x (Z.shiftl (Z.ones (16 - k)) k) =? lo) = in_range lo (lo + 2 ^ k - 1) x.
Proof.
  intros Hk Hx Hlo. rewrite land_top by done. unfold in_range. set (m := 2 ^ k) in *.
  assert (0 < m) by (apply Z.pow_pos_nonneg; lia).
  apply eq_bool_prop_intro. rewrite !Is_true_true, andb_true_iff, !Z.leb_le, Z.eqb_eq.
  pose proof (Z.div_mod x m). pose proof (Z.mod_pos_bound x m). pose proof (Z.div_mod lo m).
  split; [lia|]. intros Hr. rewrite <-(Z.div_unique x m (lo / m) (x - lo)); lia.
Qed.

(** A prefix test on the value is a range test. *)
Lemma in_cidr_range base len value :
  0 ≤ len ≤ 32 → base mod 2 ^ (32 - len) = 0 →
  in_cidr base len value = in_range base (base + 2 ^ (32 - len) - 1) value.
Proof.
  intros Hlen Hbase. unfold in_cidr, in_range. set (m := 2 ^ (32 - len)) in *.
  assert (0 < m) by (apply Z.pow_pos_nonneg; lia).
  apply eq_bool_prop_intro. rewrite !Is_true_true, andb_true_iff, !Z.leb_le, Z.eqb_eq.
  pose proof (Z.div_mod base m). pose proof (Z.div_mod value m).
  pose proof (Z.mod_pos_bound value m). split.
  - intros Heq. rewrite Heq in *. nia.
  - intros Hr. symmetry. apply (Z.div_unique value m _ (value - base)); lia.
Qed.

(** Closed arithmetic facts. *)
Ltac closed_arith := vm_compute; first [reflexivity | discriminate | split; (reflexivity || discriminate)].

Section v4.
Context (a b c d : Z) (Ha : octet a) (Hb : octet b) (Hc : octet c) (Hd : octet d).
Local Abbreviation value := (v4_value a b c d).

(** Blocks whose prefix ends in the first, second or third octet. *)
Lemma block_first p len :
  octet p → 0 ≤ len ≤ 8 → p mod 2 ^ (8 - len) = 0 →
  in_cidr (v4_value p 0 0 0) len value = in_range p (p + 2 ^ (8 - len) - 1) a.
Proof.
  unfold octet in *. intros Hp Hlen Hmod.
  assert (2 ^ (32 - len) = 2 ^ (8 - len) * 2 ^ 24) as E
    by (rewrite <-Z.pow_add_r by lia; f_equal; lia).
  assert (0 < 2 ^ (8 - len)) by (apply Z.pow_pos_nonneg; lia).
  rewrite in_cidr_range; [|lia|].
  - unfold in_range, v4_value. rewrite E. apply eq_bool_prop_intro.
    rewrite !Is_true_true, !andb_true_iff, !Z.leb_le. lia.
  - rewrite E. unfold v4_value. replace (((p * 256 + 0) * 256 + 0) * 256 + 0) with (p * 2 ^ 24) by lia.
    rewrite Z.mul_mod_distr_r by lia. by rewrite Hmod.
Qed.

Lemma block_second p q len :
  octet p → octet q → 8 ≤ len ≤ 16 → q mod 2 ^ (16 - len) = 0 → q + 2 ^ (16 - len) ≤ 256 →
  in_cidr (v4_value p q 0 0) len value = (a =? p) && in_range q (q + 2 ^ (16 - len) - 1) b.
Proof.
  unfold octet in *. intros Hp Hq Hlen Hmod Hle.
  assert (2 ^ (32 - len) = 2 ^ (16 - len) * 2 ^ 16) as E
    by (rewrite <-Z.pow_add_r by lia; f_equal; lia).
  assert (0 < 2 ^ (16 - len)) by (apply Z.pow_pos_nonneg; lia).
  assert ((p * 256 + q) mod 2 ^ (16 - len) = 0) as Hpq.
  { rewrite Z.add_mod, Hmod by lia.
    replace (p * 256) with (p * 2 ^ (len - 8) * 2 ^ (16 - len)).
    - by rewrite Z.mod_mul, Z.mod_0_l by lia.
    - rewrite <-Z.mul_assoc, <-Z.pow_add_r by lia. by replace (len - 8 + (16 - len)) with 8 by lia. }
  rewrite in_cidr_range; [|lia|].
  - unfold in_range, v4_value. rewrite E. apply eq_bool_prop_intro.
    rewrite !Is_true_true, !andb_true_iff, !Z.leb_le, Z.eqb_eq. lia.
  - rewrite E. unfold v4_value.
    replace (((p * 256 + q) * 256 + 0) * 256 + 0) with ((p * 256 + q) * 2 ^ 16) by lia.
    rewrite Z.mul_mod_distr_r by lia. by rewrite Hpq.
Qed.

Lemma block_third p q r :
  octet p → octet q → octet r →
  in_cidr (v4_value p q r 0) 24 value = (a =? p) && (b =? q) && (c =? r).
Proof.
  unfold octet in *. intros Hp Hq Hr. unfold in_cidr, v4_value. change (2 ^ (32 - 24)) with 256.
  rewrite !Z.div_add_l by lia. rewrite !Z.div_small by lia. apply eq_bool_prop_intro.
  rewrite !Is_true_true, !andb_true_iff, !Z.eqb_eq. lia.
Qed.

(** The IPv4 check is the list of blocks. *)
Lemma ipv4_special_blocks :
  ipv4_private_or_special a b c d =
  existsb (λ '(base, len), in_cidr base len value) special_v4.
Proof.
  unfold special_v4. cbn [existsb].
  rewrite (block_first 0 8), (block_first 10 8), (block_first 127 8), (block_first 224 4),
    (block_first 240 4) by closed_arith.
  rewrite (block_second 100 64 10), (block_second 169 254 16), (block_second 172 16 12),
    (block_second 192 168 16), (block_second 198 18 15) by closed_arith.
  rewrite (block_third 192 0 0), (block_third 192 0 2), (block_third 192 88 99),
    (block_third 198 51 100), (block_third 203 0 113) by closed_arith.
  unfold octet in *. unfold ipv4_private_or_special, v4_is_private, v4_is_documentation.
  assert (∀ x k, in_range k (k + 2 ^ 0 - 1) x = (x =? k)) as E1.
  { intros x k. unfold in_range. apply eq_bool_prop_intro.
    rewrite !Is_true_true, !andb_true_iff, !Z.leb_le, Z.eqb_eq. simpl. lia. }
  change (8 - 8) with 0. change (16 - 16) with 0. rewrite !E1.
  change (64 + 2 ^ (16 - 10) - 1) with 127. change (16 + 2 ^ (16 - 12) - 1) with 31.
  change (18 + 2 ^ (16 - 15) - 1) with 19. change (224 + 2 ^ (8 - 4) - 1) with 239.
  change (240 + 2 ^ (8 - 4) - 1) with 255.
  assert ((240 <=? a) = in_range 240 255 a) as ->.
  { unfold in_range. apply eq_bool_prop_intro.
    rewrite !Is_true_true, !andb_true_iff, !Z.leb_le. lia. }
  assert ((a =? 255) && (b =? 255) && (c =? 255) && (d =? 255) = true →
    in_range 240 255 a = true) as Hbc.
  { unfold in_range. rewrite !andb_true_iff, !Z.eqb_eq, !Z.leb_le. lia. }
  assert ((a =? 0) && (b =? 0) && (c =? 0) && (d =? 0) = true → (a =? 0) = true) as Hun.
  { rewrite !andb_true_iff. tauto. }
  apply eq_bool_prop_intro. rewrite !Is_true_true. rewrite !orb_true_iff.
  assert (false ≠ true) by done. tauto.
Qed.
End v4.

(** The IPv6 check on eight segments: the blocks by their first two segments,
    the discard prefix, the loopback and unspecified addresses, and the
    addresses that map a special IPv4 address. *)
Lemma ipv6_special_blocks s0 s1 s2 s3 s4 s5 s6 s7 :
  segment s0 → segment s1 →
  ipv6_private_or_special [s0; s1; s2; s3; s4; s5; s6; s7] =
  existsb (λ '(lo, hi), in_range lo hi (s0 * 65536 + s1)) special_v6
  || ((s0 =? 0x0100) && (s1 =? 0) && (s2 =? 0) && (s3 =? 0))
  || bool_decide ([s0; s1; s2; s3; s4; s5; s6; s7] = [0; 0; 0; 0; 0; 0; 0; 1])
  || bool_decide ([s0; s1; s2; s3; s4; s5; s6; s7] = [0; 0; 0; 0; 0; 0; 0; 0])
  || match to_ipv4_mapped [s0; s1; s2; s3; s4; s5; s6; s7] with
     | Some (a, b, c, d) => ipv4_private_or_special a b c d
     | None => false
     end.
Proof.
  intros H0 H1. unfold ipv6_private_or_special.
  change 0xff00 with (Z.shiftl (Z.ones (16 - 8)) 8) at 1.
  change 0xfe00 with (Z.shiftl (Z.ones (16 - 9)) 9).
  change 0xffc0 with (Z.shiftl (Z.ones (16 - 6)) 6).
  rewrite !mask_range by (done || closed_arith).
  set (mapped := match to_ipv4_mapped _ with Some _ => _ | None => false end).
  generalize mapped. clear mapped. intros mapped.
  set (one := bool_decide (_ = [0; 0; 0; 0; 0; 0; 0; 1])).
  set (zero := bool_decide (_ = [0; 0; 0; 0; 0; 0; 0; 0])).
  set (discard := (s0 =? 0x0100) && _ && _ && _).
  unfold special_v6. cbn [existsb].
  assert (∀ lo hi l h, lo = l * 65536 → hi = h * 65536 + 65535 →
    in_range lo hi (s0 * 65536 + s1) = in_range l h s0) as Efull.
  { intros lo hi l h -> ->. unfold in_range, segment in *. apply eq_bool_prop_intro.
    rewrite !Is_true_true, !andb_true_iff, !Z.leb_le. lia. }
  assert (∀ k lo hi l h, lo = k * 65536 + l → hi = k * 65536 + h → segment l → segment h →
    in_range lo hi (s0 * 65536 + s1) = (s0 =? k) && in_range l h s1) as Epart.
  { intros k lo hi l h -> -> Hl Hh. unfold in_range, segment in *. apply eq_bool_prop_intro.
    rewrite !Is_true_true, !andb_true_iff, !Z.leb_le, Z.eqb_eq. lia. }
  rewrite (Epart 0x64 0x0064ff9b 0x0064ff9b 0xff9b 0xff9b) by closed_arith.
  rewrite (Epart 0x2001 0x20010000 0x200101ff 0 0x1ff) by closed_arith.
  rewrite (Epart 0x2001 0x20010db8 0x20010db8 0xdb8 0xdb8) by closed_arith.
  rewrite (Epart 0x3fff 0x3fff0000 0x3fff0fff 0 0xfff) by closed_arith.
  rewrite (Efull 0x20020000 0x2002ffff 0x2002 0x2002) by closed_arith.
  rewrite (Efull 0x5f000000 0x5f00ffff 0x5f00 0x5f00) by closed_arith.
  rewrite (Efull 0xfc000000 0xfdffffff 0xfc00 0xfdff) by closed_arith.
  rewrite (Efull 0xfe800000 0xfebfffff 0xfe80 0xfebf) by closed_arith.
  rewrite (Efull 0xff000000 0xffffffff 0xff00 0xffff) by closed_arith.
  assert (∀ x k, in_range k k x = (x =? k)) as E1.
  { intros x k. unfold in_range. apply eq_bool_prop_intro.
    rewrite !Is_true_true, !andb_true_iff, !Z.leb_le, Z.eqb_eq. lia. }
  assert (∀ h, (s1 <? h + 1) = in_range 0 h s1) as E2.
  { intros h. unfold in_range, segment in *. apply eq_bool_prop_intro.
    rewrite !Is_true_true, !andb_true_iff, !Z.leb_le, Z.ltb_lt. lia. }
  rewrite !E1. change 0x0200 with (0x1ff + 1). change 0x1000 with (0xfff + 1). rewrite !E2.
  change (0xff00 + 2 ^ 8 - 1) with 0xffff. change (0xfc00 + 2 ^ 9 - 1) with 0xfdff.
  change (0xfe80 + 2 ^ 6 - 1) with 0xfebf.
  apply eq_bool_prop_intro. rewrite !Is_true_true, !orb_true_iff.
  assert (false ≠ true) by done. tauto.
Qed.

(** ** Parsed addresses are well formed *)

Definition ip_ok (address : IpAddr) : Prop :=
  match address with
  | V4 a b c d => octet a ∧ octet b ∧ octet c ∧ octet d
  | V6 segments => length segments = 8%nat ∧ Forall segment segments
  end.

Lemma digit_range radix c v : digit radix c = Some v → 0 ≤ v.
Proof.
  unfold digit, in_range. intros Hd. apply bind_Some in Hd as (v' & Hv & Hr).
  assert (0 ≤ v') as Hv'.
  { repeat case_match; simplify_eq;
      repeat match goal with H : _ && _ = true |- _ => apply andb_true_iff in H as [?%Z.leb_le ?%Z.leb_le] end;
      lia. }
  by destruct (v' <? radix); simplify_eq.
Qed.

Lemma digits_nonneg radix s vs rest : digits radix s = (vs, rest) → Forall (λ v, 0 ≤ v) vs.
Proof.
  revert vs rest. induction s as [|c s IH]; simpl; intros vs rest; [intros [= <- <-]; constructor|].
  destruct (digit radix c) as [v|] eqn:Ed; [|intros [= <- <-]; constructor].
  destruct (digits radix s) as [vs' rest'] eqn:E. intros [= <- <-].
  constructor; [by eapply digit_range|by eapply IH].
Qed.

Lemma fold_digits_nonneg radix vs acc :
  0 ≤ radix → 0 ≤ acc → Forall (λ v, 0 ≤ v) vs → 0 ≤ foldl (λ acc v, acc * radix + v) acc vs.
Proof.
  intros Hr Hacc Hvs. revert acc Hacc. induction Hvs as [|v vs Hv Hvs IH]; simpl; intros acc Hacc; [done|].
  apply IH. nia.
Qed.

Lemma read_number_range radix n z limit s v rest :
  0 ≤ radix → read_number radix n z limit s = Some (v, rest) → 0 ≤ v ≤ limit.
Proof.
  intros Hr. unfold read_number. destruct (digits radix s) as [vs rest'] eqn:E.
  destruct (_ || _) eqn:Ec; [done|]. intros [= <- <-].
  apply orb_false_iff in Ec as [[_ Hl%Z.ltb_ge]%orb_false_iff _]. split; [|done].
  apply fold_digits_nonneg; [done..|]. by eapply digits_nonneg.
Qed.

Lemma read_separator_Some {A} sep i (inner : Parser A) s a rest :
  read_separator sep i inner s = Some (a, rest) → ∃ s', inner s' = Some (a, rest).
Proof.
  unfold read_separator. case_bool_decide; [eauto|].
  intros ([[] s'] & _ & Hs)%bind_Some. eauto.
Qed.

Lemma read_octet_range i s v rest : read_octet i s = Some (v, rest) → octet v.
Proof.
  intros (s' & Hs)%read_separator_Some. apply read_number_range in Hs; unfold octet; lia.
Qed.

Lemma read_ipv4_ok s a b c d rest :
  read_ipv4_addr s = Some (a, b, c, d, rest) → octet a ∧ octet b ∧ octet c ∧ octet d.
Proof.
  unfold read_ipv4_addr. intros ([a' s1] & Ha & H1)%bind_Some.
  apply bind_Some in H1 as ([b' s2] & Hb & H2). apply bind_Some in H2 as ([c' s3] & Hc & H3).
  apply bind_Some in H3 as ([d' s4] & Hd & H4). simplify_eq.
  split_and!; by eapply read_octet_range.
Qed.

Lemma read_groups_ok fuel i limit s gs v4 rest :
  read_groups fuel i limit s = (gs, v4, rest) → (i ≤ limit)%nat →
  (i + length gs ≤ limit)%nat ∧ Forall segment gs.
Proof.
  revert i s gs v4 rest. induction fuel as [|fuel IH]; simpl; intros i s gs v4 rest.
  { intros [= <- <- <-] ?. split; [simpl; lia|constructor]. }
  destruct (Nat.leb_spec limit i).
  { intros [= <- <- <-] ?. split; [simpl; lia|constructor]. }
  destruct (if (i <? limit - 1)%nat then _ else None) as [[[[[a b] c] d] rest']|] eqn:E4.
  - intros [= <- <- <-] _. destruct (Nat.ltb_spec i (limit - 1)); [|done].
    apply read_separator_Some in E4 as (s' & (Ha & Hb & Hc & Hd)%read_ipv4_ok).
    unfold octet, segment in *. split; [simpl; lia|]. repeat constructor; lia.
  - clear E4. destruct (read_separator ch_colon i (read_number 16 4 true 65535) s)
      as [[g rest']|] eqn:Eg.
    2: { intros [= <- <- <-] ?. split; [simpl; lia|constructor]. }
    destruct (read_groups fuel (i + 1) limit rest') as [[gs' v4'] rest''] eqn:Er.
    intros [= <- <- <-] _. destruct (IH _ _ _ _ _ Er) as [Hl Hf]; [lia|].
    apply read_separator_Some in Eg as (s' & Hg%read_number_range); [|lia].
    split; [simpl; lia|]. constructor; [unfold segment; lia|done].
Qed.

Lemma parse_ip_ok s address : parse_ip s = Some address → ip_ok address.
Proof.
  unfold parse_ip. destruct (read_ipv4_addr s) as [[[[[a b] c] d] []]|] eqn:E4.
  1: { intros [= <-]. by eapply read_ipv4_ok. }
  all: destruct (read_ipv6_addr s) as [[segments []]|] eqn:E6; intros [= <-];
    unfold read_ipv6_addr in E6; destruct (read_groups 8 0 8 s) as [[head v4] s1] eqn:Eh;
    (destruct (read_groups_ok _ _ _ _ _ _ _ Eh) as [Hlh Hfh]; [lia|]);
    destruct (Nat.eqb_spec (length head) 8); [by simplify_eq|];
    destruct v4; [done|];
    apply bind_Some in E6 as ([[] s2] & _ & E6); apply bind_Some in E6 as ([[] s3] & _ & E6);
    destruct (read_groups 7 0 (8 - (length head + 1)) s3) as [[tail v4'] s4] eqn:Et;
    (destruct (read_groups_ok _ _ _ _ _ _ _ Et) as [Hlt Hft]; [lia|]); simplify_eq; simpl;
    rewrite !length_app, length_replicate; (split; [lia|]);
    rewrite !Forall_app; (split_and!; [done| |done]); apply Forall_replicate; unfold segment; lia.
Qed.

(** ** The checks *)

(** The addresses a webhook must not reach: the special-purpose blocks. *)
Definition special_address (address : IpAddr) : bool :=
  match address with
  | V4 a b c d => existsb (λ '(base, len), in_cidr base len (v4_value a b c d)) special_v4
  | V6 segments =>
    let '(s0, s1, s2, s3) := (default 0 (segments !! 0%nat), default 0 (segments !! 1%nat),
                              default 0 (segments !! 2%nat), default 0 (segments !! 3%nat)) in
    existsb (λ '(lo, hi), in_range lo hi (s0 * 65536 + s1)) special_v6
    || ((s0 =? 0x0100) && (s1 =? 0) && (s2 =? 0) && (s3 =? 0))
    || bool_decide (segments = [0; 0; 0; 0; 0; 0; 0; 1])
    || bool_decide (segments = [0; 0; 0; 0; 0; 0; 0; 0])
    || match to_ipv4_mapped segments with
       | Some (a, b, c, d) =>
           existsb (λ '(base, len), in_cidr base len (v4_value a b c d)) special_v4
       | None => false
       end
  end.

Lemma to_ipv4_mapped_octets segments a b c d :
  Forall segment segments → to_ipv4_mapped segments = Some (a, b, c, d) →
  octet a ∧ octet b ∧ octet c ∧ octet d.
Proof.
  intros Hs Hm. unfold to_ipv4_mapped in Hm. repeat case_match; simplify_eq.
  repeat match goal with H : Forall _ (_ :: _) |- _ => apply Forall_cons in H as [? H] end.
  unfold octet, segment in *.
  split_and!; try apply Z.mod_pos_bound; try lia;
    [apply Z.div_pos; lia|apply Z.div_lt_upper_bound; lia
    |apply Z.div_pos; lia|apply Z.div_lt_upper_bound; lia].
Qed.

(** (C40) The private-address check is exactly the list of special-purpose
    blocks, for every address a host name can spell: loopback, private,
    link-local, shared, documentation, benchmarking, multicast, reserved and
    unspecified ranges, unique-local and translation prefixes of IPv6, and
    IPv4 addresses mapped into IPv6. *)
Theorem private_check_is_block_list (host : string) (address : IpAddr)
    (Hparse : parse_ip host = Some address) :
  is_private_or_special address = special_address address.
Proof.
  apply parse_ip_ok in Hparse. destruct address as [a b c d|segments]; simpl in *.
  - destruct Hparse as (?&?&?&?). by apply ipv4_special_blocks.
  - destruct Hparse as [Hlen Hs].
    destruct segments as [|s0 [|s1 [|s2 [|s3 [|s4 [|s5 [|s6 [|s7 [|]]]]]]]]]; try done.
    pose proof Hs as [H0 [H1 _]%Forall_cons]%Forall_cons.
    rewrite ipv6_special_blocks by done. cbn [lookup list_lookup default]. f_equal.
    destruct (to_ipv4_mapped _) as [[[[a b] c] d]|] eqn:E; [|done].
    destruct (to_ipv4_mapped_octets _ _ _ _ _ Hs E) as (?&?&?&?).
    by apply ipv4_special_blocks.
Qed.

Lemma collect_addresses_spec resolved addresses result :
  collect_addresses resolved addresses = Ok result →
  NoDup addresses → (length addresses ≤ MAX_RESOLVED_ADDRESSES)%nat →
  NoDup result ∧ (length result ≤ MAX_RESOLVED_ADDRESSES)%nat ∧
  ∀ a, a ∈ result ↔ a ∈ addresses ∨ a ∈ resolved.
Proof.
  revert addresses. induction resolved as [|x resolved IH]; simpl; intros addresses Hr Hnd Hlen.
  { simplify_eq. split_and!; [done..|]. set_solver. }
  case_bool_decide as Hmax; [done|]. unfold MAX_RESOLVED_ADDRESSES in *. apply IH in Hr.
  - destruct Hr as (? & ? & Hin). split_and!; [done..|]. intros a. rewrite Hin.
    case_bool_decide; set_solver.
  - case_bool_decide as Hx; [done|]. apply NoDup_app. split_and!; [done| |apply NoDup_singleton].
    set_solver.
  - case_bool_decide; rewrite ?length_app; simpl; lia.
Qed.

(** (C21) Egress is confined: a request only leaves for a destination whose
    URL is HTTPS (or HTTP when allowed), carries no credentials or fragment,
    names an allowed host and an allowed port; it connects to between one and
    sixteen distinct addresses, the literal one or those the resolver gave
    for that host and port; unless private addresses are allowed, none of
    them is in a special-purpose block; and it follows no redirect, uses no
    proxy, and connecting and the whole exchange are limited in time. *)
Theorem egress_confined `{UrlParser} (lookup : string → Z → option (list (IpAddr * Z)))
    (build : PinnedClient → option string) (timeout : Z) (raw : string) (hosts : list string) (ports : list Z) (allow_private allow_http : bool)
    (url : Url) (client : PinnedClient)
    (Hurl : validate_destination_url raw hosts allow_private allow_http = Ok url)
    (Hport : validate_destination_port url ports = Ok tt)
    (Hpin : pinned_client lookup build url allow_private timeout = Ok client) :
  (u_scheme url = "https" ∨ u_scheme url = "http" ∧ allow_http = true) ∧
  u_username url = "" ∧ u_password url = None ∧ u_fragment url = None ∧
  (∃ host, u_host_str url = Some host ∧ pin_host client = normalized_host host) ∧
  (hosts = [] ∨ ∃ allowed, allowed ∈ hosts ∧ eq_ignore_ascii_case allowed (pin_host client) = true) ∧
  (∃ port, u_port_or_known_default url = Some port ∧
     (ports = [] ∧ (u_scheme url = "https" ∧ port = 443 ∨ u_scheme url = "http" ∧ port = 80)
      ∨ port ∈ ports) ∧
     ((∃ address, parse_ip (pin_host client) = Some address ∧ pin_addresses client = [(address, port)])
      ∨ ∃ resolved, lookup (pin_host client) port = Some resolved ∧
          ∀ a, a ∈ pin_addresses client ↔ a ∈ resolved)) ∧
  (1 ≤ length (pin_addresses client) ≤ 16)%nat ∧ NoDup (pin_addresses client) ∧
  (allow_private = false → ∀ a, a ∈ pin_addresses client → is_private_or_special a.1 = false) ∧
  pin_follows_redirects client = false ∧ pin_uses_proxy client = false ∧
  pin_connect_timeout client = Some timeout ∧ pin_timeout client = Some timeout.
Proof.
  unfold validate_destination_url in Hurl. bind_step Hurl as u, _.
  guard_step Hurl as Hscheme. guard_step Hurl as Hcred. guard_step Hurl as Hfrag.
  bind_step Hurl as host, Hhost%ok_or_Ok.
  guard_step Hurl as Hallow.
  bind_step Hurl as [], _. injection Hurl as ->.
  unfold validate_destination_port in Hport.
  apply bind_Ok in Hport as (port & Hp%ok_or_Ok & Hperm%ensure_Ok).
  unfold pinned_client in Hpin. rewrite Hhost, Hp in Hpin. simpl in Hpin.
  bind_step Hpin as addresses, Haddr.
  guard_step Hpin as Hne.
  guard_step Hpin as Hpriv. cbv zeta in Hpin. destruct (build _); [done|]. injection Hpin as <-. simpl.
  apply orb_true_iff in Hscheme. rewrite andb_true_iff, !bool_decide_eq_true in Hscheme.
  apply orb_false_iff in Hcred as [Huser%negb_false_iff Hpw%bool_decide_eq_false].
  unfold is_empty in Huser. apply bool_decide_eq_true in Huser.
  apply eq_None_not_Some in Hfrag. apply eq_None_not_Some in Hpw.
  apply orb_true_iff in Hallow. rewrite bool_decide_eq_true, existsb_exists in Hallow.
  assert (NoDup addresses ∧ (length addresses ≤ 16)%nat ∧
    ((∃ address, parse_ip (normalized_host host) = Some address ∧ addresses = [(address, port)])
      ∨ ∃ resolved, lookup (normalized_host host) port = Some resolved ∧
          ∀ a, a ∈ addresses ↔ a ∈ resolved)) as (Hnd & Hlen & Hsrc).
  { destruct (parse_ip (normalized_host host)) as [address|].
    - injection Haddr as <-. split_and!; [apply NoDup_singleton|simpl; lia|eauto].
    - apply bind_Ok in Haddr as (resolved & Hl%ok_or_Ok & Hcol).
      destruct (collect_addresses_spec _ _ _ Hcol) as (? & ? & Hin); [constructor|simpl; lia|].
      split_and!; [done..|]. right. exists resolved. split; [done|]. intros a. rewrite Hin. set_solver. }
  split_and!; try done.
  - by exists host.
  - destruct Hallow as [?|(x & Hx & ?)]; [by left|right]. exists x. by rewrite list_elem_of_In.
  - exists port. split_and!; [done| |done]. case_bool_decide as Hports.
    + left. split; [done|]. apply orb_true_iff in Hperm.
      rewrite !andb_true_iff, !bool_decide_eq_true, !Z.eqb_eq in Hperm. done.
    + right. by apply bool_decide_eq_true in Hperm.
  - destruct addresses; [done|simpl; lia].
  - intros -> a Ha. simpl in Hpriv. apply negb_true_iff in Hpriv.
    destruct (is_private_or_special a.1) eqn:E; [|done].
    assert (existsb (λ a, is_private_or_special a.1) addresses = true); [|congruence].
    apply existsb_exists. exists a. by rewrite <-list_elem_of_In.
Qed.

(** ** Concrete inputs *)

Definition example_url : Url := {|
  u_text := "https://hooks.example.com/in"; u_scheme := "https"; u_username := "";
  u_password := None; u_fragment := None; u_host_str := Some "hooks.example.com";
  u_port_or_known_default := Some 443 |}.

Definition example_url_parser : UrlParser := λ s,
  if bool_decide (s = u_text example_url) then Ok example_url else Err "unknown".

Example loopback_spellings :
  (λ s, from_option is_private_or_special false (parse_ip s)) <$>
    ["127.0.0.1"; "::1"; "::ffff:127.0.0.1"; "10.1.2.3"; "169.254.169.254"; "fd00::1"; "fe80::1";
     "8.8.8.8"; "2606:4700::1111"]
  = [true; true; true; true; true; true; true; false; false].
Proof. vm_compute. reflexivity. Qed.

Lemma private_check_is_block_list_witness :
  is_private_or_special (V4 169 254 169 254) = special_address (V4 169 254 169 254).
Proof.
  apply (private_check_is_block_list "169.254.169.254" (V4 169 254 169 254)).
  vm_compute. reflexivity.
Defined.

Lemma egress_confined_witness :
  is_private_or_special (V4 93 184 216 34) = false.
Proof.
  destruct (@egress_confined example_url_parser (λ _ _, Some [(V4 93 184 216 34, 443)])
    (λ _, None) 5 "https://hooks.example.com/in" ["hooks.example.com"] [] false false example_url
    {| pin_host := "hooks.example.com"; pin_addresses := [(V4 93 184 216 34, 443)];
       pin_follows_redirects := false; pin_uses_proxy := false;
       pin_connect_timeout := Some 5; pin_timeout := Some 5 |})
    as (_ & _ & _ & _ & _ & _ & _ & _ & _ & H & _); [vm_compute; reflexivity..|].
  apply (H eq_refl (V4 93 184 216 34, 443)). left.
Defined.
