(* ===== verification/Wire.v ===== *)
(** * The JSON envelope

    router-core's [wire.rs]: the JSON form of a delivery shared by WebSocket,
    SSE and webhook writers, and router-api's protobuf form of it.  JSON values
    are data; the JSON parser and printer and the base64 codec are library
    code and parameters. *)

From S2P Require Import Prelude Str Ids Message Router.
#[local] Set Warnings "-register-all".
Open Scope Z_scope.

(** [serde_json::Value], with the fields of an object in the order they are
    written. *)
Inductive Json : Type :=
| JNull
| JBool (b : bool)
| JNum (n : Z)
| JStr (s : string)
| JArr (l : list Json)
| JObj (fields : list (string * Json)).

(** The [serde_json] entry points: [from_slice] and [to_vec]. *)
Class JsonCodec := {
  json_parse : string → option Json;
  json_print : Json → string;
}.

(** The [base64] crate's standard engine, and what is relied upon of it. *)
Class Base64 := {
  b64_encode : string → string;
  b64_decode : string → result string string;
}.
Class Base64Laws `{Base64} := b64_decode_encode s : b64_decode (b64_encode s) = Ok s.

(** The [content_type.split(';').next()] test of [payload_as_json]. *)
Definition is_json_content (content_type : string) : bool :=
  eq_ignore_ascii_case (trim (split_first (Ascii.ascii_of_nat 59) content_type)) "application/json".

(** [payload_as_json]; the cache holds the value of the first call. *)
Definition payload_as_json `{JsonCodec, Base64} (m : RoutedMessage) : Json :=
  if is_json_content (md_content_type (rm_metadata m)) then
    match json_parse (rm_payload m) with
    | Some value => value
    | None => JObj [("encoding", JStr "base64"); ("data", JStr (b64_encode (rm_payload m)));
                    ("invalid_json", JBool true)]
    end
  else JObj [("encoding", JStr "base64"); ("data", JStr (b64_encode (rm_payload m)))].

(** [skip_serializing_if = "Option::is_none"]. *)
Definition optional_field (name : string) (value : option Json) : list (string * Json) :=
  match value with Some v => [(name, v)] | None => [] end.

(** [Serialize] of [KafkaPosition] and [RoutingMetadata]. *)
Definition position_json (p : KafkaPosition) : Json :=
  JObj [("topic", JStr (kp_topic p)); ("partition", JNum (kp_partition p));
        ("offset", JNum (kp_offset p))].

Definition metadata_fields (m : RoutingMetadata) : list (string * Json) :=
  [("message_id", JStr (md_message_id m)); ("tenant_id", JStr (md_tenant_id m))] ++
  optional_field "kind" (JStr <$> md_kind m) ++
  optional_field "type" (JStr <$> md_message_type m) ++
  optional_field "channel" (JStr <$> md_channel m) ++
  optional_field "actor_id" (JStr <$> md_actor_id m) ++
  optional_field "recipient_type" (JStr <$> md_recipient_type m) ++
  optional_field "recipient_identity" (JStr <$> md_recipient_identity m) ++
  [("content_type", JStr (md_content_type m))] ++
  optional_field "timestamp_ms" (JNum <$> md_timestamp_ms m) ++
  optional_field "source" (position_json <$> md_source m).

(** The [json!] value of [encode_delivery_json], and its encoding. *)
Definition delivery_json `{JsonCodec, Base64} (d : Delivery) : Json :=
  JObj [("operation", JStr "message");
        ("subscription_ids", JArr (JStr <$> d_subscription_ids d));
        ("message", JObj [("metadata", JObj (metadata_fields (rm_metadata (d_message d))));
                          ("payload", payload_as_json (d_message d))])].

Definition encode_delivery_json `{JsonCodec, Base64} (d : Delivery) : string :=
  json_print (delivery_json d).

(** ** Reading an envelope back *)

Fixpoint field (name : string) (fields : list (string * Json)) : option Json :=
  match fields with
  | [] => None
  | (k, v) :: rest => if bool_decide (k = name) then Some v else field name rest
  end.

(** A member of an object, and the member under a path of names
    ([Value::pointer]). *)
Definition get (name : string) (v : Json) : option Json :=
  match v with JObj fields => field name fields | _ => None end.
Definition at_path (path : list string) (v : Json) : option Json :=
  foldl (λ v name, v ≫= get name) (Some v) path.

Lemma field_app name a b :
  field name (a ++ b) = match field name a with Some v => Some v | None => field name b end.
Proof. induction a as [|[k v] a IH]; simpl; [done|]. by case_bool_decide. Qed.

Lemma field_optional name k v :
  field name (optional_field k v) = if bool_decide (k = name) then v else None.
Proof. destruct v; simpl; by case_bool_decide. Qed.

(** Evaluates the comparisons of literal field names. *)
Ltac eval_field_names := repeat match goal with
  | |- context [bool_decide (?a =@{string} ?b)] =>
      let r := eval vm_compute in (bool_decide (a = b)) in change (bool_decide (a = b)) with r
  end.

Ltac read_field := unfold metadata_fields; rewrite !field_app, !field_optional; simpl field;
  eval_field_names; simpl; repeat case_match; done.

Section fields.
Context (m : RoutingMetadata).
Lemma field_message_id : field "message_id" (metadata_fields m) = Some (JStr (md_message_id m)).
Proof. done. Qed.
Lemma field_tenant_id : field "tenant_id" (metadata_fields m) = Some (JStr (md_tenant_id m)).
Proof. done. Qed.
Lemma field_kind : field "kind" (metadata_fields m) = JStr <$> md_kind m.
Proof. read_field. Qed.
Lemma field_type : field "type" (metadata_fields m) = JStr <$> md_message_type m.
Proof. read_field. Qed.
Lemma field_channel : field "channel" (metadata_fields m) = JStr <$> md_channel m.
Proof. read_field. Qed.
Lemma field_actor_id : field "actor_id" (metadata_fields m) = JStr <$> md_actor_id m.
Proof. read_field. Qed.
Lemma field_recipient_type :
  field "recipient_type" (metadata_fields m) = JStr <$> md_recipient_type m.
Proof. read_field. Qed.
Lemma field_recipient_identity :
  field "recipient_identity" (metadata_fields m) = JStr <$> md_recipient_identity m.
Proof. read_field. Qed.
Lemma field_content_type :
  field "content_type" (metadata_fields m) = Some (JStr (md_content_type m)).
Proof. read_field. Qed.
Lemma field_timestamp : field "timestamp_ms" (metadata_fields m) = JNum <$> md_timestamp_ms m.
Proof. read_field. Qed.
Lemma field_source : field "source" (metadata_fields m) = position_json <$> md_source m.
Proof. read_field. Qed.
End fields.

#[local] Instance JStr_inj : Inj (=) (=) JStr.
Proof. by intros ? ? [=]. Qed.
#[local] Instance JNum_inj : Inj (=) (=) JNum.
Proof. by intros ? ? [=]. Qed.
#[local] Instance position_json_inj : Inj (=) (=) position_json.
Proof. by intros [] [] [= -> -> ->]. Qed.

(** The serialized metadata determines the metadata. *)
Lemma metadata_fields_inj m1 m2 : metadata_fields m1 = metadata_fields m2 → m1 = m2.
Proof.
  intros Heq. assert (∀ k, field k (metadata_fields m1) = field k (metadata_fields m2)) as Hf
    by (intros; by rewrite Heq). clear Heq.
  pose proof (Hf "message_id") as H1. rewrite !field_message_id in H1.
  pose proof (Hf "tenant_id") as H2. rewrite !field_tenant_id in H2.
  pose proof (Hf "kind") as H3. rewrite !field_kind in H3.
  pose proof (Hf "type") as H4. rewrite !field_type in H4.
  pose proof (Hf "channel") as H5. rewrite !field_channel in H5.
  pose proof (Hf "actor_id") as H6. rewrite !field_actor_id in H6.
  pose proof (Hf "recipient_type") as H7. rewrite !field_recipient_type in H7.
  pose proof (Hf "recipient_identity") as H8. rewrite !field_recipient_identity in H8.
  pose proof (Hf "content_type") as H9. rewrite !field_content_type in H9.
  pose proof (Hf "timestamp_ms") as H10. rewrite !field_timestamp in H10.
  pose proof (Hf "source") as H11. rewrite !field_source in H11.
  apply (inj (fmap JStr)) in H3, H4, H5, H6, H7, H8. apply (inj (fmap JNum)) in H10.
  apply (inj (fmap position_json)) in H11. injection H1 as H1. injection H2 as H2.
  injection H9 as H9. destruct m1, m2; simpl in *. congruence.
Qed.

(** The envelope loses nothing: two deliveries with the same JSON carry
    the same subscription ids and the same metadata; if their content is not
    JSON, the same payload bytes; and if it is, payloads that parse have the
    same value. *)
Lemma delivery_json_lossless `{JsonCodec, Base64Laws} (d1 d2 : Delivery)
    (Heq : delivery_json d1 = delivery_json d2) :
  d_subscription_ids d1 = d_subscription_ids d2 ∧
  rm_metadata (d_message d1) = rm_metadata (d_message d2) ∧
  (is_json_content (md_content_type (rm_metadata (d_message d1))) = false →
     rm_payload (d_message d1) = rm_payload (d_message d2)) ∧
  (is_json_content (md_content_type (rm_metadata (d_message d1))) = true →
     ∀ v1 v2, json_parse (rm_payload (d_message d1)) = Some v1 →
       json_parse (rm_payload (d_message d2)) = Some v2 → v1 = v2).
Proof.
  unfold delivery_json in Heq.
  destruct (metadata_fields (rm_metadata (d_message d1))) as [|f1 r1] eqn:E1; [done|].
  destruct (metadata_fields (rm_metadata (d_message d2))) as [|f2 r2] eqn:E2; [done|].
  remember (payload_as_json (d_message d1)) as p1 eqn:P1.
  remember (payload_as_json (d_message d2)) as p2 eqn:P2.
  injection Heq as Hids -> -> Hpay. apply (inj (fmap JStr)) in Hids.
  assert (rm_metadata (d_message d1) = rm_metadata (d_message d2)) as Hmd
    by (apply metadata_fields_inj; congruence).
  subst p1 p2. clear E1 E2.
  unfold payload_as_json in Hpay. rewrite <-Hmd in Hpay.
  split_and!; [done..| |].
  - intros Hj. rewrite Hj in Hpay. injection Hpay as Hb.
    pose proof (b64_decode_encode (rm_payload (d_message d1))) as E1.
    pose proof (b64_decode_encode (rm_payload (d_message d2))) as E2. congruence.
  - intros Hj v1 v2 Hv1 Hv2. by rewrite Hj, Hv1, Hv2 in Hpay.
Qed.

(** ** Concrete codec *)

(** Codecs that satisfy the laws, enough for the examples: base64 is the
    identity behind a marker, JSON only knows [null]. *)
#[export] Instance example_base64 : Base64 :=
  { b64_encode s := String (Ascii.ascii_of_nat 66) s;
    b64_decode s := match s with String _ s' => Ok s' | EmptyString => Err "no marker" end }.
#[export] Instance example_base64_laws : Base64Laws.
Proof. done. Qed.
#[local] Instance example_json : JsonCodec :=
  { json_parse s := if bool_decide (s = "null") then Some JNull else None;
    json_print _ := "null" }.

