(* ===== verification/Auth.v ===== *)
(** * Authentication

    router-api's [error.rs] and [auth.rs]: the failures of the public API with
    their HTTP and gRPC codes, the modes of authentication, the principal they
    establish and the reload of the signing keys.  The JWT library, the key
    set file and the header maps are outside: what the code asks of them is a
    parameter. *)

From S2P Require Import Prelude Str Ids Message Wire.
Open Scope Z_scope.

(** ** Failures *)

(** [ApiError]. *)
Inductive ApiError : Type :=
| Unauthorized
| Forbidden
| BadRequest (message : string)
| RateLimited
| PublisherUnavailable
| PublisherTimeout
| PublisherQueueFull
| BackendError (message : string).

(** [Display]. *)
Definition ApiError_to_string (e : ApiError) : string :=
  match e with
  | Unauthorized => "authentication required"
  | Forbidden => "tenant is not authorized"
  | BadRequest message => message
  | RateLimited => "rate limit exceeded"
  | PublisherUnavailable => "publishing is not configured"
  | PublisherTimeout => "publish acknowledgement timed out"
  | PublisherQueueFull => "publisher queue is full"
  | BackendError message => message
  end.

(** The codes of [tonic::Status] that are used, and a status. *)
Inductive GrpcCode : Type :=
| Unauthenticated | PermissionDenied | InvalidArgument | ResourceExhausted | FailedPrecondition
| DeadlineExceeded | Internal.
Record Status : Type := { gs_code : GrpcCode; gs_message : string }.

Definition invalid_argument (message : string) : Status :=
  {| gs_code := InvalidArgument; gs_message := message |}.

(** [ApiError::into_status]. *)
Definition into_status (e : ApiError) : Status :=
  let message := ApiError_to_string e in
  let code := match e with
    | Unauthorized => Unauthenticated
    | Forbidden => PermissionDenied
    | BadRequest _ => InvalidArgument
    | RateLimited | PublisherQueueFull => ResourceExhausted
    | PublisherUnavailable => FailedPrecondition
    | PublisherTimeout => DeadlineExceeded
    | BackendError _ => Internal
    end in
  {| gs_code := code; gs_message := message |}.

(** [ApiError::status_code]. *)
Definition status_code (e : ApiError) : Z :=
  match e with
  | Unauthorized => 401
  | Forbidden => 403
  | BadRequest _ => 400
  | RateLimited => 429
  | PublisherUnavailable | PublisherQueueFull => 503
  | PublisherTimeout => 504
  | BackendError _ => 502
  end.

(** [ApiError::code]. *)
Definition error_code (e : ApiError) : string :=
  match e with
  | Unauthorized => "unauthorized"
  | Forbidden => "forbidden"
  | BadRequest _ => "bad_request"
  | RateLimited => "rate_limited"
  | PublisherUnavailable => "publisher_unavailable"
  | PublisherTimeout => "publisher_timeout"
  | PublisherQueueFull => "publisher_queue_full"
  | BackendError _ => "backend_error"
  end.

(** [IntoResponse]: the status and the body. *)
Definition error_response (e : ApiError) : Z * Json :=
  (status_code e, JObj [("code", JStr (error_code e)); ("message", JStr (ApiError_to_string e))]).

(** ** Configuration *)

(** [AuthMode]. *)
Inductive AuthMode : Type := Disabled | StaticBearer | TrustedHeader | Jwt | ProxyMtls.

#[export] Instance AuthMode_eq_dec : EqDecision AuthMode.
Proof. solve_decision. Defined.

(** The defaults of the settings. *)
Definition default_tenant_header : string := "x-tenant-id".
Definition default_identity_header : string := "x-client-identity".
Definition default_tenant_claim : string := "tenant_id".
Definition default_scope_claim : string := "scope".
Definition default_subscribe_scope : string := "router.subscribe".
Definition default_publish_scope : string := "router.publish".
Definition default_clock_skew_secs : Z := 30.
Definition default_jwks_refresh_secs : Z := 300.
Definition default_max_jwks_bytes : Z := 262_144.
Definition default_max_jwks_keys : Z := 64.

(** [JwtConfig] with its defaults. *)
Record JwtConfig : Type := {
  jc_jwks_path : string;
  jc_issuer : string;
  jc_audience : string;
  jc_algorithms : list string;
  jc_clock_skew_secs : Z;
  jc_refresh_interval_secs : Z;
  jc_tenant_claim : string;
  jc_scope_claim : string;
  jc_subscribe_scope : string;
  jc_publish_scope : string;
  jc_max_jwks_bytes : Z;
  jc_max_jwks_keys : Z;
}.

Definition JwtConfig_default : JwtConfig := {|
  jc_jwks_path := ""; jc_issuer := ""; jc_audience := ""; jc_algorithms := ["ES256"]; jc_clock_skew_secs := default_clock_skew_secs;
  jc_refresh_interval_secs := default_jwks_refresh_secs; jc_tenant_claim := default_tenant_claim; jc_scope_claim := default_scope_claim;
  jc_subscribe_scope := default_subscribe_scope; jc_publish_scope := default_publish_scope;
  jc_max_jwks_bytes := default_max_jwks_bytes; jc_max_jwks_keys := default_max_jwks_keys |}.

(** [ProxyIdentity]. *)
Record ProxyIdentity : Type := {
  pi_tenant_id : string;
  pi_subscribe : bool;
  pi_publish : bool;
}.

(** [AuthConfig] with its defaults. *)
Record AuthConfig : Type := {
  au_mode : AuthMode;
  au_default_tenant : option string;
  au_tenant_header : string;
  au_bearer_tokens : gmap string string;
  au_publish_tenants : gset string;
  au_jwt : JwtConfig;
  au_proxy_identity_header : string;
  au_proxy_identities : gmap string ProxyIdentity;
}.

Definition AuthConfig_default : AuthConfig := {|
  au_mode := Disabled; au_default_tenant := None; au_tenant_header := default_tenant_header;
  au_bearer_tokens := ∅; au_publish_tenants := ∅; au_jwt := JwtConfig_default;
  au_proxy_identity_header := default_identity_header; au_proxy_identities := ∅ |}.

(** [Principal]. *)
Record Principal : Type := {
  pl_tenant_id : string;
  pl_can_subscribe : bool;
  pl_can_publish : bool;
}.

(** ** Libraries *)

(** [HeaderMap] or [MetadataMap]: the value [get] finds under a name, which is
    [Some None] when it is not text. *)
Abbreviation HeaderMap := (string → option (option string)).

(** [jsonwebtoken::Algorithm]: those the code names, and the others. *)
Inductive Algorithm : Type :=
| RS256 | RS384 | RS512 | ES256 | ES384 | EdDSA | OtherAlgorithm (name : string).

#[export] Instance Algorithm_eq_dec : EqDecision Algorithm.
Proof. solve_decision. Defined.

(** The [Validation] the code builds. *)
Record Validation : Type := {
  va_algorithms : list Algorithm;
  va_leeway : Z;
  va_audience : list string;
  va_issuer : list string;
  va_required_spec_claims : list string;
}.

(** A member of a [JwkSet]: its key id, and [DecodingKey::from_jwk]. *)
Record Jwk (Key : Type) : Type := {
  jwk_key_id : option string;
  jwk_key : result string Key;
}.
Arguments jwk_key_id {Key} j.
Arguments jwk_key {Key} j.

(** [jsonwebtoken]: the unverified header of a token, the verified claims of a
    token, and the JSON of a key set. *)
Class JwtLibrary (Key : Type) := {
  decode_header : string → option (Algorithm * option string);
  decode_claims : string → Key → Validation → option Json;
  parse_jwks : string → result string (list (Jwk Key));
}.

(** ** Helpers *)

Definition http_header (headers : HeaderMap) (name : string) : result ApiError string :=
  ok_or (v ← headers name; v) Unauthorized.

(** [http_authorization]. *)
Definition http_authorization (headers : HeaderMap) : result ApiError string :=
  http_header headers "authorization".

(** [grpc_metadata]. *)
Definition grpc_metadata (metadata : HeaderMap) (name : string) : result ApiError string :=
  ok_or (v ← metadata name; v) Unauthorized.

(** [str::strip_prefix]. *)
Fixpoint strip_prefix (prefix s : string) : option string :=
  match prefix, s with
  | EmptyString, _ => Some s
  | String a prefix, String b s => if bool_decide (a = b) then strip_prefix prefix s else None
  | _, EmptyString => None
  end.

(** [parse_bearer]. *)
Definition parse_bearer (value : string) : result ApiError string :=
  ok_or (match strip_prefix "Bearer " value with
         | Some token => Some token
         | None => strip_prefix "bearer " value
         end) Unauthorized.

(** [principal_with_permissions]. *)
Definition principal_with_permissions (tenant : string) (subscribe publish : bool)
    : result ApiError Principal :=
  let tenant := trim tenant in
  if is_empty tenant || (256 <? str_len tenant) || existsb is_control (chars tenant)
  then Err (BadRequest "invalid tenant identity")
  else Ok {| pl_tenant_id := tenant; pl_can_subscribe := subscribe; pl_can_publish := publish |}.

(** [configured_algorithms]. *)
Fixpoint configured_algorithms (values : list string) : result string (list Algorithm) :=
  match values with
  | [] => Ok []
  | value :: rest =>
    algorithm ←
      (if bool_decide (value = "RS256") then Ok RS256
       else if bool_decide (value = "RS384") then Ok RS384
       else if bool_decide (value = "RS512") then Ok RS512
       else if bool_decide (value = "ES256") then Ok ES256
       else if bool_decide (value = "ES384") then Ok ES384
       else if bool_decide (value = "EdDSA") then Ok EdDSA
       else Err ("unsupported or symmetric JWT algorithm " +:+ value));
    algorithms ← configured_algorithms rest;
    Ok (algorithm :: algorithms)
  end.

(** [split_ascii_whitespace]: [word] is the word being read. *)
Definition is_ascii_whitespace (a : ascii) : bool :=
  bool_decide (byte_of a ∈ [9; 10; 12; 13; 32]).

Fixpoint split_ascii_whitespace (word s : string) : list string :=
  match s with
  | EmptyString => if is_empty word then [] else [word]
  | String a s =>
    if is_ascii_whitespace a then
      (if is_empty word then [] else [word]) ++ split_ascii_whitespace "" s
    else split_ascii_whitespace (word +:+ String a "") s
  end.

(** [Value::as_str]. *)
Definition as_str (j : Json) : option string := match j with JStr s => Some s | _ => None end.

(** [Value::get] with a key. *)
Definition json_get (j : Json) (key : string) : option Json :=
  match j with JObj fields => field key fields | _ => None end.

(** [claim_scopes]. *)
Definition claim_scopes (value : option Json) : option (gset string) :=
  value ← value;
  match value with
  | JStr scopes => Some (list_to_set (split_ascii_whitespace "" scopes))
  | JArr scopes => list_to_set <$> mapM as_str scopes
  | _ => None
  end.

(** ** Authentication *)

(** [Authenticator]: its configuration and the cached keys. *)
Record Authenticator (Key : Type) : Type := {
  an_config : AuthConfig;
  an_jwks : gmap string Key;
}.
Arguments an_config {Key} a.
Arguments an_jwks {Key} a.

Section authenticator.
Context `{JwtLibrary Key}.
Implicit Types (a : Authenticator Key).

(** [Authenticator::new]. *)
Definition Authenticator_new (config : AuthConfig) : Authenticator Key :=
  {| an_config := config; an_jwks := ∅ |}.

(** [self.config.publish_tenants.contains(tenant)]. *)
Definition may_publish a (tenant : string) : bool :=
  bool_decide (tenant ∈ au_publish_tenants (an_config a)).

(** [disabled_principal]. *)
Definition disabled_principal a (requested : option string) : result ApiError Principal :=
  let requested := match requested with
    | Some v => if is_empty (trim v) then None else Some v
    | None => None
    end in
  tenant ← ok_or (match requested with
                  | Some v => Some v
                  | None => au_default_tenant (an_config a)
                  end) (BadRequest "tenant_id is required");
  principal_with_permissions tenant true (may_publish a tenant).

(** [static_token]. *)
Definition static_token a (value : string) : result ApiError Principal :=
  token ← parse_bearer value;
  tenant ← ok_or (au_bearer_tokens (an_config a) !! token) Unauthorized;
  principal_with_permissions tenant true (may_publish a tenant).

(** [proxy_identity]. *)
Definition proxy_identity a (identity : string) : result ApiError Principal :=
  mapping ← ok_or (au_proxy_identities (an_config a) !! identity) Unauthorized;
  principal_with_permissions (pi_tenant_id mapping) (pi_subscribe mapping) (pi_publish mapping).

(** The [Validation] of [jwt_principal]. *)
Definition jwt_validation a (allowed : list Algorithm) : Validation := {|
  va_algorithms := allowed; va_leeway := jc_clock_skew_secs (au_jwt (an_config a));
  va_audience := [jc_audience (au_jwt (an_config a))];
  va_issuer := [jc_issuer (au_jwt (an_config a))];
  va_required_spec_claims := ["exp"; "iss"; "aud"] |}.

(** [jwt_principal]. *)
Definition jwt_principal a (value : string) : result ApiError Principal :=
  let config := au_jwt (an_config a) in
  token ← parse_bearer value;
  '(alg, kid) ← ok_or (decode_header token) Unauthorized;
  kid ← ok_or kid Unauthorized;
  allowed ← map_err (λ _, Unauthorized) (configured_algorithms (jc_algorithms config));
  _ ← ensure (bool_decide (alg ∈ allowed)) Unauthorized;
  key ← ok_or (an_jwks a !! kid) Unauthorized;
  claims ← ok_or (decode_claims token key (jwt_validation a allowed)) Unauthorized;
  tenant ← ok_or (v ← json_get claims (jc_tenant_claim config); as_str v) Unauthorized;
  scopes ← ok_or (claim_scopes (json_get claims (jc_scope_claim config))) Unauthorized;
  principal_with_permissions tenant
    (bool_decide (jc_subscribe_scope config ∈ scopes))
    (bool_decide (jc_publish_scope config ∈ scopes)).

(** [authenticate_http]. *)
Definition authenticate_http a (headers : HeaderMap) (requested_tenant : option string)
    : result ApiError Principal :=
  match au_mode (an_config a) with
  | Disabled => disabled_principal a requested_tenant
  | StaticBearer => v ← http_authorization headers; static_token a v
  | TrustedHeader =>
      tenant ← http_header headers (au_tenant_header (an_config a));
      principal_with_permissions tenant true (may_publish a tenant)
  | Jwt => v ← http_authorization headers; jwt_principal a v
  | ProxyMtls =>
      identity ← http_header headers (au_proxy_identity_header (an_config a));
      proxy_identity a identity
  end.

(** [authenticate_grpc]. *)
Definition authenticate_grpc a (metadata : HeaderMap) (requested_tenant : option string)
    : result ApiError Principal :=
  match au_mode (an_config a) with
  | Disabled => disabled_principal a requested_tenant
  | StaticBearer => v ← grpc_metadata metadata "authorization"; static_token a v
  | TrustedHeader =>
      tenant ← grpc_metadata metadata (au_tenant_header (an_config a));
      principal_with_permissions tenant true (may_publish a tenant)
  | Jwt => v ← grpc_metadata metadata "authorization"; jwt_principal a v
  | ProxyMtls =>
      identity ← grpc_metadata metadata (au_proxy_identity_header (an_config a));
      proxy_identity a identity
  end.

(** [authorize_subscribe] and [authorize_publish]. *)
Definition authorize_subscribe (p : Principal) : result ApiError unit :=
  ensure (pl_can_subscribe p) Forbidden.
Definition authorize_publish (p : Principal) : result ApiError unit :=
  ensure (pl_can_publish p) Forbidden.

(** The loop over the keys of a set. *)
Fixpoint collect_keys (jwks : list (Jwk Key)) (keys : gmap string Key)
    : result string (gmap string Key) :=
  match jwks with
  | [] => Ok keys
  | jwk :: rest =>
    kid ← ok_or (match jwk_key_id jwk with
                 | Some kid => if negb (is_empty kid) && (str_len kid <=? 256)
                               then Some kid else None
                 | None => None
                 end) "every JWKS key requires a bounded kid";
    key ← map_err (λ error, "invalid JWKS key " +:+ kid +:+ ": " +:+ error) (jwk_key jwk);
    _ ← ensure (bool_decide (keys !! kid = None)) ("duplicate JWKS kid " +:+ kid);
    collect_keys rest (<[kid := key]> keys)
  end.

(** What [reload_jwks] computes from the size and the content of the file. *)
Definition load_jwks (config : JwtConfig) (metadata : result string Z)
    (content : result string string) : result string (gmap string Key) :=
  len ← map_err (λ error, "failed to inspect JWKS file: " +:+ error) metadata;
  _ ← ensure (len <=? jc_max_jwks_bytes config) "JWKS file exceeds configured size limit";
  bytes ← map_err (λ error, "failed to read JWKS file: " +:+ error) content;
  set ← map_err (λ error, "invalid JWKS JSON: " +:+ error) (parse_jwks bytes);
  _ ← ensure (negb (bool_decide (set = [] ∨
               jc_max_jwks_keys config < Z.of_nat (length set))))
        "JWKS key count is empty or exceeds configured limit";
  collect_keys set ∅.

(** [reload_jwks]. *)
Definition reload_jwks (metadata : result string Z) (content : result string string) a
    : Authenticator Key * result string unit :=
  if bool_decide (au_mode (an_config a) = Jwt) then
    match load_jwks (au_jwt (an_config a)) metadata content with
    | Ok keys => ({| an_config := an_config a; an_jwks := keys |}, Ok tt)
    | Err e => (a, Err e)
    end
  else (a, Ok tt).

(** [jwks_refresh_interval], in seconds. *)
Definition jwks_refresh_interval a : option Z :=
  if bool_decide (au_mode (an_config a) = Jwt)
  then Some (jc_refresh_interval_secs (au_jwt (an_config a))) else None.
End authenticator.

(** ** What authentication promises *)

Lemma principal_with_permissions_Ok tenant subscribe publish p :
  principal_with_permissions tenant subscribe publish = Ok p →
  pl_tenant_id p = trim tenant ∧ pl_can_subscribe p = subscribe ∧ pl_can_publish p = publish ∧
  identifier_ok (pl_tenant_id p) 256.
Proof.
  unfold principal_with_permissions. destruct (_ || _) eqn:E; [done|]. intros [= <-]. simpl.
  apply orb_false_iff in E as [[E1 E2%Z.ltb_ge]%orb_false_iff E3]. split_and!; [done..|].
  unfold is_empty in E1. apply bool_decide_eq_false in E1. rewrite <-trim_idemp in E1.
  split; [by apply trim_nonempty|done|]. by apply existsb_control.
Qed.

Lemma parse_bearer_Ok value token :
  parse_bearer value = Ok token →
  strip_prefix "Bearer " value = Some token ∨ strip_prefix "bearer " value = Some token.
Proof. unfold parse_bearer. rewrite ok_or_Ok. destruct (strip_prefix "Bearer " value); auto. Qed.

Definition asymmetric (alg : Algorithm) : Prop :=
  match alg with OtherAlgorithm _ => False | _ => True end.

Lemma configured_algorithms_asymmetric values algorithms :
  configured_algorithms values = Ok algorithms → Forall asymmetric algorithms.
Proof.
  revert algorithms. induction values as [|v values IH]; simpl; intros algorithms.
  - intros [= <-]. constructor.
  - intros (alg & Ha & (rest & Hr & [= <-])%bind_Ok)%bind_Ok. constructor; [|by apply IH].
    repeat case_bool_decide; simplify_eq; done.
Qed.

Section promises.
Context `{JwtLibrary Key}.
Implicit Types (a : Authenticator Key).

(** The bearer token of a request. *)
Definition bearer (headers : HeaderMap) (token : string) : Prop :=
  ∃ value, headers "authorization" = Some (Some value) ∧
    (strip_prefix "Bearer " value = Some token ∨ strip_prefix "bearer " value = Some token).

(** The credential behind a principal with the tenant [t] before trimming,
    in each mode. *)
Definition credential a (headers : HeaderMap) (requested : option string) (t : string)
    (subscribe publish : bool) : Prop :=
  match au_mode (an_config a) with
  | Disabled =>
      (requested = Some t ∨ au_default_tenant (an_config a) = Some t) ∧
      subscribe = true ∧ publish = may_publish a t
  | StaticBearer => ∃ token, bearer headers token ∧
      au_bearer_tokens (an_config a) !! token = Some t ∧ subscribe = true ∧
      publish = may_publish a t
  | TrustedHeader =>
      headers (au_tenant_header (an_config a)) = Some (Some t) ∧ subscribe = true ∧
      publish = may_publish a t
  | Jwt => ∃ token alg kid key allowed claims scopes, bearer headers token ∧
      decode_header token = Some (alg, Some kid) ∧
      configured_algorithms (jc_algorithms (au_jwt (an_config a))) = Ok allowed ∧
      alg ∈ allowed ∧ asymmetric alg ∧ an_jwks a !! kid = Some key ∧
      decode_claims token key (jwt_validation a allowed) = Some claims ∧
      json_get claims (jc_tenant_claim (au_jwt (an_config a))) = Some (JStr t) ∧
      claim_scopes (json_get claims (jc_scope_claim (au_jwt (an_config a)))) = Some scopes ∧
      subscribe = bool_decide (jc_subscribe_scope (au_jwt (an_config a)) ∈ scopes) ∧
      publish = bool_decide (jc_publish_scope (au_jwt (an_config a)) ∈ scopes)
  | ProxyMtls => ∃ identity mapping,
      headers (au_proxy_identity_header (an_config a)) = Some (Some identity) ∧
      au_proxy_identities (an_config a) !! identity = Some mapping ∧
      t = pi_tenant_id mapping ∧ subscribe = pi_subscribe mapping ∧ publish = pi_publish mapping
  end.

Lemma http_header_Ok headers name v : http_header headers name = Ok v ↔ headers name = Some (Some v).
Proof. unfold http_header. rewrite ok_or_Ok. destruct (headers name); naive_solver. Qed.

Lemma jwt_principal_Ok a value p :
  jwt_principal a value = Ok p →
  ∃ t token alg kid key allowed claims scopes, parse_bearer value = Ok token ∧
    decode_header token = Some (alg, Some kid) ∧
    configured_algorithms (jc_algorithms (au_jwt (an_config a))) = Ok allowed ∧
    alg ∈ allowed ∧ asymmetric alg ∧ an_jwks a !! kid = Some key ∧
    decode_claims token key (jwt_validation a allowed) = Some claims ∧
    json_get claims (jc_tenant_claim (au_jwt (an_config a))) = Some (JStr t) ∧
    claim_scopes (json_get claims (jc_scope_claim (au_jwt (an_config a)))) = Some scopes ∧
    principal_with_permissions t
      (bool_decide (jc_subscribe_scope (au_jwt (an_config a)) ∈ scopes))
      (bool_decide (jc_publish_scope (au_jwt (an_config a)) ∈ scopes)) = Ok p.
Proof.
  unfold jwt_principal. intros Hp. bind_step Hp as token, Ht.
  bind_step Hp as [alg kid], Hh%ok_or_Ok. bind_step Hp as k, Hk%ok_or_Ok.
  bind_step Hp as allowed, Ha%map_err_Ok.
  guard_step Hp as Hin.
  bind_step Hp as key, Hkey%ok_or_Ok.
  bind_step Hp as claims, Hc%ok_or_Ok.
  bind_step Hp as t, Htc%ok_or_Ok. bind_step Hp as scopes, Hs%ok_or_Ok.
  subst kid. exists t, token, alg, k, key, allowed, claims, scopes.
  pose proof (configured_algorithms_asymmetric _ _ Ha) as Hasym. rewrite Forall_forall in Hasym.
  apply bind_Some in Htc as (v & Hv & Hstr). destruct v; simplify_eq/=.
  split_and!; auto.
Qed.

(** (C22) Every principal is backed by a credential of the configured mode,
    whichever transport it came from: the tenant is that of the credential
    without surrounding white space, a valid tenant identifier of at most
    256 bytes, and the capabilities are those the credential grants.  In JWT
    mode the token's key id names a cached key, its algorithm is one of the
    configured asymmetric ones, and the claims are what the library verified
    against the configured issuer and audience.  Only with authentication
    disabled does the tenant a request names matter. *)
Theorem principal_has_credential a headers requested p :
  (authenticate_http a headers requested = Ok p ∨ authenticate_grpc a headers requested = Ok p) →
  ∃ t, credential a headers requested t (pl_can_subscribe p) (pl_can_publish p) ∧
    pl_tenant_id p = trim t ∧ identifier_ok (pl_tenant_id p) 256.
Proof.
  intros Hauth. assert (authenticate_http a headers requested = Ok p) as Hp by tauto. clear Hauth.
  unfold authenticate_http in Hp. unfold credential.
  destruct (au_mode (an_config a)).
  - unfold disabled_principal in Hp. bind_step Hp as t, Ht%ok_or_Ok.
    apply principal_with_permissions_Ok in Hp as (-> & -> & -> & Hid). exists t.
    split_and!; try done. destruct requested as [v|]; [|by right]. destruct (is_empty (trim v)); auto.
  - bind_step Hp as v, Hv. apply (http_header_Ok _ "authorization") in Hv.
    unfold static_token in Hp.
    bind_step Hp as token, Htk%parse_bearer_Ok.
    bind_step Hp as t, Ht%ok_or_Ok.
    apply principal_with_permissions_Ok in Hp as (-> & -> & -> & Hid). exists t. unfold bearer. eauto 10.
  - bind_step Hp as t, Ht%http_header_Ok.
    apply principal_with_permissions_Ok in Hp as (-> & -> & -> & Hid). eauto 10.
  - bind_step Hp as v, Hv. apply (http_header_Ok _ "authorization") in Hv.
    apply jwt_principal_Ok in Hp as (t & token & alg & kid & key & allowed & claims & scopes &
      Hb%parse_bearer_Ok & Hh & Ha & Hin & Has & Hk & Hc & Ht & Hs & Hp).
    apply principal_with_permissions_Ok in Hp as (-> & -> & -> & Hid). exists t. split; [|done].
    exists token, alg, kid, key, allowed, claims, scopes. unfold bearer. eauto 20.
  - bind_step Hp as identity, Hv%http_header_Ok. unfold proxy_identity in Hp.
    bind_step Hp as mapping, Hm%ok_or_Ok.
    apply principal_with_permissions_Ok in Hp as (-> & -> & -> & Hid). eauto 10.
Qed.

(** What a key set that is accepted looks like. *)
Lemma collect_keys_Ok (jwks : list (Jwk Key)) (keys keys' : gmap string Key) :
  collect_keys jwks keys = Ok keys' →
  size keys' = (size keys + length jwks)%nat ∧ keys ⊆ keys' ∧
  (∀ jwk, jwk ∈ jwks → ∃ kid key, jwk_key_id jwk = Some kid ∧ jwk_key jwk = Ok key ∧
     keys' !! kid = Some key ∧ kid ≠ "" ∧ str_len kid ≤ 256).
Proof.
  revert keys. induction jwks as [|jwk jwks IH]; simpl; intros keys Hk.
  { injection Hk as <-. split_and!; [lia|done|]. intros jwk []%elem_of_nil. }
  bind_step Hk as kid, Hkid%ok_or_Ok. bind_step Hk as key, Hkey%map_err_Ok.
  guard_step Hk as Hnew.
  destruct (jwk_key_id jwk) as [kid'|] eqn:Eid; [|done]. destruct (_ && _) eqn:Eb; [|done].
  injection Hkid as ->. apply andb_true_iff in Eb as [Hne%negb_true_iff%bool_decide_eq_false Hlen%Z.leb_le].
  destruct (IH _ Hk) as (Hsize & Hsub & Hall). rewrite map_size_insert_None in Hsize by done.
  split_and!; [lia| |].
  - etrans; [|exact Hsub]. by apply insert_subseteq.
  - intros jwk' [->|Hin]%elem_of_cons; [|by apply Hall]. exists kid, key. split_and!; try done.
    eapply lookup_weaken; [|exact Hsub]. apply lookup_insert_eq.
Qed.

(** Reloading the keys is atomic and bounded: a reload that fails leaves
    the authenticator as it was, whatever the file holds; one that succeeds
    replaces the cache by the keys of a file within the size limit, between
    one and [max_jwks_keys] of them, each under its own key id of 1 to 256
    bytes; in the other modes it does nothing. *)
Lemma reload_jwks_spec a metadata content :
  let '(a', res) := reload_jwks metadata content a in
  an_config a' = an_config a ∧
  match res with
  | Err _ => a' = a
  | Ok _ => a' = a ∧ au_mode (an_config a) ≠ Jwt ∨
      ∃ len bytes jwks, metadata = Ok len ∧ len ≤ jc_max_jwks_bytes (au_jwt (an_config a)) ∧
        content = Ok bytes ∧ parse_jwks bytes = Ok jwks ∧
        1 ≤ Z.of_nat (size (an_jwks a')) ≤ jc_max_jwks_keys (au_jwt (an_config a)) ∧
        size (an_jwks a') = length jwks ∧
        ∀ jwk, jwk ∈ jwks → ∃ kid key, jwk_key_id jwk = Some kid ∧ jwk_key jwk = Ok key ∧
          an_jwks a' !! kid = Some key ∧ kid ≠ "" ∧ str_len kid ≤ 256
  end.
Proof.
  unfold reload_jwks. case_bool_decide as Hmode; [|by auto].
  destruct (load_jwks _ metadata content) as [keys|e] eqn:El; [|done]. split; [done|]. right.
  unfold load_jwks in El. bind_step El as len, Hlen%map_err_Ok.
  guard_step El as Hmax.
  bind_step El as bytes, Hb%map_err_Ok. bind_step El as jwks, Hj%map_err_Ok.
  guard_step El as Hn.
  destruct (collect_keys_Ok _ _ _ El) as (Hsize & _ & Hall). rewrite map_size_empty in Hsize. simpl in *.
  exists len, bytes, jwks. rewrite Hsize. assert (length jwks ≠ 0)%nat by (destruct jwks; [tauto|done]).
  split_and!; try done; lia.
Qed.
End promises.

(** ** Concrete inputs *)

(** A library that takes any token of the form [kid] for a token signed by that
    key whose claims grant publishing to the tenant [acme]. *)
#[local] Instance example_jwt : JwtLibrary string := {|
  decode_header token := Some (ES256, Some token);
  decode_claims token key v :=
    if bool_decide (key = "secret-of-" +:+ token) then
      Some (JObj [("tenant_id", JStr " acme "); ("scope", JStr "router.publish other")])
    else None;
  parse_jwks s := Ok [{| jwk_key_id := Some s; jwk_key := Ok ("secret-of-" +:+ s) |}] |}.

Definition example_auth : Authenticator string := {|
  an_config := {| au_mode := Jwt; au_default_tenant := None; au_tenant_header := "x-tenant-id";
                  au_bearer_tokens := ∅; au_publish_tenants := ∅; au_jwt := JwtConfig_default;
                  au_proxy_identity_header := "x-client-identity"; au_proxy_identities := ∅ |};
  an_jwks := ∅ |}.

(** The key becomes known, then its token is accepted. *)
Example reload_then_accept :
  let a := (reload_jwks (Ok 10) (Ok "k1") example_auth).1 in
  let headers name := if bool_decide (name = "authorization") then Some (Some "Bearer k1") else None in
  authenticate_http example_auth headers None = Err Unauthorized ∧
  authenticate_http a headers (Some "other") =
    Ok {| pl_tenant_id := "acme"; pl_can_subscribe := false; pl_can_publish := true |}.
Proof. split; vm_compute; reflexivity. Qed.

Lemma principal_has_credential_witness :
  identifier_ok "acme" 256.
Proof.
  destruct (principal_has_credential (reload_jwks (Ok 10) (Ok "k1") example_auth).1
    (λ name, if bool_decide (name = "authorization") then Some (Some "Bearer k1") else None) None
    {| pl_tenant_id := "acme"; pl_can_subscribe := false; pl_can_publish := true |})
    as (t & _ & _ & H); [left; vm_compute; reflexivity|exact H].
Defined.
