(* ===== verification/Publish.v ===== *)
(** * Publishing through the API

    router-api's [publish.rs] and the publish endpoints of [http.rs] and
    [grpc.rs]: authentication, authorization, the publish rate limit, the
    payload of a request, the validation of the command and the call of the
    publisher, with the counters around them.  The publisher is the component
    the state holds; the request records are what the web frameworks decode. *)

From S2P Require Import Prelude Str Ids Message Route Metrics RouteIndex Channel Router Kafka.
From S2P Require Import Limits Wire Auth.
Open Scope Z_scope.

(** ** State *)

(** [ApiState]. *)
Record ApiState (Chan Key : Type) : Type := {
  as_config : ApiConfig;
  as_router : RouterState Chan;
  as_auth : Authenticator Key;
  as_publisher : option (PublishCommand → result PublishError PublishReceipt);
  as_health : HealthState;
  as_limiter : RateState;
}.
Arguments as_config {Chan Key} _.
Arguments as_router {Chan Key} _.
Arguments as_auth {Chan Key} _.
Arguments as_publisher {Chan Key} _.
Arguments as_health {Chan Key} _.
Arguments as_limiter {Chan Key} _.

Definition with_router {Chan Key} (router : RouterState Chan) (st : ApiState Chan Key)
    : ApiState Chan Key := {|
  as_config := as_config st; as_router := router; as_auth := as_auth st;
  as_publisher := as_publisher st; as_health := as_health st; as_limiter := as_limiter st |}.

(** Clock readings of one call of the limiter. *)
Record Readings : Type := { rd_now : Z; rd_t1 : Z; rd_t2 : Z }.

(** [state.allow_rate]. *)
Definition state_allow_rate `{Mpsc Delivery Chan} {Key} (t : Readings) (tenant : string)
    (kind : RateKind) (st : ApiState Chan Key) : ApiState Chan Key * bool :=
  let '(limiter, metrics, allowed) :=
    allow_rate (as_config st) (rd_now t) (rd_t1 t) (rd_t2 t) tenant kind (as_limiter st)
      (r_metrics (as_router st)) in
  ({| as_config := as_config st; as_router := with_metrics (λ _, metrics) (as_router st);
      as_auth := as_auth st; as_publisher := as_publisher st; as_health := as_health st;
      as_limiter := limiter |}, allowed).

(** ** Commands *)

(** [effective_message_id]; [uuid] is the id that would be drawn. *)
Definition effective_message_id (message_id : option string) (uuid : string) : string :=
  default uuid message_id.

(** [validate_command]. *)
Definition validate_command `{MimeParser} (command : PublishCommand) (maximum_payload_bytes : Z)
    : result ApiError PublishCommand :=
  _ ← ensure (str_len (pc_payload command) <=? maximum_payload_bytes)
        (BadRequest ("payload exceeds maximum size of " +:+ pretty maximum_payload_bytes +:+ " bytes"));
  _ ← map_err (λ error, BadRequest (pe_message error)) (PublishCommand_validate command);
  Ok command.

(** [validate_json_content_type]. *)
Definition validate_json_content_type `{MimeParser} (content_type : string) : result ApiError unit :=
  parsed ← ok_or (parse_mime content_type) (BadRequest "content_type must be a valid MIME type");
  ensure (bool_decide (mime_type parsed = "application") &&
          (bool_decide (mime_subtype parsed = "json") || bool_decide (mime_suffix parsed = Some "json")))
    (BadRequest "JSON payload requires an application/json or application/*+json content_type").

(** [map_publish_error]. *)
Definition map_publish_error (error : PublishError) : ApiError :=
  match pe_kind error with
  | InvalidInput => BadRequest (pe_message error)
  | Timeout => PublisherTimeout
  | QueueFull => PublisherQueueFull
  | Backend => BackendError "publish backend failed"
  end.

(** [authorize_requested_tenant] of [http.rs], [authorize_tenant] of
    [grpc.rs]. *)
Definition authorize_requested_tenant (principal : Principal) (requested_tenant : option string)
    : result ApiError unit :=
  match requested_tenant with
  | Some tenant => ensure (is_empty tenant || bool_decide (tenant = pl_tenant_id principal)) Forbidden
  | None => Ok tt
  end.
Definition authorize_tenant (principal : Principal) (requested : option string)
    : result ApiError unit :=
  match requested with
  | Some tenant => ensure (is_empty tenant || bool_decide (tenant = pl_tenant_id principal)) Forbidden
  | None => Ok tt
  end.

#[local] Arguments authorize_requested_tenant : simpl never.
#[local] Arguments authorize_tenant : simpl never.

(** ** Requests *)

(** [JsonPayload]. *)
Inductive JsonPayload : Type := Missing | Present (value : Json).

(** [HttpPublishRequest]. *)
Record HttpPublishRequest : Type := {
  hp_message_id : option string;
  hp_tenant_id : option string;
  hp_kind : option string;
  hp_message_type : option string;
  hp_channel : option string;
  hp_actor_id : option string;
  hp_recipient_type : option string;
  hp_recipient_identity : option string;
  hp_ordering_key : option string;
  hp_content_type : option string;
  hp_payload : JsonPayload;
  hp_payload_base64 : option string;
}.

(** The protobuf [PublishRequest]. *)
Record PublishRequest : Type := {
  gp_message_id : option string;
  gp_tenant_id : string;
  gp_kind : option string;
  gp_message_type : option string;
  gp_channel : option string;
  gp_actor_id : option string;
  gp_recipient_type : option string;
  gp_recipient_identity : option string;
  gp_ordering_key : option string;
  gp_content_type : string;
  gp_payload : string;
}.

(** The longest base64 text of a payload within the limit. *)
Definition maximum_encoded (maximum_payload_bytes : Z) : Z :=
  sat_mul usize_max (sat_add usize_max maximum_payload_bytes 2 / 3) 4.

(** [http_publish_payload]: the payload and its content type. *)
Definition http_publish_payload `{MimeParser, JsonCodec, Base64} (payload : JsonPayload)
    (payload_base64 content_type : option string) (maximum_payload_bytes : Z)
    : result ApiError (string * string) :=
  match payload, payload_base64 with
  | Present value, None =>
      let content_type := default "application/json" content_type in
      _ ← validate_json_content_type content_type;
      Ok (json_print value, content_type)
  | Missing, Some encoded =>
      content_type ← ok_or (match content_type with
                            | Some value => if is_empty (trim value) then None else Some value
                            | None => None
                            end) (BadRequest "content_type is required with payload_base64");
      _ ← ensure (str_len encoded <=? maximum_encoded maximum_payload_bytes)
            (BadRequest ("payload exceeds maximum size of " +:+ pretty maximum_payload_bytes +:+
                         " bytes"));
      decoded ← map_err (λ _, BadRequest "payload_base64 is not valid base64") (b64_decode encoded);
      Ok (decoded, content_type)
  | Present _, Some _ | Missing, None =>
      Err (BadRequest "provide exactly one of payload or payload_base64")
  end.

Section publish.
Context `{Mpsc Delivery Chan} `{JwtLibrary Key} `{MimeParser} `{JsonCodec} `{Base64}.
Implicit Types (st : ApiState Chan Key).

(** The publisher call at the end of both endpoints: the command that was
    handed over, if any, and the outcome. *)
Definition call_publisher (command : PublishCommand) st
    : option PublishCommand * result ApiError PublishReceipt :=
  match as_publisher st with
  | None => (None, Err PublisherUnavailable)
  | Some publish => (Some command, map_err map_publish_error (publish command))
  end.

(** The command of an HTTP request. *)
Definition http_command (principal : Principal) (uuid : string) (request : HttpPublishRequest)
    (payload content_type : string) : PublishCommand := {|
  pc_message_id := effective_message_id (hp_message_id request) uuid;
  pc_tenant_id := pl_tenant_id principal; pc_kind := hp_kind request;
  pc_message_type := hp_message_type request; pc_channel := hp_channel request;
  pc_actor_id := hp_actor_id request; pc_recipient_type := hp_recipient_type request;
  pc_recipient_identity := hp_recipient_identity request;
  pc_ordering_key := hp_ordering_key request; pc_content_type := content_type;
  pc_payload := payload |}.

(** [publish_http_inner]. *)
Definition publish_http_inner (t : Readings) (uuid : string) (headers : HeaderMap)
    (request : HttpPublishRequest) st
    : ApiState Chan Key * option PublishCommand * result ApiError PublishReceipt :=
  let admitted :=
    principal ← authenticate_http (as_auth st) headers (hp_tenant_id request);
    _ ← authorize_requested_tenant principal (hp_tenant_id request);
    _ ← authorize_publish principal;
    Ok principal in
  match admitted with
  | Err e => (st, None, Err e)
  | Ok principal =>
    let '(st, allowed) := state_allow_rate t (pl_tenant_id principal) Publish_ st in
    if negb allowed then (st, None, Err RateLimited)
    else
      let checked :=
        '(payload, content_type) ← http_publish_payload (hp_payload request)
          (hp_payload_base64 request) (hp_content_type request)
          (ac_publish_max_payload_bytes (as_config st));
        validate_command (http_command principal uuid request payload content_type)
          (ac_publish_max_payload_bytes (as_config st)) in
      match checked with
      | Err e => (st, None, Err e)
      | Ok command => let '(sent, res) := call_publisher command st in (st, sent, res)
      end
  end.

(** The command of a gRPC request. *)
Definition grpc_command (principal : Principal) (uuid : string) (request : PublishRequest)
    : PublishCommand := {|
  pc_message_id := effective_message_id (gp_message_id request) uuid;
  pc_tenant_id := pl_tenant_id principal; pc_kind := gp_kind request;
  pc_message_type := gp_message_type request; pc_channel := gp_channel request;
  pc_actor_id := gp_actor_id request; pc_recipient_type := gp_recipient_type request;
  pc_recipient_identity := gp_recipient_identity request;
  pc_ordering_key := gp_ordering_key request;
  pc_content_type := (if is_empty (gp_content_type request) then "application/octet-stream"
                      else gp_content_type request);
  pc_payload := gp_payload request |}.

(** [GrpcService::publish_inner]. *)
Definition publish_grpc_inner (t : Readings) (uuid : string) (metadata : HeaderMap)
    (request : PublishRequest) st
    : ApiState Chan Key * option PublishCommand * result Status PublishReceipt :=
  let requested := if is_empty (gp_tenant_id request) then None else Some (gp_tenant_id request) in
  let admitted :=
    principal ← authenticate_grpc (as_auth st) metadata requested;
    _ ← authorize_tenant principal (Some (gp_tenant_id request));
    _ ← authorize_publish principal;
    Ok principal in
  match map_err into_status admitted with
  | Err e => (st, None, Err e)
  | Ok principal =>
    let '(st, allowed) := state_allow_rate t (pl_tenant_id principal) Publish_ st in
    if negb allowed then (st, None, Err (into_status RateLimited))
    else
      match validate_command (grpc_command principal uuid request)
              (ac_publish_max_payload_bytes (as_config st)) with
      | Err e => (st, None, Err (into_status e))
      | Ok command =>
        let '(sent, res) := call_publisher command st in (st, sent, map_err into_status res)
      end
  end.

(** The counters around a publish request. *)
Definition count_publish {A E} (protocol : PublishProtocol) (elapsed : Z) (res : result E A) st
    : ApiState Chan Key :=
  let m := record_latency Publish elapsed (r_metrics (as_router st)) in
  with_router (with_metrics (λ _, if is_ok res then record_publish_acknowledged protocol m
                                  else record_publish_failure protocol m) (as_router st)) st.

(** [publish] of [http.rs]; a body that is not the contract is [None]. *)
Definition publish_http (t : Readings) (uuid : string) (elapsed : Z) (headers : HeaderMap)
    (request : option HttpPublishRequest) st
    : ApiState Chan Key * option PublishCommand * result ApiError PublishReceipt :=
  let st := with_router (with_metrics (record_publish_attempt PublishHttp) (as_router st)) st in
  let '(st, sent, res) := match request with
    | Some request => publish_http_inner t uuid headers request st
    | None => (st, None, Err (BadRequest "request body is not valid for the publish contract"))
    end in
  (count_publish PublishHttp elapsed res st, sent, res).

(** [publish] of [grpc.rs]. *)
Definition publish_grpc (t : Readings) (uuid : string) (elapsed : Z) (metadata : HeaderMap)
    (request : PublishRequest) st
    : ApiState Chan Key * option PublishCommand * result Status PublishReceipt :=
  let st := with_router (with_metrics (record_publish_attempt PublishGrpc) (as_router st)) st in
  let '(st, sent, res) := publish_grpc_inner t uuid metadata request st in
  (count_publish PublishGrpc elapsed res st, sent, res).
End publish.

(** ** What the endpoints promise *)

Lemma validate_command_Ok `{MimeParser} command max c :
  validate_command command max = Ok c →
  c = command ∧ str_len (pc_payload c) ≤ max ∧ PublishCommand_validate c = Ok tt.
Proof.
  unfold validate_command. intros Hv. guard_step Hv as Hlen.
  bind_step Hv as [], Hval%map_err_Ok. injection Hv as <-. done.
Qed.

(** A request may name no tenant, an empty one, or its own. *)
Definition names_tenant (requested : option string) (principal : Principal) : Prop :=
  ∀ t, requested = Some t → t = "" ∨ t = pl_tenant_id principal.

Lemma authorize_requested_tenant_Ok principal requested :
  authorize_requested_tenant principal requested = Ok tt ↔ names_tenant requested principal.
Proof.
  unfold authorize_requested_tenant, names_tenant. destruct requested as [t|]; [|naive_solver].
  rewrite ensure_Ok, orb_true_iff. unfold is_empty. rewrite !bool_decide_eq_true. naive_solver.
Qed.

Section promises.
Context `{Mpsc Delivery Chan} `{JwtLibrary Key} `{MimeParser} `{JsonCodec} `{Base64}.
Implicit Types (st : ApiState Chan Key).

(** A command that may be handed to the publisher on behalf of [principal]:
    its tenant is the principal's, who holds the publishing capability and
    was within the rate limits, and it passes the publisher's validation
    within the payload limit. *)
Definition publishable (t : Readings) st (principal : Principal) (requested : option string)
    (c : PublishCommand) : Prop :=
  pl_can_publish principal = true ∧ names_tenant requested principal ∧
  (state_allow_rate t (pl_tenant_id principal) Publish_ st).2 = true ∧
  pc_tenant_id c = pl_tenant_id principal ∧ PublishCommand_validate c = Ok tt ∧
  str_len (pc_payload c) ≤ ac_publish_max_payload_bytes (as_config st).

Lemma call_publisher_sent command st c res :
  call_publisher command st = (Some c, res) → c = command.
Proof. unfold call_publisher. destruct (as_publisher st); naive_solver. Qed.

Lemma state_allow_rate_config t tenant kind st :
  as_config (state_allow_rate t tenant kind st).1 = as_config st.
Proof. unfold state_allow_rate, allow_rate. by destruct (allow _ _ _ _ _ _ _). Qed.

Lemma publish_http_inner_sent t uuid headers request st st' c res :
  publish_http_inner t uuid headers request st = (st', Some c, res) →
  ∃ principal, authenticate_http (as_auth st) headers (hp_tenant_id request) = Ok principal ∧
    publishable t st principal (hp_tenant_id request) c.
Proof.
  unfold publish_http_inner. destruct (_ ≫= _) as [principal|e] eqn:Ea; [|done].
  bind_step Ea as p, Hauth. bind_step Ea as [], Ht.
  guard_step Ea as Hp. injection Ea as ->.
  destruct (state_allow_rate t _ _ st) as [st1 allowed] eqn:Er.
  pose proof (state_allow_rate_config t (pl_tenant_id principal) Publish_ st) as Hcfg.
  rewrite Er in Hcfg. simpl in Hcfg. destruct allowed; [|done]. simpl.
  destruct (_ ≫= _) as [command|e] eqn:Ev; [|done].
  destruct (call_publisher command st1) as [sent r] eqn:Ec. intros Heq. simplify_eq.
  apply call_publisher_sent in Ec as ->.
  apply bind_Ok in Ev as ([payload ct] & _ & Hv). apply validate_command_Ok in Hv as (Hcmd & Hlen & Hval).
  exists principal. split; [done|]. unfold publishable. rewrite Er, <-Hcfg.
  split_and!; try done; [by apply authorize_requested_tenant_Ok|by rewrite Hcmd].
Qed.

Lemma publish_grpc_inner_sent t uuid metadata request st st' c res :
  publish_grpc_inner t uuid metadata request st = (st', Some c, res) →
  ∃ principal, authenticate_grpc (as_auth st) metadata
      (if is_empty (gp_tenant_id request) then None else Some (gp_tenant_id request)) = Ok principal ∧
    publishable t st principal (Some (gp_tenant_id request)) c.
Proof.
  unfold publish_grpc_inner. destruct (map_err _ _) as [principal|e] eqn:Ea; [|done].
  apply map_err_Ok in Ea. bind_step Ea as p, Hauth.
  bind_step Ea as [], Ht. guard_step Ea as Hp. injection Ea as ->.
  destruct (state_allow_rate t _ _ st) as [st1 allowed] eqn:Er.
  pose proof (state_allow_rate_config t (pl_tenant_id principal) Publish_ st) as Hcfg.
  rewrite Er in Hcfg. simpl in Hcfg. destruct allowed; [|done]. simpl.
  destruct (validate_command _ _) as [command|e] eqn:Ev; [|done].
  destruct (call_publisher command st1) as [sent r] eqn:Ec. intros Heq. simplify_eq.
  apply call_publisher_sent in Ec as ->. apply validate_command_Ok in Ev as (Hcmd & Hlen & Hval).
  exists principal. split; [done|]. unfold publishable. rewrite Er, <-Hcfg.
  split_and!; try done; [by apply authorize_requested_tenant_Ok|by rewrite Hcmd].
Qed.

(** (C17) Nothing is published without authority: whatever the request says,
    a command reaches the publisher only with the tenant of an authenticated
    principal that holds the publishing capability and is within the rate
    limits, only if the request names no other tenant, and only if it passes
    the publisher's own validation within the payload limit; over HTTP and
    over gRPC alike. *)
Theorem publish_needs_authority t uuid elapsed headers http_request grpc_request st :
  (∀ st' c res, publish_http t uuid elapsed headers (Some http_request) st = (st', Some c, res) →
     ∃ principal, authenticate_http (as_auth st) headers (hp_tenant_id http_request) = Ok principal ∧
       publishable t st principal (hp_tenant_id http_request) c) ∧
  (∀ st' c res, publish_grpc t uuid elapsed headers grpc_request st = (st', Some c, res) →
     ∃ principal, authenticate_grpc (as_auth st) headers
         (if is_empty (gp_tenant_id grpc_request) then None else Some (gp_tenant_id grpc_request))
         = Ok principal ∧
       publishable t st principal (Some (gp_tenant_id grpc_request)) c).
Proof.
  assert (∀ m principal requested c,
    publishable t (with_router (with_metrics m (as_router st)) st) principal requested c →
    publishable t st principal requested c) as Hst.
  { intros m principal requested c (? & ? & Hr & Hrest). split_and!; try done; [|apply Hrest..].
    revert Hr. unfold state_allow_rate, allow_rate. simpl. by destruct (allow _ _ _ _ _ _ _). }
  split; intros st' c res.
  - unfold publish_http. destruct (publish_http_inner _ _ _ _ _) as [[st1 sent] r] eqn:E.
    intros [= _ -> _]. apply publish_http_inner_sent in E as (principal & Ha & Hp). eauto.
  - unfold publish_grpc. destruct (publish_grpc_inner _ _ _ _ _) as [[st1 sent] r] eqn:E.
    intros [= _ -> _]. apply publish_grpc_inner_sent in E as (principal & Ha & Hp). eauto.
Qed.
End promises.

(** ** The two transports *)

(** Base64 with padding: four characters for every three bytes begun. *)
Class Base64Length `{Base64} := b64_length s : str_len (b64_encode s) = (str_len s + 2) / 3 * 4.

Section agreement.
Context `{Mpsc Delivery Chan} `{JwtLibrary Key} `{MimeParser} `{JsonCodec}.
Context `{Base64Laws} `{!Base64Length}.
Implicit Types (st : ApiState Chan Key).

(** An HTTP request and a gRPC request that say the same, with the payload as
    base64. *)
Record same_request (h : HttpPublishRequest) (g : PublishRequest) : Prop := {
  sr_message_id : hp_message_id h = gp_message_id g;
  sr_tenant_id : hp_tenant_id h = (if is_empty (gp_tenant_id g) then None else Some (gp_tenant_id g));
  sr_kind : hp_kind h = gp_kind g;
  sr_message_type : hp_message_type h = gp_message_type g;
  sr_channel : hp_channel h = gp_channel g;
  sr_actor_id : hp_actor_id h = gp_actor_id g;
  sr_recipient_type : hp_recipient_type h = gp_recipient_type g;
  sr_recipient_identity : hp_recipient_identity h = gp_recipient_identity g;
  sr_ordering_key : hp_ordering_key h = gp_ordering_key g;
  sr_content_type : hp_content_type h = Some (gp_content_type g);
  sr_content : trim (gp_content_type g) ≠ "";
  sr_payload : hp_payload h = Missing;
  sr_payload_base64 : hp_payload_base64 h = Some (b64_encode (gp_payload g));
}.

(** The check of the encoded length refuses only payloads beyond the limit. *)
Lemma encoded_length_check max payload :
  0 ≤ max → max * 2 + 8 ≤ usize_max → str_len payload ≤ max →
  str_len (b64_encode payload) ≤ maximum_encoded max.
Proof.
  intros Hmax Hbound Hlen. rewrite b64_length. unfold maximum_encoded, sat_add, sat_mul.
  rewrite (Z.min_r usize_max (max + 2)) by lia.
  assert ((str_len payload + 2) / 3 ≤ (max + 2) / 3) by (apply Z.div_le_mono; lia).
  assert ((max + 2) / 3 * 3 ≤ max + 2) by (pose proof (Z.mul_div_le (max + 2) 3); lia). lia.
Qed.

(** (C23) The two transports publish the same: an HTTP request with a base64
    payload and the gRPC request that says the same are admitted alike, hand
    the same command to the publisher and leave the same state, and the gRPC
    status is that of the HTTP error; the early check on the encoded length
    refuses nothing the limit allows and reports what the limit reports. *)
Theorem publish_transports_agree t uuid headers h g st
    (Hsame : same_request h g)
    (Hmax : 0 ≤ ac_publish_max_payload_bytes (as_config st))
    (Hbound : ac_publish_max_payload_bytes (as_config st) * 2 + 8 ≤ usize_max) :
  publish_grpc_inner t uuid headers g st =
  let '(st', sent, res) := publish_http_inner t uuid headers h st in
  (st', sent, map_err into_status res).
Proof.
  destruct Hsame as [Eid Et Ek Ety Ec Ea Ert Eri Eo Ect Hct Epl Ep64].
  unfold publish_grpc_inner, publish_http_inner. cbv zeta. rewrite Et.
  assert (∀ p, authorize_requested_tenant p
      (if is_empty (gp_tenant_id g) then None else Some (gp_tenant_id g))
    = authorize_tenant p (Some (gp_tenant_id g))) as Hauth.
  { intros p. unfold authorize_requested_tenant, authorize_tenant.
    destruct (is_empty _) eqn:E; [|by rewrite E]. done. }
  change (authenticate_grpc (as_auth st)) with (authenticate_http (as_auth st)).
  destruct (authenticate_http _ _ _) as [p|e]; [|done]. simpl. rewrite Hauth.
  destruct (authorize_tenant p _) as [[]|e]; [|done]. simpl.
  destruct (authorize_publish p) as [[]|e]; [|done]. simpl.
  destruct (state_allow_rate t _ _ st) as [st1 allowed] eqn:Er.
  pose proof (state_allow_rate_config t (pl_tenant_id p) Publish_ st) as Hcfg.
  rewrite Er in Hcfg. simpl in Hcfg. destruct allowed; [|done]. simpl. rewrite Hcfg.
  set (max := ac_publish_max_payload_bytes (as_config st)) in *.
  assert (gp_content_type g ≠ "") as Hne by (intros E; by rewrite E in Hct).
  assert (http_publish_payload (hp_payload h) (hp_payload_base64 h) (hp_content_type h) max =
    if str_len (b64_encode (gp_payload g)) <=? maximum_encoded max
    then Ok (gp_payload g, gp_content_type g)
    else Err (BadRequest ("payload exceeds maximum size of " +:+ pretty max +:+ " bytes"))) as ->.
  { unfold http_publish_payload. rewrite Epl, Ep64, Ect. unfold is_empty at 1.
    rewrite bool_decide_eq_false_2 by done. simpl.
    destruct (str_len _ <=? _); simpl; [|done]. by rewrite b64_decode_encode. }
  assert (http_command p uuid h (gp_payload g) (gp_content_type g) = grpc_command p uuid g) as Hcmd.
  { unfold http_command, grpc_command. unfold is_empty. rewrite bool_decide_eq_false_2 by done.
    congruence. }
  destruct (str_len (b64_encode _) <=? _) eqn:El; simpl; [rewrite Hcmd|].
  - destruct (validate_command _ _) as [c|e]; [|done]. by destruct (call_publisher c st1).
  - unfold validate_command at 1. simpl.
    destruct (str_len (gp_payload g) <=? max) eqn:E2; [|done].
    apply Z.leb_le in E2. apply Z.leb_gt in El. pose proof (encoded_length_check max _ Hmax Hbound E2). lia.
Qed.
End agreement.

(** ** Concrete inputs *)

(** A codec with the lengths of base64: the bytes, a mark and padding. *)
Definition mark : ascii := Ascii.ascii_of_nat 35.
Definition pad : ascii := Ascii.ascii_of_nat 61.

Fixpoint drop_pad (l : list ascii) : list ascii :=
  match l with
  | a :: l' => if bool_decide (a = pad) then drop_pad l' else l
  | [] => []
  end.

Definition padding (n : nat) : nat := Z.to_nat ((Z.of_nat n + 2) / 3 * 4 - Z.of_nat n - 1).

#[local] Instance padded : Base64 := {|
  b64_encode s := match String.list_ascii_of_string s with
    | [] => ""
    | l => String.string_of_list_ascii (l ++ mark :: replicate (padding (length l)) pad)
    end;
  b64_decode s := match drop_pad (reverse (String.list_ascii_of_string s)) with
    | [] => Ok ""
    | _ :: l => Ok (String.string_of_list_ascii (reverse l))
    end |}.

Lemma drop_pad_replicate k l : drop_pad (replicate k pad ++ mark :: l) = mark :: l.
Proof. induction k as [|k IH]; [done|]. simpl replicate. simpl. exact IH. Qed.

#[local] Instance padded_laws : Base64Laws.
Proof.
  intros s. unfold b64_decode, b64_encode, padded.
  destruct (String.list_ascii_of_string s) as [|a l] eqn:E.
  - by rewrite <-(String.string_of_list_ascii_of_string s), E.
  - rewrite String.list_ascii_of_string_of_list_ascii, reverse_app, reverse_cons, reverse_replicate,
      <-app_assoc. simpl. rewrite drop_pad_replicate, reverse_involutive.
    by rewrite <-E, String.string_of_list_ascii_of_string.
Qed.

Lemma str_len_list s : str_len s = Z.of_nat (length (String.list_ascii_of_string s)).
Proof. unfold str_len. f_equal. induction s; simpl; congruence. Qed.

#[local] Instance padded_length : Base64Length.
Proof.
  intros s. rewrite (str_len_list s), str_len_list. unfold b64_encode, padded.
  destruct (String.list_ascii_of_string s) as [|a l]; [done|].
  rewrite String.list_ascii_of_string_of_list_ascii, length_app. simpl length. rewrite length_replicate.
  unfold padding. set (n := Z.of_nat (S (length l))).
  assert (n ≤ (n + 2) / 3 * 3) by (pose proof (Z.mod_pos_bound (n + 2) 3);
    pose proof (Z.div_mod (n + 2) 3); lia).
  assert (0 < (n + 2) / 3) by (apply Z.div_str_pos; lia). lia.
Qed.

#[local] Instance example_mime : MimeParser := λ s,
  Some {| mime_type := "application"; mime_subtype := "json"; mime_suffix := None |}.

Definition example_api : ApiState (Fifo Delivery) string := {|
  as_config := ApiConfig_default; as_router := Router_new RouterConfig_default;
  as_auth := {| an_config := {| au_mode := Disabled; au_default_tenant := Some "acme";
                  au_tenant_header := ""; au_bearer_tokens := ∅; au_publish_tenants := {["acme"]};
                  au_jwt := JwtConfig_default; au_proxy_identity_header := "";
                  au_proxy_identities := ∅ |}; an_jwks := ∅ |};
  as_publisher := Some (λ c, Ok {| pr_message_id := pc_message_id c; pr_topic := "in";
                                   pr_partition := 0; pr_offset := 7 |});
  as_health := HealthState_default; as_limiter := AbuseLimiter_new 0 |}.

Definition example_grpc_request : PublishRequest := {|
  gp_message_id := Some "m-1"; gp_tenant_id := "acme"; gp_kind := Some "order";
  gp_message_type := None; gp_channel := None; gp_actor_id := None; gp_recipient_type := None;
  gp_recipient_identity := None; gp_ordering_key := None; gp_content_type := "application/json";
  gp_payload := "{}" |}.

Definition example_http_request : HttpPublishRequest := {|
  hp_message_id := Some "m-1"; hp_tenant_id := Some "acme"; hp_kind := Some "order";
  hp_message_type := None; hp_channel := None; hp_actor_id := None; hp_recipient_type := None;
  hp_recipient_identity := None; hp_ordering_key := None;
  hp_content_type := Some "application/json"; hp_payload := Missing;
  hp_payload_base64 := Some (b64_encode "{}") |}.

Abbreviation example_readings := {| rd_now := 1; rd_t1 := 1; rd_t2 := 1 |}.

(** The command of the example reaches the publisher. *)
Example example_published :
  pc_payload <$> (publish_http (H0 := example_jwt) (H2 := example_json) example_readings "u" 5
    (λ _, None) (Some example_http_request) example_api).1.2 = Some "{}".
Proof. vm_compute. reflexivity. Qed.

Lemma publish_transports_agree_witness :
  (publish_grpc_inner (H0 := example_jwt) example_readings "u" (λ _, None) example_grpc_request
     example_api).1.2 =
  (publish_http_inner (H0 := example_jwt) (H2 := example_json) example_readings "u" (λ _, None)
     example_http_request example_api).1.2.
Proof.
  rewrite (publish_transports_agree (H0 := example_jwt) (H2 := example_json) example_readings "u"
    (λ _, None) example_http_request example_grpc_request example_api).
  - destruct (publish_http_inner _ _ _ _ _) as [[st' sent] res]. reflexivity.
  - split; try reflexivity. vm_compute. discriminate.
  - vm_compute. discriminate.
  - vm_compute. discriminate.
Defined.

Lemma publish_needs_authority_witness :
  ∃ st' c res principal,
    publish_http (H0 := example_jwt) (H2 := example_json) example_readings "u" 5 (λ _, None)
      (Some example_http_request) example_api = (st', Some c, res) ∧
    pc_tenant_id c = pl_tenant_id principal.
Proof.
  destruct (publish_http (H0 := example_jwt) (H2 := example_json) example_readings "u" 5 (λ _, None)
      (Some example_http_request) example_api) as [[st' [c|]] res] eqn:E.
  - destruct (publish_needs_authority (H0 := example_jwt) (H2 := example_json) example_readings "u" 5
      (λ _, None) example_http_request example_grpc_request example_api) as [Hh _].
    destruct (Hh _ _ _ E) as (principal & _ & _ & _ & _ & Ht & _).
    exists st', c, res, principal. split; [reflexivity|exact Ht].
  - pose proof example_published as Hp. rewrite E in Hp. discriminate Hp.
Defined.
