(* ===== verification/Streams.v ===== *)
(** * Streaming endpoints

    The subscription side of router-api's [http.rs] and [grpc.rs]: filters of
    requests, admission, the WebSocket session with its commands, the SSE and
    gRPC streams and their tear-down by [ConnectionGuard].  A session is a
    function of the sequence of events its [select!] sees; what it writes is
    its output. *)

From S2P Require Import Prelude Str Ids Message Route Metrics RouteIndex Channel Router.
From S2P Require Import RouterInv RouterDispatch RouterSpec RouterOps RouterExamples Limits.
From S2P Require Import Wire Auth Publish.
Open Scope Z_scope.

(** ** Filters *)

(** [FilterInput]. *)
Record FilterInput : Type := {
  fi_tenant_id : option string;
  fi_kind : option string;
  fi_message_type : option string;
  fi_channel : option string;
  fi_actor_id : option string;
  fi_recipient_type : option string;
  fi_recipient_identity : option string;
}.

(** [FilterInput::into_filter]. *)
Definition FilterInput_into_filter (f : FilterInput) (principal : Principal)
    : result ApiError RouteFilter :=
  _ ← authorize_requested_tenant principal (fi_tenant_id f);
  Ok {| rf_tenant_id := pl_tenant_id principal; rf_kind := fi_kind f;
        rf_message_type := fi_message_type f; rf_channel := fi_channel f;
        rf_actor_id := fi_actor_id f; rf_recipient_type := fi_recipient_type f;
        rf_recipient_identity := fi_recipient_identity f |}.

(** [SseQuery]. *)
Record SseQuery : Type := {
  sq_filter : FilterInput;
  sq_subscription_id : option string;
  sq_queue_capacity : option Z;
}.

(** [SseQuery::into_filter]. *)
Definition SseQuery_into_filter (q : SseQuery) (principal : Principal)
    : result ApiError (RouteFilter * string * option Z) :=
  filter ← FilterInput_into_filter (sq_filter q) principal;
  Ok (filter, default "sse-default" (sq_subscription_id q), sq_queue_capacity q).

(** The protobuf [RouteFilter], and [proto_filter]. *)
Record ProtoRouteFilter : Type := {
  pf_tenant_id : string;
  pf_kind : option string;
  pf_message_type : option string;
  pf_channel : option string;
  pf_actor_id : option string;
  pf_recipient_type : option string;
  pf_recipient_identity : option string;
}.

Definition proto_filter (f : ProtoRouteFilter) (principal : Principal) : result ApiError RouteFilter :=
  _ ← authorize_tenant principal (Some (pf_tenant_id f));
  Ok {| rf_tenant_id := pl_tenant_id principal; rf_kind := pf_kind f;
        rf_message_type := pf_message_type f; rf_channel := pf_channel f;
        rf_actor_id := pf_actor_id f; rf_recipient_type := pf_recipient_type f;
        rf_recipient_identity := pf_recipient_identity f |}.

(** ** Responses *)

(** [ws_error]. *)
Definition ws_error `{JsonCodec} (code message : string) : string :=
  json_print (JObj [("operation", JStr "error"); ("code", JStr code); ("message", JStr message)]).

(** [ws_subscribe_error]. *)
Definition ws_subscribe_error `{JsonCodec} (error : CoreError) : string :=
  match error with
  | SubscriptionExists => ws_error "subscription_exists" "subscription_id already exists"
  | SubscriptionLimitReached | GlobalSubscriptionLimitReached =>
      ws_error "subscription_limit_reached" "connection subscription limit reached"
  | TenantMismatch => ws_error "tenant_mismatch" "filter tenant is not authorized"
  | ConnectionNotFound => ws_error "connection_closed" "connection is no longer registered"
  | InvalidIdentifier _ _ | IncompleteRecipient | MissingField _ =>
      ws_error "invalid_filter" "filter is invalid"
  | SubscriptionNotFound | ConnectionLimitReached | InvalidQueueCapacity _ _ =>
      ws_error "subscribe_failed" "subscription could not be created"
  end.

(** [WsCommand]. *)
Inductive WsCommand : Type :=
| WsSubscribe (subscription_id : string) (filter : Json)
| WsUnsubscribe (subscription_id : string)
| WsPing (opaque : option string).

(** [serde_json] at [WsCommand] (an error with whether it is a syntax error or
    an early end) and at [FilterInput]. *)
Class WsCodec := {
  ws_command_from_str : string → result bool WsCommand;
  filter_from_value : Json → option FilterInput;
}.

(** Frames a session writes. *)
Inductive Frame : Type :=
| TextFrame (text : string)
| PongFrame (payload : string)
| CloseFrame (frame : option (Z * string)).

(** [close_code::AGAIN], [SIZE] and [PROTOCOL]. *)
Definition close_again : Z := 1013.
Definition close_size : Z := 1009.
Definition close_protocol : Z := 1002.

(** [ws_transport_close]. *)
Definition ws_transport_close (oversized : bool) : Z * string :=
  if oversized then (close_size, "message_too_large") else (close_protocol, "protocol_error").

(** The event of a delivery on an SSE stream: id, name and data. *)
Definition sse_event `{JsonCodec, Base64} (d : Delivery) : string * string * string :=
  let md := rm_metadata (d_message d) in
  (md_message_id md,
   match md_kind md, md_message_type md with
   | Some kind, Some message_type => kind +:+ "." +:+ message_type
   | Some kind, None => kind
   | None, _ => "message"
   end,
   encode_delivery_json d).

(** [proto_delivery]: the ids, the metadata and the payload of a message
    event. *)
Record MessageEvent : Type := {
  me_subscription_ids : list string;
  me_metadata : RoutingMetadata;
  me_payload : string;
}.
Definition proto_delivery (d : Delivery) : MessageEvent := {|
  me_subscription_ids := d_subscription_ids d; me_metadata := rm_metadata (d_message d);
  me_payload := rm_payload (d_message d) |}.

(** [parse_last_event_id]. *)
Definition parse_last_event_id (headers : HeaderMap) : result ApiError unit :=
  match headers "last-event-id" with
  | Some None => Err (BadRequest "Last-Event-ID must be a valid HTTP header value")
  | _ => Ok tt
  end.

(** [stream_queue_capacity] of [http.rs] and [grpc_queue_capacity]. *)
Definition stream_queue_capacity (config : ApiConfig) (requested : option Z) : result ApiError Z :=
  map_err (λ maximum, BadRequest ("queue_capacity must be between 1 and " +:+ pretty maximum))
    (resolve_stream_queue_capacity config requested).
Definition grpc_queue_capacity (config : ApiConfig) (requested : option Z) : result Status Z :=
  map_err (λ maximum, invalid_argument ("queue_capacity must be between 1 and " +:+ pretty maximum))
    (resolve_stream_queue_capacity config requested).

Section streams.
Context `{Mpsc Delivery Chan} `{JwtLibrary Key} `{JsonCodec} `{Base64} `{WsCodec}.
Implicit Types (st : ApiState Chan Key) (c : ConnectionId).

Definition on_router {A} (f : RouterState Chan → RouterState Chan * A) st : ApiState Chan Key * A :=
  let '(router, a) := f (as_router st) in (with_router router st, a).

(** [handle_ws_command]. *)
Definition handle_ws_command (principal : Principal) c (text : string) st
    : ApiState Chan Key * string :=
  match ws_command_from_str text with
  | Err true => (st, ws_error "invalid_json" "command is not valid JSON")
  | Err false => (st, ws_error "invalid_command" "command does not match the protocol")
  | Ok (WsSubscribe subscription_id filter) =>
    match SubscriptionId_new subscription_id with
    | Err _ => (st, ws_error "invalid_subscription_id" "subscription_id is invalid")
    | Ok subscription_id =>
      match filter_from_value filter with
      | None => (st, ws_error "invalid_filter" "filter is invalid")
      | Some filter =>
        match FilterInput_into_filter filter principal with
        | Err Forbidden => (st, ws_error "tenant_mismatch" "filter tenant is not authorized")
        | Err _ => (st, ws_error "invalid_filter" "filter is invalid")
        | Ok filter =>
          let '(st, res) := on_router (subscribe c subscription_id filter) st in
          (st, match res with
               | Ok _ => json_print (JObj [("operation", JStr "subscribed");
                                           ("subscription_id", JStr subscription_id)])
               | Err error => ws_subscribe_error error
               end)
        end
      end
    end
  | Ok (WsUnsubscribe subscription_id) =>
    match SubscriptionId_new subscription_id with
    | Err _ => (st, ws_error "invalid_subscription_id" "subscription_id is invalid")
    | Ok subscription_id =>
      let '(st, res) := on_router (unsubscribe c subscription_id) st in
      (st, match res with
           | Ok _ => json_print (JObj [("operation", JStr "unsubscribed");
                                       ("subscription_id", JStr subscription_id)])
           | Err SubscriptionNotFound =>
               ws_error "subscription_not_found" "subscription does not exist"
           | Err ConnectionNotFound =>
               ws_error "connection_closed" "connection is no longer registered"
           | Err _ => ws_error "unsubscribe_failed" "subscription could not be removed"
           end)
    end
  | Ok (WsPing opaque) =>
      (st, json_print (JObj [("operation", JStr "pong");
                             ("opaque", from_option JStr JNull opaque)]))
  end.

(** *** The WebSocket session *)

(** A message from the peer. *)
Inductive WsMessage : Type :=
| WsText (text : string)
| WsBinary
| WsPingFrame (payload : string)
| WsPongFrame
| WsClose (frame : option (Z * string))
| WsTransportError (oversized : bool).

(** What [select!] sees: the receiver is ready, or a message (or the end) of
    the incoming stream; with the outcome of the write that follows, the
    clock readings of the limiters and the duration of the write. *)
Inductive WsEvent : Type :=
| WsReceiver (send_ok : bool) (elapsed : Z)
| WsIncoming (message : option WsMessage) (send_ok : bool) (t1 t2 : Z) (t : Readings).

Inductive Flow : Type := GoOn | Break.

(** [if sender.send(frame).is_err() { break }]. *)
Definition after_send (send_ok : bool) : Flow := if send_ok then GoOn else Break.

(** [rate_limiter.allow() && state.allow_rate(..)]. *)
Definition command_allowed (principal : Principal) (t1 t2 : Z) (t : Readings)
    (limiter : CommandRateLimiter) st : ApiState Chan Key * CommandRateLimiter * bool :=
  let '(limiter, ok) := command_allow t1 t2 limiter in
  if ok then
    let '(st, ok) := state_allow_rate t (pl_tenant_id principal) Command st in (st, limiter, ok)
  else (st, limiter, false).

(** One turn of the loop of [websocket_session]. *)
Definition ws_turn (principal : Principal) c (e : WsEvent) (limiter : CommandRateLimiter) st
    : ApiState Chan Key * CommandRateLimiter * list Frame * Flow :=
  match e with
  | WsReceiver send_ok elapsed =>
    match r_channels (as_router st) !! c with
    | None => (st, limiter, [], GoOn)
    | Some ch =>
      let st := with_router (consume (λ ch, (recv ch).1) c (as_router st)) st in
      match (recv ch).2 with
      | Pending => (st, limiter, [], GoOn)
      | Disconnected =>
          (st, limiter, [CloseFrame (Some (close_again, "slow_consumer"))], Break)
      | Received d =>
          let st := with_router (with_metrics (record_latency ProtocolWrite elapsed) (as_router st)) st in
          (st, limiter, [TextFrame (encode_delivery_json d)], after_send send_ok)
      end
    end
  | WsIncoming None _ _ _ _ => (st, limiter, [], Break)
  | WsIncoming (Some message) send_ok t1 t2 t =>
    match message with
    | WsText text =>
      let '(st, limiter, ok) := command_allowed principal t1 t2 t limiter st in
      let '(st, response) :=
        if ok then handle_ws_command principal c text st
        else (st, ws_error "rate_limited" "command rate limit exceeded") in
      (st, limiter, [TextFrame response], after_send send_ok)
    | WsBinary =>
      let '(st, limiter, ok) := command_allowed principal t1 t2 t limiter st in
      let response :=
        if ok then ws_error "binary_not_supported" "binary commands are not supported"
        else ws_error "rate_limited" "command rate limit exceeded" in
      (st, limiter, [TextFrame response], after_send send_ok)
    | WsPingFrame payload => (st, limiter, [PongFrame payload], after_send send_ok)
    | WsClose frame => (st, limiter, [CloseFrame frame], Break)
    | WsTransportError oversized =>
        (st, limiter, [CloseFrame (Some (ws_transport_close oversized))], Break)
    | WsPongFrame => (st, limiter, [], GoOn)
    end
  end.

(** The loop on a sequence of events; the flow at its end tells whether the
    session is over. *)
Fixpoint ws_loop (principal : Principal) c (events : list WsEvent) (limiter : CommandRateLimiter) st
    : ApiState Chan Key * list Frame * Flow :=
  match events with
  | [] => (st, [], GoOn)
  | e :: rest =>
    let '(st, limiter, frames, flow) := ws_turn principal c e limiter st in
    match flow with
    | Break => (st, frames, Break)
    | GoOn =>
      let '(st, more, flow) := ws_loop principal c rest limiter st in (st, frames ++ more, flow)
    end
  end.

(** [ConnectionGuard::drop]. *)
Definition drop_guard c st : ApiState Chan Key :=
  with_router (unregister_connection c (as_router st)) st.

(** [websocket_session] up to the end of the loop or of the events; the guard
    is dropped when the loop is left. *)
Definition websocket_session (fresh : ConnectionId) (now : Z) (principal : Principal)
    (queue_capacity : Z) (events : list WsEvent) st : ApiState Chan Key * list Frame * Flow :=
  match on_router (register_connection fresh (pl_tenant_id principal) WebSocket
                     (Some queue_capacity)) st with
  | (st, Err _) => (st, [], Break)
  | (st, Ok c) =>
    let limiter := CommandRateLimiter_new now (ac_ws_max_commands_per_second (as_config st)) in
    match ws_loop principal c events limiter st with
    | (st, frames, Break) => (drop_guard c st, frames, Break)
    | (st, frames, GoOn) => (st, frames, GoOn)
    end
  end.

(** [websocket]: admission, with the capacity the session will use. *)
Definition websocket (headers : HeaderMap) (tenant_id : option string) (queue_capacity : option Z) st
    : result ApiError (Principal * Z) :=
  principal ← authenticate_http (as_auth st) headers tenant_id;
  _ ← authorize_requested_tenant principal tenant_id;
  _ ← authorize_subscribe principal;
  capacity ← stream_queue_capacity (as_config st) queue_capacity;
  Ok (principal, capacity).

(** *** Server-sent events and gRPC streams *)

(** Registering a connection with its one subscription, as [sse] and
    [GrpcService::subscribe] do: a refused subscription removes the
    connection. *)
Definition open_stream (fresh : ConnectionId) (protocol : DeliveryProtocol) (principal : Principal)
    (queue_capacity : Z) (subscription_id : SubscriptionId) (filter : RouteFilter) st
    : ApiState Chan Key * result CoreError ConnectionId :=
  match on_router (register_connection fresh (pl_tenant_id principal) protocol
                     (Some queue_capacity)) st with
  | (st, Err error) => (st, Err error)
  | (st, Ok c) =>
    match on_router (subscribe c subscription_id filter) st with
    | (st, Err error) => (drop_guard c st, Err error)
    | (st, Ok _) => (st, Ok c)
    end
  end.

(** [sse], up to the stream. *)
Definition sse (fresh : ConnectionId) (headers : HeaderMap) (query : SseQuery) st
    : ApiState Chan Key * result ApiError ConnectionId :=
  let checked :=
    principal ← authenticate_http (as_auth st) headers (fi_tenant_id (sq_filter query));
    _ ← authorize_subscribe principal;
    _ ← parse_last_event_id headers;
    '(filter, subscription_id, requested) ← SseQuery_into_filter query principal;
    subscription_id ← map_err (λ error, BadRequest (CoreError_to_string error))
                        (SubscriptionId_new subscription_id);
    capacity ← stream_queue_capacity (as_config st) requested;
    Ok (principal, filter, subscription_id, capacity) in
  match checked with
  | Err e => (st, Err e)
  | Ok (principal, filter, subscription_id, capacity) =>
    let '(st, res) := open_stream fresh Sse principal capacity subscription_id filter st in
    (st, map_err (λ error, BadRequest (CoreError_to_string error)) res)
  end.

(** The protobuf [SubscribeRequest]. *)
Record SubscribeRequest : Type := {
  sb_subscription_id : string;
  sb_filter : option ProtoRouteFilter;
  sb_queue_capacity : option Z;
}.

(** [GrpcService::subscribe], up to the stream. *)
Definition grpc_subscribe_stream (fresh : ConnectionId) (metadata : HeaderMap)
    (request : SubscribeRequest) st : ApiState Chan Key * result Status ConnectionId :=
  let requested := f ← sb_filter request;
    if is_empty (pf_tenant_id f) then None else Some (pf_tenant_id f) in
  let checked :=
    principal ← map_err into_status (authenticate_grpc (as_auth st) metadata requested);
    _ ← map_err into_status (authorize_subscribe principal);
    filter ← ok_or (sb_filter request) (invalid_argument "filter is required");
    filter ← map_err into_status (proto_filter filter principal);
    subscription_id ← map_err (λ error, invalid_argument (CoreError_to_string error))
                        (SubscriptionId_new (sb_subscription_id request));
    capacity ← grpc_queue_capacity (as_config st) (sb_queue_capacity request);
    Ok (principal, filter, subscription_id, capacity) in
  match checked with
  | Err e => (st, Err e)
  | Ok (principal, filter, subscription_id, capacity) =>
    let '(st, res) := open_stream fresh Grpc principal capacity subscription_id filter st in
    (st, map_err (λ error, invalid_argument (CoreError_to_string error)) res)
  end.

(** [receiver.recv()] with the latency of the write: [None] when nothing is
    ready, [Some None] when the sender is gone. *)
Definition stream_poll c (elapsed : Z) st : ApiState Chan Key * option (option Delivery) :=
  match r_channels (as_router st) !! c with
  | None => (st, None)
  | Some ch =>
    let st := with_router (consume (λ ch, (recv ch).1) c (as_router st)) st in
    match (recv ch).2 with
    | Pending => (st, None)
    | Disconnected => (st, Some None)
    | Received d =>
        (with_router (with_metrics (record_latency ProtocolWrite elapsed) (as_router st)) st,
         Some (Some d))
    end
  end.

(** One turn of the [while let Some(delivery) = receiver.recv()] streams,
    whose end drops the guard. *)
Definition stream_next c (elapsed : Z) st : ApiState Chan Key * option (option Delivery) :=
  match stream_poll c elapsed st with
  | (st, Some None) => (drop_guard c st, Some None)
  | next => next
  end.

(** [ClientCommand] and what [connect] yields. *)
Inductive ClientCommand : Type :=
| CommandSubscribe (subscription_id : string) (filter : option ProtoRouteFilter)
| CommandUnsubscribe (subscription_id : string)
| CommandPing (opaque : string)
| CommandMissing.
Inductive ServerEvent : Type :=
| EventMessage (m : MessageEvent)
| EventAck (operation subscription_id : string)
| EventPong (opaque : string).

(** [grpc_subscribe]. *)
Definition grpc_subscribe c (principal : Principal) (subscription_id : string)
    (filter : option ProtoRouteFilter) st : ApiState Chan Key * result Status ServerEvent :=
  let checked :=
    subscription_id ← map_err (λ error, invalid_argument (CoreError_to_string error))
                        (SubscriptionId_new subscription_id);
    filter ← ok_or filter (invalid_argument "filter is required");
    filter ← map_err into_status (proto_filter filter principal);
    Ok (subscription_id, filter) in
  match checked with
  | Err e => (st, Err e)
  | Ok (subscription_id, filter) =>
    let '(st, res) := on_router (subscribe c subscription_id filter) st in
    (st, match res with
         | Ok _ => Ok (EventAck "subscribed" subscription_id)
         | Err error => Err (invalid_argument (CoreError_to_string error))
         end)
  end.

(** A command on the bidirectional stream. *)
Definition connect_command c (principal : Principal) (t : Readings) (command : ClientCommand) st
    : ApiState Chan Key * result Status ServerEvent :=
  let '(st, ok) := state_allow_rate t (pl_tenant_id principal) Command st in
  if negb ok then (st, Err {| gs_code := ResourceExhausted; gs_message := "rate limit exceeded" |})
  else match command with
  | CommandSubscribe subscription_id filter => grpc_subscribe c principal subscription_id filter st
  | CommandUnsubscribe subscription_id =>
    match SubscriptionId_new subscription_id with
    | Err error => (st, Err (invalid_argument (CoreError_to_string error)))
    | Ok subscription_id =>
      let '(st, res) := on_router (unsubscribe c subscription_id) st in
      (st, match res with
           | Ok _ => Ok (EventAck "unsubscribed" subscription_id)
           | Err error => Err (invalid_argument (CoreError_to_string error))
           end)
    end
  | CommandPing opaque => (st, Ok (EventPong opaque))
  | CommandMissing => (st, Err (invalid_argument "command is required"))
  end.

(** What [select!] of [connect] sees. *)
Inductive ConnectEvent : Type :=
| ConnectReceiver (elapsed : Z)
| ConnectMessage (message : result Status (option ClientCommand)) (t : Readings).

(** One turn of the loop of [connect]: what it yields, and how the stream
    ends if it does. *)
Definition connect_turn c (principal : Principal) (e : ConnectEvent) st
    : ApiState Chan Key * list ServerEvent * option (result Status unit) :=
  match e with
  | ConnectReceiver elapsed =>
    match stream_poll c elapsed st with
    | (st, None) => (st, [], None)
    | (st, Some None) => (st, [], Some (Ok tt))
    | (st, Some (Some d)) => (st, [EventMessage (proto_delivery d)], None)
    end
  | ConnectMessage (Err error) _ => (st, [], Some (Err error))
  | ConnectMessage (Ok None) _ => (st, [], Some (Ok tt))
  | ConnectMessage (Ok (Some command)) t =>
    match connect_command c principal t command st with
    | (st, Ok event) => (st, [event], None)
    | (st, Err error) => (st, [], Some (Err error))
    end
  end.

Fixpoint connect_loop c (principal : Principal) (events : list ConnectEvent) st
    : ApiState Chan Key * list ServerEvent * option (result Status unit) :=
  match events with
  | [] => (st, [], None)
  | e :: rest =>
    match connect_turn c principal e st with
    | (st, out, Some r) => (st, out, Some r)
    | (st, out, None) =>
      let '(st, more, r) := connect_loop c principal rest st in (st, out ++ more, r)
    end
  end.

(** [GrpcService::connect]; the guard is dropped when the stream ends. *)
Definition connect (fresh : ConnectionId) (metadata : HeaderMap) (events : list ConnectEvent) st
    : ApiState Chan Key * list ServerEvent * option (result Status unit) :=
  let admitted :=
    principal ← map_err into_status (authenticate_grpc (as_auth st) metadata None);
    _ ← map_err into_status (authorize_subscribe principal);
    Ok principal in
  match admitted with
  | Err e => (st, [], Some (Err e))
  | Ok principal =>
    match on_router (register_connection fresh (pl_tenant_id principal) Grpc
                       (Some (ac_stream_queue_capacity (as_config st)))) st with
    | (st, Err error) => (st, [], Some (Err (invalid_argument (CoreError_to_string error))))
    | (st, Ok c) =>
      match connect_loop c principal events st with
      | (st, out, Some r) => (drop_guard c st, out, Some r)
      | (st, out, None) => (st, out, None)
      end
    end
  end.

(** [get_status]: the fields of [StatusResponse]. *)
Record StatusResponse : Type := {
  sp_ready : bool;
  sp_active_connections : Z;
  sp_subscriptions : Z;
  sp_kafka_messages : Z;
  sp_valid_messages : Z;
  sp_invalid_messages : Z;
  sp_delivered_connections : Z;
  sp_dropped_connections : Z;
}.
Definition get_status (metadata : HeaderMap) st : result Status StatusResponse :=
  _ ← map_err into_status (authenticate_grpc (as_auth st) metadata None);
  let s := status (as_router st) in
  Ok {| sp_ready := hs_ready (as_health st);
        sp_active_connections := st_active_connections s;
        sp_subscriptions := st_subscriptions s;
        sp_kafka_messages := load (st_metrics s) c_kafka_messages;
        sp_valid_messages := load (st_metrics s) c_valid_messages;
        sp_invalid_messages := load (st_metrics s) c_invalid_messages;
        sp_delivered_connections := load (st_metrics s) c_delivered_connections;
        sp_dropped_connections :=
          wrap64 (load (st_metrics s) c_full_connections + load (st_metrics s) c_closed_connections) |}.

(** [live], [ready] and [health_response] of [http.rs]. *)
Definition health_response (ok : bool) (state : string) : Z * Json :=
  (if ok then 200 else 503, JObj [("status", JStr state)]).
Definition live st : Z * Json := health_response (hs_live (as_health st)) "live".
Definition ready st : Z * Json := health_response (hs_ready (as_health st)) "ready".

(** [metrics]: the content type and the text of the scrape. *)
Definition metrics st : string * string :=
  let s := status (as_router st) in
  ("text/plain; version=0.0.4",
   render_prometheus (st_metrics s) (st_active_connections s) (st_subscriptions s)).
End streams.
