(* ===== verification/StreamsSpec.v ===== *)
(** * Streaming endpoints: what they guarantee

    A session touches only its own connection and leaves nothing behind; a
    stream that cannot be opened leaves nothing behind, and one that is opened
    carries one filter of the authenticated tenant. *)

From S2P Require Import Prelude Str Ids Message Route Metrics RouteIndex Channel Router.
From S2P Require Import RouterInv RouterDispatch RouterSpec RouterOps RouterExamples Limits.
From S2P Require Import Wire Auth Publish Streams.
Open Scope Z_scope.

Section sessions.
Context `{MpscLaws Delivery Chan} `{JwtLibrary Key} `{JsonCodec} `{Base64} `{WsCodec}.
Implicit Types (st : ApiState Chan Key) (r : RouterState Chan) (c : ConnectionId).

(** The router during a session of [tenant] on [c] that started in [r0]: it
    is well formed, differs from [r0] at most at [c] and its queue, and [c],
    while it is registered, belongs to the tenant, as do all its filters. *)
Record session_ok (tenant : string) c r0 r : Prop := {
  ss_ok : router_ok r;
  ss_extends : extends_by [c] r0 r;
  ss_queues : queues_kept c r0 r;
  ss_tenant conn : r_connections r !! c = Some conn → cs_tenant_id conn = tenant;
}.

Lemma session_filters tenant c r0 r conn sid f :
  session_ok tenant c r0 r → r_connections r !! c = Some conn →
  cs_subscriptions conn !! sid = Some f → filter_ok f ∧ rf_tenant_id f = tenant.
Proof.
  intros [[Hinv _] _ _ Ht] Hc Hs. rewrite <-(Ht _ Hc).
  by apply (co_filters _ _ (inv_connections _ Hinv _ _ Hc) sid).
Qed.

Lemma session_metrics tenant c r0 r f :
  gauge_free f → session_ok tenant c r0 r → session_ok tenant c r0 (with_metrics f r).
Proof. intros Hf [Hok Hext Hk Ht]. split; [by apply with_metrics_ok|done..]. Qed.

Lemma session_consume tenant c r0 r :
  session_ok tenant c r0 r → session_ok tenant c r0 (consume (λ ch, (recv ch).1) c r).
Proof.
  intros [[Hinv Hst] Hext Hk Ht]. split; [split; [by apply recv_inv|done]|done| |done].
  intros c' Hne. simpl. rewrite lookup_alter_ne by done. by apply Hk.
Qed.

Lemma session_subscribe tenant c r0 r sid f r' res :
  session_ok tenant c r0 r → subscribe c sid f r = (r', res) → session_ok tenant c r0 r'.
Proof.
  intros [Hok Hext Hk Ht] Hs. pose proof (subscribe_ok c sid f r Hok) as Hok'. rewrite Hs in Hok'.
  pose proof (subscribe_channels c sid f r) as Hch. rewrite Hs in Hch. simpl in Hch.
  split; [done|by eapply subscribe_extends; [left|..]|unfold queues_kept; by rewrite Hch|].
  intros conn Hc.
  assert (r_connections (subscribe c sid f r).1 !! c = Some conn) as Hc' by by rewrite Hs.
  apply subscribe_lookup in Hc' as (conn' & Hc' & _ & ->). by apply Ht.
Qed.

Lemma session_unsubscribe tenant c r0 r sid r' res :
  session_ok tenant c r0 r → unsubscribe c sid r = (r', res) → session_ok tenant c r0 r'.
Proof.
  intros [Hok Hext Hk Ht] Hs. pose proof (unsubscribe_ok c sid r Hok) as Hok'. rewrite Hs in Hok'.
  pose proof (unsubscribe_channels c sid r) as Hch. rewrite Hs in Hch. simpl in Hch.
  split; [done|eapply unsubscribe_extends; [apply Hok|left|..]; done
         |unfold queues_kept; by rewrite Hch|].
  intros conn Hc.
  assert (r_connections (unsubscribe c sid r).1 !! c = Some conn) as Hc' by by rewrite Hs.
  apply unsubscribe_lookup in Hc' as (conn' & Hc' & _ & ->). by apply Ht.
Qed.

Lemma session_register tenant c p cap r0 r' :
  router_ok r0 → r_connections r0 !! c = None → 0 ≤ cap →
  register_connection c tenant p (Some cap) r0 = (r', Ok c) → session_ok tenant c r0 r'.
Proof.
  intros Hok Hnew Hcap Hreg.
  pose proof (register_connection_ok c tenant p (Some cap) r0 Hok Hnew) as Hok'. rewrite Hreg in Hok'.
  pose proof (register_extends [] _ _ _ _ r0 _ _ _ Hreg (extends_by_refl [] r0)) as Hext.
  pose proof (register_queues c tenant p (Some cap) r0) as Hk. rewrite Hreg in Hk.
  split; [apply Hok'; by intros n [= <-]|done|done|]. intros conn Hc.
  unfold register_connection in Hreg. repeat case_match; simplify_eq/=.
  rewrite lookup_insert_eq in Hc. by injection Hc as <-.
Qed.

Lemma register_result c t p cap r r' res :
  register_connection c t p cap r = (r', res) →
  match res with Ok c' => c' = c | Err _ => same_subscriptions r' r end.
Proof. unfold register_connection. intros Hreg. repeat case_match; by simplify_eq/=. Qed.

(** Dropping the guard ends the session without a trace. *)
Lemma session_end tenant c r0 r :
  router_ok r0 → r_connections r0 !! c = None → session_ok tenant c r0 r →
  same_subscriptions (unregister_connection c r) r0 ∧ router_ok (unregister_connection c r) ∧
  queues_kept c r0 (unregister_connection c r).
Proof.
  intros Hok0 Hnew [Hok Hext Hk _].
  split; [|split; [by apply unregister_connection_ok|by apply unregister_queues]].
  apply (unregister_all_restores [c]); [apply Hok0|apply Hok| |done].
  intros c' ->%list_elem_of_singleton. done.
Qed.

(** Without the connection the tables are those of the start. *)
Lemma session_nothing tenant c r0 r :
  router_ok r → r_connections r0 !! c = None → same_subscriptions r r0 → queues_kept c r0 r →
  session_ok tenant c r0 r.
Proof.
  intros Hok Hnew (Hc & Hn & Hr) Hk. split; [done| |done|].
  - split; [done|]. intros c' _. by rewrite Hn, Hr.
  - intros conn. by rewrite Hn, Hnew.
Qed.

Lemma session_allow_rate tenant c r0 t who kind st :
  session_ok tenant c r0 (as_router st) →
  session_ok tenant c r0 (as_router (state_allow_rate t who kind st).1).
Proof.
  unfold state_allow_rate, allow_rate. destruct (allow _ _ _ _ _ _ _) as [s ok]. simpl. intros Hs.
  change (with_metrics (λ _, if ok then r_metrics (as_router st)
    else record_security_limit_rejection (r_metrics (as_router st))) (as_router st))
    with (with_metrics (λ m, if ok then m else record_security_limit_rejection m) (as_router st)).
  apply session_metrics; [|done]. destruct ok; [done|apply fetch_add_gauge_free].
Qed.

(** *** WebSocket *)

Lemma handle_ws_command_session tenant c r0 principal text st :
  session_ok tenant c r0 (as_router st) →
  session_ok tenant c r0 (as_router (handle_ws_command principal c text st).1).
Proof.
  intros Hs. unfold handle_ws_command.
  destruct (ws_command_from_str text) as [[sid f|sid|o]|[]]; try done.
  - destruct (SubscriptionId_new sid) as [sid'|]; [|done]. destruct (filter_from_value f) as [f'|]; [|done].
    destruct (FilterInput_into_filter f' principal) as [f''|[]]; try done. unfold on_router.
    destruct (subscribe c sid' f'' (as_router st)) as [r' res] eqn:E. simpl.
    by eapply session_subscribe.
  - destruct (SubscriptionId_new sid) as [sid'|]; [|done]. unfold on_router.
    destruct (unsubscribe c sid' (as_router st)) as [r' res] eqn:E. simpl.
    by eapply session_unsubscribe.
Qed.

Lemma command_allowed_session tenant c r0 principal t1 t2 t limiter st :
  session_ok tenant c r0 (as_router st) →
  session_ok tenant c r0 (as_router (command_allowed principal t1 t2 t limiter st).1.1).
Proof.
  intros Hs. unfold command_allowed. destruct (command_allow t1 t2 limiter) as [l []]; [|done].
  pose proof (session_allow_rate tenant c r0 t (pl_tenant_id principal) Command st Hs) as Ha.
  by destruct (state_allow_rate t _ Command st).
Qed.

Lemma ws_turn_session tenant c r0 principal e limiter st st' limiter' frames flow :
  ws_turn principal c e limiter st = (st', limiter', frames, flow) →
  session_ok tenant c r0 (as_router st) → session_ok tenant c r0 (as_router st').
Proof.
  intros Hturn Hs. unfold ws_turn in Hturn. destruct e as [ok elapsed|[m|] ok t1 t2 t]; [| |by simplify_eq].
  - destruct (r_channels (as_router st) !! c) as [ch|]; [|by simplify_eq].
    destruct ((recv ch).2); simplify_eq; simpl; try by apply session_consume.
    apply session_metrics; [done|by apply session_consume].
  - pose proof (command_allowed_session tenant c r0 principal t1 t2 t limiter st Hs) as Ha.
    destruct m; simplify_eq; try done;
      destruct (command_allowed principal t1 t2 t limiter st) as [[st1 l1] allowed]; simpl in Ha;
      [|by simplify_eq].
    destruct allowed; simplify_eq; [|done].
    pose proof (handle_ws_command_session tenant c r0 principal text st1 Ha) as Hh.
    destruct (handle_ws_command principal c text st1). by simplify_eq.
Qed.

Lemma ws_loop_session tenant c r0 principal events limiter st st' frames flow :
  ws_loop principal c events limiter st = (st', frames, flow) →
  session_ok tenant c r0 (as_router st) → session_ok tenant c r0 (as_router st').
Proof.
  revert limiter st frames flow. induction events as [|e events IH]; simpl; intros limiter st frames flow.
  { intros [= <- <- <-]. done. }
  destruct (ws_turn principal c e limiter st) as [[[st1 l1] f1] fl1] eqn:Et. intros Hl Hs.
  pose proof (ws_turn_session _ _ _ _ _ _ _ _ _ _ _ Et Hs) as Hs1. destruct fl1; [|by simplify_eq].
  destruct (ws_loop principal c events l1 st1) as [[st2 f2] fl2] eqn:El. simplify_eq. by eapply IH.
Qed.

(** A whole WebSocket session: confined while it runs, and nothing of it is
    left when it is over. *)
Lemma websocket_session_spec fresh now principal capacity events st st' frames flow :
  router_ok (as_router st) → r_connections (as_router st) !! fresh = None → 0 ≤ capacity →
  websocket_session fresh now principal capacity events st = (st', frames, flow) →
  session_ok (pl_tenant_id principal) fresh (as_router st) (as_router st') ∧
  (flow = Break → same_subscriptions (as_router st') (as_router st)).
Proof.
  intros Hok Hnew Hcap Hrun. unfold websocket_session, on_router in Hrun.
  destruct (register_connection fresh _ _ _ _) as [r1 res] eqn:Ereg.
  pose proof (register_result _ _ _ _ _ _ _ Ereg) as Hres.
  pose proof (register_connection_ok fresh (pl_tenant_id principal) WebSocket (Some capacity)
    (as_router st) Hok Hnew ltac:(by intros n [= <-])) as Hok1. rewrite Ereg in Hok1. simpl in Hok1.
  destruct res as [c|e].
  2: { simplify_eq/=. split; [|done]. apply session_nothing; try done.
       pose proof (register_queues fresh (pl_tenant_id principal) WebSocket (Some capacity)
         (as_router st)) as Hk. by rewrite Ereg in Hk. }
  subst c. pose proof (session_register _ _ _ _ _ _ Hok Hnew Hcap Ereg) as Hs.
  destruct (ws_loop _ _ _ _ _) as [[st2 f2] fl2] eqn:El.
  pose proof (ws_loop_session _ _ _ _ _ _ _ _ _ _ El Hs) as Hs2. destruct fl2; simplify_eq; [done|].
  destruct (session_end _ _ _ _ Hok Hnew Hs2) as (Hend & Hoke & Hk). split; [|done].
  by apply session_nothing.
Qed.

(** *** gRPC and SSE *)

Lemma stream_poll_session tenant c r0 elapsed st :
  session_ok tenant c r0 (as_router st) →
  session_ok tenant c r0 (as_router (stream_poll c elapsed st).1).
Proof.
  intros Hs. unfold stream_poll. destruct (r_channels (as_router st) !! c) as [ch|]; [|done].
  destruct ((recv ch).2); simpl; try by apply session_consume.
  apply session_metrics; [done|by apply session_consume].
Qed.

Lemma connect_command_session tenant c r0 principal t command st :
  session_ok tenant c r0 (as_router st) →
  session_ok tenant c r0 (as_router (connect_command c principal t command st).1).
Proof.
  intros Hs. pose proof (session_allow_rate tenant c r0 t (pl_tenant_id principal) Command st Hs) as Ha.
  unfold connect_command. destruct (state_allow_rate t _ Command st) as [st1 ok]. simpl in Ha.
  destruct ok; [|done]. simpl. destruct command as [sid f|sid|o|]; try done.
  - unfold grpc_subscribe. destruct (_ ≫= _) as [[sid' f']|]; [|done]. unfold on_router.
    destruct (subscribe c sid' f' (as_router st1)) as [r' res] eqn:E. by eapply session_subscribe.
  - destruct (SubscriptionId_new sid) as [sid'|]; [|done]. unfold on_router.
    destruct (unsubscribe c sid' (as_router st1)) as [r' res] eqn:E. by eapply session_unsubscribe.
Qed.

Lemma connect_loop_session tenant c r0 principal events st :
  session_ok tenant c r0 (as_router st) →
  session_ok tenant c r0 (as_router (connect_loop c principal events st).1.1).
Proof.
  revert st. induction events as [|e events IH]; simpl; intros st Hs; [done|].
  assert (session_ok tenant c r0 (as_router (connect_turn c principal e st).1.1)) as Ht.
  { unfold connect_turn. destruct e as [elapsed|[[command|]|error] t]; try done.
    - pose proof (stream_poll_session tenant c r0 elapsed st Hs) as Hp.
      by destruct (stream_poll c elapsed st) as [st1 [[d|]|]].
    - pose proof (connect_command_session tenant c r0 principal t command st Hs) as Hp.
      by destruct (connect_command c principal t command st) as [st1 [ev|er]]. }
  destruct (connect_turn c principal e st) as [[st1 out] [r|]]; [done|]. simpl in Ht.
  specialize (IH st1 Ht). by destruct (connect_loop c principal events st1) as [[st2 more] r].
Qed.

(** The same for a bidirectional gRPC stream. *)
Lemma connect_spec fresh metadata events st st' out ended :
  router_ok (as_router st) → r_connections (as_router st) !! fresh = None →
  0 ≤ ac_stream_queue_capacity (as_config st) →
  connect fresh metadata events st = (st', out, ended) →
  (st' = st ∧ is_Some ended) ∨
  ∃ principal, authenticate_grpc (as_auth st) metadata None = Ok principal ∧
    pl_can_subscribe principal = true ∧
    session_ok (pl_tenant_id principal) fresh (as_router st) (as_router st') ∧
    (is_Some ended → same_subscriptions (as_router st') (as_router st)).
Proof.
  intros Hok Hnew Hcap Hrun.
  unfold connect, on_router in Hrun. destruct (_ ≫= _) as [principal|e] eqn:Ea.
  2: { simplify_eq. eauto. }
  bind_step Ea as p, Hauth%map_err_Ok.
  bind_step Ea as [], Hsub%map_err_Ok%ensure_Ok. injection Ea as ->. right. exists principal.
  split; [done|]. split; [done|].
  destruct (register_connection fresh _ _ _ _) as [r1 res] eqn:Ereg.
  pose proof (register_result _ _ _ _ _ _ _ Ereg) as Hres.
  pose proof (register_connection_ok fresh (pl_tenant_id principal) Grpc
    (Some (ac_stream_queue_capacity (as_config st))) (as_router st) Hok Hnew
    ltac:(by intros n [= <-])) as Hok1. rewrite Ereg in Hok1. simpl in Hok1.
  destruct res as [c|e].
  2: { simplify_eq/=. split; [|done]. apply session_nothing; try done.
       pose proof (register_queues fresh (pl_tenant_id principal) Grpc
         (Some (ac_stream_queue_capacity (as_config st))) (as_router st)) as Hk.
       by rewrite Ereg in Hk. }
  subst c. pose proof (session_register _ _ _ _ _ _ Hok Hnew Hcap Ereg) as Hs.
  pose proof (connect_loop_session (pl_tenant_id principal) fresh (as_router st) principal events
    (with_router r1 st) Hs) as Hs2.
  destruct (connect_loop _ _ _ _) as [[st2 out2] [r|]]; simpl in Hs2; simplify_eq.
  - destruct (session_end _ _ _ _ Hok Hnew Hs2) as (Hend & Hoke & Hk). split; [|done].
    by apply session_nothing.
  - split; [done|]. by intros [].
Qed.

Lemma open_stream_spec fresh p principal capacity sid f st st' res :
  router_ok (as_router st) → r_connections (as_router st) !! fresh = None → 0 ≤ capacity →
  open_stream fresh p principal capacity sid f st = (st', res) →
  session_ok (pl_tenant_id principal) fresh (as_router st) (as_router st') ∧
  match res with
  | Err _ => same_subscriptions (as_router st') (as_router st)
  | Ok c => c = fresh ∧ ∃ conn, r_connections (as_router st') !! fresh = Some conn ∧
        cs_tenant_id conn = pl_tenant_id principal ∧ cs_subscriptions conn = {[sid := f]}
  end.
Proof.
  intros Hok Hnew Hcap Hrun. unfold open_stream, on_router in Hrun.
  destruct (register_connection fresh _ _ _ _) as [r1 res1] eqn:Ereg.
  pose proof (register_result _ _ _ _ _ _ _ Ereg) as Hres.
  pose proof (register_connection_ok fresh (pl_tenant_id principal) p (Some capacity) (as_router st)
    Hok Hnew ltac:(by intros n [= <-])) as Hok1. rewrite Ereg in Hok1. simpl in Hok1.
  destruct res1 as [c|e].
  2: { simplify_eq/=. split; [|done]. apply session_nothing; try done.
       pose proof (register_queues fresh (pl_tenant_id principal) p (Some capacity)
         (as_router st)) as Hk. by rewrite Ereg in Hk. }
  subst c. simpl in Hrun.
  pose proof (session_register _ _ _ _ _ _ Hok Hnew Hcap Ereg) as Hs.
  assert (∃ conn, r_connections r1 !! fresh = Some conn ∧ cs_tenant_id conn = pl_tenant_id principal ∧
    cs_subscriptions conn = ∅) as (conn & Hc & Ht & Hsub).
  { unfold register_connection in Ereg. clear -Ereg. repeat case_match; simplify_eq/=.
    rewrite lookup_insert_eq. by eexists. }
  destruct (subscribe fresh sid f r1) as [r2 res2] eqn:Esub.
  pose proof (session_subscribe _ _ _ _ _ _ _ _ Hs Esub) as Hs2.
  destruct res2 as [[]|e]; simplify_eq/=.
  - split; [done|]. split; [done|]. unfold subscribe in Esub.
    rewrite Hc in Esub. repeat case_match; simplify_eq/=. rewrite lookup_insert_eq.
    eexists. split; [done|]. simpl. by rewrite Hsub.
  - destruct (session_end _ _ _ _ Hok Hnew Hs2) as (Hend & Hoke & Hk). split; [|done].
    by apply session_nothing.
Qed.

(** What an opened stream is: one connection of an authenticated principal
    that may subscribe, with one valid filter of the principal's tenant. *)
Definition stream_opened (fresh : ConnectionId) (principal : Principal) st st' : Prop :=
  pl_can_subscribe principal = true ∧ extends_by [fresh] (as_router st) (as_router st') ∧
  queues_kept fresh (as_router st) (as_router st') ∧
  ∃ conn sid f, r_connections (as_router st') !! fresh = Some conn ∧
    cs_tenant_id conn = pl_tenant_id principal ∧ cs_subscriptions conn = {[sid := f]} ∧
    filter_ok f ∧ rf_tenant_id f = pl_tenant_id principal.

Lemma opened_stream_valid fresh principal st st' sid f :
  session_ok (pl_tenant_id principal) fresh (as_router st) (as_router st') →
  pl_can_subscribe principal = true →
  (∃ conn, r_connections (as_router st') !! fresh = Some conn ∧
     cs_tenant_id conn = pl_tenant_id principal ∧ cs_subscriptions conn = {[sid := f]}) →
  stream_opened fresh principal st st'.
Proof.
  intros [[Hinv _] Hext Hk _] Hsub (conn & Hc & Ht & Hs). split_and!; [done..|].
  exists conn, sid, f. split_and!; try done; rewrite <-?Ht;
    apply (co_filters _ _ (inv_connections _ Hinv _ _ Hc) sid); rewrite Hs; apply lookup_singleton_eq.
Qed.

Lemma resolved_capacity config requested n :
  0 ≤ ac_stream_queue_capacity config → (∀ n, requested = Some n → 0 ≤ n) →
  resolve_stream_queue_capacity config requested = Ok n → 0 ≤ n.
Proof.
  intros Hdefault Hn. unfold resolve_stream_queue_capacity. destruct (_ || _); [done|].
  intros [= <-]. destruct requested; simpl; auto.
Qed.

(** What opening a stream comes to: nothing changed before the connection was
    registered, or a principal that may subscribe has a session. *)
Definition stream_outcome {E} (fresh : ConnectionId) (auth : result ApiError Principal) st st'
    (res : result E ConnectionId) : Prop :=
  (st' = st ∧ is_ok res = false) ∨
  ∃ principal, auth = Ok principal ∧ pl_can_subscribe principal = true ∧
    session_ok (pl_tenant_id principal) fresh (as_router st) (as_router st') ∧
    match res with
    | Err _ => same_subscriptions (as_router st') (as_router st)
    | Ok c => c = fresh ∧ stream_opened fresh principal st st'
    end.

Lemma sse_spec fresh headers query st st' res :
  router_ok (as_router st) → r_connections (as_router st) !! fresh = None →
  0 ≤ ac_stream_queue_capacity (as_config st) → (∀ n, sq_queue_capacity query = Some n → 0 ≤ n) →
  sse fresh headers query st = (st', res) →
  stream_outcome fresh (authenticate_http (as_auth st) headers (fi_tenant_id (sq_filter query)))
    st st' res.
Proof.
  intros Hok Hnew Hdefault Hq. unfold sse.
  destruct (_ ≫= _) as [[[[principal f] sid] cap]|e] eqn:Ec; [|intros [= <- <-]; by left].
  bind_step Ec as p, Hauth. guard_step Ec as Hsub.
  bind_step Ec as [], _. bind_step Ec as [[f' sid'] req], Hf.
  bind_step Ec as sid2, _. bind_step Ec as cap', Hcap%map_err_Ok.
  injection Ec as -> -> -> ->.
  assert (req = sq_queue_capacity query) as ->.
  { unfold SseQuery_into_filter in Hf. bind_step Hf as ?, _. by injection Hf as _ _ <-. }
  destruct (open_stream _ _ _ _ _ _ st) as [st1 res1] eqn:Eo. intros [= <- <-].
  destruct (open_stream_spec _ _ _ _ _ _ _ _ _ Hok Hnew (resolved_capacity _ _ _ Hdefault Hq Hcap) Eo)
    as [Hs Hres].
  right. exists principal. split_and!; try done. destruct res1 as [c|e]; simpl; [|done].
  destruct Hres as (-> & Hconn). split; [done|]. by eapply opened_stream_valid.
Qed.

(** The tenant a gRPC subscription names. *)
Definition requested_by (request : SubscribeRequest) : option string :=
  f ← sb_filter request; if is_empty (pf_tenant_id f) then None else Some (pf_tenant_id f).

Lemma grpc_subscribe_spec fresh metadata request st st' res :
  router_ok (as_router st) → r_connections (as_router st) !! fresh = None →
  0 ≤ ac_stream_queue_capacity (as_config st) → (∀ n, sb_queue_capacity request = Some n → 0 ≤ n) →
  grpc_subscribe_stream fresh metadata request st = (st', res) →
  stream_outcome fresh (authenticate_grpc (as_auth st) metadata (requested_by request)) st st' res.
Proof.
  intros Hok Hnew Hdefault Hr. unfold grpc_subscribe_stream. cbv zeta. fold (requested_by request).
  destruct (_ ≫= _) as [[[[principal f] sid] cap]|e] eqn:Ec; [|intros [= <- <-]; by left].
  bind_step Ec as p, Ha%map_err_Ok. bind_step Ec as [], Hsub%map_err_Ok%ensure_Ok.
  bind_step Ec as f', _. bind_step Ec as f2, _.
  bind_step Ec as sid2, _. bind_step Ec as cap', Hcap%map_err_Ok.
  injection Ec as -> -> -> ->.
  destruct (open_stream _ _ _ _ _ _ st) as [st1 res1] eqn:Eo. intros [= <- <-].
  destruct (open_stream_spec _ _ _ _ _ _ _ _ _ Hok Hnew (resolved_capacity _ _ _ Hdefault Hr Hcap) Eo)
    as [Hs Hres].
  right. exists principal. split_and!; try done. destruct res1 as [c|e]; simpl; [|done].
  destruct Hres as (-> & Hconn). split; [done|]. by eapply opened_stream_valid.
Qed.

(** (C24) Opening an SSE or a gRPC subscription is all or nothing: if any
    check, the registration or the subscription is refused, the connections
    and the index are those of before; otherwise there is exactly one new
    connection, of a principal that authenticated and may subscribe, with
    exactly one valid filter, of the principal's own tenant. *)
Theorem streams_open_all_or_nothing fresh headers query request st
    (Hok : router_ok (as_router st)) (Hnew : r_connections (as_router st) !! fresh = None)
    (Hdefault : 0 ≤ ac_stream_queue_capacity (as_config st))
    (Hq : ∀ n, sq_queue_capacity query = Some n → 0 ≤ n)
    (Hr : ∀ n, sb_queue_capacity request = Some n → 0 ≤ n) :
  (let '(st', res) := sse fresh headers query st in
   match res with
   | Err _ => same_subscriptions (as_router st') (as_router st)
   | Ok c => c = fresh ∧ ∃ principal,
       authenticate_http (as_auth st) headers (fi_tenant_id (sq_filter query)) = Ok principal ∧
       stream_opened fresh principal st st'
   end) ∧
  (let '(st', res) := grpc_subscribe_stream fresh headers request st in
   match res with
   | Err _ => same_subscriptions (as_router st') (as_router st)
   | Ok c => c = fresh ∧ ∃ principal requested,
       authenticate_grpc (as_auth st) headers requested = Ok principal ∧
       stream_opened fresh principal st st'
   end).
Proof.
  split.
  - destruct (sse fresh headers query st) as [st' res] eqn:E.
    apply sse_spec in E as [[-> Herr]|(p & Hp & _ & _ & Hres)]; try done;
      destruct res; try done; naive_solver.
  - destruct (grpc_subscribe_stream fresh headers request st) as [st' res] eqn:E.
    apply grpc_subscribe_spec in E as [[-> Herr]|(p & Hp & _ & _ & Hres)]; try done;
      destruct res; try done; naive_solver.
Qed.
End sessions.

(** ** Concrete inputs *)

#[local] Existing Instances example_json example_jwt.

(** Every text is a subscription [s] to the orders of one's own tenant. *)
#[local] Instance example_ws : WsCodec := {|
  ws_command_from_str text := Ok (WsSubscribe "s" JNull);
  filter_from_value _ := Some {| fi_tenant_id := None; fi_kind := Some "order";
    fi_message_type := None; fi_channel := None; fi_actor_id := None; fi_recipient_type := None;
    fi_recipient_identity := None |} |}.

Definition acme : Principal :=
  {| pl_tenant_id := "acme"; pl_can_subscribe := true; pl_can_publish := false |}.

Definition example_ws_events : list WsEvent :=
  [WsIncoming (Some (WsText "subscribe")) true 1 1 {| rd_now := 1; rd_t1 := 1; rd_t2 := 1 |};
   WsIncoming (Some (WsClose None)) true 2 2 {| rd_now := 2; rd_t1 := 2; rd_t2 := 2 |}].

Lemma example_api_ok : router_ok (as_router example_api).
Proof. apply Router_new_ok, config_default_ok. Qed.

(** After the first event the subscription exists, and after the second nothing
    is left. *)
Example example_session_subscribes :
  let o n := (websocket_session 7 0 acme 4 (take n example_ws_events) example_api) in
  (from_option (λ conn, Z.of_nat (size (cs_subscriptions conn))) (-1)
     (r_connections (as_router (o 1%nat).1.1) !! 7),
   from_option (λ conn, Z.of_nat (size (cs_subscriptions conn))) (-1)
     (r_connections (as_router (o 2%nat).1.1) !! 7)) = (1, -1).
Proof. vm_compute. reflexivity. Qed.

Definition example_query : SseQuery := {|
  sq_filter := {| fi_tenant_id := Some "acme"; fi_kind := Some "order"; fi_message_type := None;
    fi_channel := None; fi_actor_id := None; fi_recipient_type := None;
    fi_recipient_identity := None |};
  sq_subscription_id := None; sq_queue_capacity := Some 8 |}.

Definition example_subscribe : SubscribeRequest := {|
  sb_subscription_id := "s"; sb_filter := None; sb_queue_capacity := None |}.

Lemma streams_open_all_or_nothing_witness :
  ∃ st', sse 7 (λ _, None) example_query example_api = (st', Ok 7) ∧
    ∃ conn, r_connections (as_router st') !! 7 = Some conn ∧ cs_tenant_id conn = "acme".
Proof.
  destruct (streams_open_all_or_nothing 7 (λ _, None) example_query example_subscribe
    example_api example_api_ok ltac:(reflexivity) ltac:(vm_compute; discriminate)
    ltac:(intros n [= <-]; lia) ltac:(intros n [=])) as [H _].
  assert ((sse 7 (λ _, None) example_query example_api).2 = Ok 7) as Hr
    by (vm_compute; reflexivity).
  destruct (sse 7 (λ _, None) example_query example_api) as [st' res].
  simpl in Hr. subst res. destruct H as (_ & principal & Ha & _ & _ & _ & conn & _ & _ & Hc & Ht & _).
  exists st'. split; [reflexivity|]. exists conn. split; [exact Hc|]. rewrite Ht.
  assert (pl_tenant_id <$> match authenticate_http (as_auth example_api) (λ _, None)
    (fi_tenant_id (sq_filter example_query)) with Ok p => Some p | Err _ => None end = Some "acme") as E
    by (vm_compute; reflexivity).
  rewrite Ha in E. injection E as E. exact E.
Defined.
