(* ===== verification/StatusPage.v ===== *)
(** * The status page, and what the three views of the router agree on

    [status] of router-api's http.rs, with the serialized form of
    [RouterStatus] and [MetricsSnapshot] (router-core's router.rs and
    metrics.rs).  The same counts are shown over gRPC ([get_status]) and to
    Prometheus ([metrics]). *)

From S2P Require Import Prelude Str Ids Message Metrics Channel Router RouterInv.
From S2P Require Import RouterExamples Limits Wire Auth Publish Streams.
Open Scope Z_scope.

(** [Serialize] of [HistogramSnapshot] and [MetricsSnapshot]. *)
Definition histogram_json (h : Histogram) : Json :=
  JObj [("buckets", JArr (JNum <$> h_buckets h)); ("count", JNum (h_count h));
        ("sum_micros", JNum (h_sum_micros h))].

Definition metrics_fields (m : Metrics) : list (string * Json) :=
  ((λ '(name, c), (name, JNum (load m c))) <$>
   [("kafka_messages", c_kafka_messages); ("kafka_bytes", c_kafka_bytes);
    ("kafka_commit_errors", c_kafka_commit_errors);
    ("kafka_rebalance_assignments", c_kafka_rebalance_assignments);
    ("kafka_rebalance_revocations", c_kafka_rebalance_revocations);
    ("kafka_rebalance_errors", c_kafka_rebalance_errors);
    ("valid_messages", c_valid_messages); ("invalid_messages", c_invalid_messages);
    ("matched_subscriptions", c_matched_subscriptions);
    ("unmatched_messages", c_unmatched_messages);
    ("delivered_connections", c_delivered_connections);
    ("full_connections", c_full_connections); ("closed_connections", c_closed_connections);
    ("slow_consumer_disconnects", c_slow_consumer_disconnects);
    ("security_limit_rejections", c_security_limit_rejections);
    ("websocket_opened", c_websocket_opened); ("sse_opened", c_sse_opened);
    ("grpc_opened", c_grpc_opened); ("webhook_opened", c_webhook_opened);
    ("webhook_attempts", c_webhook_attempts); ("webhook_successes", c_webhook_successes);
    ("webhook_failures", c_webhook_failures);
    ("http_publish_attempts", c_http_publish_attempts);
    ("grpc_publish_attempts", c_grpc_publish_attempts);
    ("http_publish_acknowledged", c_http_publish_acknowledged);
    ("webhook_durable_commands", c_webhook_durable_commands);
    ("webhook_retries_scheduled", c_webhook_retries_scheduled);
    ("webhook_recovery_replays", c_webhook_recovery_replays);
    ("webhook_dead_letters", c_webhook_dead_letters);
    ("grpc_publish_acknowledged", c_grpc_publish_acknowledged);
    ("http_publish_failures", c_http_publish_failures);
    ("grpc_publish_failures", c_grpc_publish_failures)]) ++
  [("active_connections_by_protocol", JArr (JNum <$> m_active_connections m));
   ("active_subscriptions_by_protocol", JArr (JNum <$> m_active_subscriptions m));
   ("kafka_assigned_partitions", JNum (load m c_kafka_assigned_partitions));
   ("kafka_lag_messages", JNum (load m c_kafka_lag_messages));
   ("latency", JArr (histogram_json <$> m_latency m))].

(** [Serialize] of [RouterStatus]. *)
Definition router_status_json (s : RouterStatus) : Json :=
  JObj [("active_connections", JNum (st_active_connections s));
        ("subscriptions", JNum (st_subscriptions s));
        ("metrics", JObj (metrics_fields (st_metrics s)))].

Section page.
Context `{MpscLaws Delivery Chan} `{JwtLibrary Key}.
Implicit Types (st : ApiState Chan Key) (r : RouterState Chan).

(** [status]. *)
Definition status_page st : Json :=
  let by_protocol p := JNum (connections_by_protocol p (as_router st)) in
  JObj [("ready", JBool (hs_ready (as_health st)));
        ("router", router_status_json (status (as_router st)));
        ("connections_by_protocol",
         JObj [("websocket", by_protocol WebSocket); ("sse", by_protocol Sse);
               ("grpc", by_protocol Grpc); ("http_webhook", by_protocol HttpWebhook)])].

Definition all_protocols : list DeliveryProtocol := [WebSocket; Sse; Grpc; HttpWebhook].

(** A sum over the connections, split by protocol. *)
Lemma sum_by_protocol (f : ConnectionState → Z) (conns : Connections) :
  sumZ (λ p, map_sum (λ conn, if bool_decide (cs_protocol conn = p) then f conn else 0) conns)
    all_protocols = map_sum f conns.
Proof.
  unfold sumZ; simpl. induction conns as [|c conn conns Hc IH] using map_ind.
  - by rewrite !map_sum_empty.
  - rewrite !map_sum_insert by done. rewrite <-IH. destruct (cs_protocol conn); simpl; lia.
Qed.

Lemma connections_add_up r :
  sumZ (λ p, connections_by_protocol p r) all_protocols = st_active_connections (status r).
Proof. simpl. rewrite <-map_count_size. apply sum_by_protocol. Qed.

Lemma subscriptions_add_up r :
  sumZ (λ p, map_sum (protocol_subscription_count p) (r_connections r)) all_protocols =
  st_subscriptions (status r).
Proof. apply sum_by_protocol. Qed.

Lemma load_snapshot m c : load (Metrics_snapshot m) c = load m c.
Proof. by destruct c. Qed.

Lemma elem_of_concat {A} (x : A) l ls : x ∈ l → l ∈ ls → x ∈ concat ls.
Proof. intros Hx Hl. induction Hl; simpl; rewrite elem_of_app; auto. Qed.

(** The gauges of a protocol in the scrape. *)
Lemma gauge_samples p m a s x y :
  m_active_connections m !! protocol_index p = Some x →
  m_active_subscriptions m !! protocol_index p = Some y →
  Sample (labelled "router_active_connections" "protocol" (protocol_as_str p)) (pretty x)
    ∈ prometheus_lines m a s ∧
  Sample (labelled "router_active_subscriptions" "protocol" (protocol_as_str p)) (pretty y)
    ∈ prometheus_lines m a s.
Proof.
  intros Hx%(nth_lookup_Some _ _ 0) Hy%(nth_lookup_Some _ _ 0). subst x y.
  assert (PROTOCOLS !! protocol_index p = Some (protocol_as_str p)) as Hp by by destruct p.
  unfold prometheus_lines. set (gauges := concat (imap _ PROTOCOLS)).
  assert (∀ line, line ∈ gauges → line ∈ prometheus_lines m a s) as Hin.
  { intros line Hline. unfold prometheus_lines. fold gauges. clearbody gauges.
    repeat lazymatch goal with
    | |- _ ∈ gauges ++ _ => fail
    | |- _ ∈ _ ++ _ => apply elem_of_app; right
    end.
    apply elem_of_app. by left. }
  split; apply Hin; (eapply elem_of_concat; [|by apply elem_of_lookup_imap_2]);
    rewrite !elem_of_cons; auto.
Qed.

(** The three views agree and add up.  On a well-formed router the status
    page over HTTP and [GetStatus] over gRPC show the same readiness, the same
    connections, subscriptions and counters; the connections shown per
    protocol add up to the total, and are what the Prometheus gauges of the
    same moment say; and the subscription gauges add up to the total of the
    subscriptions. *)
Theorem status_views_agree st metadata response
    (Hok : router_ok (as_router st)) (Hgrpc : get_status metadata st = Ok response) :
  let page := status_page st in
  let s := status (as_router st) in
  let lines := prometheus_lines (st_metrics s) (st_active_connections s) (st_subscriptions s) in
  at_path ["ready"] page = Some (JBool (sp_ready response)) ∧
  (∀ name value, (name, value) ∈ [("active_connections", sp_active_connections response);
                                  ("subscriptions", sp_subscriptions response)] →
     at_path ["router"; name] page = Some (JNum value)) ∧
  (∀ name value, (name, value) ∈ [("kafka_messages", sp_kafka_messages response);
                                  ("valid_messages", sp_valid_messages response);
                                  ("invalid_messages", sp_invalid_messages response);
                                  ("delivered_connections", sp_delivered_connections response)] →
     at_path ["router"; "metrics"; name] page = Some (JNum value)) ∧
  ∃ connections subscriptions : DeliveryProtocol → Z,
    (∀ p, at_path ["connections_by_protocol"; protocol_as_str p] page
            = Some (JNum (connections p)) ∧
       Sample (labelled "router_active_connections" "protocol" (protocol_as_str p))
         (pretty (connections p)) ∈ lines ∧
       Sample (labelled "router_active_subscriptions" "protocol" (protocol_as_str p))
         (pretty (subscriptions p)) ∈ lines) ∧
    sumZ connections all_protocols = sp_active_connections response ∧
    sumZ subscriptions all_protocols = sp_subscriptions response.
Proof.
  unfold get_status in Hgrpc. bind_step Hgrpc as principal, _. injection Hgrpc as <-. cbv zeta.
  split_and!.
  - reflexivity.
  - intros name value. rewrite !elem_of_cons, elem_of_nil. intros [[= -> ->]|[[= -> ->]|[]]]; done.
  - intros name value. rewrite !elem_of_cons, elem_of_nil.
    intros [[= -> ->]|[[= -> ->]|[[= -> ->]|[[= -> ->]|[]]]]]; reflexivity.
  - exists (λ p, connections_by_protocol p (as_router st)),
      (λ p, map_sum (protocol_subscription_count p) (r_connections (as_router st))).
    split; [|split; [apply connections_add_up|apply subscriptions_add_up]].
    intros p. split; [by destruct p|].
    destruct (inv_gauges _ (proj1 Hok) p) as [Hc Hs]. by apply gauge_samples.
Qed.
End page.

(** ** Concrete inputs *)

#[local] Existing Instance example_jwt.

(** The router of the examples with its two connections, behind the API. *)
Definition status_api : ApiState (Fifo Delivery) string := {|
  as_config := as_config example_api; as_router := router5; as_auth := as_auth example_api;
  as_publisher := None; as_health := as_health example_api; as_limiter := as_limiter example_api |}.

Example status_page_connections :
  at_path ["router"; "active_connections"] (status_page status_api) = Some (JNum 2) ∧
  at_path ["connections_by_protocol"; "sse"] (status_page status_api) = Some (JNum 1).
Proof. split; vm_compute; reflexivity. Qed.
