(* ===== verification/Surface.v ===== *)
(** * The whole API surface

    [http_router] of http.rs with every handler behind its route, the four
    calls of the gRPC service, and the set-up of the two servers.  A call is
    what a client sends with what the outside answers while it is handled; the
    theorem says what any call, with or without a credential, can do to the
    router and to the publisher.  Routing and body limits are library code:
    [HttpServer] with [HttpServerLaws]. *)

From S2P Require Import Prelude Str Ids Message Route Metrics RouteIndex Channel Router.
From S2P Require Import RouterInv RouterDispatch RouterSpec RouterOps RouterExamples Limits.
From S2P Require Import Kafka KafkaSpec.
From S2P Require Import Wire Auth Publish Streams StreamsSpec StatusPage.
Open Scope Z_scope.

(** ** Routes *)

Inductive Method : Type := GET | HEAD | POST | OtherMethod (name : string).

Inductive Endpoint : Type :=
| EpLive | EpReady | EpMetrics | EpStatus | EpPublish | EpWebsocket | EpEvents.

(** The routes of [http_router]. *)
Definition http_router : list (string * Method * Endpoint) :=
  [("/health/live", GET, EpLive); ("/health/ready", GET, EpReady); ("/metrics", GET, EpMetrics);
   ("/v1/status", GET, EpStatus); ("/v1/publish", POST, EpPublish); ("/v1/ws", GET, EpWebsocket);
   ("/v1/events", GET, EpEvents)].

(** [axum]'s routing, with the status of a request that has no route, and
    [tower_http]'s limit on the announced length of a body. *)
Class HttpServer := {
  route : list (string * Method * Endpoint) → Method → string → result Z Endpoint;
  body_admitted : Z → option Z → bool;
}.

(** A request is routed to the handler registered for its path and method
    ([HEAD] is served by the handler of [GET]); a body announced longer than
    the limit is not admitted. *)
Class HttpServerLaws `{HttpServer} := {
  route_registered table method path e :
    route table method path = Ok e →
    ∃ m, (path, m, e) ∈ table ∧ (m = method ∨ m = GET ∧ method = HEAD);
  body_limited limit n : body_admitted limit (Some n) = true → n ≤ limit;
}.

(** ** Calls *)

(** What the outside answers while a call is handled: clocks, drawn ids, and
    the events of the session it may open. *)
Record Surroundings : Type := {
  su_readings : Readings;
  su_uuid : string;
  su_elapsed : Z;
  su_fresh : ConnectionId;
  su_now : Z;
  su_ws_events : list WsEvent;
  su_connect_events : list ConnectEvent;
}.

(** An HTTP request, with what the extractors make of it: a body or a query
    that cannot be read is [None]. *)
Record HttpRequest : Type := {
  rq_method : Method;
  rq_path : string;
  rq_headers : HeaderMap;
  rq_content_length : option Z;
  rq_body : option HttpPublishRequest;
  rq_upgrade : bool;
  rq_ws_query : option (option string * option Z);
  rq_sse_query : option SseQuery;
}.

Inductive HttpResponse : Type :=
| Refused (status : Z)
| Page (status : Z) (body : Json)
| Scrape (content_type text : string)
| Upgraded (frames : list Frame) (flow : Flow)
| EventStream (c : ConnectionId).

(** The calls of the gRPC service. *)
Inductive GrpcCall : Type :=
| CallPublish (request : PublishRequest)
| CallSubscribe (request : SubscribeRequest)
| CallConnect
| CallGetStatus.

Inductive GrpcReply : Type :=
| GrpcPublished (receipt : PublishReceipt)
| GrpcStream (c : ConnectionId)
| GrpcEvents (events : list ServerEvent) (ended : option (result Status unit))
| GrpcStatus (response : StatusResponse)
| GrpcRefused (status : Status).

Inductive ApiCall : Type :=
| OverHttp (request : HttpRequest)
| OverGrpc (metadata : HeaderMap) (call : GrpcCall).

Inductive Reply : Type :=
| HttpReply (response : HttpResponse)
| RpcReply (reply : GrpcReply).

(** [HttpPublishResponse], serialized. *)
Definition publish_response (receipt : PublishReceipt) : Json :=
  JObj [("message_id", JStr (pr_message_id receipt)); ("topic", JStr (pr_topic receipt));
        ("partition", JNum (pr_partition receipt)); ("offset", JNum (pr_offset receipt))].

Section surface.
Context `{Mpsc Delivery Chan} `{JwtLibrary Key} `{MimeParser} `{JsonCodec} `{Base64} `{WsCodec}.
Context `{HttpServer}.
Implicit Types (st : ApiState Chan Key).

Definition page (answer : Z * Json) : HttpResponse := Page answer.1 answer.2.

(** The handler of an endpoint: the state, the command handed to the
    publisher, and the response. *)
Definition endpoint (u : Surroundings) (e : Endpoint) (request : HttpRequest) st
    : ApiState Chan Key * option PublishCommand * HttpResponse :=
  match e with
  | EpLive => (st, None, page (live st))
  | EpReady => (st, None, page (ready st))
  | EpMetrics => let '(content_type, text) := metrics st in (st, None, Scrape content_type text)
  | EpStatus => (st, None, Page 200 (status_page st))
  | EpPublish =>
      let '(st, sent, res) := publish_http (su_readings u) (su_uuid u) (su_elapsed u)
        (rq_headers request) (rq_body request) st in
      (st, sent, match res with
                 | Ok receipt => Page 200 (publish_response receipt)
                 | Err e => page (error_response e)
                 end)
  | EpWebsocket =>
      match rq_upgrade request, rq_ws_query request with
      | true, Some (tenant_id, queue_capacity) =>
          match websocket (rq_headers request) tenant_id queue_capacity st with
          | Err e => (st, None, page (error_response e))
          | Ok (principal, capacity) =>
              let '(st, frames, flow) := websocket_session (su_fresh u) (su_now u) principal capacity
                (su_ws_events u) st in
              (st, None, Upgraded frames flow)
          end
      | _, _ => (st, None, Refused 400)
      end
  | EpEvents =>
      match rq_sse_query request with
      | None => (st, None, Refused 400)
      | Some query =>
          let '(st, res) := sse (su_fresh u) (rq_headers request) query st in
          (st, None, match res with Ok c => EventStream c | Err e => page (error_response e) end)
      end
  end.

(** A request at the application that [http_router] builds. *)
Definition serve_request (u : Surroundings) (request : HttpRequest) st
    : ApiState Chan Key * option PublishCommand * HttpResponse :=
  if body_admitted (ac_http_body_limit_bytes (as_config st)) (rq_content_length request) then
    match route http_router (rq_method request) (rq_path request) with
    | Err status => (st, None, Refused status)
    | Ok e => endpoint u e request st
    end
  else (st, None, Refused 413).

(** A call of the gRPC service. *)
Definition serve_call (u : Surroundings) (metadata : HeaderMap) (call : GrpcCall) st
    : ApiState Chan Key * option PublishCommand * GrpcReply :=
  match call with
  | CallPublish request =>
      let '(st, sent, res) := publish_grpc (su_readings u) (su_uuid u) (su_elapsed u) metadata
        request st in
      (st, sent, match res with Ok receipt => GrpcPublished receipt | Err e => GrpcRefused e end)
  | CallSubscribe request =>
      let '(st, res) := grpc_subscribe_stream (su_fresh u) metadata request st in
      (st, None, match res with Ok c => GrpcStream c | Err e => GrpcRefused e end)
  | CallConnect =>
      let '(st, events, ended) := connect (su_fresh u) metadata (su_connect_events u) st in
      (st, None, GrpcEvents events ended)
  | CallGetStatus =>
      (st, None, match get_status metadata st with
                 | Ok response => GrpcStatus response
                 | Err e => GrpcRefused e
                 end)
  end.

Definition serve (u : Surroundings) (call : ApiCall) st
    : ApiState Chan Key * option PublishCommand * Reply :=
  match call with
  | OverHttp request =>
      let '(st, sent, response) := serve_request u request st in (st, sent, HttpReply response)
  | OverGrpc metadata call =>
      let '(st, sent, reply) := serve_call u metadata call st in (st, sent, RpcReply reply)
  end.

(** Whether a session or a stream is still open after the reply. *)
Definition session_open (reply : Reply) : bool :=
  match reply with
  | HttpReply (Upgraded _ GoOn) | HttpReply (EventStream _)
  | RpcReply (GrpcStream _) | RpcReply (GrpcEvents _ None) => true
  | _ => false
  end.

(** Whom the headers of a call authenticate, for the tenant it names. *)
Definition authenticated (call : ApiCall) st (principal : Principal) : Prop :=
  match call with
  | OverHttp request =>
      ∃ requested, authenticate_http (as_auth st) (rq_headers request) requested = Ok principal
  | OverGrpc metadata _ =>
      ∃ requested, authenticate_grpc (as_auth st) metadata requested = Ok principal
  end.
End surface.

(** ** The servers *)

(** The future both servers hand to their graceful shutdown: it ends when the
    value is [true] or the sender is gone; [changes] are the outcomes of
    [changed], [None] an error. *)
Fixpoint shutdown_requested (value : bool) (changes : list (option bool)) : bool :=
  if value then true
  else match changes with
  | [] => false
  | None :: _ => true
  | Some value :: rest => shutdown_requested value rest
  end.

(** The limits [serve_grpc] sets on a decoded and an encoded message. *)
Definition grpc_message_limits (config : ApiConfig) : Z * Z :=
  (ac_grpc_max_decoding_message_bytes config, ac_grpc_max_encoding_message_bytes config).

(** The server [serve_grpc] builds: its settings and the services it adds. *)
Record GrpcServer : Type := {
  gs_concurrency_limit_per_connection : Z;
  gs_load_shed : bool;
  gs_http2_keepalive_interval_secs : Z;
  gs_http2_keepalive_timeout_secs : Z;
  gs_services : list string;
}.

Definition grpc_server (config : ApiConfig) : GrpcServer := {|
  gs_concurrency_limit_per_connection := ac_grpc_concurrency_limit config; gs_load_shed := true;
  gs_http2_keepalive_interval_secs := ac_grpc_keep_alive_interval_secs config;
  gs_http2_keepalive_timeout_secs := ac_grpc_keep_alive_timeout_secs config;
  gs_services := ["router"] ++ (if ac_grpc_health_enabled config then ["health"] else []) ++
                 (if ac_grpc_reflection_enabled config then ["reflection"] else []) |}.

Lemma shutdown_requested_spec value changes :
  shutdown_requested value changes = true ↔ value = true ∨ None ∈ changes ∨ Some true ∈ changes.
Proof.
  revert value. induction changes as [|[v|] rest IH]; intros []; simpl; try rewrite IH; try set_solver.
Qed.

(** ** What a call can do *)

Section confined.
Context `{MpscLaws Delivery Chan} `{JwtLibrary Key} `{MimeParser} `{JsonCodec} `{Base64} `{WsCodec}.
Context `{HttpServerLaws}.
Implicit Types (st : ApiState Chan Key) (r : RouterState Chan) (c : ConnectionId).

(** Only counters differ. *)
Definition counters_only r r' : Prop :=
  ∃ f, gauge_free f ∧ r' = with_metrics (λ _, f (r_metrics r)) r.

Lemma counters_only_refl r : counters_only r r.
Proof. exists id. split; [done|]. by destruct r. Qed.

Lemma counters_only_trans r1 r2 r3 : counters_only r1 r2 → counters_only r2 r3 → counters_only r1 r3.
Proof.
  intros (f & Hf & ->) (g & Hg & ->). exists (λ m, g (f m)). split; [|done].
  intros m. destruct (Hf m) as [<- <-]. apply Hg.
Qed.

Lemma counters_only_ok r r' : counters_only r r' → router_ok r → router_ok r'.
Proof. intros (f & Hf & ->) Hok. by apply (with_metrics_ok f). Qed.

Lemma counters_with_metrics f r : gauge_free f → counters_only r (with_metrics f r).
Proof. intros Hf. by exists f. Qed.

Lemma allow_rate_counters t tenant kind st :
  counters_only (as_router st) (as_router (state_allow_rate t tenant kind st).1).
Proof.
  unfold state_allow_rate, allow_rate. destruct (allow _ _ _ _ _ _ _) as [s ok]. simpl.
  exists (λ m, if ok then m else record_security_limit_rejection m). split; [by destruct ok|done].
Qed.

Lemma count_publish_counters {A E} protocol elapsed (res : result E A) st :
  counters_only (as_router st) (as_router (count_publish protocol elapsed res st)).
Proof.
  exists (λ m, let m := record_latency Publish elapsed m in
    if is_ok res then record_publish_acknowledged protocol m else record_publish_failure protocol m).
  split; [|done]. intros m. by destruct (is_ok res), protocol.
Qed.

Lemma publish_http_counters t uuid elapsed headers request st :
  counters_only (as_router st) (as_router (publish_http t uuid elapsed headers request st).1.1).
Proof.
  unfold publish_http. set (st1 := with_router _ st).
  apply (counters_only_trans _ (as_router st1)); [by apply counters_with_metrics|].
  assert (∀ o : ApiState Chan Key * option PublishCommand * result ApiError PublishReceipt,
    counters_only (as_router st1) (as_router o.1.1) →
    counters_only (as_router st1) (as_router (let '(st, sent, res) := o in
      (count_publish PublishHttp elapsed res st, sent, res)).1.1)) as Hcount.
  { intros [[st2 sent] res] Hc. eapply counters_only_trans; [exact Hc|apply count_publish_counters]. }
  apply Hcount. destruct request as [request|]; [|apply counters_only_refl].
  unfold publish_http_inner. destruct (_ ≫= _) as [principal|e]; [|apply counters_only_refl].
  pose proof (allow_rate_counters t (pl_tenant_id principal) Publish_ st1) as Ha.
  destruct (state_allow_rate _ _ _ _) as [st2 []]; [|done]. simpl in *.
  destruct (_ ≫= _); [|done]. by destruct (call_publisher _ _).
Qed.

Lemma publish_grpc_counters t uuid elapsed metadata request st :
  counters_only (as_router st) (as_router (publish_grpc t uuid elapsed metadata request st).1.1).
Proof.
  unfold publish_grpc. set (st1 := with_router _ st).
  apply (counters_only_trans _ (as_router st1)); [by apply counters_with_metrics|].
  assert (counters_only (as_router st1)
    (as_router (publish_grpc_inner t uuid metadata request st1).1.1)) as Hc.
  { unfold publish_grpc_inner. destruct (map_err _ _) as [principal|e]; [|apply counters_only_refl].
    pose proof (allow_rate_counters t (pl_tenant_id principal) Publish_ st1) as Ha.
    destruct (state_allow_rate _ _ _ _) as [st2 []]; [|done]. simpl in *.
    destruct (validate_command _ _); [|done]. by destruct (call_publisher _ _). }
  destruct (publish_grpc_inner _ _ _ _ _) as [[st2 sent] res]. simpl in *.
  eapply counters_only_trans; [exact Hc|apply count_publish_counters].
Qed.

(** The effect of a call: nothing on other connections and their queues; a
    connection of its own only for a principal that may subscribe, and a
    command for the publisher only for one that may publish; nothing is left
    once no session is open. *)
Record call_effect (call : ApiCall) c st st' (sent : option PublishCommand) (reply : Reply)
    : Prop := {
  ce_ok : router_ok (as_router st');
  ce_others : extends_by [c] (as_router st) (as_router st');
  ce_queues : queues_kept c (as_router st) (as_router st');
  ce_own conn : r_connections (as_router st') !! c = Some conn →
    ∃ principal, authenticated call st principal ∧ pl_can_subscribe principal = true ∧
      cs_tenant_id conn = pl_tenant_id principal ∧
      ∀ sid f, cs_subscriptions conn !! sid = Some f →
        filter_ok f ∧ rf_tenant_id f = pl_tenant_id principal;
  ce_sent command : sent = Some command →
    ∃ principal, authenticated call st principal ∧ pl_can_publish principal = true ∧
      pc_tenant_id command = pl_tenant_id principal;
  ce_over : session_open reply = false → same_subscriptions (as_router st') (as_router st);
}.

Lemma effect_counters call c st st' sent reply :
  router_ok (as_router st) → r_connections (as_router st) !! c = None →
  counters_only (as_router st) (as_router st') →
  (∀ command, sent = Some command → ∃ principal, authenticated call st principal ∧
     pl_can_publish principal = true ∧ pc_tenant_id command = pl_tenant_id principal) →
  call_effect call c st st' sent reply.
Proof.
  intros Hok Hnew Hc Hsent. pose proof (counters_only_ok _ _ Hc Hok) as Hok'.
  destruct Hc as (f & Hf & Hr). split; try done; rewrite Hr; simpl; try done. by rewrite Hnew.
Qed.

Lemma effect_nothing call c st reply :
  router_ok (as_router st) → r_connections (as_router st) !! c = None →
  call_effect call c st st None reply.
Proof. intros Hok Hnew. by apply effect_counters; [..|apply counters_only_refl|]. Qed.

Lemma effect_session call c st st' principal reply :
  authenticated call st principal → pl_can_subscribe principal = true →
  session_ok (pl_tenant_id principal) c (as_router st) (as_router st') →
  (session_open reply = false → same_subscriptions (as_router st') (as_router st)) →
  call_effect call c st st' None reply.
Proof.
  intros Hauth Hsub Hs Hover. pose proof Hs as [Hok Hext Hk Ht]. split; try done.
  intros conn Hc. exists principal. split_and!; [done..|by apply Ht|].
  intros sid f. by eapply session_filters.
Qed.

Lemma effect_stream {E} call auth c st st' (res : result E ConnectionId) reply :
  router_ok (as_router st) → r_connections (as_router st) !! c = None →
  (∀ principal, auth = Ok principal → authenticated call st principal) →
  stream_outcome c auth st st' res → (is_ok res = true → session_open reply = true) →
  call_effect call c st st' None reply.
Proof.
  intros Hok Hnew Hauth Ho Hopen.
  destruct Ho as [[-> _]|(principal & Hp & Hsub & Hs & Hres)]; [by apply effect_nothing|].
  eapply effect_session; [by eauto|done..|]. intros Hclosed.
  destruct res; [|done]. rewrite Hopen in Hclosed; done.
Qed.

(** Unsigned fields of a call are not negative. *)
Definition call_unsigned (call : ApiCall) : Prop :=
  match call with
  | OverHttp request =>
      (∀ t n, rq_ws_query request = Some (t, Some n) → 0 ≤ n) ∧
      (∀ q n, rq_sse_query request = Some q → sq_queue_capacity q = Some n → 0 ≤ n)
  | OverGrpc _ (CallSubscribe request) => ∀ n, sb_queue_capacity request = Some n → 0 ≤ n
  | OverGrpc _ _ => True
  end.

Lemma endpoint_effect u e request st st' sent response :
  router_ok (as_router st) → r_connections (as_router st) !! su_fresh u = None →
  0 ≤ ac_stream_queue_capacity (as_config st) → call_unsigned (OverHttp request) →
  endpoint u e request st = (st', sent, response) →
  call_effect (OverHttp request) (su_fresh u) st st' sent (HttpReply response).
Proof.
  intros Hok Hnew Hcap [Hws Hsse] Hrun. unfold endpoint, metrics in Hrun.
  destruct e; try (simplify_eq; by apply effect_nothing).
  - pose proof (publish_http_counters (su_readings u) (su_uuid u) (su_elapsed u) (rq_headers request)
      (rq_body request) st) as Hc.
    unfold publish_http in Hrun, Hc. set (st1 := with_router _ st) in *.
    destruct (match rq_body request with Some _ => _ | None => _ end)
      as [[st2 sent2] res] eqn:Einner.
    injection Hrun as <- <- <-. apply effect_counters; [done|done|exact Hc|]. intros command ->.
    destruct (rq_body request) as [body|]; [|done].
    apply publish_http_inner_sent in Einner as (principal & Hauth & Hp & _ & _ & Ht & _).
    exists principal. split; [by eexists|done].
  - destruct (rq_upgrade request); [|simplify_eq; by apply effect_nothing].
    destruct (rq_ws_query request) as [[tenant cap]|]; [|simplify_eq; by apply effect_nothing].
    destruct (websocket _ _ _ _) as [[principal capacity]|e] eqn:Ew;
      [|simplify_eq; by apply effect_nothing].
    unfold websocket in Ew. bind_step Ew as p, Hauth. bind_step Ew as [], _.
    guard_step Ew as Hsub. bind_step Ew as n, Hn%map_err_Ok. injection Ew as -> ->.
    destruct (websocket_session _ _ _ _ _ _) as [[st2 frames] flow] eqn:Es. simplify_eq.
    apply websocket_session_spec in Es as [Hs Hend]; [|done..|].
    + eapply effect_session; [by eexists|done..|]. destruct flow; [done|]. by intros _; apply Hend.
    + eapply resolved_capacity; [exact Hcap| |exact Hn]. intros n ->. by eapply Hws.
  - destruct (rq_sse_query request) as [query|]; [|simplify_eq; by apply effect_nothing].
    destruct (sse _ _ _ _) as [st2 res] eqn:Es. simplify_eq.
    apply sse_spec in Es; [|done..|by eauto].
    eapply effect_stream; [done..| |exact Es|by destruct res]. intros principal Hp. by eexists.
Qed.

Lemma serve_effect u call st st' sent reply :
  router_ok (as_router st) → r_connections (as_router st) !! su_fresh u = None →
  0 ≤ ac_stream_queue_capacity (as_config st) → call_unsigned call →
  serve u call st = (st', sent, reply) → call_effect call (su_fresh u) st st' sent reply.
Proof.
  intros Hok Hnew Hcap Hun Hrun. destruct call as [request|metadata call]; simpl in Hrun.
  - unfold serve_request in Hrun.
    destruct (body_admitted _ _); [|simplify_eq; by apply effect_nothing].
    destruct (route _ _ _) as [e|status]; [|simplify_eq; by apply effect_nothing].
    destruct (endpoint u e request st) as [[st2 sent2] response] eqn:E. simplify_eq.
    by eapply endpoint_effect.
  - destruct call as [request|request| |]; simpl in Hrun, Hun.
    + pose proof (publish_grpc_counters (su_readings u) (su_uuid u) (su_elapsed u) metadata request st)
        as Hc.
      unfold publish_grpc in Hrun, Hc. set (st1 := with_router _ st) in *.
      destruct (publish_grpc_inner _ _ _ _ _) as [[st2 sent2] res] eqn:Einner.
      injection Hrun as <- <- <-. apply effect_counters; [done|done|exact Hc|]. intros command ->.
      apply publish_grpc_inner_sent in Einner as (principal & Hauth & Hp & _ & _ & Ht & _).
      exists principal. split; [by eexists|done].
    + destruct (grpc_subscribe_stream _ _ _ _) as [st2 res] eqn:Es. simplify_eq.
      apply grpc_subscribe_spec in Es; [|done..].
      eapply effect_stream; [done..| |exact Es|by destruct res]. intros principal Hp. by eexists.
    + destruct (connect _ _ _ _) as [[st2 events] ended] eqn:Es. simplify_eq.
      apply connect_spec in Es as [[-> _]|(principal & Hauth & Hsub & Hs & Hend)];
        [|..|done|done|done].
      * by apply effect_nothing.
      * eapply effect_session; [by eexists|done..|]. destruct ended; [by eauto|done].
    + simplify_eq. by apply effect_nothing.
Qed.

(** A command comes from the publish route, within the body limit. *)
Lemma published_route u request st st' command response :
  serve_request u request st = (st', Some command, response) →
  rq_method request = POST ∧ rq_path request = "/v1/publish" ∧
  ∀ n, rq_content_length request = Some n → n ≤ ac_http_body_limit_bytes (as_config st).
Proof.
  unfold serve_request. destruct (body_admitted _ _) eqn:Hb; [|done].
  destruct (route _ _ _) as [e|status] eqn:Hr; [|done]. intros Hrun.
  assert (e = EpPublish) as ->.
  { unfold endpoint, metrics in Hrun. destruct e; [done..| | |]; repeat case_match; by simplify_eq. }
  apply route_registered in Hr as (m & Hin & Hm). unfold http_router in Hin.
  rewrite !elem_of_cons, elem_of_nil in Hin. split_and!.
  - naive_solver.
  - naive_solver.
  - intros n Hn. rewrite Hn in Hb. by apply body_limited.
Qed.

(** (C16) No call of the API reaches beyond its credential.  Whatever a client
    sends to any endpoint, over HTTP or gRPC, and whatever it does in the
    session it opens: the router stays well formed; the connections, index
    entries and queues that existed are untouched; if there is a new
    connection it belongs to the tenant of a principal whom the headers of the
    call authenticate and who may subscribe, as do its filters; a command is
    handed to the publisher only under the tenant of such a principal who may
    publish.  Once no session is open, because the call was refused or answered
    or the session has ended, the connections and the index are those of
    before.  A call that authenticates nobody changes no table and publishes
    nothing.  Over HTTP, only a POST to the publish route with a body announced
    within the limit publishes. *)
Theorem api_calls_confined u call st st' sent reply
    (Hok : router_ok (as_router st)) (Hnew : r_connections (as_router st) !! su_fresh u = None)
    (Hcap : 0 ≤ ac_stream_queue_capacity (as_config st)) (Hun : call_unsigned call)
    (Hrun : serve u call st = (st', sent, reply)) :
  call_effect call (su_fresh u) st st' sent reply ∧
  ((∀ principal, ¬ authenticated call st principal) →
     same_subscriptions (as_router st') (as_router st) ∧ sent = None) ∧
  (∀ request command, call = OverHttp request → sent = Some command →
     rq_method request = POST ∧ rq_path request = "/v1/publish" ∧
     ∀ n, rq_content_length request = Some n → n ≤ ac_http_body_limit_bytes (as_config st)).
Proof.
  pose proof (serve_effect _ _ _ _ _ _ Hok Hnew Hcap Hun Hrun) as He.
  split; [done|]. split.
  2: { intros request command -> ->. simpl in Hrun.
       destruct (serve_request u request st) as [[st2 sent2] response] eqn:E. simplify_eq.
       by eapply published_route. }
  intros Hnobody. destruct He as [Hok' [Hcfg Hext] Hk Hown Hsent _]. split.
  - apply (unregister_all_restores [] (as_router st) (as_router st'));
      [apply Hok|apply Hok'|set_solver|].
    split; [done|]. intros c _. destruct (decide (c = su_fresh u)) as [->|Hne].
    + assert (r_connections (as_router st') !! su_fresh u = None) as Hno.
      { apply eq_None_not_Some. intros [conn Hc]. destruct (Hown _ Hc) as (p & Hp & _). by eapply Hnobody. }
      split; [congruence|]. intros key.
      rewrite (index_absent _ _ _ _ (inv_index _ (proj1 Hok')) Hno).
      by rewrite (index_absent _ _ _ _ (inv_index _ (proj1 Hok)) Hnew).
    + apply Hext. set_solver.
  - destruct sent as [command|]; [|done]. destruct (Hsent _ eq_refl) as (p & Hp & _).
    by destruct (Hnobody p).
Qed.
End confined.

(** ** Concrete inputs *)

#[local] Existing Instances example_json example_jwt padded KafkaSpec.example_mime example_ws.

#[local] Instance Method_eq_dec : EqDecision Method.
Proof. solve_decision. Defined.

(** Routing by the first entry of the path. *)
#[local] Instance table_server : HttpServer := {|
  route table method path :=
    match list_find (λ entry : string * Method * Endpoint, entry.1.1 = path) table with
    | None => Err 404
    | Some (_, (_, m, e)) =>
        if decide (m = method ∨ m = GET ∧ method = HEAD) then Ok e else Err 405
    end;
  body_admitted limit length := match length with Some n => n <=? limit | None => true end |}.
#[local] Instance table_server_laws : HttpServerLaws.
Proof.
  split.
  - intros table method path e. unfold route, table_server.
    destruct (list_find _ table) as [[i [[p m] e']]|] eqn:E; [|done]. case_decide; [|done].
    intros [= ->]. apply list_find_Some in E as (Hi & Hp & _). simpl in Hp. subst p. exists m.
    split; [|done]. by eapply list_elem_of_lookup_2.
  - intros limit n Hn. by apply Z.leb_le.
Qed.

Definition bare_request (method : Method) (path : string) : HttpRequest := {|
  rq_method := method; rq_path := path; rq_headers := λ _, None; rq_content_length := None;
  rq_body := None; rq_upgrade := true; rq_ws_query := Some (Some "acme", Some 4);
  rq_sse_query := Some example_query |}.
Definition example_surroundings : Surroundings := {|
  su_readings := {| rd_now := 1; rd_t1 := 1; rd_t2 := 1 |}; su_uuid := "u"; su_elapsed := 0;
  su_fresh := 7; su_now := 0; su_ws_events := take 1 example_ws_events; su_connect_events := [] |}.

(** The API of the examples with a static token, and a request without one. *)
Definition token_api : ApiState (Fifo Delivery) string := {|
  as_config := as_config example_api; as_router := as_router example_api;
  as_auth := {| an_config := {| au_mode := StaticBearer; au_default_tenant := None;
                  au_tenant_header := ""; au_bearer_tokens := {["secret" := "acme"]};
                  au_publish_tenants := {["acme"]}; au_jwt := JwtConfig_default;
                  au_proxy_identity_header := ""; au_proxy_identities := ∅ |}; an_jwks := ∅ |};
  as_publisher := as_publisher example_api; as_health := as_health example_api;
  as_limiter := as_limiter example_api |}.

Example surface_responses :
  let status request := match (serve_request example_surroundings request token_api).2 with
    | Refused status | Page status _ => Some status | _ => None end in
  (status <$> [bare_request GET "/health/live"; bare_request GET "/v1/status";
               bare_request POST "/v1/publish"; bare_request GET "/v1/ws";
               bare_request GET "/v1/events"; bare_request GET "/v1/publish";
               bare_request GET "/admin"])
  = [Some 503; Some 200; Some 400; Some 401; Some 401; Some 405; Some 404].
Proof. vm_compute. reflexivity. Qed.

Lemma api_calls_confined_witness :
  ∃ st' reply, serve example_surroundings (OverHttp (bare_request GET "/v1/ws")) token_api
    = (st', None, reply) ∧ same_subscriptions (as_router st') (as_router token_api).
Proof.
  destruct (serve example_surroundings (OverHttp (bare_request GET "/v1/ws")) token_api)
    as [[st' sent] reply] eqn:E.
  destruct (api_calls_confined example_surroundings (OverHttp (bare_request GET "/v1/ws")) token_api
    st' sent reply example_api_ok ltac:(reflexivity) ltac:(vm_compute; discriminate)
    ltac:(split; [intros t n [= <- <-]; lia|intros q n [= <-] [= <-]; lia]) E) as (_ & H & _).
  destruct H as [Hsame ->].
  - intros principal [requested Hauth]. discriminate Hauth.
  - exists st', reply. split; [reflexivity|exact Hsame].
Defined.
