(* ===== verification/Webhook.v ===== *)
(** * Volatile webhooks

    router-webhook's [config.rs] and [manager.rs]: destinations, the worker
    that owns one of them, the request of an attempt and the bounded retry
    loop.  The HTTP header types, the HMAC and the HTTP client are library
    code: their entry points are parameters. *)

From S2P Require Import Prelude Str Ids Message Route Metrics RouteIndex Channel Router.
From S2P Require Import RouterInv RouterDispatch RouterSpec RouterOps Kafka Wire Security.
Open Scope Z_scope.

(** ** Configuration *)

(** [WebhookDeliveryMode]. *)
Inductive WebhookDeliveryMode : Type := Volatile | DurableMode.

(** The defaults of the settings. *)
Definition default_durable_brokers : string := "localhost:9092".
Definition default_durable_client_id : string := "kafka-edge-router-webhook".
Definition default_durable_group_id : string := "kafka-edge-router-webhook".
Definition default_delivery_topic : string := "router.webhook.delivery".
Definition default_retry_topic : string := "router.webhook.retry".
Definition default_dead_letter_topic : string := "router.webhook.dead-letter".
Definition default_delivery_timeout_ms : Z := 10_000.
Definition default_max_record_bytes : Z := 2_097_152.
Definition default_max_recovery_records : Z := 10_000.
Definition default_queue_capacity : Z := 256.
Definition default_timeout_ms : Z := 5_000.
Definition default_max_attempts : Z := 5.
Definition default_initial_backoff_ms : Z := 250.
Definition default_max_backoff_ms : Z := 30_000.

(** [DurableWebhookConfig] with its defaults. *)
Record DurableWebhookConfig : Type := {
  dw_brokers : string;
  dw_client_id : string;
  dw_group_id : string;
  dw_delivery_topic : string;
  dw_retry_topic : string;
  dw_dead_letter_topic : string;
  dw_delivery_timeout_ms : Z;
  dw_max_record_bytes : Z;
  dw_max_recovery_records : Z;
  dw_properties : gmap string string;
}.

Definition DurableWebhookConfig_default : DurableWebhookConfig := {|
  dw_brokers := default_durable_brokers; dw_client_id := default_durable_client_id;
  dw_group_id := default_durable_group_id; dw_delivery_topic := default_delivery_topic;
  dw_retry_topic := default_retry_topic; dw_dead_letter_topic := default_dead_letter_topic;
  dw_delivery_timeout_ms := default_delivery_timeout_ms; dw_max_record_bytes := default_max_record_bytes;
  dw_max_recovery_records := default_max_recovery_records; dw_properties := ∅ |}.

(** [WebhookDestinationConfig]; the optional fields with their defaults. *)
Record WebhookDestinationConfig : Type := {
  wd_id : string;
  wd_url : string;
  wd_filter : RouteFilter;
  wd_queue_capacity : Z;
  wd_timeout_ms : Z;
  wd_max_attempts : Z;
  wd_initial_backoff_ms : Z;
  wd_max_backoff_ms : Z;
  wd_signing_secret : option string;
  wd_headers : gmap string string;
  wd_allowed_hosts : list string;
  wd_allowed_ports : list Z;
  wd_allow_private_ips : bool;
  wd_allow_http : bool;
}.

Definition WebhookDestinationConfig_default (id url : string) (filter : RouteFilter)
    : WebhookDestinationConfig := {|
  wd_id := id; wd_url := url; wd_filter := filter; wd_queue_capacity := default_queue_capacity;
  wd_timeout_ms := default_timeout_ms; wd_max_attempts := default_max_attempts; wd_initial_backoff_ms := default_initial_backoff_ms;
  wd_max_backoff_ms := default_max_backoff_ms; wd_signing_secret := None; wd_headers := ∅;
  wd_allowed_hosts := []; wd_allowed_ports := []; wd_allow_private_ips := false;
  wd_allow_http := false |}.

(** [WebhookConfig]. *)
Record WebhookConfig : Type := {
  wc_enabled : bool;
  wc_mode : WebhookDeliveryMode;
  wc_durable : DurableWebhookConfig;
  wc_destinations : list WebhookDestinationConfig;
}.

(** ** Requests *)

(** The [http], [hmac]/[sha2] and [hex] crates: [HeaderName::from_bytes]
    (whose [as_str] is the canonical name), [HeaderValue::from_str], the MAC
    of a body under a secret, its hexadecimal text, the [Display] of a status,
    and the error of reqwest's [ClientBuilder::build], if any. *)
Class HttpTypes := {
  header_name : string → result string string;
  header_value : string → result string string;
  hmac_sha256 : string → string → string;
  hex_encode : string → string;
  status_text : Z → string;
  client_build : PinnedClient → option string;
}.

(** The names [parse_headers] refuses. *)
Definition reserved_headers : list string :=
  ["host"; "content-length"; "content-type"; "user-agent"; "idempotency-key";
   "x-router-message-id"; "x-router-attempt"; "x-router-signature"].

(** The loop of [parse_headers]; a [BTreeMap] iterates in key order. *)
Fixpoint parse_header_list `{HttpTypes} (values : list (string * string))
    : result WebhookError (list (string * string)) :=
  match values with
  | [] => Ok []
  | (name, value) :: rest =>
    parsed_name ← map_err (InvalidHeader name) (header_name name);
    _ ← ensure (negb (bool_decide (parsed_name ∈ reserved_headers)))
          (InvalidHeader name "reserved transport header");
    parsed_value ← map_err (InvalidHeader name) (header_value value);
    headers ← parse_header_list rest;
    Ok ((parsed_name, parsed_value) :: headers)
  end.

Definition parse_headers `{HttpTypes} (values : gmap string string)
    : result WebhookError (list (string * string)) :=
  parse_header_list (btree_entries values).

(** [retryable_status] and the status classes it uses. *)
Definition is_success (status : Z) : bool := in_range 200 299 status.
Definition retryable_status (status : Z) : bool :=
  (status =? 408) || (status =? 425) || (status =? 429) || in_range 500 599 status.

(** [signature]. *)
Definition signature `{HttpTypes} (secret body : string) : string :=
  "sha256=" +:+ hex_encode (hmac_sha256 secret body).

(** A request as it leaves: the pinned client, the target, the headers in
    order and the body. *)
Record HttpRequest : Type := {
  rq_client : PinnedClient;
  rq_url : Url;
  rq_headers : list (string * string);
  rq_body : string;
}.

(** What the HTTP client answers: a status, or an error of some kind. *)
Inductive HttpOutcome : Type :=
| Response (status : Z)
| TransportError (is_timeout is_connect is_request : bool) (text : string).

(** The headers of an attempt. *)
Definition attempt_headers `{HttpTypes} (version message_id : string) (attempt : Z)
    (extra : list (string * string)) (secret : option string) (body : string)
    : list (string * string) :=
  [("content-type", "application/json"); ("user-agent", "kafka-edge-router/" +:+ version);
   ("x-router-message-id", message_id); ("idempotency-key", message_id);
   ("x-router-attempt", pretty attempt)] ++ extra ++
  match secret with
  | Some secret => [("x-router-signature", signature secret body)]
  | None => []
  end.

(** ** Workers *)

(** [WebhookWorker]; durations are nanoseconds. *)
Record WebhookWorker : Type := {
  ww_id : string;
  ww_url : Url;
  ww_allow_private_ips : bool;
  ww_timeout : Z;
  ww_headers : list (string * string);
  ww_signing_secret : option string;
  ww_max_attempts : Z;
  ww_initial_backoff : Z;
  ww_max_backoff : Z;
  ww_connection_id : ConnectionId;
}.

Definition from_millis (ms : Z) : Z := ms * 1_000_000.

(** [Duration::MAX] in nanoseconds. *)
Definition duration_max : Z := u64_max * 1_000_000_000 + 999_999_999.

Section worker.
Context `{Mpsc Delivery Chan} `{UrlParser} `{HttpTypes}.
Implicit Types (r : RouterState Chan).

(** [WebhookWorker::new]; [fresh] is the connection id that is drawn. *)
Definition WebhookWorker_new (fresh : ConnectionId) (config : WebhookDestinationConfig) r
    : RouterState Chan * result WebhookError WebhookWorker :=
  let checks :=
    url ← validate_destination_url (wd_url config) (wd_allowed_hosts config)
            (wd_allow_private_ips config) (wd_allow_http config);
    _ ← validate_destination_port url (wd_allowed_ports config);
    headers ← parse_headers (wd_headers config);
    Ok (url, headers) in
  match checks with
  | Err e => (r, Err e)
  | Ok (url, headers) =>
    match register_connection fresh (rf_tenant_id (wd_filter config)) HttpWebhook
            (Some (wd_queue_capacity config)) r with
    | (r, Err error) => (r, Err (Registration (wd_id config) (CoreError_to_string error)))
    | (r, Ok connection_id) =>
      match SubscriptionId_new ("webhook:" +:+ wd_id config) with
      | Err error => (unregister_connection connection_id r,
                      Err (Registration (wd_id config) (CoreError_to_string error)))
      | Ok subscription_id =>
        match subscribe connection_id subscription_id (wd_filter config) r with
        | (r, Err error) => (unregister_connection connection_id r,
                             Err (Registration (wd_id config) (CoreError_to_string error)))
        | (r, Ok _) =>
          (r, Ok {| ww_id := wd_id config; ww_url := url;
                    ww_allow_private_ips := wd_allow_private_ips config;
                    ww_timeout := from_millis (Z.max (wd_timeout_ms config) 1);
                    ww_headers := headers; ww_signing_secret := wd_signing_secret config;
                    ww_max_attempts := Z.max (wd_max_attempts config) 1;
                    ww_initial_backoff := from_millis (Z.max (wd_initial_backoff_ms config) 1);
                    ww_max_backoff := from_millis (Z.max (wd_max_backoff_ms config)
                                        (Z.max (wd_initial_backoff_ms config) 1));
                    ww_connection_id := connection_id |})
        end
      end
    end
  end.

(** Dropping workers removes their connections. *)
Definition drop_workers (workers : list WebhookWorker) r : RouterState Chan :=
  unregister_all (ww_connection_id <$> workers) r.

(** [WebhookManager::new] in volatile mode: one worker per destination, in
    order; the first failure drops the workers built so far.  [fresh i] is
    the connection id drawn for the [i]-th destination. *)
Fixpoint new_workers (fresh : nat → ConnectionId) (i : nat) (built : list WebhookWorker)
    (destinations : list WebhookDestinationConfig) r
    : RouterState Chan * result WebhookError (list WebhookWorker) :=
  match destinations with
  | [] => (r, Ok built)
  | destination :: rest =>
    match WebhookWorker_new (fresh i) destination r with
    | (r, Err e) => (drop_workers built r, Err e)
    | (r, Ok worker) => new_workers fresh (i + 1) (built ++ [worker]) rest r
    end
  end.
End worker.

(** [AttemptResult]. *)
Inductive AttemptResult : Type :=
| Delivered (status : Z)
| Retryable (reason : string)
| Permanent (reason : string).

(** [WebhookWorker::send_attempt]; [lookup] resolves names and [send] is the
    HTTP exchange. *)
Definition send_attempt `{HttpTypes} (version : string)
    (lookup : string → Z → option (list (IpAddr * Z))) (send : HttpRequest → HttpOutcome)
    (error_text : WebhookError → string) (w : WebhookWorker) (body message_id : string) (attempt : Z)
    : AttemptResult :=
  match pinned_client lookup client_build (ww_url w) (ww_allow_private_ips w) (ww_timeout w) with
  | Err error => Permanent (error_text error)
  | Ok client =>
    match send {| rq_client := client; rq_url := ww_url w; rq_body := body;
                  rq_headers := attempt_headers version message_id attempt (ww_headers w)
                                  (ww_signing_secret w) body |} with
    | Response status =>
        if is_success status then Delivered status
        else if retryable_status status then Retryable ("HTTP " +:+ status_text status)
        else Permanent ("HTTP " +:+ status_text status)
    | TransportError is_timeout is_connect is_request text =>
        if is_timeout || is_connect || is_request then Retryable text else Permanent text
    end
  end.

(** The loop of [WebhookWorker::deliver]: [remaining] attempts are left from
    number [attempt] on, and [delay] is the next sleep.  [outcome] gives the
    result of an attempt and how long it took.  The log lists the attempts
    with the sleep that followed. *)
Fixpoint deliver_loop (w : WebhookWorker) (outcome : Z → AttemptResult * Z) (remaining : nat)
    (attempt delay : Z) (m : Metrics) : Metrics * list (Z * option Z) :=
  match remaining with
  | O => (m, [])
  | S remaining =>
    let '(result, elapsed) := outcome attempt in
    let m := record_latency WebhookAttempt elapsed (record_webhook_attempt m) in
    match result with
    | Delivered _ => (record_webhook_success m, [(attempt, None)])
    | Permanent _ => (record_webhook_failure m, [(attempt, None)])
    | Retryable _ =>
      if attempt <? ww_max_attempts w then
        let '(m, log) := deliver_loop w outcome remaining (attempt + 1)
                           (Z.min (sat_mul duration_max delay 2) (ww_max_backoff w)) m in
        (m, (attempt, Some delay) :: log)
      else (record_webhook_failure m, [(attempt, None)])
    end
  end.

(** [WebhookWorker::deliver]. *)
Definition webhook_deliver (w : WebhookWorker) (outcome : Z → AttemptResult * Z) (m : Metrics)
    : Metrics * list (Z * option Z) :=
  deliver_loop w outcome (Z.to_nat (ww_max_attempts w)) 1 (ww_initial_backoff w) m.

(** A turn of [WebhookWorker::run]: a change of the shutdown flag, or the
    answer of [receiver.recv()]. *)
Inductive WorkerEvent : Type :=
| WorkerShutdown (changed_is_err value : bool)
| WorkerDelivery (delivery : option Delivery) (shutdown_now : bool).

(** [WebhookWorker::run] on a sequence of turns, each with the flag at the top
    of the loop; returns the deliveries handled and how it ended ([None]: the
    sequence is exhausted). *)
Fixpoint worker_run (events : list (bool * WorkerEvent))
    : list Delivery * option (result string unit) :=
  match events with
  | [] => ([], None)
  | (shutdown, e) :: rest =>
    if shutdown then ([], Some (Ok tt))
    else match e with
    | WorkerShutdown err value => if err || value then ([], Some (Ok tt)) else worker_run rest
    | WorkerDelivery (Some d) _ => let '(ds, res) := worker_run rest in (d :: ds, res)
    | WorkerDelivery None now =>
        ([], Some (if now then Ok tt else Err "core delivery queue closed"))
    end
  end.

(** The results of [WebhookManager::run]'s [join_next], each with the shutdown
    flag when it is inspected. *)
Inductive JoinResult : Type :=
| Finished (result : result WebhookError unit)
| JoinFailed (text : string).

Fixpoint manager_run (joined : list (JoinResult * bool)) : result WebhookError unit :=
  match joined with
  | [] => Ok tt
  | (Finished (Ok _), true) :: rest => manager_run rest
  | (Finished (Ok _), false) :: _ => Err (Worker "unknown" "worker exited before shutdown")
  | (Finished (Err e), _) :: _ => Err e
  | (JoinFailed text, _) :: _ => Err (Worker "unknown" text)
  end.

(** ** Attempts *)

(** The attempts from number [k] on, of which the last is [n]: each but the
    last is followed by a sleep. *)
Definition attempt_log (initial max_backoff : Z) (k n : Z) : list (Z * option Z) :=
  (λ i, (i, if i <? n then Some (Z.min (initial * 2 ^ (i - 1)) max_backoff) else None))
    <$> seqZ k (n - k + 1).

Definition is_retryable (r : AttemptResult) : bool :=
  match r with Retryable _ => true | _ => false end.

Definition is_delivered (r : AttemptResult) : bool :=
  match r with Delivered _ => true | _ => false end.

(** What the counters of a finished delivery show. *)
Definition attempts_counted (m m' : Metrics) (n : Z) (delivered : bool) : Prop :=
  load m' c_webhook_attempts = wrap64 (load m c_webhook_attempts + n) ∧
  load m' c_webhook_successes =
    (if delivered then wrap64 (load m c_webhook_successes + 1) else load m c_webhook_successes) ∧
  load m' c_webhook_failures =
    (if delivered then load m c_webhook_failures else wrap64 (load m c_webhook_failures + 1)).

Lemma load_record_latency stage ns m c : load (record_latency stage ns m) c = load m c.
Proof. done. Qed.

Section attempts.
Context (w : WebhookWorker) (outcome : Z → AttemptResult * Z).
Context (Hinit : 0 < ww_initial_backoff w) (Hmax : ww_initial_backoff w ≤ ww_max_backoff w).
Context (Hdur : ww_max_backoff w ≤ duration_max).

(** The next delay doubles up to the limit. *)
Lemma next_delay k :
  0 ≤ k →
  Z.min (sat_mul duration_max (Z.min (ww_initial_backoff w * 2 ^ k) (ww_max_backoff w)) 2)
    (ww_max_backoff w) = Z.min (ww_initial_backoff w * 2 ^ (k + 1)) (ww_max_backoff w).
Proof.
  intros Hk. rewrite Z.pow_add_r by lia. change (2 ^ 1) with 2.
  assert (0 < 2 ^ k) by (apply Z.pow_pos_nonneg; lia).
  set (x := ww_initial_backoff w * 2 ^ k). assert (0 < x) by (unfold x; nia).
  replace (ww_initial_backoff w * (2 ^ k * 2)) with (x * 2) by (unfold x; lia).
  unfold sat_mul. lia.
Qed.

Lemma attempt_log_cons k n :
  k < n →
  attempt_log (ww_initial_backoff w) (ww_max_backoff w) k n =
  (k, Some (Z.min (ww_initial_backoff w * 2 ^ (k - 1)) (ww_max_backoff w))) ::
    attempt_log (ww_initial_backoff w) (ww_max_backoff w) (k + 1) n.
Proof.
  intros Hk. unfold attempt_log. rewrite seqZ_cons by lia. rewrite fmap_cons.
  rewrite (proj2 (Z.ltb_lt k n)) by lia. f_equal.
  replace (Z.succ k) with (k + 1) by lia. by replace (Z.pred (n - k + 1)) with (n - (k + 1) + 1) by lia.
Qed.

Lemma attempt_log_last k :
  attempt_log (ww_initial_backoff w) (ww_max_backoff w) k k = [(k, None)].
Proof.
  unfold attempt_log. replace (k - k + 1) with 1 by lia. rewrite seqZ_cons by lia.
  rewrite fmap_cons, Z.ltb_irrefl. by rewrite seqZ_nil by lia.
Qed.

Lemma attempts_counted_step m m' elapsed n b :
  attempts_counted (record_latency WebhookAttempt elapsed (record_webhook_attempt m)) m' n b →
  attempts_counted m m' (n + 1) b.
Proof.
  unfold attempts_counted, record_webhook_attempt. rewrite !load_record_latency, !load_fetch_add.
  simpl. intros (-> & -> & ->). split_and!; [|done..].
  rewrite wrap64_add_l. f_equal. lia.
Qed.

(** From attempt [k] on, with the delay that attempt [k] would be followed
    by. *)
Lemma deliver_loop_spec remaining k m m' log :
  1 ≤ k → Z.of_nat remaining = ww_max_attempts w - k + 1 → (0 < remaining)%nat →
  deliver_loop w outcome remaining k
    (Z.min (ww_initial_backoff w * 2 ^ (k - 1)) (ww_max_backoff w)) m = (m', log) →
  ∃ n, k ≤ n ≤ ww_max_attempts w ∧
    log = attempt_log (ww_initial_backoff w) (ww_max_backoff w) k n ∧
    (∀ i, k ≤ i < n → is_retryable (outcome i).1 = true) ∧
    (n = ww_max_attempts w ∨ is_retryable (outcome n).1 = false) ∧
    attempts_counted m m' (n - k + 1) (is_delivered (outcome n).1).
Proof.
  revert k m m' log. induction remaining as [|remaining IH]; intros k m m' log Hk Hrem Hpos; [lia|].
  simpl. destruct (outcome k) as [result elapsed] eqn:Eo.
  set (m1 := record_latency WebhookAttempt elapsed (record_webhook_attempt m)).
  assert (∀ b : bool, attempts_counted m1 (if b then record_webhook_success m1 else record_webhook_failure m1)
    0 b → attempts_counted m (if b then record_webhook_success m1 else record_webhook_failure m1)
    (k - k + 1) b) as Hlast.
  { intros b Hb. replace (k - k + 1) with (0 + 1) by lia. by eapply attempts_counted_step. }
  assert (∀ b : bool, attempts_counted m1 (if b then record_webhook_success m1 else record_webhook_failure m1)
    0 b) as Hcount.
  { intros b. unfold attempts_counted, record_webhook_success, record_webhook_failure.
    destruct b; rewrite !load_fetch_add; simpl; split_and!; try done;
      subst m1; unfold record_webhook_attempt; rewrite load_record_latency, load_fetch_add; simpl;
      by rewrite wrap64_add_l, Z.add_0_r. }
  assert (∀ b : bool, is_delivered result = b → is_retryable result = false ∨ k = ww_max_attempts w →
    (if b then record_webhook_success m1 else record_webhook_failure m1, [(k, @None Z)]) = (m', log) →
    ∃ n, k ≤ n ≤ ww_max_attempts w ∧
      log = attempt_log (ww_initial_backoff w) (ww_max_backoff w) k n ∧
      (∀ i, k ≤ i < n → is_retryable (outcome i).1 = true) ∧
      (n = ww_max_attempts w ∨ is_retryable (outcome n).1 = false) ∧
      attempts_counted m m' (n - k + 1) (is_delivered (outcome n).1)) as Hend.
  { intros b Hb Hstop [= <- <-]. exists k. rewrite attempt_log_last, Eo. simpl. rewrite Hb.
    split_and!; [lia|lia|done|intros; lia|tauto|auto]. }
  destruct result as [status|reason|reason].
  - apply (Hend true); auto.
  - destruct (Z.ltb_spec k (ww_max_attempts w)) as [Hlt|Hge].
    2: { apply (Hend false); auto. right. lia. }
    rewrite next_delay by lia.
    replace (k - 1 + 1) with (k + 1 - 1) by lia.
    destruct (deliver_loop w outcome remaining (k + 1) _ m1) as [m2 log2] eqn:El.
    intros [= <- <-]. apply IH in El as (n & Hn & -> & Hr & Hs & Hc); [|lia..].
    exists n. split_and!; [lia|lia|by rewrite (attempt_log_cons k) by lia| |done|].
    + intros i Hi. destruct (decide (i = k)) as [->|]; [by rewrite Eo|apply Hr; lia].
    + replace (n - k + 1) with (n - (k + 1) + 1 + 1) by lia. by eapply attempts_counted_step.
  - apply (Hend false); auto.
Qed.
End attempts.

(** The timing a worker gets from its configuration. *)
Definition worker_timing_ok (w : WebhookWorker) : Prop :=
  1 ≤ ww_max_attempts w ∧ 0 < ww_initial_backoff w ≤ ww_max_backoff w ∧
  ww_max_backoff w ≤ duration_max.

(** Every worker that is built has such timing, from any configuration whose
    fields are [u64] values. *)
Lemma WebhookWorker_new_timing `{Mpsc Delivery Chan} `{UrlParser} `{HttpTypes} fresh config
    (r r' : RouterState Chan) w :
  0 ≤ wd_initial_backoff_ms config ≤ u64_max → 0 ≤ wd_max_backoff_ms config ≤ u64_max →
  WebhookWorker_new fresh config r = (r', Ok w) → worker_timing_ok w.
Proof.
  intros Hi Hm Hnew. unfold WebhookWorker_new in Hnew. repeat case_match; simplify_eq.
  unfold worker_timing_ok, from_millis, duration_max; simpl. unfold u64_max in *. lia.
Qed.

(** (C34) Retries are bounded and back off: a delivery makes between one and
    [max_attempts] attempts, numbered from 1; every attempt before the last
    failed in a retryable way and is followed by a sleep that starts at the
    initial backoff, doubles each time and is capped at the maximum; the last
    one is not retryable or exhausts the attempts; every attempt is counted,
    and the delivery once, as a success or a failure. *)
Theorem webhook_attempts_bounded (w : WebhookWorker) (outcome : Z → AttemptResult * Z) (m : Metrics)
    (Hw : worker_timing_ok w) :
  let '(m', log) := webhook_deliver w outcome m in
  ∃ n, 1 ≤ n ≤ ww_max_attempts w ∧
    log = attempt_log (ww_initial_backoff w) (ww_max_backoff w) 1 n ∧
    (∀ i, 1 ≤ i < n → is_retryable (outcome i).1 = true) ∧
    (n = ww_max_attempts w ∨ is_retryable (outcome n).1 = false) ∧
    attempts_counted m m' n (is_delivered (outcome n).1).
Proof.
  destruct Hw as (Ha & Hb & Hd). destruct (webhook_deliver w outcome m) as [m' log] eqn:E.
  unfold webhook_deliver in E.
  destruct (deliver_loop_spec w outcome ltac:(lia) ltac:(lia) Hd (Z.to_nat (ww_max_attempts w)) 1 m m' log)
    as (n & Hn & Hlog & Hr & Hs & Hc); [lia..| |].
  { simpl. rewrite Z.mul_1_r, Z.min_l by lia. exact E. }
  replace (n - 1 + 1) with n in Hc by lia. eauto 10.
Qed.

(** ** Reserved headers *)

Lemma parse_header_list_reserved `{HttpTypes} values headers :
  parse_header_list values = Ok headers → ∀ name, name ∈ headers.*1 → name ∉ reserved_headers.
Proof.
  revert headers. induction values as [|[name value] rest IH]; simpl; intros headers Hp.
  { injection Hp as <-. intros ? []%elem_of_nil. }
  bind_step Hp as n, _. guard_step Hp as Hn.
  bind_step Hp as v, _. bind_step Hp as hs, Hrest. injection Hp as <-.
  simpl. intros x [->|Hx]%elem_of_cons; [done|by eapply IH].
Qed.

(** The values a request has under a header name. *)
Definition values_of (name : string) (sent : list (string * string)) : list string :=
  snd <$> filter (λ h : string * string, h.1 = name) sent.

Lemma values_of_app name l1 l2 : values_of name (l1 ++ l2) = values_of name l1 ++ values_of name l2.
Proof. unfold values_of. by rewrite filter_app, fmap_app. Qed.

(** (C35) Configured headers cannot replace or double what the router asserts.
    Whatever headers a destination is configured with, the request of an
    attempt has exactly one content type, user agent, message id, idempotency
    key and attempt number, with the router's values, the signature of exactly
    this body and no other (and none without a secret), and no configured host
    or content length; every configured header is sent too. *)
Theorem reserved_headers_protected `{HttpTypes} (values : gmap string string)
    (headers : list (string * string)) (version message_id body : string) (attempt : Z)
    (secret : option string) (Hparse : parse_headers values = Ok headers) :
  let sent := attempt_headers version message_id attempt headers secret body in
  values_of "content-type" sent = ["application/json"] ∧
  values_of "user-agent" sent = ["kafka-edge-router/" +:+ version] ∧
  values_of "x-router-message-id" sent = [message_id] ∧
  values_of "idempotency-key" sent = [message_id] ∧
  values_of "x-router-attempt" sent = [pretty attempt] ∧
  values_of "x-router-signature" sent = from_option (λ s, [signature s body]) [] secret ∧
  values_of "host" sent = [] ∧ values_of "content-length" sent = [] ∧
  headers ⊆ sent.
Proof.
  intros sent. pose proof (parse_header_list_reserved _ _ Hparse) as Hres.
  assert (∀ name, name ∈ reserved_headers → values_of name headers = []) as Hnone.
  { intros name Hname. unfold values_of.
    assert (filter (λ h : string * string, h.1 = name) headers = []) as ->; [|done].
    apply elem_of_nil_inv. intros [k v] [Hk Hin]%list_elem_of_filter. simpl in Hk. subst k.
    apply (Hres name); [|done]. apply list_elem_of_fmap. by eexists (_, _). }
  subst sent. unfold attempt_headers. rewrite !values_of_app.
  rewrite !Hnone by (unfold reserved_headers; set_solver).
  split_and!; try by destruct secret. set_solver.
Qed.

(** ** Failed setup *)

Section setup.
Context `{MpscLaws Delivery Chan} `{UrlParser} `{HttpTypes}.
Implicit Types (r : RouterState Chan).

(** The worker serves the destination: its connection carries exactly the
    filter of the destination. *)
Definition attached r (w : WebhookWorker) (d : WebhookDestinationConfig) : Prop :=
  ww_id w = wd_id d ∧ ∃ conn sid, r_connections r !! ww_connection_id w = Some conn ∧
    cs_subscriptions conn = {[sid := wd_filter d]}.

(** Building one worker adds at most its connection, and nothing when it
    fails. *)
Lemma WebhookWorker_new_extends fresh config own r0 r r' res :
  router_inv r0 → router_ok r → r_connections r !! fresh = None → fresh ∉ own →
  r_connections r0 !! fresh = None → 0 ≤ wd_queue_capacity config → extends_by own r0 r →
  WebhookWorker_new fresh config r = (r', res) →
  router_ok r' ∧
  match res with
  | Ok w => ww_connection_id w = fresh ∧ extends_by (own ++ [fresh]) r0 r' ∧ attached r' w config ∧
      ∀ c, c ≠ fresh → r_connections r' !! c = r_connections r !! c
  | Err _ => extends_by own r0 r'
  end.
Proof.
  intros Hinv0 Hok Hnew Hown Hnew0 Hcap Hext Hrun. unfold WebhookWorker_new in Hrun. cbv zeta in Hrun.
  destruct (_ ≫= _) as [[url headers]|]; [|by simplify_eq].
  assert (∀ n, Some (wd_queue_capacity config) = Some n → 0 ≤ n) as Hc by (by intros n [= <-]).
  pose proof (register_connection_ok fresh (rf_tenant_id (wd_filter config))
    HttpWebhook _ r Hok Hnew Hc) as Hok1.
  destruct (register_connection fresh _ _ _ r) as [r1 [c|error]] eqn:Ereg; simpl in Hok1;
    pose proof (register_extends own _ _ _ _ r0 _ _ _ Ereg Hext) as Hext1; simpl in Hext1.
  2: { by simplify_eq. }
  assert (c = fresh) as -> by (unfold register_connection in Ereg; repeat case_match; by simplify_eq).
  assert (∀ r2, router_ok r2 → extends_by (own ++ [fresh]) r0 r2 →
    router_ok (unregister_connection fresh r2) ∧ extends_by own r0 (unregister_connection fresh r2))
    as Hundo.
  { intros r2 Hi2 [Hcfg He]. split; [by apply unregister_connection_ok|].
    apply unregister_extends; [apply Hi2|done..|]. split; [done|]. intros c Hni. apply He.
    clear -Hni. set_solver. }
  destruct (SubscriptionId_new _) as [sid|error] eqn:Esid; [|simplify_eq; by apply Hundo].
  pose proof (subscribe_ok fresh sid (wd_filter config) r1 Hok1) as Hok2.
  destruct (subscribe fresh sid (wd_filter config) r1) as [r2 res2] eqn:Esub.
  assert (extends_by (own ++ [fresh]) r0 r2) as Hext2
    by (eapply subscribe_extends; [|exact Esub|done]; clear; set_solver).
  destruct res2 as [[]|error]; simplify_eq; [|by apply Hundo].
  destruct (attached_tables _ _ _ _ _ _ _ _ _ Hc (inv_config _ (proj1 Hok)) Ereg Esub)
    as (n & conn & _ & Hs & Ec & _).
  split_and!; [done..| |].
  - split; [done|]. simpl. exists conn, sid. by rewrite Ec, lookup_insert_eq.
  - intros c Hne. by rewrite Ec, lookup_insert_ne.
Qed.

Lemma new_workers_spec fresh destinations i built r0 r r' res :
  Inj (=) (=) fresh → router_inv r0 → router_ok r →
  (∀ j, r_connections r0 !! fresh j = None) →
  (∀ w, w ∈ built → ∃ j, (j < i)%nat ∧ ww_connection_id w = fresh j) →
  (∀ d, d ∈ destinations → 0 ≤ wd_queue_capacity d) →
  extends_by (ww_connection_id <$> built) r0 r →
  new_workers fresh i built destinations r = (r', res) →
  match res with
  | Ok workers => router_ok r' ∧ extends_by (ww_connection_id <$> workers) r0 r' ∧
      (∀ w, w ∈ workers → ∃ j, ww_connection_id w = fresh j) ∧
      ∃ added, workers = built ++ added ∧ Forall2 (attached r') added destinations ∧
        ∀ c, (∀ j, (i ≤ j)%nat → c ≠ fresh j) → r_connections r' !! c = r_connections r !! c
  | Err _ => same_subscriptions r' r0
  end.
Proof.
  intros Hinj Hinv0. revert i built r.
  induction destinations as [|d ds IH]; simpl; intros i built r Hok Hnew Hbuilt Hcap Hext Hrun.
  { simplify_eq. split_and!; [done..|naive_solver|]. exists []. by rewrite app_nil_r. }
  assert (fresh i ∉ ww_connection_id <$> built) as Hni.
  { intros (w & Hw & Hin)%list_elem_of_fmap. destruct (Hbuilt w Hin) as (j & Hj & Hwj).
    rewrite Hwj in Hw. apply Hinj in Hw. lia. }
  destruct (WebhookWorker_new (fresh i) d r) as [r1 res1] eqn:Enew.
  apply (WebhookWorker_new_extends _ _ (ww_connection_id <$> built) r0) in Enew as [Hok1 Hres];
    [|done|done|rewrite (proj1 (proj2 Hext _ Hni)); done|done|done|apply Hcap; left|done].
  destruct res1 as [w|e].
  - destruct Hres as (Hw & Hext1 & Hatt & Hkeep). apply IH in Hrun.
    + destruct res as [workers|]; [|done].
      destruct Hrun as (Hok' & Hext' & Hall & added & -> & Hadd & Hkeep'). split_and!; [done..|].
      exists (w :: added). split; [by rewrite <-app_assoc|].
      destruct Hatt as [Hid (conn & sid & Hconn & Hs)]. split.
      * constructor; [|done]. split; [done|]. exists conn, sid. split; [|done].
        rewrite <-Hconn, Hw. apply Hkeep'. intros j Hj ?%Hinj. lia.
      * intros c Hc. rewrite Hkeep' by (intros j Hj; apply Hc; lia). apply Hkeep, Hc. lia.
    + done.
    + done.
    + intros w' [Hin|Hin%list_elem_of_singleton]%elem_of_app.
      * destruct (Hbuilt w' Hin) as (j & Hj & Hwj). exists j. split; [lia|done].
      * subst w'. exists i. split; [lia|done].
    + intros d' Hd'. apply Hcap. by right.
    + rewrite fmap_app. simpl. by rewrite Hw.
  - simplify_eq. apply unregister_all_restores; [done|apply Hok1| |done].
    intros c (w & -> & Hin)%list_elem_of_fmap. destruct (Hbuilt w Hin) as (j & _ & ->). apply Hnew.
Qed.
End setup.

(** ** Concrete inputs *)

#[local] Instance example_http : HttpTypes := {|
  header_name s := Ok (lower s); header_value s := Ok s; hmac_sha256 k b := k +:+ b;
  hex_encode s := s; status_text s := pretty s; client_build _ := None |}.

Definition example_worker : WebhookWorker := {|
  ww_id := "hook"; ww_url := example_url; ww_allow_private_ips := false; ww_timeout := 5;
  ww_headers := []; ww_signing_secret := None; ww_max_attempts := 4; ww_initial_backoff := 250;
  ww_max_backoff := 600; ww_connection_id := 1 |}.

Example backoff_is_capped :
  (webhook_deliver example_worker (λ _, (Retryable "HTTP 503", 0)) Metrics_default).2
  = [(1, Some 250); (2, Some 500); (3, Some 600); (4, None)].
Proof. vm_compute. reflexivity. Qed.

Lemma webhook_attempts_bounded_witness :
  ∃ n, 1 ≤ n ≤ 4 ∧
    (webhook_deliver example_worker (λ _, (Delivered 200, 0)) Metrics_default).2
      = attempt_log 250 600 1 n.
Proof.
  pose proof (webhook_attempts_bounded example_worker (λ _, (Delivered 200, 0)) Metrics_default
    ltac:(vm_compute; repeat split; discriminate)) as H.
  destruct (webhook_deliver example_worker (λ _, (Delivered 200, 0)) Metrics_default) as [m' log].
  destruct H as (n & Hn & Hlog & _). exists n. split; [exact Hn|exact Hlog].
Defined.

Lemma reserved_headers_protected_witness :
  values_of "x-router-signature" (attempt_headers "1" "m-1" 3 [("x-team", "a")] (Some "k") "body")
    = [signature "k" "body"].
Proof.
  destruct (reserved_headers_protected {["X-Team" := "a"]} [("x-team", "a")] "1" "m-1" "body" 3
    (Some "k")) as (_ & _ & _ & _ & _ & H & _); [vm_compute; reflexivity|]. exact H.
Defined.

(** A destination whose id is too long to name a subscription. *)
Definition example_bad_destination : WebhookDestinationConfig :=
  WebhookDestinationConfig_default (String.concat "" (replicate 130 "x"))
    "https://hooks.example.com/in" example_filter.

Definition example_good_destination : WebhookDestinationConfig :=
  WebhookDestinationConfig_default "hook" "https://hooks.example.com/in" example_filter.
