(* ===== verification/Durable.v ===== *)
(** * Durable webhooks: the worker

    router-webhook's [durable.rs]: the record that is kept in Kafka for one
    delivery, the endpoint, and the worker that sends it, schedules retries and
    dead letters through Kafka and commits its input.  The serialization of a
    record is generated code and the broker, the clock and the HTTP exchange
    are outside: they are parameters, and what the worker does to them is
    logged in order. *)

From S2P Require Import Prelude Str Ids Message Route Metrics Channel Router Kafka Wire.
From S2P Require Import Security Webhook.
Open Scope Z_scope.

(** ** Records *)

(** [SCHEMA_VERSION]. *)
Definition SCHEMA_VERSION : Z := 1.

(** [RecordState]. *)
Inductive RecordState : Type := DeliveryState | RetryState | DeadLetterState.

(** [FailureClass]. *)
Inductive FailureClass : Type :=
| Timeout | Connect | Request | Http429 | Http5xx | PermanentHttp | Client | InvalidRecord.

#[export] Instance RecordState_eq_dec : EqDecision RecordState.
Proof. solve_decision. Defined.
#[export] Instance FailureClass_eq_dec : EqDecision FailureClass.
Proof. solve_decision. Defined.

(** [DurableRecord]. *)
Record DurableRecord : Type := {
  dr_schema_version : Z;
  dr_delivery_id : string;
  dr_destination_id : string;
  dr_original_message_id : string;
  dr_body_base64 : string;
  dr_attempt : Z;
  dr_next_attempt_at_ms : Z;
  dr_last_error_class : option FailureClass;
  dr_source_topic : option string;
  dr_source_partition : option Z;
  dr_source_offset : option Z;
  dr_trace_context : option TraceContext;
  dr_state : RecordState;
}.

(** [serde_json::to_vec] and [serde_json::from_slice] at [DurableRecord]. *)
Class RecordCodec := {
  record_to_vec : DurableRecord → result string string;
  record_from_slice : string → result string DurableRecord;
}.

(** What is written can be read back. *)
Class RecordCodecLaws `{RecordCodec} :=
  record_roundtrip r payload : record_to_vec r = Ok payload → record_from_slice payload = Ok r.

(** [now_ms], from a reading of the system clock in milliseconds around the
    epoch. *)
Definition now_ms (clock : Z) : Z := clamp_u64 (Z.max 0 clock).

(** ** Endpoints *)

(** [DurableEndpoint]. *)
Record DurableEndpoint : Type := {
  de_id : string;
  de_url : Url;
  de_allow_private_ips : bool;
  de_timeout : Z;
  de_headers : list (string * string);
  de_signing_secret : option string;
  de_max_attempts : Z;
  de_initial_backoff_ms : Z;
  de_max_backoff_ms : Z;
}.

(** [DurableEndpoint::new]. *)
Definition DurableEndpoint_new `{UrlParser, HttpTypes} (config : WebhookDestinationConfig)
    : result WebhookError DurableEndpoint :=
  url ← validate_destination_url (wd_url config) (wd_allowed_hosts config)
          (wd_allow_private_ips config) (wd_allow_http config);
  _ ← validate_destination_port url (wd_allowed_ports config);
  headers ← parse_headers (wd_headers config);
  Ok {| de_id := wd_id config; de_url := url;
        de_allow_private_ips := wd_allow_private_ips config;
        de_timeout := from_millis (Z.max (wd_timeout_ms config) 1);
        de_headers := headers; de_signing_secret := wd_signing_secret config;
        de_max_attempts := wd_max_attempts config;
        de_initial_backoff_ms := wd_initial_backoff_ms config;
        de_max_backoff_ms := wd_max_backoff_ms config |}.

(** [AttemptOutcome]. *)
Inductive AttemptOutcome : Type :=
| OutcomeDelivered (status : Z)
| OutcomeFailed (class : FailureClass).

(** [DurableEndpoint::send_attempt]. *)
Definition DurableEndpoint_send_attempt `{HttpTypes} (version : string)
    (lookup : string → Z → option (list (IpAddr * Z))) (send : HttpRequest → HttpOutcome)
    (e : DurableEndpoint) (body message_id : string) (attempt : Z) : AttemptOutcome :=
  match pinned_client lookup client_build (de_url e) (de_allow_private_ips e) (de_timeout e) with
  | Err _ => OutcomeFailed Connect
  | Ok client =>
    match send {| rq_client := client; rq_url := de_url e; rq_body := body;
                  rq_headers := attempt_headers version message_id attempt (de_headers e)
                                  (de_signing_secret e) body |} with
    | Response status =>
        if is_success status then OutcomeDelivered status
        else if status =? 429 then OutcomeFailed Http429
        else if retryable_status status then OutcomeFailed Http5xx
        else OutcomeFailed PermanentHttp
    | TransportError is_timeout is_connect is_request _ =>
        if is_timeout then OutcomeFailed Timeout
        else if is_connect then OutcomeFailed Connect
        else if is_request then OutcomeFailed Request
        else OutcomeFailed Client
    end
  end.

(** [DurableEndpoint::retry_delay_ms]. *)
Definition retry_delay_ms (e : DurableEndpoint) (next_attempt : Z) : Z :=
  Z.min (Nat.iter (Z.to_nat (sat_sub next_attempt 2))
           (λ delay, Z.min (sat_mul u64_max delay 2) (de_max_backoff_ms e))
           (de_initial_backoff_ms e))
        (de_max_backoff_ms e).

(** [should_retry]. *)
Definition should_retry (class : FailureClass) : bool :=
  match class with
  | Timeout | Connect | Request | Http429 | Http5xx => true
  | PermanentHttp | Client | InvalidRecord => false
  end.

(** ** Kafka input and output *)

(** [RecordCursor]. *)
Record RecordCursor : Type := {
  cu_topic : string;
  cu_partition : Z;
  cu_offset : Z;
}.

(** [InputRecord]. *)
Record InputRecord : Type := {
  in_record : DurableRecord;
  in_cursor : RecordCursor;
}.

(** What is read of a consumed message. *)
Record ConsumedMessage : Type := {
  cm_payload : option string;
  cm_topic : string;
  cm_partition : Z;
  cm_offset : Z;
}.

(** [InputRecord::from_message]. *)
Definition from_message `{RecordCodec} (message : ConsumedMessage) (max_record_bytes : Z)
    : result string InputRecord :=
  payload ← ok_or (cm_payload message) "durable webhook record has no payload";
  _ ← ensure (str_len payload <=? max_record_bytes)
        ("durable webhook record is " +:+ pretty (str_len payload) +:+ " bytes, limit is " +:+
         pretty max_record_bytes);
  record ← map_err (λ error, "invalid durable webhook record: " +:+ error)
             (record_from_slice payload);
  _ ← ensure (dr_schema_version record =? SCHEMA_VERSION)
        ("unsupported durable webhook schema version " +:+ pretty (dr_schema_version record));
  Ok {| in_record := record;
        in_cursor := {| cu_topic := cm_topic message; cu_partition := cm_partition message;
                        cu_offset := cm_offset message |} |}.

(** [publish_record]; [producer topic key payload] is the error of the send,
    if any. *)
Definition publish_record `{RecordCodec} (producer : string → string → string → option string)
    (topic : string) (record : DurableRecord) (max_record_bytes : Z) : result string unit :=
  payload ← map_err (λ error, "record serialization failed: " +:+ error) (record_to_vec record);
  _ ← ensure (str_len payload <=? max_record_bytes)
        ("serialized durable webhook record is " +:+ pretty (str_len payload) +:+
         " bytes, limit is " +:+ pretty max_record_bytes);
  match producer topic (dr_destination_id record) payload with
  | None => Ok tt
  | Some error => Err ("Kafka publication to " +:+ topic +:+ " failed: " +:+ error)
  end.

(** [i64::MAX]. *)
Definition i64_max : Z := 2 ^ 63 - 1.

(** [commit_cursor]: the position that is committed; the arguments are the
    errors of building the list and of the synchronous commit, if any. *)
Definition commit_cursor (build_error commit_error : option string) (cursor : RecordCursor)
    : result string (string * Z * Z) :=
  match build_error, commit_error with
  | Some error, _ => Err ("failed to build webhook commit offset: " +:+ error)
  | None, Some error => Err ("durable webhook offset commit failed: " +:+ error)
  | None, None => Ok (cu_topic cursor, cu_partition cursor, sat_add i64_max (cu_offset cursor) 1)
  end.

(** [sleep_until] at time [now]; [changed] is the change of the shutdown flag
    that wakes it, if any. *)
Definition sleep_until (next_attempt_at_ms now : Z) (changed : option (bool * bool))
    : result string unit :=
  if sat_sub next_attempt_at_ms now =? 0 then Ok tt
  else match changed with
  | Some (changed_is_err, value) =>
      if changed_is_err || value then Err "shutdown interrupted durable retry wait" else Ok tt
  | None => Ok tt
  end.

(** [remember_completed]. *)
Definition remember_completed (completed : gset string) (delivery_id : string) (limit : Z)
    : result string (gset string) :=
  if (limit <=? Z.of_nat (size completed)) && negb (bool_decide (delivery_id ∈ completed)) then
    Err ("completed retry set exceeded configured limit " +:+ pretty limit)
  else Ok ({[delivery_id]} ∪ completed).

(** ** The worker *)

(** [DurableWorker], without its clients. *)
Record DurableWorker : Type := {
  dk_endpoint : DurableEndpoint;
  dk_delivery_topic : string;
  dk_retry_topic : string;
  dk_dead_letter_topic : string;
  dk_timeout : Z;
  dk_max_record_bytes : Z;
  dk_max_recovery_records : Z;
}.

(** What the worker does to the outside, in order. *)
Inductive WorkerEffect : Type :=
| Attempted (delivery_id : string) (attempt : Z) (outcome : AttemptOutcome)
| PublishedRecord (topic : string) (record : DurableRecord)
| CommittedOffset (topic : string) (partition offset : Z).

(** The metrics, the set of completed deliveries and the log. *)
Record WorkerState : Type := {
  wk_metrics : Metrics;
  wk_completed : gset string;
  wk_log : list WorkerEffect;
}.

(** What the outside answers around one attempt: the clock and a change of the
    shutdown flag while waiting, the resolver and the HTTP exchange with its
    duration, the clock and the producer after a failure, and the commit. *)
Record AttemptEnv : Type := {
  ae_wait_clock : Z;
  ae_wait_changed : option (bool * bool);
  ae_lookup : string → Z → option (list (IpAddr * Z));
  ae_send : HttpRequest → HttpOutcome;
  ae_elapsed : Z;
  ae_retry_clock : Z;
  ae_producer : string → string → string → option string;
  ae_build_error : option string;
  ae_commit_error : option string;
}.

(** Code that updates the state and can fail; [None] is a loop that has not
    ended within its fuel. *)
Definition act (A : Type) : Type := WorkerState → option (WorkerState * result string A).

#[global] Instance act_ret : MRet act := λ A a s, Some (s, Ok a).
#[global] Instance act_bind : MBind act := λ A B k m s,
  match m s with
  | Some (s, Ok a) => k a s
  | Some (s, Err e) => Some (s, Err e)
  | None => None
  end.

Definition lift {A} (r : result string A) : act A := λ s, Some (s, r).
Definition wk_emit (e : WorkerEffect) (s : WorkerState) : WorkerState :=
  {| wk_metrics := wk_metrics s; wk_completed := wk_completed s; wk_log := wk_log s ++ [e] |}.
Definition wk_count (f : Metrics → Metrics) (s : WorkerState) : WorkerState :=
  {| wk_metrics := f (wk_metrics s); wk_completed := wk_completed s; wk_log := wk_log s |}.
Definition emit (e : WorkerEffect) : act unit := λ s, Some (wk_emit e s, Ok tt).
Definition count (f : Metrics → Metrics) : act unit := λ s, Some (wk_count f s, Ok tt).
Definition get_completed : act (gset string) := λ s, Some (s, Ok (wk_completed s)).
Definition put_completed (completed : gset string) : act unit := λ s, Some
  ({| wk_metrics := wk_metrics s; wk_completed := completed; wk_log := wk_log s |}, Ok tt).

(** The calls of the helpers above from the worker. *)
Definition do_publish `{RecordCodec} (w : DurableWorker) (env : AttemptEnv) (topic : string)
    (record : DurableRecord) : act unit :=
  _ ← lift (publish_record (ae_producer env) topic record (dk_max_record_bytes w));
  emit (PublishedRecord topic record).

Definition do_commit (build_error commit_error : option string) (cursor : RecordCursor) : act unit :=
  '(topic, partition, offset) ← lift (commit_cursor build_error commit_error cursor);
  emit (CommittedOffset topic partition offset).

Definition do_remember (delivery_id : string) (limit : Z) : act unit :=
  completed ← get_completed;
  completed ← lift (remember_completed completed delivery_id limit);
  put_completed completed.

(** [if !input_committed { commit_cursor(..)?; }]. *)
Definition commit_input (env : AttemptEnv) (input_committed : bool) (cursor : RecordCursor)
    : act unit :=
  if input_committed then mret tt else do_commit (ae_build_error env) (ae_commit_error env) cursor.

(** The record of the next attempt. *)
Definition retry_record (e : DurableEndpoint) (clock : Z) (class : FailureClass)
    (record : DurableRecord) : DurableRecord :=
  let attempt := sat_add u32_max (dr_attempt record) 1 in {|
  dr_schema_version := dr_schema_version record; dr_delivery_id := dr_delivery_id record;
  dr_destination_id := dr_destination_id record;
  dr_original_message_id := dr_original_message_id record;
  dr_body_base64 := dr_body_base64 record; dr_attempt := attempt;
  dr_next_attempt_at_ms := sat_add u64_max (now_ms clock) (retry_delay_ms e attempt);
  dr_last_error_class := Some class; dr_source_topic := dr_source_topic record;
  dr_source_partition := dr_source_partition record; dr_source_offset := dr_source_offset record;
  dr_trace_context := dr_trace_context record; dr_state := RetryState |}.

(** The record of a delivery that is given up. *)
Definition dead_letter_record (class : FailureClass) (record : DurableRecord) : DurableRecord := {|
  dr_schema_version := dr_schema_version record; dr_delivery_id := dr_delivery_id record;
  dr_destination_id := dr_destination_id record;
  dr_original_message_id := dr_original_message_id record;
  dr_body_base64 := dr_body_base64 record; dr_attempt := dr_attempt record;
  dr_next_attempt_at_ms := dr_next_attempt_at_ms record;
  dr_last_error_class := Some class; dr_source_topic := dr_source_topic record;
  dr_source_partition := dr_source_partition record; dr_source_offset := dr_source_offset record;
  dr_trace_context := dr_trace_context record; dr_state := DeadLetterState |}.

Section worker.
Context `{RecordCodec} `{HttpTypes} `{Base64} (version : string).
Context (w : DurableWorker).

(** The loop of [DurableWorker::process]; [env] answers for each attempt
    number. *)
Fixpoint process_loop (fuel : nat) (env : Z → AttemptEnv) (cursor : RecordCursor) (body : string)
    (input_committed : bool) (record : DurableRecord) : act unit :=
  match fuel with
  | O => λ _, None
  | S fuel =>
    let env_now := env (dr_attempt record) in
    _ ← lift (sleep_until (dr_next_attempt_at_ms record) (now_ms (ae_wait_clock env_now))
                (ae_wait_changed env_now));
    _ ← count record_webhook_attempt;
    let outcome := DurableEndpoint_send_attempt version (ae_lookup env_now) (ae_send env_now)
                     (dk_endpoint w) body (dr_original_message_id record) (dr_attempt record) in
    _ ← emit (Attempted (dr_delivery_id record) (dr_attempt record) outcome);
    _ ← count (record_latency WebhookAttempt (ae_elapsed env_now));
    match outcome with
    | OutcomeDelivered _ =>
      _ ← count record_webhook_success;
      _ ← commit_input env_now input_committed cursor;
      do_remember (dr_delivery_id record) (dk_max_recovery_records w)
    | OutcomeFailed class =>
      if should_retry class && (dr_attempt record <? de_max_attempts (dk_endpoint w)) then
        let record := retry_record (dk_endpoint w) (ae_retry_clock env_now) class record in
        _ ← do_publish w env_now (dk_retry_topic w) record;
        _ ← count record_webhook_retry_scheduled;
        _ ← commit_input env_now input_committed cursor;
        process_loop fuel env cursor body true record
      else
        let record := dead_letter_record class record in
        _ ← do_publish w env_now (dk_dead_letter_topic w) record;
        _ ← count record_webhook_dead_letter;
        _ ← count record_webhook_failure;
        _ ← commit_input env_now input_committed cursor;
        do_remember (dr_delivery_id record) (dk_max_recovery_records w)
    end
  end.

(** One turn more than the attempts that are left. *)
Definition process_fuel (record : DurableRecord) : nat :=
  S (Z.to_nat (de_max_attempts (dk_endpoint w) - dr_attempt record)).

(** [DurableWorker::process]. *)
Definition process (env : Z → AttemptEnv) (input : InputRecord) : act unit :=
  body ← lift (map_err (λ error, "invalid durable webhook body: " +:+ error)
                 (b64_decode (dr_body_base64 (in_record input))));
  process_loop (process_fuel (in_record input)) env (in_cursor input) body false
    (in_record input).

(** What wakes the loops of [run] and [recover_retries]: a change of the
    shutdown flag, a message with what the outside answers while it is
    handled, the end of a partition with the number of partitions of the
    retry topic assigned, or an error. *)
Inductive Poll : Type :=
| PollShutdown (changed_is_err value : bool)
| PollMessage (message : ConsumedMessage) (build_error commit_error : option string)
    (env : Z → AttemptEnv)
| PollEof (partition : Z) (assigned : result string Z)
| PollError (text : string).

(** How a loop leaves a sequence of polls: still waiting at its end, done
    with the rest of it, or failed. *)
Inductive LoopEnd : Type :=
| StillWaiting
| LoopDone (rest : list (bool * Poll)).

(** A message in the main loop of [run]. *)
Definition handle_message (message : ConsumedMessage) (build_error commit_error : option string)
    (env : Z → AttemptEnv) : act unit :=
  input ← lift (from_message message (dk_max_record_bytes w));
  completed ← get_completed;
  if negb (bool_decide (dr_destination_id (in_record input) = de_id (dk_endpoint w)))
    || bool_decide (dr_delivery_id (in_record input) ∈ completed)
  then do_commit build_error commit_error (in_cursor input)
  else process env input.

(** The main loop of [run]; each poll comes with the shutdown flag at the top
    of the loop. *)
Fixpoint run_loop (polls : list (bool * Poll)) : act LoopEnd :=
  match polls with
  | [] => mret StillWaiting
  | (shutdown, p) :: rest =>
    if shutdown then mret (LoopDone rest)
    else match p with
    | PollShutdown err value => if err || value then mret (LoopDone rest) else run_loop rest
    | PollMessage message b c env => _ ← handle_message message b c env; run_loop rest
    | PollEof _ _ | PollError _ => run_loop rest
    end
  end.

(** [recover_retries], after its subscription. *)
Fixpoint recover_loop (eof_partitions : gset Z) (recovered : Z) (polls : list (bool * Poll))
    : act LoopEnd :=
  match polls with
  | [] => mret StillWaiting
  | (shutdown, p) :: rest =>
    if shutdown then mret (LoopDone polls)
    else match p with
    | PollShutdown err value =>
        if err || value then mret (LoopDone rest) else recover_loop eof_partitions recovered rest
    | PollMessage message b c env =>
        let eof_partitions := eof_partitions ∖ {[cm_partition message]} in
        input ← lift (from_message message (dk_max_record_bytes w));
        if negb (bool_decide (dr_destination_id (in_record input) = de_id (dk_endpoint w))) then
          _ ← do_commit b c (in_cursor input); recover_loop eof_partitions recovered rest
        else
          let recovered := sat_add usize_max recovered 1 in
          _ ← count record_webhook_recovery_replay;
          _ ← lift (ensure (recovered <=? dk_max_recovery_records w)
                ("retry recovery exceeded configured limit " +:+
                 pretty (dk_max_recovery_records w)));
          completed ← get_completed;
          _ ← (if bool_decide (dr_delivery_id (in_record input) ∈ completed)
               then do_commit b c (in_cursor input) else process env input);
          recover_loop eof_partitions recovered rest
    | PollEof partition assigned =>
        let eof_partitions := {[partition]} ∪ eof_partitions in
        assigned ← lift (map_err (λ error, "failed to inspect retry assignment: " +:+ error)
                           assigned);
        if (0 <? assigned) && (assigned <=? Z.of_nat (size eof_partitions))
        then mret (LoopDone rest) else recover_loop eof_partitions recovered rest
    | PollError error => lift (Err ("retry recovery receive failed: " +:+ error))
    end
  end.

(** [DurableWorker::run]: the set of completed deliveries is new.  The first two
    arguments are the errors of the two [subscribe] calls, if any. *)
Definition durable_run (recovery_error topic_error : option string) (polls : list (bool * Poll))
    : act LoopEnd :=
  _ ← put_completed ∅;
  _ ← lift (match recovery_error with
            | Some error => Err ("retry recovery subscription failed: " +:+ error)
            | None => Ok tt
            end);
  recovered ← recover_loop ∅ 0 polls;
  match recovered with
  | StillWaiting => mret StillWaiting
  | LoopDone rest =>
    _ ← lift (match topic_error with
              | Some error => Err ("durable topic subscription failed: " +:+ error)
              | None => Ok tt
              end);
    run_loop rest
  end.
End worker.

(** ** Traces of [process] *)

Lemma act_bind_Some {A B} (m : act A) (k : A → act B) s s' r :
  (x ← m; k x) s = Some (s', r) →
  (∃ s1 a, m s = Some (s1, Ok a) ∧ k a s1 = Some (s', r)) ∨ (∃ e, m s = Some (s', Err e) ∧ r = Err e).
Proof.
  unfold mbind, act_bind. destruct (m s) as [[s1 [a|e]]|]; intros Hk; simplify_eq; eauto.
Qed.

Lemma bind_count {A} f (k : act A) s : (_ ← count f; k) s = k (wk_count f s).
Proof. done. Qed.
Lemma bind_emit {A} e (k : act A) s : (_ ← emit e; k) s = k (wk_emit e s).
Proof. done. Qed.

(** The commit of an input that is not committed yet. *)
Definition commit_effects (cursor : RecordCursor) (input_committed : bool) : list WorkerEffect :=
  if input_committed then []
  else [CommittedOffset (cu_topic cursor) (cu_partition cursor) (sat_add i64_max (cu_offset cursor) 1)].

Lemma commit_input_run env b cursor s s' r :
  commit_input env b cursor s = Some (s', r) →
  wk_completed s' = wk_completed s ∧
  wk_log s' = wk_log s ++ (if is_ok r then commit_effects cursor b else []).
Proof.
  unfold commit_input. destruct b; simpl.
  { intros [= <- <-]. simpl. by rewrite app_nil_r. }
  unfold do_commit, commit_cursor. intros [(s1 & [[t p] o] & H1 & H2)|(e & H1 & ->)]%act_bind_Some.
  - unfold lift, emit in *. destruct (ae_build_error env), (ae_commit_error env); by simplify_eq/=.
  - unfold lift in *. destruct (ae_build_error env), (ae_commit_error env); simplify_eq/=;
      by rewrite app_nil_r.
Qed.

Lemma do_publish_run `{RecordCodec} w env topic record s s' r :
  do_publish w env topic record s = Some (s', r) →
  wk_completed s' = wk_completed s ∧
  wk_log s' = wk_log s ++ (if is_ok r then [PublishedRecord topic record] else []) ∧
  (is_ok r = true → publish_record (ae_producer env) topic record (dk_max_record_bytes w) = Ok tt).
Proof.
  unfold do_publish. intros [(s1 & [] & H1 & H2)|(e & H1 & ->)]%act_bind_Some.
  - unfold lift, emit in *. by simplify_eq/=.
  - unfold lift in *. simplify_eq/=. by rewrite app_nil_r.
Qed.

Lemma do_remember_run id limit s s' r :
  do_remember id limit s = Some (s', r) →
  wk_log s' = wk_log s ∧
  if is_ok r then wk_completed s' = ({[id]} ∪ wk_completed s) ∧
                  (id ∈ wk_completed s ∨ Z.of_nat (size (wk_completed s)) < limit)
  else wk_completed s' = wk_completed s ∧ (id ∉ wk_completed s) ∧
       limit ≤ Z.of_nat (size (wk_completed s)).
Proof.
  unfold do_remember, remember_completed.
  intros [(s1 & c & H1 & H2)|(e & H1 & ->)]%act_bind_Some; [|done].
  unfold get_completed in H1. simplify_eq/=. revert H2. destruct (_ && _) eqn:E.
  - intros [= <- <-]. apply andb_true_iff in E as [E1%Z.leb_le E2%negb_true_iff%bool_decide_eq_false].
    done.
  - intros [= <- <-]. simpl. split_and!; [done..|].
    apply andb_false_iff in E as [E%Z.leb_gt|E%negb_false_iff%bool_decide_eq_true]; auto.
Qed.

(** How handling one input goes, from attempt [a] on: the effects, and whether
    the delivery was completed. *)
Inductive trace (w : DurableWorker) (id : string) (cursor : RecordCursor)
    : bool → Z → list WorkerEffect → bool → Prop :=
| trace_stopped b a : trace w id cursor b a [] false
| trace_delivered b a status (committed : bool) done :
    (done = true → committed = true) →
    trace w id cursor b a
      (Attempted id a (OutcomeDelivered status) ::
       if committed then commit_effects cursor b else []) done
| trace_lost b a class :
    trace w id cursor b a [Attempted id a (OutcomeFailed class)] false
| trace_retry_stopped b a class record :
    dr_delivery_id record = id →
    trace w id cursor b a
      [Attempted id a (OutcomeFailed class); PublishedRecord (dk_retry_topic w) record] false
| trace_retry b a class record l done :
    should_retry class = true → a < de_max_attempts (dk_endpoint w) →
    dr_delivery_id record = id → dr_attempt record = a + 1 →
    trace w id cursor true (a + 1) l done →
    trace w id cursor b a
      (Attempted id a (OutcomeFailed class) :: PublishedRecord (dk_retry_topic w) record ::
       commit_effects cursor b ++ l) done
| trace_dead b a class record (committed : bool) done :
    should_retry class = false ∨ de_max_attempts (dk_endpoint w) ≤ a →
    dr_delivery_id record = id → dr_attempt record = a → (done = true → committed = true) →
    trace w id cursor b a
      (Attempted id a (OutcomeFailed class) :: PublishedRecord (dk_dead_letter_topic w) record ::
       if committed then commit_effects cursor b else []) done.

Section process_trace.
Context `{RecordCodec} `{HttpTypes} `{Base64} (version : string) (w : DurableWorker).
Context (Hmax : de_max_attempts (dk_endpoint w) ≤ u32_max).

(** What the completed set becomes. *)
Definition completion (id : string) (done : bool) (s s' : WorkerState) : Prop :=
  if done then wk_completed s' = ({[id]} ∪ wk_completed s) ∧
               (id ∈ wk_completed s ∨
                Z.of_nat (size (wk_completed s)) < dk_max_recovery_records w)
  else wk_completed s' = wk_completed s.

(** The end of a delivered or dead-lettered input. *)
Lemma finish_run env b cursor id s s' r :
  (_ ← commit_input env b cursor; do_remember id (dk_max_recovery_records w)) s = Some (s', r) →
  ∃ committed, (is_ok r = true → committed = true) ∧
    wk_log s' = wk_log s ++ (if committed : bool then commit_effects cursor b else []) ∧
    completion id (is_ok r) s s'.
Proof.
  intros [(s1 & [] & Hm & Hk)|(e & Hm & ->)]%act_bind_Some.
  - apply commit_input_run in Hm as [Hc Hl]. apply do_remember_run in Hk as [Hl2 Hk].
    exists true. rewrite Hl2, Hl. split_and!; [done..|]. unfold completion.
    rewrite Hc in Hk. destruct (is_ok r); tauto.
  - apply commit_input_run in Hm as [Hc Hl]. by exists false.
Qed.

Lemma process_loop_trace fuel env cursor body b record s s' r :
  process_loop version w fuel env cursor body b record s = Some (s', r) →
  ∃ l, trace w (dr_delivery_id record) cursor b (dr_attempt record) l (is_ok r) ∧
    wk_log s' = wk_log s ++ l ∧ completion (dr_delivery_id record) (is_ok r) s s'.
Proof.
  revert b record s. induction fuel as [|fuel IH]; intros b record s; [done|]. simpl.
  set (env_now := env (dr_attempt record)).
  set (outcome := DurableEndpoint_send_attempt _ _ _ _ _ _ _).
  intros [(s1 & [] & Hw & Hrun)|(e & Hw & ->)]%act_bind_Some; unfold lift in Hw; simplify_eq.
  2: { exists []. rewrite app_nil_r. split_and!; [constructor|done..]. }
  rewrite bind_count, bind_emit, bind_count in Hrun.
  destruct outcome as [status|class].
  - rewrite bind_count in Hrun. apply finish_run in Hrun as (committed & Hd & Hl & Hc).
    eexists. split_and!; [by eapply (trace_delivered _ _ _ _ _ status committed)| |exact Hc].
    rewrite Hl. simpl. by rewrite <-app_assoc.
  - destruct (should_retry class && _) eqn:Er.
    + apply andb_true_iff in Er as [Er Hlt%Z.ltb_lt]. set (record' := retry_record _ _ _ _) in Hrun.
      assert (dr_attempt record' = dr_attempt record + 1) as Ha by (apply sat_add_exact; lia).
      apply act_bind_Some in Hrun as [(s2 & [] & Hp & Hrun)|(e & Hp & ->)];
        apply do_publish_run in Hp as (Hc & Hl & _); simpl in Hc, Hl.
      2: { eexists. split_and!; [apply trace_lost| |exact Hc]. by rewrite Hl, app_nil_r. }
      rewrite bind_count in Hrun.
      apply act_bind_Some in Hrun as [(s3 & [] & Hk & Hrun)|(e & Hk & ->)];
        apply commit_input_run in Hk as (Hc2 & Hl2); simpl in Hc2, Hl2.
      2: { eexists. split_and!; [by apply (trace_retry_stopped _ _ _ _ _ class record')| |].
           - rewrite Hl2, Hl, app_nil_r, <-app_assoc. done.
           - simpl. congruence. }
      apply IH in Hrun as (l & Ht & Hl3 & Hc3). rewrite Ha in Ht.
      change (dr_delivery_id record') with (dr_delivery_id record) in Ht, Hc3.
      eexists. split_and!; [by eapply (trace_retry _ _ _ _ _ class record')| |].
      * rewrite Hl3, Hl2, Hl, <-!app_assoc. done.
      * unfold completion in *. rewrite Hc2, Hc in Hc3. exact Hc3.
    + set (record' := dead_letter_record _ _) in Hrun.
      apply act_bind_Some in Hrun as [(s2 & [] & Hp & Hrun)|(e & Hp & ->)];
        apply do_publish_run in Hp as (Hc & Hl & _); simpl in Hc, Hl.
      2: { eexists. split_and!; [apply trace_lost| |exact Hc]. by rewrite Hl, app_nil_r. }
      rewrite !bind_count in Hrun. apply finish_run in Hrun as (committed & Hd & Hl2 & Hc2).
      eexists. split_and!; [eapply (trace_dead _ _ _ _ _ class record' committed)| |].
      * apply andb_false_iff in Er as [Er|Er%Z.ltb_ge]; auto.
      * done.
      * done.
      * exact Hd.
      * rewrite Hl2. simpl. rewrite Hl, <-!app_assoc. done.
      * unfold completion in *. simpl in *. rewrite Hc in Hc2. exact Hc2.
Qed.
End process_trace.

(** ** Termination *)

(** Code that ends from every state. *)
Definition total {A} (m : act A) : Prop := ∀ s, ∃ s' r, m s = Some (s', r).

Create HintDb total.

Lemma total_bind {A B} (m : act A) (k : A → act B) :
  total m → (∀ a, total (k a)) → total (x ← m; k x).
Proof.
  intros Hm Hk s. unfold mbind, act_bind. destruct (Hm s) as (s1 & [a|e] & ->); [apply Hk|eauto].
Qed.
Lemma total_ret {A} (a : A) : total (mret a).
Proof. intros s. by eexists _, _. Qed.
Lemma total_lift {A} (r : result string A) : total (lift r).
Proof. intros s. by eexists _, _. Qed.
Lemma total_emit e : total (emit e).
Proof. intros s. by eexists _, _. Qed.
Lemma total_count f : total (count f).
Proof. intros s. by eexists _, _. Qed.
Lemma total_get : total get_completed.
Proof. intros s. by eexists _, _. Qed.
Lemma total_put c : total (put_completed c).
Proof. intros s. by eexists _, _. Qed.
#[export] Hint Resolve total_ret total_lift total_emit total_count total_get total_put : total.

(** Reduces totality along binds, matches and conditionals. *)
Ltac solve_total := repeat first
  [ match goal with |- total (mbind _ _) => apply total_bind; [|intros ?] end
  | progress auto with total
  | match goal with |- total (match ?x with _ => _ end) => destruct x eqn:? end ].

Lemma total_commit b c cursor : total (do_commit b c cursor).
Proof. unfold do_commit. solve_total. Qed.
Lemma total_commit_input env b cursor : total (commit_input env b cursor).
Proof. unfold commit_input, do_commit. solve_total. Qed.
Lemma total_publish `{RecordCodec} w env topic record : total (do_publish w env topic record).
Proof. unfold do_publish. solve_total. Qed.
Lemma total_remember id limit : total (do_remember id limit).
Proof. unfold do_remember. solve_total. Qed.
#[export] Hint Resolve total_commit total_commit_input total_publish total_remember : total.

Section termination.
Context `{RecordCodec} `{HttpTypes} `{Base64} (version : string) (w : DurableWorker).
Context (Hmax : de_max_attempts (dk_endpoint w) ≤ u32_max).

Lemma process_loop_total fuel env cursor body b record :
  (Z.to_nat (de_max_attempts (dk_endpoint w) - dr_attempt record) < fuel)%nat →
  total (process_loop version w fuel env cursor body b record).
Proof.
  revert b record. induction fuel as [|fuel IH]; intros b record Hfuel; [lia|]. simpl.
  solve_total. apply IH. simpl. apply andb_true_iff in Heqb0 as [_ Hlt%Z.ltb_lt].
  rewrite sat_add_exact by lia. lia.
Qed.

Lemma process_total env input : total (process version w env input).
Proof.
  apply total_bind; [auto with total|]. intros body. apply process_loop_total.
  unfold process_fuel. lia.
Qed.

Lemma handle_message_total message b c env : total (handle_message version w message b c env).
Proof.
  unfold handle_message. do 2 (apply total_bind; [auto with total|intros ?]).
  destruct (_ || _); [auto with total|apply process_total].
Qed.

Lemma run_loop_total polls : total (run_loop version w polls).
Proof.
  induction polls as [|[shutdown p] rest IH]; simpl; [auto with total|].
  destruct shutdown; [auto with total|]. destruct p; try apply IH.
  - destruct (_ || _); [auto with total|apply IH].
  - apply total_bind; [apply handle_message_total|auto].
Qed.

Lemma recover_loop_total eof recovered polls : total (recover_loop version w eof recovered polls).
Proof.
  revert eof recovered. induction polls as [|[shutdown p] rest IH]; intros eof recovered;
    simpl; [auto with total|].
  pose proof process_total. destruct shutdown; [auto with total|].
  destruct p; solve_total; auto.
Qed.

Lemma durable_run_total e1 e2 polls : total (durable_run version w e1 e2 polls).
Proof.
  pose proof recover_loop_total. pose proof run_loop_total. unfold durable_run.
  do 2 (apply total_bind; [auto with total|intros ?]). apply total_bind; [auto|].
  intros [|rest]; solve_total; auto.
Qed.
End termination.
