(* ===== verification/DurableSpec.v ===== *)
(** * Durable webhooks: what the worker guarantees

    The properties of [DurableWorker]: handling one record ends within the
    attempts that are left and commits the input once, after the delivery is
    settled; over a whole run no offset is committed before its delivery is
    settled elsewhere, and a completed delivery is not sent again; what a
    worker publishes is what its successor reads; the retry delays; and how
    long a worker can live. *)

From S2P Require Import Prelude Str Ids Message Route Metrics Channel Router Kafka Wire.
From S2P Require Import Security Webhook Durable.
Open Scope Z_scope.

(** ** Observations of a log *)

Definition attempt_of (e : WorkerEffect) : option (string * Z) :=
  match e with Attempted id a _ => Some (id, a) | _ => None end.

Definition commit_of (e : WorkerEffect) : option (string * Z * Z) :=
  match e with CommittedOffset t p o => Some (t, p, o) | _ => None end.

(** The effect leaves the delivery [id] in somebody else's hands: the endpoint
    accepted it, or a record of it is in a retry or dead-letter topic. *)
Definition settles (id : string) (e : WorkerEffect) : Prop :=
  match e with
  | Attempted id' _ (OutcomeDelivered _) => id' = id
  | PublishedRecord _ record => dr_delivery_id record = id
  | _ => False
  end.

Definition settled (id : string) (l : list WorkerEffect) : Prop := Exists (settles id) l.

(** The position whose commit acknowledges an input. *)
Definition commit_position (cursor : RecordCursor) : string * Z * Z :=
  (cu_topic cursor, cu_partition cursor, sat_add i64_max (cu_offset cursor) 1).

(** Every commit in [l] has [J] of its position and of what came before, where
    [before] precedes [l]. *)
Fixpoint justified (J : string * Z * Z → list WorkerEffect → Prop) (before l : list WorkerEffect)
    : Prop :=
  match l with
  | [] => True
  | e :: l => (∀ pos, commit_of e = Some pos → J pos before) ∧ justified J (before ++ [e]) l
  end.

Lemma justified_app J before l1 l2 :
  justified J before (l1 ++ l2) ↔ justified J before l1 ∧ justified J (before ++ l1) l2.
Proof.
  revert before. induction l1 as [|e l1 IH]; intros before; simpl.
  - rewrite app_nil_r. tauto.
  - rewrite IH, <-app_assoc. simpl. tauto.
Qed.

Lemma justified_elim J before l pre e post pos :
  justified J before l → l = pre ++ e :: post → commit_of e = Some pos → J pos (before ++ pre).
Proof. intros Hj ->. apply justified_app in Hj as [_ [Hj _]]. auto. Qed.

Lemma justified_impl (J J' : string * Z * Z → list WorkerEffect → Prop) before l :
  (∀ pos pre, J pos pre → J' pos pre) → justified J before l → justified J' before l.
Proof.
  intros Himp. revert before. induction l as [|e l IH]; intros before; simpl; [done|].
  intros [He Hl]. split; [|by apply IH]. auto.
Qed.

(** The delivery ended: accepted at attempt [n], or dead-lettered after it. *)
Definition ended (w : DurableWorker) (id : string) (n : Z) (l : list WorkerEffect) : Prop :=
  (∃ status, Attempted id n (OutcomeDelivered status) ∈ l) ∨
  (∃ record, PublishedRecord (dk_dead_letter_topic w) record ∈ l ∧
     dr_delivery_id record = id ∧ dr_attempt record = n).

Section traces.
Context (w : DurableWorker) (id : string) (cursor : RecordCursor).

Lemma commit_effects_commits b :
  omap commit_of (commit_effects cursor b) = if b then [] else [commit_position cursor].
Proof. by destruct b. Qed.

Lemma commit_effects_attempts b : omap attempt_of (commit_effects cursor b) = [].
Proof. by destruct b. Qed.

(** Attempts are numbered consecutively and are of this delivery. *)
Lemma trace_attempts b a l done :
  trace w id cursor b a l done →
  ∃ n, 0 ≤ n ≤ Z.max 1 (de_max_attempts (dk_endpoint w) - a + 1) ∧
    omap attempt_of l = (id,.) <$> seqZ a n ∧ (done = true → 1 ≤ n).
Proof.
  induction 1 as [b a|b a st c done _|b a cl|b a cl r _|b a cl r l done _ Hlt _ _ _ IH|b a cl r c done _ _ _ _].
  - exists 0. split_and!; [lia|lia|done|done].
  - exists 1. split_and!; [lia|lia| |lia]. simpl. destruct c; [by rewrite commit_effects_attempts|done].
  - exists 1. split_and!; [lia|lia|done|lia].
  - exists 1. split_and!; [lia|lia|done|lia].
  - destruct IH as (n & Hn & Hl & _). exists (n + 1). split_and!; [lia|lia| |lia]. simpl.
    rewrite omap_app, commit_effects_attempts, Hl. simpl. rewrite (seqZ_cons a) by lia.
    rewrite fmap_cons. by replace (Z.pred (n + 1)) with n by lia.
  - exists 1. split_and!; [lia|lia| |lia]. simpl. destruct c; [by rewrite commit_effects_attempts|done].
Qed.

(** A completed trace commits the input if it was not, and the delivery
    ended at its last attempt. *)
Lemma trace_done b a l :
  trace w id cursor b a l true →
  omap commit_of l = (if b then [] else [commit_position cursor]) ∧
  ended w id (a + Z.of_nat (length (omap attempt_of l)) - 1) l.
Proof.
  remember true as done eqn:Ed. intros Ht. revert Ed.
  induction Ht as [b a|b a st c done Hc|b a cl|b a cl r Hr|b a cl r l done _ _ Hr _ Ht IH|b a cl r c done _ Hr Ha Hc];
    intros Ed; try discriminate Ed; try (subst done).
  - rewrite (Hc eq_refl). simpl. rewrite commit_effects_commits, commit_effects_attempts. split; [done|].
    left. exists st. simpl. replace (a + Z.of_nat 1 - 1) with a by lia. left.
  - destruct (IH eq_refl) as [Hcm He]. simpl. rewrite !omap_app, commit_effects_commits, Hcm,
      commit_effects_attempts, app_nil_r. split; [done|]. simpl.
    replace (a + _ - 1) with (a + 1 + Z.of_nat (length (omap attempt_of l)) - 1) by lia.
    destruct He as [[st He]|(r' & He & Hid & Hn)]; [left; exists st; set_solver|].
    right. exists r'. set_solver.
  - rewrite (Hc eq_refl). simpl. rewrite commit_effects_commits, commit_effects_attempts. split; [done|].
    right. exists r. simpl. split_and!; [set_solver|done|lia].
Qed.
End traces.


(** The commit of an input comes after its settlement. *)
Definition input_justified (id : string) (cursor : RecordCursor) (pos : string * Z * Z)
    (pre : list WorkerEffect) : Prop := pos = commit_position cursor ∧ settled id pre.

Section trace_commits.
Context (w : DurableWorker) (id : string) (cursor : RecordCursor).

Lemma commit_effects_justified b before :
  settled id before → justified (input_justified id cursor) before (commit_effects cursor b).
Proof. intros Hs. destruct b; simpl; [done|]. split; [|done]. by intros pos [= <-]. Qed.

Lemma settled_mono l1 l2 : settled id l1 → settled id (l1 ++ l2).
Proof. intros H. apply Exists_app. by left. Qed.

Lemma settled_snoc l e : settles id e → settled id (l ++ [e]).
Proof. intros H. apply Exists_app. right. by left. Qed.

Lemma trace_justified b a l done before :
  trace w id cursor b a l done → justified (input_justified id cursor) before l.
Proof.
  intros Ht. revert before.
  induction Ht as [b a|b a st c done Hc|b a cl|b a cl r Hr|b a cl r l done _ _ Hr _ Ht IH|b a cl r c done _ Hr Ha Hc];
    intros before; simpl; try (split; [done|]); try (split; [done|]); try done.
  - destruct c; [|done]. by apply commit_effects_justified, settled_snoc.
  - apply justified_app. split; [|apply IH]. by apply commit_effects_justified, settled_snoc.
  - destruct c; [|done]. by apply commit_effects_justified, settled_snoc.
Qed.

(** Completing settles the delivery. *)
Lemma trace_settles b a l : trace w id cursor b a l true → settled id l.
Proof.
  intros Ht. apply Exists_exists.
  destruct (trace_done _ _ _ _ _ _ Ht) as [_ [[st He]|(r & He & Hid & _)]].
  - by exists (Attempted id (a + Z.of_nat (length (omap attempt_of l)) - 1) (OutcomeDelivered st)).
  - by exists (PublishedRecord (dk_dead_letter_topic w) r).
Qed.

(** All attempts are of this delivery. *)
Lemma trace_attempt_ids b a l done e id' n :
  trace w id cursor b a l done → e ∈ l → attempt_of e = Some (id', n) → id' = id.
Proof.
  intros Ht Hin He. destruct (trace_attempts _ _ _ _ _ _ _ Ht) as (k & _ & Hl & _).
  assert ((id', n) ∈ omap attempt_of l) as Hp by (apply list_elem_of_omap; eauto).
  rewrite Hl in Hp. apply list_elem_of_fmap in Hp as (? & [= -> _] & _). done.
Qed.
End trace_commits.

Section process.
Context `{RecordCodec} `{HttpTypes} `{Base64} (version : string).
Implicit Types (w : DurableWorker) (s : WorkerState).

(** The trace of [process]: nothing happens when the body does not decode. *)
Lemma process_trace w env input s s' r :
  de_max_attempts (dk_endpoint w) ≤ u32_max →
  process version w env input s = Some (s', r) →
  ∃ l, trace w (dr_delivery_id (in_record input)) (in_cursor input) false
         (dr_attempt (in_record input)) l (is_ok r) ∧
    wk_log s' = wk_log s ++ l ∧ completion w (dr_delivery_id (in_record input)) (is_ok r) s s'.
Proof.
  intros Hmax [(s1 & body & Hb & Hrun)|(e & Hb & ->)]%act_bind_Some; unfold lift in Hb; simplify_eq.
  - by eapply process_loop_trace.
  - exists []. rewrite app_nil_r. split_and!; [constructor|done..].
Qed.

(** The input is committed at most once. *)
Lemma trace_commits w id cursor b a l done :
  trace w id cursor b a l done → (length (omap commit_of l) ≤ if b then 0 else 1)%nat.
Proof.
  assert (∀ b' (c : bool), length (omap commit_of (if c then commit_effects cursor b' else []))
    ≤ if b' then 0 else 1)%nat as Hc by (intros [] []; simpl; lia).
  induction 1 as [b a|b a st c done _|b a cl|b a cl r _|b a cl r l done _ _ _ _ _ IH|b a cl r c done _ _ _ _];
    simpl; try (destruct b; simpl; lia); try apply Hc.
  rewrite omap_app, length_app. pose proof (Hc b true). simpl in IH. destruct b; simpl in *; lia.
Qed.

(** (C12) Handling one durable record always ends: the attempts are numbered
    consecutively from the record's and do not exceed the endpoint's limit
    (one attempt is made when the record is already at it); the input is
    committed at most once, at the offset after it, and only after the
    delivery was accepted or handed to the retry or dead-letter topic; and
    when it succeeds the input is committed exactly once, the delivery was
    accepted or dead-lettered at its last attempt, and it is remembered as
    completed. *)
Theorem durable_process_exact w env input s
    (Hmax : de_max_attempts (dk_endpoint w) ≤ u32_max) :
  let id := dr_delivery_id (in_record input) in
  let a := dr_attempt (in_record input) in
  ∃ s' r l n, process version w env input s = Some (s', r) ∧ wk_log s' = wk_log s ++ l ∧
    0 ≤ n ≤ Z.max 1 (de_max_attempts (dk_endpoint w) - a + 1) ∧
    omap attempt_of l = (id,.) <$> seqZ a n ∧
    (∀ pre e post pos, l = pre ++ e :: post → commit_of e = Some pos →
       pos = commit_position (in_cursor input) ∧ settled id pre) ∧
    (length (omap commit_of l) ≤ 1)%nat ∧
    (r = Ok tt → omap commit_of l = [commit_position (in_cursor input)] ∧
       ended w id (a + n - 1) l ∧ id ∈ wk_completed s').
Proof.
  intros id a. destruct (process_total version w Hmax env input s) as (s' & r & Hrun).
  destruct (process_trace _ _ _ _ _ _ Hmax Hrun) as (l & Ht & Hlog & Hc).
  destruct (trace_attempts _ _ _ _ _ _ _ Ht) as (n & Hn & Hl & _).
  exists s', r, l, n. split_and!; try done; try lia.
  - intros pre e post pos Heq He. pose proof (trace_justified _ _ _ _ _ _ _ [] Ht) as Hj.
    apply (justified_elim _ _ _ _ _ _ _ Hj Heq He).
  - by apply trace_commits in Ht.
  - intros ->. apply trace_done in Ht as [Hcm He]. split_and!; [done| |].
    + rewrite Hl, length_fmap, length_seqZ in He. by replace (Z.of_nat (Z.to_nat n)) with n in He by lia.
    + destruct Hc as [-> _]. set_solver.
Qed.
End process.

(** ** Runs *)

(** Code whose steps are related by [R]. *)
Definition keeps {A} (R : WorkerState → WorkerState → Prop) (m : act A) : Prop :=
  ∀ s s' r, m s = Some (s', r) → R s s'.

Section keeps.
Context {A B : Type} (R : WorkerState → WorkerState → Prop) `{!PreOrder R}.

Lemma keeps_bind (m : act B) (k : B → act A) :
  keeps R m → (∀ b s, (∃ s0, m s0 = Some (s, Ok b)) → ∀ s' r, k b s = Some (s', r) → R s s') →
  keeps R (x ← m; k x).
Proof.
  intros Hm Hk s s' r [(s1 & a & Ha & Hrun)|(e & Ha & ->)]%act_bind_Some.
  - etrans; [by eapply Hm|]. eapply Hk; eauto.
  - by eapply Hm.
Qed.

Lemma keeps_then (m : act B) (k : B → act A) :
  keeps R m → (∀ b, keeps R (k b)) → keeps R (x ← m; k x).
Proof using PreOrder0. intros Hm Hk. apply keeps_bind; [done|]. intros b s _ s' r. apply Hk. Qed.

Lemma keeps_ret (a : A) : keeps R (mret a).
Proof. by intros s s' r [= <- <-]. Qed.

Lemma keeps_lift (r : result string A) : keeps R (lift r).
Proof. intros s s' r' Hrun. unfold lift in Hrun. by simplify_eq. Qed.
End keeps.

(** ** The two loops *)

(** A relation between the states before and after, and whether the step went
    well: only then does the worker go on. *)
Class Progress (R : bool → WorkerState → WorkerState → Prop) := {
  progress_refl ok s : R ok s s;
  progress_trans ok s1 s2 s3 : R true s1 s2 → R ok s2 s3 → R ok s1 s3;
  progress_count f s : R true s (wk_count f s);
}.

Lemma recover_loop_rest `{RecordCodec} `{HttpTypes} `{Base64} version w polls eof recovered s s' rest :
  recover_loop version w eof recovered polls s = Some (s', Ok (LoopDone rest)) → rest ⊆ polls.
Proof.
  revert eof recovered s. induction polls as [|[shutdown p] polls IH]; simpl; intros eof recovered s; [done|].
  assert (∀ eof recovered s, recover_loop version w eof recovered polls s = Some (s', Ok (LoopDone rest)) →
    rest ⊆ (shutdown, p) :: polls) as IH' by (intros ? ? ? Hr; apply IH in Hr; set_solver). clear IH.
  destruct shutdown; [by intros [= <- <-]|]. destruct p as [err value|message b c env|part asg|text].
  - destruct (err || value); [intros [= <- <-]; set_solver|apply IH'].
  - intros [(s1 & input & _ & Hrun)|(e & _ & ?)]%act_bind_Some; [|done]. revert Hrun.
    case_bool_decide; simpl.
    + rewrite bind_count. intros [(s2 & [] & _ & Hrun)|(e & _ & ?)]%act_bind_Some; [|done].
      apply act_bind_Some in Hrun as [(s3 & comp & _ & Hrun)|(e & _ & ?)]; [|done].
      apply act_bind_Some in Hrun as [(s4 & [] & _ & Hrun)|(e & _ & ?)]; [|done]. by eapply IH'.
    + intros [(s2 & [] & _ & Hrun)|(e & _ & ?)]%act_bind_Some; [|done]. by eapply IH'.
  - intros [(s1 & assigned & _ & Hrun)|(e & _ & ?)]%act_bind_Some; [|done]. revert Hrun.
    destruct (_ && _); [intros [= <- <-]; set_solver|apply IH'].
  - done.
Qed.

Section loops.
Context `{RecordCodec} `{HttpTypes} `{Base64} (version : string) (w : DurableWorker).
Context (polls0 : list (bool * Poll)) (R : bool → WorkerState → WorkerState → Prop) `{!Progress R}.

(** The input of a poll. *)
Definition polled (message : ConsumedMessage) (b c : option string) (env : Z → AttemptEnv)
    (input : InputRecord) : Prop :=
  (∃ shutdown, (shutdown, PollMessage message b c env) ∈ polls0) ∧
  from_message message (dk_max_record_bytes w) = Ok input.

(** Acknowledging a record that is not ours or is completed, and processing one
    that is ours and is not. *)
Hypothesis R_commit : ∀ message b c env input s s' r,
  polled message b c env input →
  dr_destination_id (in_record input) ≠ de_id (dk_endpoint w) ∨
    dr_delivery_id (in_record input) ∈ wk_completed s →
  do_commit b c (in_cursor input) s = Some (s', r) → R (is_ok r) s s'.
Hypothesis R_process : ∀ message b c env input s s' r,
  polled message b c env input →
  dr_destination_id (in_record input) = de_id (dk_endpoint w) →
  dr_delivery_id (in_record input) ∉ wk_completed s →
  process version w env input s = Some (s', r) → R (is_ok r) s s'.

(** A step that ends the loop when it fails. *)
Lemma loop_step {A} (m : act unit) (k : act A) s s' r :
  (∀ s' r, m s = Some (s', r) → R (is_ok r) s s') →
  (∀ s1, k s1 = Some (s', r) → R (is_ok r) s1 s') →
  (_ ← m; k) s = Some (s', r) → R (is_ok r) s s'.
Proof using Progress0.
  intros Hm Hk [(s1 & [] & Hs & Hrun)|(e & Hs & ->)]%act_bind_Some; [|by apply (Hm _ (Err e))].
  eapply progress_trans; [by apply (Hm _ (Ok tt))|by apply Hk].
Qed.

Lemma loop_input {A} message (k : InputRecord → act A) s s' r :
  (input ← lift (from_message message (dk_max_record_bytes w)); k input) s = Some (s', r) →
  (∀ input, from_message message (dk_max_record_bytes w) = Ok input →
     k input s = Some (s', r) → R (is_ok r) s s') → R (is_ok r) s s'.
Proof using Progress0.
  intros [(s1 & input & Hs & Hrun)|(e & Hs & ->)]%act_bind_Some Hk; unfold lift in Hs; simplify_eq.
  - by eapply Hk.
  - apply progress_refl.
Qed.

Lemma handle_message_keeps message b c env s s' r :
  (∃ shutdown, (shutdown, PollMessage message b c env) ∈ polls0) →
  handle_message version w message b c env s = Some (s', r) → R (is_ok r) s s'.
Proof using Progress0 R_commit R_process.
  intros Hpoll Hrun. apply (loop_input _ _ _ _ _ Hrun). clear Hrun. intros input Hin Hrun.
  cbv beta iota delta [mbind act_bind get_completed] in Hrun. destruct (_ || _) eqn:E.
  - apply orb_true_iff in E. rewrite negb_true_iff, bool_decide_eq_false, bool_decide_eq_true in E.
    by eapply R_commit.
  - apply orb_false_iff in E as [E%negb_false_iff%bool_decide_eq_true Hn%bool_decide_eq_false].
    by eapply R_process.
Qed.

Lemma run_loop_keeps polls s s' r :
  polls ⊆ polls0 → run_loop version w polls s = Some (s', r) → R (is_ok r) s s'.
Proof using Progress0 R_commit R_process.
  revert s. induction polls as [|[shutdown p] rest IH]; simpl; intros s Hsub.
  { intros [= <- <-]. apply progress_refl. }
  assert (rest ⊆ polls0) as Hrest by set_solver.
  destruct shutdown; [intros [= <- <-]; apply progress_refl|].
  destruct p as [err value|message b c env|part asg|text]; eauto.
  - destruct (err || value); [intros [= <- <-]; apply progress_refl|eauto].
  - apply loop_step; [|eauto]. intros s1 r1 Hr. eapply handle_message_keeps; [|exact Hr]. exists false. set_solver.
Qed.

Lemma recover_loop_keeps polls eof recovered s s' r :
  polls ⊆ polls0 → recover_loop version w eof recovered polls s = Some (s', r) → R (is_ok r) s s'.
Proof using Progress0 R_commit R_process.
  revert eof recovered s. induction polls as [|[shutdown p] rest IH]; simpl; intros eof recovered s Hsub.
  { intros [= <- <-]. apply progress_refl. }
  assert (rest ⊆ polls0) as Hrest by set_solver.
  destruct shutdown; [intros [= <- <-]; apply progress_refl|].
  destruct p as [err value|message b c env|part asg|text].
  - destruct (err || value); [intros [= <- <-]; apply progress_refl|eauto].
  - assert (∃ shutdown, (shutdown, PollMessage message b c env) ∈ polls0) as Hpoll
      by (exists false; set_solver).
    intros Hrun. apply (loop_input _ _ _ _ _ Hrun). clear Hrun. intros input Hin.
    case_bool_decide as Hdest; simpl.
    + rewrite bind_count. intros Hrun.
      apply (progress_trans _ _ (wk_count record_webhook_recovery_replay s)); [apply progress_count|].
      revert Hrun. apply (loop_step (lift _)).
      { intros s1 r1 [= <- <-]. apply progress_refl. }
      intros s1 Hrun. cbv beta iota delta [mbind act_bind get_completed] in Hrun.
      revert Hrun. apply (loop_step (if bool_decide (dr_delivery_id (in_record input) ∈ wk_completed s1)
        then do_commit b c (in_cursor input) else process version w env input)); [|eauto]. intros s3 r3.
      case_bool_decide; [eapply R_commit; [by split|by right]|by eapply R_process; [split|..]].
    + apply loop_step; [|eauto]. intros s1 r1. eapply R_commit; [by split|by left].
  - intros [(s1 & assigned & Hs & Hrun)|(e & Hs & ->)]%act_bind_Some; unfold lift in Hs; simplify_eq;
      [|apply progress_refl]. revert Hrun.
    destruct (_ && _); [intros [= <- <-]; apply progress_refl|eauto].
  - intros [= <- <-]. apply progress_refl.
Qed.

(** A worker that has just been started. *)
Definition started (s : WorkerState) : WorkerState :=
  {| wk_metrics := wk_metrics s; wk_completed := ∅; wk_log := wk_log s |}.

Lemma durable_run_keeps e1 e2 s s' r :
  durable_run version w e1 e2 polls0 s = Some (s', r) → R (is_ok r) (started s) s'.
Proof using Progress0 R_commit R_process.
  unfold durable_run.
  change ((_ ← put_completed ∅; ?k) s) with (k (started s)). intros Hrun.
  revert Hrun. apply (loop_step (lift _)).
  { intros s1 r1 [= <- <-]. apply progress_refl. }
  intros s1 [(s3 & [|rest] & Hrec & Hrun)|(e & Hrec & ->)]%act_bind_Some.
  - injection Hrun as <- <-. by apply recover_loop_keeps in Hrec.
  - pose proof (recover_loop_rest _ _ _ _ _ _ _ _ Hrec). apply recover_loop_keeps in Hrec; [|done].
    eapply progress_trans; [exact Hrec|]. revert Hrun. apply (loop_step (lift _)).
    { intros s4 r4 [= <- <-]. apply progress_refl. }
    intros s4 Hr. by eapply run_loop_keeps.
  - by apply recover_loop_keeps in Hrec.
Qed.
End loops.

(** ** Commits of a run *)

(** Deliveries are remembered as completed only once they are settled. *)
Definition completed_settled (s : WorkerState) : Prop :=
  ∀ id, id ∈ wk_completed s → settled id (wk_log s).

(** One stretch of a run: the completed deliveries stay settled, and its commits
    satisfy [J]. *)
Definition stretch (J : string * Z * Z → list WorkerEffect → Prop) (_ : bool) (s s' : WorkerState)
    : Prop :=
  completed_settled s → completed_settled s' ∧
  ∃ l, wk_log s' = wk_log s ++ l ∧ justified J (wk_log s) l.

#[export] Instance stretch_progress J : Progress (stretch J).
Proof.
  split.
  - intros ok s Hs. split; [done|]. exists []. by rewrite app_nil_r.
  - intros ok s1 s2 s3 H12 H23 Hs. destruct (H12 Hs) as (Hs2 & l2 & Hl2 & Hj2).
    destruct (H23 Hs2) as (Hs3 & l3 & Hl3 & Hj3). split; [done|]. exists (l2 ++ l3). split.
    + by rewrite Hl3, Hl2, <-app_assoc.
    + apply justified_app. by rewrite <-Hl2.
  - intros f s Hs. split; [done|]. exists []. simpl. by rewrite app_nil_r.
Qed.

Section runs.
Context `{RecordCodec} `{HttpTypes} `{Base64} (version : string).
Context (w : DurableWorker) (Hmax : de_max_attempts (dk_endpoint w) ≤ u32_max).

(** What a commit of a record does to the state. *)
Lemma do_commit_run b c cursor s s' r :
  do_commit b c cursor s = Some (s', r) →
  wk_completed s' = wk_completed s ∧
  wk_log s' = wk_log s ++ (if is_ok r then commit_effects cursor false else []).
Proof.
  intros Hrun. unfold do_commit, commit_cursor, lift, emit in Hrun.
  apply act_bind_Some in Hrun as [(s1 & [[t p] o] & Hc & Hrun)|(e & Hc & ->)];
    destruct b, c; simplify_eq/=; rewrite ?app_nil_r; done.
Qed.

(** The commits of a run: each acknowledges a consumed record that is not
    addressed to this endpoint, or whose delivery is settled. *)
Definition run_justified (polls : list (bool * Poll)) (pos : string * Z * Z)
    (pre : list WorkerEffect) : Prop :=
  ∃ message b c env input, polled w polls message b c env input ∧
    pos = commit_position (in_cursor input) ∧
    (dr_destination_id (in_record input) ≠ de_id (dk_endpoint w) ∨
     settled (dr_delivery_id (in_record input)) pre).

Lemma commit_stretch polls message b c env input s s' r :
  polled w polls message b c env input →
  dr_destination_id (in_record input) ≠ de_id (dk_endpoint w) ∨
    dr_delivery_id (in_record input) ∈ wk_completed s →
  do_commit b c (in_cursor input) s = Some (s', r) → stretch (run_justified polls) (is_ok r) s s'.
Proof.
  intros Hpoll Hskip (Hc & Hl)%do_commit_run Hs. unfold completed_settled. rewrite Hc, Hl.
  split; [intros id Hid; by apply settled_mono, Hs|]. eexists. split; [done|].
  destruct (is_ok r); [|done]. simpl. split; [|done]. intros pos [= <-].
  exists message, b, c, env, input. split_and!; [done..|]. destruct Hskip; auto.
Qed.

Lemma process_stretch polls message b c env input s s' r :
  polled w polls message b c env input →
  process version w env input s = Some (s', r) → stretch (run_justified polls) (is_ok r) s s'.
Proof using Hmax.
  intros Hpoll Hrun Hs. destruct (process_trace _ _ _ _ _ _ _ Hmax Hrun) as (l & Ht & Hl & Hc).
  split.
  - unfold completed_settled. rewrite Hl. destruct (is_ok r).
    + destruct Hc as [-> _]. intros id [->%elem_of_singleton|Hid]%elem_of_union; [|by apply settled_mono, Hs].
      apply Exists_app. right. by eapply trace_settles.
    + unfold completion in Hc. rewrite Hc. intros id Hid. by apply settled_mono, Hs.
  - exists l. split; [done|]. eapply justified_impl; [|by eapply trace_justified].
    intros pos pre [-> Hset]. exists message, b, c, env, input. auto.
Qed.

(** No delivery is lost by a commit: a run of the worker, through recovery and
    the main loop, always yields a state; every offset it commits is the one
    after a record that it consumed, and either the record is not addressed to
    its endpoint or its delivery was, before the commit, accepted by the
    endpoint or published to the retry or dead-letter topic. *)
Theorem durable_commits_justified e1 e2 polls s :
  ∃ s' r l, durable_run version w e1 e2 polls s = Some (s', r) ∧ wk_log s' = wk_log s ++ l ∧
  ∀ pre t p o post, l = pre ++ CommittedOffset t p o :: post →
    run_justified polls (t, p, o) (wk_log s ++ pre).
Proof.
  destruct (durable_run_total version w Hmax e1 e2 polls s) as (s' & r & Hrun).
  assert (stretch (run_justified polls) (is_ok r) (started s) s') as Hst.
  { eapply durable_run_keeps; [apply _| | |exact Hrun]; eauto using commit_stretch, process_stretch. }
  destruct Hst as (_ & l & Hl & Hj); [done|]. exists s', r, l. split_and!; [done..|].
  intros pre t p o post Heq. by eapply (justified_elim _ _ _ _ _ _ _ Hj).
Qed.

(** ** Completed deliveries *)

(** The delivery is over: accepted by the endpoint, or dead-lettered. *)
Definition ends (id : string) (e : WorkerEffect) : Prop :=
  match e with
  | Attempted id' _ (OutcomeDelivered _) => id' = id
  | PublishedRecord topic record => topic = dk_dead_letter_topic w ∧ dr_delivery_id record = id
  | _ => False
  end.

(** After the end of a delivery there is no attempt of it. *)
Definition no_resend (l : list WorkerEffect) : Prop :=
  ∀ pre e post id, l = pre ++ e :: post → ends id e → ∀ n outcome, Attempted id n outcome ∉ post.

(** Where the worker goes on, what ended is among the completed deliveries, of
    which there are not more than the limit; none of them is attempted. *)
Record orderly (ok : bool) (s s' : WorkerState) : Prop := {
  or_grows : wk_completed s ⊆ wk_completed s';
  or_bound : Z.of_nat (size (wk_completed s)) ≤ Z.max 0 (dk_max_recovery_records w) →
    Z.of_nat (size (wk_completed s')) ≤ Z.max 0 (dk_max_recovery_records w);
  or_log : ∃ l, wk_log s' = wk_log s ++ l ∧ no_resend l ∧
    (∀ id n outcome, Attempted id n outcome ∈ l → id ∉ wk_completed s) ∧
    (ok = true → ∀ e id, e ∈ l → ends id e → id ∈ wk_completed s');
}.

(** Effects that neither end a delivery nor attempt one. *)
Definition quiet (l : list WorkerEffect) : Prop :=
  ∀ e, e ∈ l → attempt_of e = None ∧ ∀ id, ¬ ends id e.

Lemma quiet_nil : quiet [].
Proof. by intros e ?%elem_of_nil. Qed.

Lemma quiet_commit cursor b (c : bool) : quiet (if c then commit_effects cursor b else []).
Proof.
  destruct c, b; try apply quiet_nil. intros e ->%list_elem_of_singleton. by split; [|intros ? []].
Qed.

Lemma quiet_no_attempt l id n outcome : quiet l → Attempted id n outcome ∉ l.
Proof. intros Hq Hin. by destruct (Hq _ Hin). Qed.

Lemma quiet_no_end l e id : quiet l → e ∈ l → ¬ ends id e.
Proof. intros Hq Hin. by destruct (Hq _ Hin). Qed.

Lemma no_resend_quiet l l' : quiet l → no_resend l' → no_resend (l ++ l').
Proof.
  intros Hq Hl pre e post id Heq He. apply app_eq_app in Heq as (k & [[-> Hk]|[-> Hk]]).
  - destruct k as [|x k]; simpl in Hk; [by apply (Hl [] e post id)|].
    injection Hk as -> ->. destruct (quiet_no_end _ x id Hq); [set_solver|done].
  - by eapply Hl.
Qed.

Lemma no_resend_cons e l :
  (∀ id, ends id e → ∀ n outcome, Attempted id n outcome ∉ l) → no_resend l → no_resend (e :: l).
Proof.
  intros He Hl [|x pre] e' post id Heq Hends; simplify_eq/=; [by apply He|by eapply Hl].
Qed.

Lemma no_resend_nil : no_resend [].
Proof. by intros [] e post id Heq. Qed.

Lemma orderly_quiet ok s s' l :
  wk_completed s' = wk_completed s → wk_log s' = wk_log s ++ l → quiet l → orderly ok s s'.
Proof.
  intros Hc Hl Hq. split; [by rewrite Hc|by rewrite Hc|]. exists l. split_and!; [done|..].
  - rewrite <-(app_nil_r l). apply no_resend_quiet; [done|apply no_resend_nil].
  - intros id n outcome Hin. by destruct (quiet_no_attempt l id n outcome Hq).
  - intros _ e id Hin He. by destruct (quiet_no_end l e id Hq).
Qed.

#[export] Instance orderly_progress : Progress orderly.
Proof.
  split.
  - intros ok s. apply (orderly_quiet _ _ _ []); [done|by rewrite app_nil_r|apply quiet_nil].
  - intros ok s1 s2 s3 [G12 B12 (l1 & L1 & N1 & A1 & E1)] [G23 B23 (l2 & L2 & N2 & A2 & E2)].
    split; [by etrans|auto|]. exists (l1 ++ l2). split_and!.
    + by rewrite L2, L1, <-app_assoc.
    + intros pre e post id Heq He n outcome Hin.
      apply app_eq_app in Heq as (k & [[-> Hk]|[-> Hk]]).
      * destruct k as [|x k]; simpl in Hk.
        -- by eapply (N2 []); [symmetry|..].
        -- injection Hk as -> ->. apply elem_of_app in Hin as [Hin|Hin]; [by eapply N1|].
           eapply A2; [done|]. eapply E1; [done| |done]. set_solver.
      * by eapply N2.
    + intros id n outcome [Hin|Hin]%elem_of_app; [by eapply A1|]. intros Hid. eapply A2; [done|].
      by apply G12.
    + intros Hok e id [Hin|Hin]%elem_of_app He; [apply G23; by eapply E1|by eapply E2].
  - intros f s. apply (orderly_quiet _ _ _ []); [done|simpl; by rewrite app_nil_r|apply quiet_nil].
Qed.

Lemma commit_orderly b c cursor s s' r :
  do_commit b c cursor s = Some (s', r) → orderly (is_ok r) s s'.
Proof.
  intros (Hc & Hl)%do_commit_run. eapply orderly_quiet; [done..|]. apply (quiet_commit cursor false).
Qed.

(** Handling one input: only its delivery ends, and last. *)
Lemma trace_no_resend id cursor b a l done :
  dk_retry_topic w ≠ dk_dead_letter_topic w → trace w id cursor b a l done →
  no_resend l ∧ ∀ e id', e ∈ l → ends id' e → id' = id.
Proof.
  intros Htopics.
  induction 1 as [b a|b a st c done _|b a cl|b a cl r _|b a cl r l done _ _ Hr _ Ht [IH1 IH2]
    |b a cl r c done _ Hr _ _].
  - split; [apply no_resend_nil|by intros e id' ?%elem_of_nil].
  - pose proof (quiet_commit cursor b c) as Hq. split.
    + apply no_resend_cons; [intros id' _ n o; by apply quiet_no_attempt|].
      rewrite <-(app_nil_r (if c then _ else _)). apply no_resend_quiet; [done|apply no_resend_nil].
    + intros e id' [->|Hin]%elem_of_cons He; [done|by destruct (quiet_no_end _ e id' Hq)].
  - split; [by apply no_resend_cons; [|apply no_resend_nil]|]. by intros e id' ->%list_elem_of_singleton.
  - split.
    + do 2 (apply no_resend_cons; [naive_solver|]). apply no_resend_nil.
    + intros e id'. rewrite !elem_of_cons, elem_of_nil. naive_solver.
  - pose proof (quiet_commit cursor b true) as Hq. split.
    + apply no_resend_cons; [done|]. apply no_resend_cons; [naive_solver|]. by apply no_resend_quiet.
    + intros e id'. rewrite !elem_of_cons, elem_of_app. intros [->|[->|[Hin|Hin]]] He; [done|by destruct He| |].
      * by destruct (quiet_no_end _ e id' Hq).
      * by eapply IH2.
  - pose proof (quiet_commit cursor b c) as Hq. split.
    + apply no_resend_cons; [done|].
      apply no_resend_cons; [intros id' _ n o; by apply quiet_no_attempt|].
      rewrite <-(app_nil_r (if c then _ else _)). apply no_resend_quiet; [done|apply no_resend_nil].
    + intros e id'. rewrite !elem_of_cons. intros [->|[->|Hin]] He; [done| |].
      * destruct He as [_ <-]. done.
      * by destruct (quiet_no_end _ e id' Hq).
Qed.

Lemma process_orderly env input s s' r :
  dk_retry_topic w ≠ dk_dead_letter_topic w → dr_delivery_id (in_record input) ∉ wk_completed s →
  process version w env input s = Some (s', r) → orderly (is_ok r) s s'.
Proof using Hmax.
  intros Htopics Hnew Hrun. destruct (process_trace _ _ _ _ _ _ _ Hmax Hrun) as (l & Ht & Hl & Hc).
  destruct (trace_no_resend _ _ _ _ _ _ Htopics Ht) as [Hn Hid]. split.
  - unfold completion in Hc. destruct (is_ok r); [destruct Hc as [-> _]|rewrite Hc]; set_solver.
  - unfold completion in Hc. destruct (is_ok r); [|by rewrite Hc]. destruct Hc as [-> [Hin|Hlt]]; [done|].
    intros _. rewrite size_union by set_solver. rewrite size_singleton. lia.
  - exists l. split_and!; [done..| |].
    + intros id n outcome Hin. by rewrite (trace_attempt_ids _ _ _ _ _ _ _ _ id n Ht Hin eq_refl).
    + intros Hok e id Hin He. rewrite (Hid _ _ Hin He). rewrite Hok in Hc. destruct Hc as [-> _]. set_solver.
Qed.

Section orderly_runs.
Context (Htopics : dk_retry_topic w ≠ dk_dead_letter_topic w).

Lemma durable_run_orderly e1 e2 polls s s' r :
  durable_run version w e1 e2 polls s = Some (s', r) → orderly (is_ok r) (started s) s'.
Proof using Hmax Htopics.
  intros Hrun. eapply durable_run_keeps; [apply _| | |exact Hrun]; eauto using commit_orderly, process_orderly.
Qed.

Lemma run_loop_orderly polls s s' r : run_loop version w polls s = Some (s', r) → orderly (is_ok r) s s'.
Proof using Hmax Htopics.
  intros Hrun. eapply (run_loop_keeps version w polls); [apply _| | |done|exact Hrun];
    eauto using commit_orderly, process_orderly.
Qed.

Lemma recover_loop_orderly polls eof n s s' r :
  recover_loop version w eof n polls s = Some (s', r) → orderly (is_ok r) s s'.
Proof using Hmax Htopics.
  intros Hrun. eapply (recover_loop_keeps version w polls); [apply _| | |done|exact Hrun];
    eauto using commit_orderly, process_orderly.
Qed.

(** (C32) A delivery that is over is not sent again.  A run of the worker, from
    its start through recovery and the main loop, always yields a state; and
    whatever records it reads, in whatever order and however often, once the
    endpoint has accepted a delivery or it was dead-lettered, the run makes no
    further attempt of it, although its earlier retry records are still in the
    topic. *)
Theorem completed_never_resent e1 e2 polls s :
  ∃ s' r l, durable_run version w e1 e2 polls s = Some (s', r) ∧ wk_log s' = wk_log s ++ l ∧
  ∀ pre e post id, l = pre ++ e :: post → ends id e →
    ∀ n outcome, Attempted id n outcome ∉ post.
Proof using Hmax Htopics.
  destruct (durable_run_total version w Hmax e1 e2 polls s) as (s' & r & Hrun).
  destruct (durable_run_orderly _ _ _ _ _ _ Hrun) as [_ _ (l & Hl & Hn & _)].
  exists s', r, l. done.
Qed.

(** The record of a full worker fails in [process]. *)
Lemma full_process env input s s' r :
  dk_max_recovery_records w ≤ Z.of_nat (size (wk_completed s)) →
  dr_delivery_id (in_record input) ∉ wk_completed s →
  process version w env input s = Some (s', r) → is_ok r = false.
Proof using Hmax.
  intros Hfull Hnew Hrun. destruct (process_trace _ _ _ _ _ _ _ Hmax Hrun) as (l & _ & _ & Hc).
  destruct (is_ok r); [|done]. destruct Hc as [_ [Hc|Hc]]; [done|lia].
Qed.

(** (C39) The completed set only grows, and it ends the worker.  In both loops
    no completed delivery is ever forgotten; a run in which more deliveries
    ended than [max_recovery_records] has failed; and once the set is full, the
    next record of a delivery that is new to the worker makes the loop it is
    read in return an error, in recovery and in the main loop alike. *)
Theorem completed_set_stops_worker e1 e2 polls s s' r
    (Hrun : durable_run version w e1 e2 polls s = Some (s', r)) :
  (∀ polls s s' r, run_loop version w polls s = Some (s', r) → wk_completed s ⊆ wk_completed s') ∧
  (∀ eof n polls s s' r, recover_loop version w eof n polls s = Some (s', r) →
     wk_completed s ⊆ wk_completed s') ∧
  (∀ l ids, wk_log s' = wk_log s ++ l → NoDup ids →
     (∀ id, id ∈ ids → ∃ e, e ∈ l ∧ ends id e) →
     Z.max 0 (dk_max_recovery_records w) < Z.of_nat (length ids) → is_ok r = false) ∧
  (∀ message b c env input rest s,
     from_message message (dk_max_record_bytes w) = Ok input →
     dr_destination_id (in_record input) = de_id (dk_endpoint w) →
     dk_max_recovery_records w ≤ Z.of_nat (size (wk_completed s)) →
     dr_delivery_id (in_record input) ∉ wk_completed s →
     let polls := (false, PollMessage message b c env) :: rest in
     (∃ s' e, run_loop version w polls s = Some (s', Err e)) ∧
     ∀ eof n, ∃ s' e, recover_loop version w eof n polls s = Some (s', Err e)).
Proof using Hmax Htopics.
  split_and!.
  - intros ? ? ? ? Hr. eapply or_grows. by eapply run_loop_orderly.
  - intros ? ? ? ? ? ? Hr. eapply or_grows. by eapply recover_loop_orderly.
  - intros l ids Hl Hnd Hids Hmany. destruct (is_ok r) eqn:Hok; [|done].
    destruct (durable_run_orderly _ _ _ _ _ _ Hrun) as [_ Hb (l' & Hl' & _ & _ & Hin)].
    rewrite Hl in Hl'. apply app_inv_head in Hl' as <-. rewrite Hok in Hin.
    assert (list_to_set ids ⊆ wk_completed s') as Hsub.
    { intros id Hid%elem_of_list_to_set. destruct (Hids id Hid) as (e & He & Hend). by eapply Hin. }
    apply subseteq_size in Hsub. rewrite size_list_to_set in Hsub by done.
    assert (Z.of_nat (size (wk_completed s')) ≤ Z.max 0 (dk_max_recovery_records w)); [apply Hb|lia].
    change (wk_completed (started s)) with (∅ : gset string). rewrite size_empty. lia.
  - intros message b c env input rest s0 Hin Hdest Hfull Hnew polls'.
    assert (∀ s1, wk_completed s1 = wk_completed s0 → ∃ s2 e, process version w env input s1 = Some (s2, Err e)) as Hproc.
    { intros s1 Hc. destruct (process_total version w Hmax env input s1) as (s2 & [u|e] & Hp); [|eauto].
      rewrite <-Hc in Hfull, Hnew. by apply full_process in Hp. }
    subst polls'. split; [|intros eof n].
    + destruct (Hproc s0 eq_refl) as (s1 & e & Hp). exists s1, e. simpl. unfold handle_message. rewrite Hin.
      cbv beta iota delta [mbind act_bind lift get_completed].
      rewrite Hdest, bool_decide_eq_true_2, bool_decide_eq_false_2 by done. simpl negb. cbv iota beta delta [orb negb].
      by rewrite Hp.
    + destruct (Hproc (wk_count record_webhook_recovery_replay s0) eq_refl) as (s1 & e & Hp). simpl. rewrite Hin.
      cbv beta iota delta [mbind act_bind lift get_completed count].
      rewrite Hdest, bool_decide_eq_true_2 by done. cbv beta iota delta [negb].
      destruct (ensure _ _) as [[]|e']; [|eauto].
      change (wk_completed (wk_count record_webhook_recovery_replay s0)) with (wk_completed s0).
      rewrite bool_decide_eq_false_2 by done. rewrite Hp. eauto.
Qed.
End orderly_runs.
End runs.

(** ** Restart *)

Section restart.
Context `{RecordCodecLaws} `{HttpTypes} `{Base64} (version : string).

(** What [publish_record] accepted, [from_message] reads back under the same
    limit. *)
Lemma published_record_read producer topic record limit partition offset :
  dr_schema_version record = SCHEMA_VERSION →
  publish_record producer topic record limit = Ok tt →
  ∃ payload, record_to_vec record = Ok payload ∧
    producer topic (dr_destination_id record) payload = None ∧
    from_message {| cm_payload := Some payload; cm_topic := topic; cm_partition := partition;
                    cm_offset := offset |} limit
    = Ok {| in_record := record;
            in_cursor := {| cu_topic := topic; cu_partition := partition;
                            cu_offset := offset |} |}.
Proof.
  intros Hversion Hpub. unfold publish_record in Hpub. bind_step Hpub as payload, Hvec.
  apply map_err_Ok in Hvec. bind_step Hpub as [], Hlen%ensure_Ok.
  exists payload. split_and!; [done|by destruct (producer _ _ _)|].
  unfold from_message. simpl. rewrite Hlen. simpl. rewrite (record_roundtrip _ _ Hvec). simpl.
  by rewrite Hversion.
Qed.

(** What a worker publishes, its successor reads: a retry record that
    was accepted by [publish_record] is accepted by [from_message] under the
    same size limit wherever the broker puts it, as the same record; it
    carries the delivery, the endpoint, the message id and the body of the
    original, so the request of the next attempt differs only in its
    attempt number, and the delay until it is within the endpoint's limit. *)
Theorem retry_survives_restart (e : DurableEndpoint) producer topic class clock record limit
    lookup send body (partition offset : Z)
    (Hversion : dr_schema_version record = SCHEMA_VERSION)
    (Hattempt : 0 ≤ dr_attempt record < u32_max)
    (Hpub : publish_record producer topic (retry_record e clock class record) limit = Ok tt) :
  let next := retry_record e clock class record in
  (∃ payload, record_to_vec next = Ok payload ∧
     producer topic (dr_destination_id record) payload = None ∧
     from_message {| cm_payload := Some payload; cm_topic := topic; cm_partition := partition;
                     cm_offset := offset |} limit
     = Ok {| in_record := next;
             in_cursor := {| cu_topic := topic; cu_partition := partition;
                             cu_offset := offset |} |}) ∧
  dr_delivery_id next = dr_delivery_id record ∧
  dr_attempt next = dr_attempt record + 1 ∧
  b64_decode (dr_body_base64 next) = b64_decode (dr_body_base64 record) ∧
  DurableEndpoint_send_attempt version lookup send e body (dr_original_message_id next)
    (dr_attempt next)
  = DurableEndpoint_send_attempt version lookup send e body (dr_original_message_id record)
      (dr_attempt record + 1) ∧
  dr_next_attempt_at_ms next ≤ now_ms clock + de_max_backoff_ms e.
Proof.
  intros next. assert (dr_attempt next = dr_attempt record + 1) as Ha by (apply sat_add_exact; lia).
  split_and!; try done.
  - by apply (published_record_read producer topic next limit partition offset).
  - by rewrite Ha.
  - simpl. unfold sat_add, retry_delay_ms. lia.
Qed.
End restart.

(** ** Delays *)

Lemma iter_delay (max init : Z) n :
  0 ≤ init → 0 ≤ max ≤ u64_max →
  Z.min (Nat.iter n (λ delay, Z.min (sat_mul u64_max delay 2) max) init) max
  = Z.min (init * 2 ^ Z.of_nat n) max.
Proof.
  intros Hi Hm. induction n as [|n IH]; [simpl; lia|].
  rewrite Nat.iter_succ. set (x := Nat.iter n _ init) in *.
  rewrite Nat2Z.inj_succ, Z.pow_succ_r by lia.
  assert (0 ≤ x) as Hx.
  { subst x. clear IH. induction n as [|n IH]; [done|]. rewrite Nat.iter_succ. unfold sat_mul, u64_max in *. lia. }
  unfold sat_mul. nia.
Qed.

(** The delay before attempt [n] starts at the initial backoff for the
    second attempt, doubles for each one after it and never exceeds the
    maximum, without overflow for any attempt number. *)
Lemma retry_delay_doubles (e : DurableEndpoint) (n : Z)
    (Hinit : 0 ≤ de_initial_backoff_ms e) (Hmax : 0 ≤ de_max_backoff_ms e ≤ u64_max) (Hn : 2 ≤ n) :
  retry_delay_ms e n = Z.min (de_initial_backoff_ms e * 2 ^ (n - 2)) (de_max_backoff_ms e).
Proof.
  unfold retry_delay_ms. rewrite iter_delay by done. do 3 f_equal.
  rewrite sat_sub_exact by lia. lia.
Qed.

(** ** Concrete inputs *)

(** A codec that satisfies the law: the digits of an injective number. *)
Fixpoint digits (p : positive) : string :=
  match p with
  | xH => ""
  | xO p => String (Ascii.ascii_of_nat 48) (digits p)
  | xI p => String (Ascii.ascii_of_nat 49) (digits p)
  end.

Fixpoint undigits (s : string) : positive :=
  match s with
  | EmptyString => xH
  | String a s => if bool_decide (a = Ascii.ascii_of_nat 48) then xO (undigits s) else xI (undigits s)
  end.

Lemma undigits_digits p : undigits (digits p) = p.
Proof. induction p as [p IH|p IH|]; cbn -[bool_decide]; [|case_bool_decide..|]; rewrite ?IH; done. Qed.

Definition class_code (c : FailureClass) : nat :=
  match c with
  | Timeout => 0 | Connect => 1 | Request => 2 | Http429 => 3 | Http5xx => 4
  | PermanentHttp => 5 | Client => 6 | InvalidRecord => 7
  end.
Definition class_of (n : nat) : FailureClass :=
  match n with
  | 0 => Timeout | 1 => Connect | 2 => Request | 3 => Http429 | 4 => Http5xx
  | 5 => PermanentHttp | 6 => Client | _ => InvalidRecord
  end%nat.
Definition state_code (c : RecordState) : nat :=
  match c with DeliveryState => 0 | RetryState => 1 | DeadLetterState => 2 end.
Definition state_of (n : nat) : RecordState :=
  match n with 0 => DeliveryState | 1 => RetryState | _ => DeadLetterState end%nat.

Definition record_tuple (r : DurableRecord) :=
  ((((dr_schema_version r, dr_delivery_id r), (dr_destination_id r, dr_original_message_id r)),
    ((dr_body_base64 r, dr_attempt r), (dr_next_attempt_at_ms r, class_code <$> dr_last_error_class r))),
   (((dr_source_topic r, dr_source_partition r), (dr_source_offset r,
     (λ t, (tc_traceparent t, tc_tracestate t)) <$> dr_trace_context r)), state_code (dr_state r))).

Definition record_of_tuple (t : (((Z * string) * (string * string)) *
      ((string * Z) * (Z * option nat))) *
    (((option string * option Z) * (option Z * option (string * option string))) * nat)) : DurableRecord :=
  let '((((version, id), (dest, msg)), ((body, attempt), (next, class))),
        (((topic, part), (off, trace)), st)) := t in {|
  dr_schema_version := version; dr_delivery_id := id; dr_destination_id := dest;
  dr_original_message_id := msg; dr_body_base64 := body; dr_attempt := attempt;
  dr_next_attempt_at_ms := next; dr_last_error_class := class_of <$> class;
  dr_source_topic := topic; dr_source_partition := part; dr_source_offset := off;
  dr_trace_context := (λ '(p, s), {| tc_traceparent := p; tc_tracestate := s |}) <$> trace;
  dr_state := state_of st |}.

Lemma record_of_tuple_tuple r : record_of_tuple (record_tuple r) = r.
Proof.
  destruct r as [? ? ? ? ? ? ? cl ? ? ? tr st]; unfold record_of_tuple, record_tuple; simpl. f_equal.
  - destruct cl as [[]|]; done.
  - destruct tr as [[]|]; done.
  - by destruct st.
Qed.

#[local] Instance example_codec : RecordCodec := {|
  record_to_vec r := Ok (digits (encode (record_tuple r)));
  record_from_slice s := match decode (undigits s) with
    | Some t => Ok (record_of_tuple t)
    | None => Err "not a record"
    end |}.

#[local] Instance example_codec_laws : RecordCodecLaws.
Proof.
  intros r payload [= <-]. unfold record_from_slice, example_codec.
  by rewrite undigits_digits, decode_encode, record_of_tuple_tuple.
Qed.

Definition example_endpoint : DurableEndpoint := {|
  de_id := "hook"; de_url := example_url; de_allow_private_ips := false; de_timeout := 5;
  de_headers := []; de_signing_secret := None; de_max_attempts := 3; de_initial_backoff_ms := 100;
  de_max_backoff_ms := 350 |}.

Definition example_durable : DurableWorker := {|
  dk_endpoint := example_endpoint; dk_delivery_topic := "delivery"; dk_retry_topic := "retry";
  dk_dead_letter_topic := "dead"; dk_timeout := 1; dk_max_record_bytes := 100_000;
  dk_max_recovery_records := 10 |}.

Definition example_record : DurableRecord := {|
  dr_schema_version := 1; dr_delivery_id := "d-1"; dr_destination_id := "hook";
  dr_original_message_id := "m-1"; dr_body_base64 := "Bbody"; dr_attempt := 1;
  dr_next_attempt_at_ms := 0; dr_last_error_class := None; dr_source_topic := Some "in";
  dr_source_partition := Some 0; dr_source_offset := Some 7; dr_trace_context := None;
  dr_state := DeliveryState |}.

(** An endpoint that answers 503 to every attempt. *)
Definition example_env (a : Z) : AttemptEnv := {|
  ae_wait_clock := 1_000; ae_wait_changed := None;
  ae_lookup := λ _ port, Some [(V4 8 8 8 8, port)];
  ae_send := λ _, Response 503; ae_elapsed := 1; ae_retry_clock := 1_000;
  ae_producer := λ _ _ _, None; ae_build_error := None; ae_commit_error := None |}.

Definition example_input : InputRecord := {|
  in_record := example_record;
  in_cursor := {| cu_topic := "delivery"; cu_partition := 0; cu_offset := 41 |} |}.

Definition fresh_worker : WorkerState :=
  {| wk_metrics := Metrics_default; wk_completed := ∅; wk_log := [] |}.

(** A delivery that fails three times ends in the dead-letter topic; its input
    is committed after the first retry record. *)
Example dead_letter_log :
  (λ e, match e with
        | Attempted _ a _ => ("attempt", a)
        | PublishedRecord topic r => (topic, dr_attempt r)
        | CommittedOffset _ _ o => ("commit", o)
        end) <$>
  from_option (λ o : WorkerState * result string unit, wk_log o.1) []
    (process (H0 := example_http) "1" example_durable example_env example_input fresh_worker)
  = [("attempt", 1); ("retry", 2); ("commit", 42); ("attempt", 2); ("retry", 3); ("attempt", 3);
     ("dead", 3)].
Proof. vm_compute. reflexivity. Qed.

Lemma durable_process_exact_witness :
  ∃ s' r l n, process (H0 := example_http) "1" example_durable example_env example_input fresh_worker
                = Some (s', r) ∧ wk_log s' = l ∧ 0 ≤ n ≤ 3 ∧
    omap attempt_of l = ("d-1",.) <$> seqZ 1 n.
Proof.
  destruct (durable_process_exact (H0 := example_http) "1" example_durable example_env example_input
    fresh_worker) as (s' & r & l & n & Hrun & Hl & Hn & Ha & _); [vm_compute; discriminate|].
  exists s', r, l, n. split; [exact Hrun|]. split; [exact Hl|]. split; [exact Hn|exact Ha].
Defined.

Definition example_polls : list (bool * Poll) :=
  [(false, PollEof 0 (Ok 1));
   (false, PollMessage {| cm_payload := Some (digits (encode (record_tuple example_record)));
                          cm_topic := "delivery"; cm_partition := 0; cm_offset := 41 |}
             None None example_env)].

(** The record of [d-1] arrives twice; the second time it is only acknowledged. *)
Definition twice_polls : list (bool * Poll) :=
  example_polls ++ [(false, PollMessage {|
    cm_payload := Some (digits (encode (record_tuple example_record)));
    cm_topic := "delivery"; cm_partition := 0; cm_offset := 42 |} None None example_env)].

Example twice_run :
  match durable_run (H0 := example_http) "1" example_durable None None twice_polls fresh_worker with
  | Some (s, Ok StillWaiting) =>
      (λ e, match e with
            | Attempted _ a _ => ("attempt", a)
            | PublishedRecord topic r => (topic, dr_attempt r)
            | CommittedOffset _ _ o => ("commit", o)
            end) <$> wk_log s
  | _ => []
  end = [("attempt", 1); ("retry", 2); ("commit", 42); ("attempt", 2); ("retry", 3); ("attempt", 3);
         ("dead", 3); ("commit", 43)].
Proof. vm_compute. reflexivity. Qed.

Lemma completed_never_resent_witness :
  ∃ s' r l, durable_run (H0 := example_http) "1" example_durable None None twice_polls fresh_worker
              = Some (s', r) ∧ wk_log s' = l ∧
    ∀ pre e post id, l = pre ++ e :: post → ends example_durable id e →
      ∀ n outcome, Attempted id n outcome ∉ post.
Proof.
  exact (completed_never_resent (H0 := example_http) "1" example_durable
    ltac:(vm_compute; discriminate) ltac:(discriminate) None None twice_polls fresh_worker).
Defined.

(** A worker that may remember one delivery fails at the second. *)
Definition one_worker : DurableWorker := {|
  dk_endpoint := example_endpoint; dk_delivery_topic := "delivery"; dk_retry_topic := "retry";
  dk_dead_letter_topic := "dead"; dk_timeout := 1; dk_max_record_bytes := 100_000;
  dk_max_recovery_records := 1 |}.

Definition first_consumed : ConsumedMessage := {|
  cm_payload := Some (digits (encode (record_tuple example_record)));
  cm_topic := "delivery"; cm_partition := 0; cm_offset := 41 |}.

Definition second_record : DurableRecord := {|
  dr_schema_version := 1; dr_delivery_id := "d-2"; dr_destination_id := "hook";
  dr_original_message_id := "m-2"; dr_body_base64 := "Bbody"; dr_attempt := 1;
  dr_next_attempt_at_ms := 0; dr_last_error_class := None; dr_source_topic := Some "in";
  dr_source_partition := Some 0; dr_source_offset := Some 8; dr_trace_context := None;
  dr_state := DeliveryState |}.

Example one_worker_run :
  match durable_run (H0 := example_http) "1" one_worker None None
          (example_polls ++ [(false, PollMessage {|
             cm_payload := Some (digits (encode (record_tuple second_record)));
             cm_topic := "delivery"; cm_partition := 0; cm_offset := 42 |} None None example_env)])
          fresh_worker with
  | Some (s, Err _) => elements (wk_completed s) = ["d-1"]
  | _ => False
  end.
Proof. vm_compute. reflexivity. Qed.

(** The state in which another delivery is the one it remembers. *)
Definition full_worker : WorkerState :=
  {| wk_metrics := Metrics_default; wk_completed := {["d-0"]};
     wk_log := [Attempted "d-0" 1 (OutcomeDelivered 204)] |}.

Lemma completed_set_stops_worker_witness :
  (∃ s' e, run_loop (H0 := example_http) "1" one_worker
             [(false, PollMessage first_consumed None None example_env)] full_worker
           = Some (s', Err e)) ∧
  (∃ s' e, recover_loop (H0 := example_http) "1" one_worker ∅ 0
             [(false, PollMessage first_consumed None None example_env)] full_worker
           = Some (s', Err e)).
Proof.
  destruct (durable_run_total (H0 := example_http) "1" one_worker ltac:(vm_compute; discriminate)
    None None example_polls fresh_worker) as (s' & r & Hrun).
  destruct (completed_set_stops_worker (H0 := example_http) "1" one_worker
    ltac:(vm_compute; discriminate) ltac:(discriminate) None None example_polls fresh_worker s' r Hrun)
    as (_ & _ & _ & H).
  destruct (H first_consumed None None example_env example_input [] full_worker) as [Hmain Hrec].
  - vm_compute. reflexivity.
  - reflexivity.
  - vm_compute. discriminate.
  - clear. change ("d-1" ∉ ({["d-0"]} : gset string)). rewrite elem_of_singleton. discriminate.
  - split; [exact Hmain|exact (Hrec ∅ 0)].
Defined.
