(* ===== verification/DurableSink.v ===== *)
(** * Durable webhooks: the sink

    router-webhook's [durable.rs]: the runtime that gives every destination a
    connection of the router and a worker, and the pre-commit sink that turns
    the delivery the router just queued for a destination into a record of the
    delivery topic.  The sink's receivers are the channels of the router. *)

From S2P Require Import Prelude Str Ids Message Route Metrics RouteIndex Channel Router.
From S2P Require Import RouterInv RouterDispatch RouterSpec RouterOps RouterExamples Kafka Wire.
From S2P Require Import Security Webhook Durable.
Open Scope Z_scope.

(** ** Clients *)

(** [create_producer], up to [create]. *)
Definition durable_producer_client_config (config : DurableWebhookConfig) : ClientConfig :=
  btree_entries (dw_properties config) ++
  [("bootstrap.servers", dw_brokers config); ("client.id", dw_client_id config);
   ("message.timeout.ms", pretty (dw_delivery_timeout_ms config));
   ("enable.idempotence", "true"); ("acks", "all")].

(** The consumer of [DurableWorker::new], up to [create]. *)
Definition durable_consumer_client_config (durable : DurableWebhookConfig) (e : DurableEndpoint)
    : ClientConfig :=
  btree_entries (dw_properties durable) ++
  [("bootstrap.servers", dw_brokers durable);
   ("group.id", dw_group_id durable +:+ "." +:+ de_id e);
   ("client.id", dw_client_id durable +:+ "-" +:+ de_id e);
   ("enable.auto.commit", "false"); ("enable.auto.offset.store", "false");
   ("auto.offset.reset", "earliest"); ("enable.partition.eof", "true");
   ("partition.assignment.strategy", "range")].

(** [DurableWorker::new]; [create] is the error of creating a client with a
    configuration, if any. *)
Definition DurableWorker_new `{UrlParser, HttpTypes} (create : ClientConfig → option string)
    (destination : WebhookDestinationConfig) (durable : DurableWebhookConfig)
    : result WebhookError DurableWorker :=
  endpoint ← DurableEndpoint_new destination;
  _ ← match create (durable_consumer_client_config durable endpoint) with
      | Some error => Err (Durable ("consumer creation failed: " +:+ error))
      | None => Ok tt
      end;
  Ok {| dk_endpoint := endpoint; dk_delivery_topic := dw_delivery_topic durable;
        dk_retry_topic := dw_retry_topic durable;
        dk_dead_letter_topic := dw_dead_letter_topic durable;
        dk_timeout := from_millis (dw_delivery_timeout_ms durable);
        dk_max_record_bytes := dw_max_record_bytes durable;
        dk_max_recovery_records := dw_max_recovery_records durable |}.

(** ** The sink *)

(** [RouteDestination]; the receiver is that of a connection. *)
Record RouteDestination : Type := {
  rd_id : string;
  rd_receiver : ConnectionId;
}.

(** [DurableWebhookSink], without its producer. *)
Record DurableWebhookSink : Type := {
  sk_topic : string;
  sk_timeout : Z;
  sk_max_record_bytes : Z;
  sk_routes : gmap RouteKey (list RouteDestination);
  sk_connection_ids : list ConnectionId;
}.

(** [DurableWebhookRuntime]. *)
Record DurableWebhookRuntime : Type := {
  rt_sink : DurableWebhookSink;
  rt_workers : list DurableWorker;
}.

(** The loop that collects [destinations] in [persist]. *)
Definition sink_destinations (sink : DurableWebhookSink) (message : RoutedMessage)
    : list RouteDestination :=
  RouteKey_candidates (rm_metadata message) ≫= λ candidate, default [] (sk_routes sink !! candidate).

(** The record of a delivery to a destination; the id and the clock are
    drawn. *)
Definition delivery_record `{JsonCodec, Base64} (message : RoutedMessage) (delivery : Delivery)
    (destination_id uuid : string) (clock : Z) : DurableRecord :=
  let source := md_source (rm_metadata (d_message delivery)) in {|
  dr_schema_version := SCHEMA_VERSION; dr_delivery_id := uuid;
  dr_destination_id := destination_id;
  dr_original_message_id := md_message_id (rm_metadata message);
  dr_body_base64 := b64_encode (encode_delivery_json delivery); dr_attempt := 1;
  dr_next_attempt_at_ms := now_ms clock; dr_last_error_class := None;
  dr_source_topic := kp_topic <$> source; dr_source_partition := kp_partition <$> source;
  dr_source_offset := kp_offset <$> source;
  dr_trace_context := rm_trace_context (d_message delivery); dr_state := DeliveryState |}.

(** What the outside answers for one destination. *)
Record PersistEnv : Type := {
  pe_uuid : string;
  pe_clock : Z;
  pe_producer : string → string → string → option string;
}.

Section sink.
Context `{Mpsc Delivery Chan} `{JsonCodec} `{Base64} `{RecordCodec}.
Implicit Types (r : RouterState Chan).

(** [receiver.recv()]; [None] is a receiver that is not there. *)
Definition receive (c : ConnectionId) r : option (RouterState Chan * RecvResult Delivery) :=
  ch ← r_channels r !! c; Some (consume (λ ch, (recv ch).1) c r, (recv ch).2).

(** The loop of [persist]; [None] when it waits for a delivery that is not
    there. *)
Fixpoint persist_destinations (sink : DurableWebhookSink) (message : RoutedMessage)
    (env : nat → PersistEnv) (i : nat) (destinations : list RouteDestination) r
    : option (RouterState Chan * list DurableRecord * result string unit) :=
  match destinations with
  | [] => Some (r, [], Ok tt)
  | destination :: rest =>
    '(r, received) ← receive (rd_receiver destination) r;
    match received with
    | Pending => None
    | Disconnected =>
      Some (r, [], Err ("durable route queue closed for " +:+ rd_id destination))
    | Received delivery =>
      let got := md_message_id (rm_metadata (d_message delivery)) in
      let expected := md_message_id (rm_metadata message) in
      if bool_decide (got ≠ expected) then
        Some (r, [], Err ("durable route queue returned message " +:+ got +:+
                          " while waiting for " +:+ expected))
      else
        let record := delivery_record message delivery (rd_id destination) (pe_uuid (env i))
                        (pe_clock (env i)) in
        match publish_record (pe_producer (env i)) (sk_topic sink) record
                (sk_max_record_bytes sink) with
        | Err e => Some (r, [], Err e)
        | Ok _ =>
          let r := with_metrics record_webhook_durable_command r in
          '(r, records, res) ← persist_destinations sink message env (S i) rest r;
          Some (r, record :: records, res)
        end
    end
  end.

(** [DurableWebhookSink::persist]; [env i] is what the outside answers for
    the [i]-th destination. *)
Definition sink_persist (sink : DurableWebhookSink) (env : nat → PersistEnv)
    (message : RoutedMessage) r
    : option (RouterState Chan * list DurableRecord * result string unit) :=
  persist_destinations sink message env 0 (sink_destinations sink message) r.

(** [Drop] of the sink. *)
Definition drop_sink (sink : DurableWebhookSink) r : RouterState Chan :=
  unregister_all (sk_connection_ids sink) r.

(** The loop of [build_durable_runtime]; [fresh i] is the connection id that
    is drawn for the [i]-th destination.  An error drops the guard, which
    removes the connections registered so far. *)
Fixpoint build_loop `{UrlParser, HttpTypes} (create : ClientConfig → option string)
    (durable : DurableWebhookConfig) (fresh : nat → ConnectionId) (i : nat)
    (routes : gmap RouteKey (list RouteDestination)) (workers : list DurableWorker)
    (ids : list ConnectionId) (destinations : list WebhookDestinationConfig) r
    : RouterState Chan *
      result WebhookError (gmap RouteKey (list RouteDestination) * list DurableWorker *
                           list ConnectionId) :=
  match destinations with
  | [] => (r, Ok (routes, workers, ids))
  | destination :: rest =>
    match SubscriptionId_new ("webhook:" +:+ wd_id destination) with
    | Err error => (unregister_all ids r, Err (Durable (CoreError_to_string error)))
    | Ok subscription_id =>
      match register_connection (fresh i) (rf_tenant_id (wd_filter destination)) HttpWebhook
              (Some (wd_queue_capacity destination)) r with
      | (r, Err error) =>
          (unregister_all ids r, Err (Registration (wd_id destination) (CoreError_to_string error)))
      | (r, Ok connection_id) =>
        let ids := ids ++ [connection_id] in
        match subscribe connection_id subscription_id (wd_filter destination) r with
        | (r, Err error) =>
            (unregister_all ids r,
             Err (Registration (wd_id destination) (CoreError_to_string error)))
        | (r, Ok _) =>
          let key := RouteKey_from (wd_filter destination) in
          let routes := <[key := default [] (routes !! key) ++
            [{| rd_id := wd_id destination; rd_receiver := connection_id |}]]> routes in
          match DurableWorker_new create destination durable with
          | Err e => (unregister_all ids r, Err e)
          | Ok worker =>
            build_loop create durable fresh (S i) routes (workers ++ [worker]) ids rest r
          end
        end
      end
    end
  end.

(** [build_durable_runtime]. *)
Definition build_durable_runtime `{UrlParser, HttpTypes} (create : ClientConfig → option string)
    (fresh : nat → ConnectionId) (config : WebhookConfig) r
    : RouterState Chan * result WebhookError DurableWebhookRuntime :=
  match create (durable_producer_client_config (wc_durable config)) with
  | Some error => (r, Err (Durable ("producer creation failed: " +:+ error)))
  | None =>
    match build_loop create (wc_durable config) fresh 0 ∅ [] [] (wc_destinations config) r with
    | (r, Err e) => (r, Err e)
    | (r, Ok (routes, workers, ids)) =>
      (r, Ok {| rt_sink := {|
                  sk_topic := dw_delivery_topic (wc_durable config);
                  sk_timeout := from_millis (dw_delivery_timeout_ms (wc_durable config));
                  sk_max_record_bytes := dw_max_record_bytes (wc_durable config);
                  sk_routes := routes; sk_connection_ids := ids |};
                rt_workers := workers |})
    end
  end.
End sink.

(** ** The sink after a dispatch *)

Section persist.
Context `{MpscLaws Delivery Chan} `{JsonCodec} `{Base64} `{RecordCodec}.
Implicit Types (r : RouterState Chan) (sink : DurableWebhookSink) (m : RoutedMessage).

(** The connection of a destination: an open, empty queue and the one
    subscription whose key the destination is listed under. *)
Definition destination_ok r (key : RouteKey) (d : RouteDestination) : Prop :=
  ∃ conn ch sid f,
    r_connections r !! rd_receiver d = Some conn ∧ r_channels r !! rd_receiver d = Some ch ∧
    rx_open ch = true ∧ queued ch = [] ∧ cs_subscriptions conn = {[sid := f]} ∧
    RouteKey_from f = key.

(** A sink between two messages: every destination has a connection of its
    own in that state. *)
Record routes_ok r (routes : gmap RouteKey (list RouteDestination)) : Prop := {
  so_routes key ds d : routes !! key = Some ds → d ∈ ds → destination_ok r key d;
  so_distinct key ds : routes !! key = Some ds → NoDup (rd_receiver <$> ds);
}.
Definition sink_ok r sink : Prop := routes_ok r (sk_routes sink).

(** What was queued for the destination by the dispatch of [m]. *)
Definition awaiting r m (d : RouteDestination) : Prop :=
  ∃ ch sids, r_channels r !! rd_receiver d = Some ch ∧ rx_open ch = true ∧
    queued ch = [{| d_message := m; d_subscription_ids := sids |}].

(** The delivery that waits for the destination, alone. *)
Definition waiting r (d : RouteDestination) (delivery : Delivery) : Prop :=
  ∃ ch, r_channels r !! rd_receiver d = Some ch ∧ queued ch = [delivery].

(** A queue that has been drained. *)
Definition drained r (d : RouteDestination) : Prop :=
  ∃ ch, r_channels r !! rd_receiver d = Some ch ∧ rx_open ch = true ∧ queued ch = [].

Lemma receive_awaiting r m d :
  awaiting r m d →
  ∃ r' sids, receive (rd_receiver d) r =
      Some (r', Received {| d_message := m; d_subscription_ids := sids |}) ∧
    waiting r d {| d_message := m; d_subscription_ids := sids |} ∧
    r_connections r' = r_connections r ∧ drained r' d ∧
    (∀ c, c ≠ rd_receiver d → r_channels r' !! c = r_channels r !! c) ∧
    (router_ok r → router_ok r').
Proof.
  intros (ch & sids & Hch & Hrx & Hq). destruct (recv_item _ _ _ Hq) as (Hr & Hq' & _ & Hrx' & _).
  exists (consume (λ ch, (recv ch).1) (rd_receiver d) r), sids. unfold receive.
  rewrite Hch. simpl. rewrite Hr. split_and!; [done|by exists ch|done|..].
  - exists (recv ch).1. simpl. rewrite lookup_alter_eq, Hch. split_and!; [done|congruence|done].
  - intros c Hc. simpl. by rewrite lookup_alter_ne.
  - intros [Hinv Hst]. split; [by apply recv_inv|done].
Qed.

Lemma with_metrics_durable_ok r :
  router_ok r → router_ok (with_metrics record_webhook_durable_command r).
Proof. apply with_metrics_ok, fetch_add_gauge_free. Qed.

(** [record] was published for a destination, from the delivery of [m] that
    waited for it in [r]. *)
Definition published_for r sink m (env : nat → PersistEnv) (i : nat) (ds : list RouteDestination)
    (record : DurableRecord) : Prop :=
  ∃ j d delivery, ds !! j = Some d ∧ waiting r d delivery ∧ d_message delivery = m ∧
    let e := env (i + j)%nat in
    record = delivery_record m delivery (rd_id d) (pe_uuid e) (pe_clock e) ∧
    publish_record (pe_producer e) (sk_topic sink) record (sk_max_record_bytes sink) = Ok tt.

(** How [persist] ends once every destination has its delivery: with a record
    for each, or with the error of a publication. *)
Definition persisted r sink m (env : nat → PersistEnv) (i : nat) (ds : list RouteDestination)
    (records : list DurableRecord) (res : result string unit) : Prop :=
  (dr_destination_id <$> records) `prefix_of` (rd_id <$> ds) ∧
  Forall (published_for r sink m env i ds) records ∧
  match res with
  | Ok _ => length records = length ds
  | Err e => ∃ j d delivery, ds !! j = Some d ∧ waiting r d delivery ∧ d_message delivery = m ∧
      publish_record (pe_producer (env (i + j)%nat)) (sk_topic sink)
        (delivery_record m delivery (rd_id d) (pe_uuid (env (i + j)%nat))
           (pe_clock (env (i + j)%nat)))
        (sk_max_record_bytes sink) = Err e
  end.

Lemma persist_destinations_run sink m env i ds r :
  NoDup (rd_receiver <$> ds) → (∀ d, d ∈ ds → awaiting r m d) →
  ∃ r' records res, persist_destinations sink m env i ds r = Some (r', records, res) ∧
    persisted r sink m env i ds records res ∧
    r_connections r' = r_connections r ∧
    (∀ c, c ∉ rd_receiver <$> ds → r_channels r' !! c = r_channels r !! c) ∧
    (res = Ok tt → ∀ d, d ∈ ds → drained r' d) ∧ (router_ok r → router_ok r').
Proof.
  revert i r. induction ds as [|d ds IH]; intros i r Hnd Haw; simpl.
  { eexists _, [], (Ok tt). unfold persisted. split_and!; try done. intros _ d []%elem_of_nil. }
  rewrite fmap_cons in Hnd. apply NoDup_cons in Hnd as [Hni Hnd].
  destruct (receive_awaiting r m d) as (r1 & sids & Hrecv & Hw1 & Hc1 & Hd1 & Hch1 & Hok1); [set_solver|].
  rewrite Hrecv. simpl. rewrite bool_decide_eq_false_2 by (by intros []).
  set (record := delivery_record _ _ _ _ _).
  destruct (publish_record _ _ _ _) as [[]|e] eqn:Epub.
  2: { eexists _, [], (Err e). unfold persisted. split_and!; try done.
       - apply prefix_nil.
       - eexists O, d, _. rewrite Nat.add_0_r. split_and!; [done|exact Hw1|done|exact Epub].
       - intros c Hc. apply Hch1. set_solver. }
  destruct (IH (S i) (with_metrics record_webhook_durable_command r1)) as
    (r2 & records & res & Hrun & (Hpre & Hall & Hres) & Hc2 & Hch2 & Hd2 & Hok2); [done| |].
  { intros d' Hd'. destruct (Haw d') as (ch & sids' & Hl & Hx & Hq); [set_solver|].
    exists ch, sids'. simpl. rewrite Hch1; [done|]. intros He. apply Hni. rewrite <-He.
    by apply list_elem_of_fmap_2. }
  assert (∀ j d' dl, ds !! j = Some d' → waiting (with_metrics record_webhook_durable_command r1) d' dl →
    waiting r d' dl) as Hback.
  { intros j d' dl Hj (ch & Hl & Hq). exists ch. simpl in Hl. rewrite Hch1 in Hl; [done|].
    intros He. apply Hni. rewrite <-He. by eapply list_elem_of_fmap_2, list_elem_of_lookup_2. }
  rewrite Hrun. simpl. eexists r2, (record :: records), res. unfold persisted. split_and!; try done.
  - by apply prefix_cons.
  - constructor.
    + eexists O, d, _. rewrite Nat.add_0_r. split_and!; [done|exact Hw1|done|split; [done|exact Epub]].
    + eapply Forall_impl; [exact Hall|]. intros x (j & d' & dl & Hj & Hwt & Hmsg & Hrest).
      exists (S j), d', dl. rewrite <-plus_n_Sm. split_and!; [done|by eapply Hback|done..].
  - destruct res as [|e']; [simpl; lia|]. destruct Hres as (j & d' & dl & Hj & Hwt & Hm & Hp).
    exists (S j), d', dl. rewrite <-plus_n_Sm. split_and!; [done|by eapply Hback|done..].
  - by rewrite Hc2, <-Hc1.
  - intros c Hc. rewrite Hch2 by set_solver. apply Hch1. set_solver.
  - intros -> d' [->|Hd']%elem_of_cons; [|by apply Hd2].
    destruct Hd1 as (ch & Hl & Hx & Hq). exists ch. by rewrite Hch2.
  - intros Hok. by apply Hok2, with_metrics_durable_ok, Hok1.
Qed.

(** *** The destinations of a message *)

Lemma elem_of_sink_destinations sink m d :
  d ∈ sink_destinations sink m ↔
  ∃ key ds, key ∈ RouteKey_candidates (rm_metadata m) ∧ sk_routes sink !! key = Some ds ∧ d ∈ ds.
Proof.
  unfold sink_destinations. rewrite list_elem_of_bind. split.
  - intros (key & Hd & Hkey). destruct (sk_routes sink !! key) as [ds|] eqn:E; [eauto|].
    by apply elem_of_nil in Hd.
  - intros (key & ds & Hkey & E & Hd). exists key. by rewrite E.
Qed.

(** Two destinations with one receiver are listed under one key. *)
Lemma same_receiver r sink k1 k2 ds1 ds2 d1 d2 :
  sink_ok r sink → sk_routes sink !! k1 = Some ds1 → d1 ∈ ds1 → sk_routes sink !! k2 = Some ds2 →
  d2 ∈ ds2 → rd_receiver d1 = rd_receiver d2 → k1 = k2.
Proof.
  intros Hsink E1 Hd1 E2 Hd2 He.
  destruct (so_routes _ _ Hsink _ _ _ E1 Hd1) as (conn1 & ? & s1 & f1 & C1 & _ & _ & _ & S1 & <-).
  destruct (so_routes _ _ Hsink _ _ _ E2 Hd2) as (conn2 & ? & s2 & f2 & C2 & _ & _ & _ & S2 & <-).
  rewrite He, C2 in C1. simplify_eq. rewrite S1 in S2. by apply map_singleton_inj in S2 as [_ ->].
Qed.

Lemma sink_destinations_distinct r sink m :
  sink_ok r sink → message_paired m → NoDup (rd_receiver <$> sink_destinations sink m).
Proof.
  intros Hsink Hm. unfold sink_destinations.
  assert (∀ f (l : list RouteKey), rd_receiver <$> (l ≫= f) = l ≫= λ k, rd_receiver <$> f k) as ->.
  { intros f l. induction l as [|k l IH]; [done|]. csimpl. by rewrite fmap_app, IH. }
  apply NoDup_bind; [| |by apply candidates_NoDup_paired].
  - intros k1 k2 c _ _ Hc1 Hc2.
    destruct (sk_routes sink !! k1) as [ds1|] eqn:E1; [|by apply elem_of_nil in Hc1].
    destruct (sk_routes sink !! k2) as [ds2|] eqn:E2; [|by apply elem_of_nil in Hc2].
    apply list_elem_of_fmap in Hc1 as (d1 & -> & Hd1), Hc2 as (d2 & He & Hd2).
    by eapply (same_receiver r sink k1 k2).
  - intros k _. destruct (sk_routes sink !! k) as [ds|] eqn:E; [|apply NoDup_nil_2].
    by eapply so_distinct.
Qed.

(** The destinations of a message are those whose filter matches it. *)
Lemma destination_matches r sink m key ds d conn sid f :
  router_inv r → message_paired m → sk_routes sink !! key = Some ds → d ∈ ds →
  r_connections r !! rd_receiver d = Some conn → cs_subscriptions conn = {[sid := f]} →
  RouteKey_from f = key →
  (key ∈ RouteKey_candidates (rm_metadata m) ↔ RouteFilter_matches f (rm_metadata m) = true) ∧
  (RouteFilter_matches f (rm_metadata m) = true ↔ is_Some (matches_of (r_routes r) m !! rd_receiver d)).
Proof.
  intros Hinv Hm Hk Hd Hc Hs <-.
  assert (filter_ok f) as Hf.
  { apply (co_filters _ _ (inv_connections _ Hinv _ _ Hc) sid). rewrite Hs. apply lookup_singleton_eq. }
  split.
  { rewrite elem_of_candidates, RouteFilter_matches_true by (done || apply Hf). done. }
  pose proof (matches_ok m r (rd_receiver d) Hinv Hm) as Hmc.
  destruct (matches_of _ _ !! _) as [sids|].
  - destruct Hmc as (conn' & Hc' & Hne & [_ Hids] & _). simplify_eq. split; [eauto|]. intros _.
    destruct sids as [|sid' sids]; [done|]. destruct (proj1 (Hids sid')) as (f' & Hf' & Hmt); [left|].
    rewrite Hs in Hf'. apply lookup_singleton_Some in Hf' as [_ <-]. done.
  - split; [|intros [? [=]]]. intros Hmt. destruct (Hmc conn sid Hc). exists f.
    rewrite Hs, lookup_singleton_eq. done.
Qed.

(** The queues of the destinations after a dispatch: those of the message
    hold its delivery, the others are as before. *)
Lemma dispatched_destination iter m r r' report fo sink key ds d :
  iterates iter → router_ok r → message_paired m → dispatched iter m r r' report fo →
  sk_routes sink !! key = Some ds → d ∈ ds → destination_ok r key d →
  if decide (key ∈ RouteKey_candidates (rm_metadata m)) then
    awaiting r' m d ∧ (∃ conn, r_connections r' !! rd_receiver d = Some conn ∧
      ∃ sid f, cs_subscriptions conn = {[sid := f]} ∧ RouteKey_from f = key)
  else destination_ok r' key d.
Proof.
  intros Hi Hok Hm Hd Hk Hin (conn & ch & sid & f & Hc & Hch & Hrx & Hq & Hs & Hf).
  destruct (destination_matches r sink m key ds d conn sid f (proj1 Hok) Hm Hk Hin Hc Hs Hf)
    as [Hcand Hmatch]. case_decide as Hkey.
  - destruct (proj1 Hmatch (proj1 Hcand Hkey)) as [sids Hsids].
    destruct (dispatched_matched _ _ _ _ _ _ _ _ _ _ Hi Hok Hd Hsids Hc Hch) as [Hsent _].
    destruct (inv_channels _ (proj1 Hok) _ _ Hc) as (ch' & Hch' & Hcap & _). simplify_eq.
    destruct Hsent as (Hc' & ch2 & Hch2 & Hq2 & _ & Hrx2 & _); [done|rewrite Hq; simpl; lia|].
    rewrite Hq in Hq2. split; [by exists ch2, sids|]. exists (with_strikes 0 conn). eauto.
  - destruct (matches_of (r_routes r) m !! rd_receiver d) as [sids|] eqn:E; [naive_solver|].
    destruct (dispatched_unmatched _ _ _ _ _ _ _ Hi Hd E) as [Ec Ech].
    exists conn, ch, sid, f. by rewrite Ec, Ech.
Qed.

(** What waits for a destination after a dispatch is the message with the
    destination's own subscription. *)
Lemma waiting_delivery iter e1 e2 sink m r r1 report d delivery :
  iterates iter → router_ok r → message_paired m → sink_ok r sink →
  dispatch iter e1 e2 m r = Some (r1, report) →
  d ∈ sink_destinations sink m → waiting r1 d delivery →
  ∃ conn sid f, r_connections r !! rd_receiver d = Some conn ∧ cs_subscriptions conn = {[sid := f]} ∧
    RouteFilter_matches f (rm_metadata m) = true ∧
    delivery = {| d_message := m; d_subscription_ids := [sid] |}.
Proof.
  intros Hi Hok Hm Hsink Hrun (key & ds & Hkey & Hk & Hin)%elem_of_sink_destinations (ch1 & Hch1 & Hq1).
  destruct (dispatch_run iter e1 e2 m r Hi Hok) as (r' & report' & fo & Hrun' & Hd).
  rewrite Hrun in Hrun'. injection Hrun' as <- <-.
  destruct (so_routes _ _ Hsink _ _ _ Hk Hin) as (conn & ch & sid & f & Hc & Hch & Hrx & Hq & Hs & Hf).
  exists conn, sid, f. split_and!; [done..| |];
    destruct (destination_matches r sink m key ds d conn sid f (proj1 Hok) Hm Hk Hin Hc Hs Hf)
      as [Hcand Hmatch]; [by apply Hcand|].
  destruct (proj1 Hmatch (proj1 Hcand Hkey)) as [sids Hsids].
  destruct (dispatched_matched _ _ _ _ _ _ _ _ _ _ Hi Hok Hd Hsids Hc Hch) as [Hsent _].
  destruct (inv_channels _ (proj1 Hok) _ _ Hc) as (ch' & Hch' & Hcap & _). simplify_eq.
  destruct Hsent as (_ & ch2 & Hch2 & Hq2 & _); [done|rewrite Hq; simpl; lia|].
  rewrite Hch1 in Hch2. simplify_eq. rewrite Hq, Hq1 in Hq2. injection Hq2 as ->. f_equal.
  pose proof (matches_ok m r (rd_receiver d) (proj1 Hok) Hm) as Hids. rewrite Hsids, Hc in Hids.
  destruct Hids as (conn' & [= <-] & Hne & [Hnd Hids] & _).
  assert (∀ x, x ∈ sids → x = sid) as Hone.
  { intros x (f' & Hx & _)%Hids. rewrite Hs in Hx. by apply lookup_singleton_Some in Hx as [<- _]. }
  destruct sids as [|x [|y l]]; [done|f_equal; apply Hone; left|].
  rewrite NoDup_cons, (Hone x), (Hone y) in Hnd by set_solver. set_solver.
Qed.

(** Persisting what was just dispatched. *)
Lemma persist_after_dispatch iter e1 e2 sink env m r :
  iterates iter → router_ok r → message_paired m → sink_ok r sink →
  ∃ r1 report r2 records res,
    dispatch iter e1 e2 m r = Some (r1, report) ∧
    sink_persist sink env m r1 = Some (r2, records, res) ∧
    persisted r1 sink m env 0 (sink_destinations sink m) records res ∧
    router_ok r2 ∧ (res = Ok tt → sink_ok r2 sink) ∧
    (∀ key ds d conn sid f, sk_routes sink !! key = Some ds → d ∈ ds →
       r_connections r !! rd_receiver d = Some conn → cs_subscriptions conn = {[sid := f]} →
       RouteKey_from f = key →
       d ∈ sink_destinations sink m ↔ RouteFilter_matches f (rm_metadata m) = true) ∧
    r_connections r2 = r_connections r1 ∧
    (∀ c, c ∉ rd_receiver <$> sink_destinations sink m → r_channels r2 !! c = r_channels r1 !! c).
Proof.
  intros Hiter Hok Hm Hsink.
  destruct (dispatch_run iter e1 e2 m r Hiter Hok) as (r1 & report & fo & Hrun & Hd).
  pose proof (sink_destinations_distinct r sink m Hsink Hm) as Hnd.
  assert (∀ key ds d, sk_routes sink !! key = Some ds → d ∈ ds → _) as Hafter
    by (intros key ds d Hk Hin;
        exact (dispatched_destination iter m r r1 report fo sink key ds d Hiter Hok Hm Hd Hk Hin
                 (so_routes _ _ Hsink _ _ _ Hk Hin))).
  destruct (persist_destinations_run sink m env 0 (sink_destinations sink m) r1 Hnd)
    as (r2 & records & res & Hp & Hres & Hc2 & Hch2 & Hdr & Hok2).
  { intros d (key & ds & Hkey & Hk & Hin)%elem_of_sink_destinations.
    pose proof (Hafter _ _ _ Hk Hin) as Ha. rewrite decide_True in Ha by done. apply Ha. }
  assert (∀ key ds d, sk_routes sink !! key = Some ds → d ∈ ds →
    d ∈ sink_destinations sink m → key ∈ RouteKey_candidates (rm_metadata m)) as Hback.
  { intros key ds d Hk Hin (key' & ds' & Hkey' & Hk' & Hin')%elem_of_sink_destinations.
    by rewrite (same_receiver r sink key key' ds ds' d d Hsink Hk Hin Hk' Hin'). }
  exists r1, report, r2, records, res. split_and!; try done.
  - apply Hok2, Hd.
  - intros ->. split; [|apply Hsink]. intros key ds d Hk Hin. specialize (Hafter _ _ _ Hk Hin).
    unfold destination_ok. rewrite Hc2. case_decide as Hkey.
    + destruct Hafter as [_ (conn & Hc & sid & f & Hs & Hf)].
      destruct (Hdr eq_refl d) as (ch & Hch & Hrx & Hq); [apply elem_of_sink_destinations; eauto|].
      exists conn, ch, sid, f. done.
    + destruct Hafter as (conn & ch & sid & f & Hc & Hch & Hrx & Hq & Hs & Hf).
      exists conn, ch, sid, f. split_and!; try done. rewrite Hch2; [done|].
      intros (d' & He & Hd')%list_elem_of_fmap. apply Hkey.
      apply elem_of_sink_destinations in Hd' as (key' & ds' & Hkey' & Hk' & Hin').
      by rewrite (same_receiver r sink key key' ds ds' d d' Hsink Hk Hin Hk' Hin').
  - intros key ds d conn sid f Hk Hin Hc Hs Hf.
    destruct (destination_matches r sink m key ds d conn sid f (proj1 Hok) Hm Hk Hin Hc Hs Hf)
      as [<- _]. split; [by eapply Hback|]. intros. apply elem_of_sink_destinations. eauto.
Qed.

(** (C13) The durable sink does not block the consumer and loses nothing:
    when a message is dispatched and then persisted, every destination whose
    filter matches has its delivery waiting, so [persist] returns; it
    publishes one record per matching destination, in order, for this
    message and as a first attempt; it fails only with the error of a
    publication; and when it succeeds the sink is ready for the next
    message. *)
Theorem durable_sink_persists iter e1 e2 sink env m r
    (Hiter : iterates iter) (Hok : router_ok r) (Hm : message_paired m) (Hsink : sink_ok r sink) :
  ∃ r1 report r2 records res,
    dispatch iter e1 e2 m r = Some (r1, report) ∧
    sink_persist sink env m r1 = Some (r2, records, res) ∧
    persisted r1 sink m env 0 (sink_destinations sink m) records res ∧
    router_ok r2 ∧ (res = Ok tt → sink_ok r2 sink) ∧
    (∀ key ds d conn sid f, sk_routes sink !! key = Some ds → d ∈ ds →
       r_connections r !! rd_receiver d = Some conn → cs_subscriptions conn = {[sid := f]} →
       RouteKey_from f = key →
       d ∈ sink_destinations sink m ↔ RouteFilter_matches f (rm_metadata m) = true).
Proof.
  destruct (persist_after_dispatch iter e1 e2 sink env m r Hiter Hok Hm Hsink)
    as (r1 & report & r2 & records & res & Hrun & Hp & Hres & Hr2 & Hs2 & Hd & _).
  by exists r1, report, r2, records, res.
Qed.
End persist.

(** ** Building the runtime *)

Section runtime.
Context `{MpscLaws Delivery Chan} `{UrlParser} `{HttpTypes}.
Context (create : ClientConfig → option string).
Context (fresh : nat → ConnectionId).
Implicit Types (r : RouterState Chan) (routes : gmap RouteKey (list RouteDestination)).

Definition add_route (key : RouteKey) (d : RouteDestination) routes :=
  <[key := default [] (routes !! key) ++ [d]]> routes.

(** A new connection with one subscription is a new destination. *)
Lemma routes_ok_add c id sid f t p cap r r1 r2 routes :
  routes_ok r routes → r_connections r !! c = None → (∀ n, cap = Some n → 0 ≤ n) →
  config_ok (r_config r) →
  register_connection c t p cap r = (r1, Ok c) → subscribe c sid f r1 = (r2, Ok tt) →
  routes_ok r2 (add_route (RouteKey_from f) {| rd_id := id; rd_receiver := c |} routes).
Proof.
  intros [Hr Hd] Hnew Hcap Hcfg Hreg Hsub.
  destruct (attached_tables _ _ _ _ _ _ _ _ _ Hcap Hcfg Hreg Hsub) as (n & conn' & Hn & Hs' & Ec' & Ech').
  assert (∀ key ds d, routes !! key = Some ds → d ∈ ds → rd_receiver d ≠ c) as Hne.
  { intros key ds d Hk Hin He. destruct (Hr _ _ _ Hk Hin) as (? & ? & ? & ? & C & _).
    rewrite He in C. congruence. }
  assert (∀ key d, d ∈ default [] (routes !! key) → rd_receiver d ≠ c ∧ destination_ok r2 key d) as Hold.
  { intros key d Hin. destruct (routes !! key) as [ds|] eqn:Hk; [|by apply elem_of_nil in Hin].
    split; [by eapply Hne|]. destruct (Hr _ _ _ Hk Hin) as (cn & ch & s & f' & C & Ch & ?).
    exists cn, ch, s, f'. rewrite Ec', Ech', !lookup_insert_ne by (symmetry; by eapply Hne). done. }
  destruct (channel_open n Hn) as [Hrx _]. unfold add_route. split.
  - intros key ds d. rewrite lookup_insert. case_decide as Hk; [intros [= <-]|].
    + subst key. intros [Hin|Hin%list_elem_of_singleton]%elem_of_app; [by apply Hold|]. subst d.
      exists conn', (channel n), sid, f. simpl. rewrite Ec', Ech', !lookup_insert_eq.
      split_and!; try done. by apply channel_queued.
    + intros Hl Hin. apply Hold. by rewrite Hl.
  - intros key ds. rewrite lookup_insert. case_decide as Hk; [intros [= <-]|apply Hd].
    rewrite fmap_app. apply NoDup_app. split_and!.
    + destruct (routes !! RouteKey_from f) as [ds|] eqn:E; [by eapply Hd|apply NoDup_nil_2].
    + intros x (d & -> & Hin)%list_elem_of_fmap Hx%list_elem_of_singleton. simpl in Hx.
      by destruct (Hold _ _ Hin).
    + apply NoDup_singleton.
Qed.

(** The loop between two destinations: the connections of [own] are the ones
    added to [r0], one per destination handled so far. *)
Record building (i : nat) r0 r routes (own : list ConnectionId) : Prop := {
  bl_ok : router_ok r;
  bl_routes : routes_ok r routes;
  bl_own : own = fresh <$> seq 0 i;
  bl_extends : extends_by own r0 r;
}.

Context (Hinj : Inj (=) (=) fresh).

Lemma building_fresh i r0 r routes own :
  building i r0 r routes own → (∀ j, r_connections r0 !! fresh j = None) →
  r_connections r !! fresh i = None.
Proof.
  intros [_ _ -> [_ He]] Hnew. destruct (He (fresh i)) as [-> _]; [|done].
  intros (j & Hj & Hin)%list_elem_of_fmap. apply Hinj in Hj. subst j.
  apply elem_of_seq in Hin. lia.
Qed.

(** Dropping the guard. *)
Lemma building_undo i r0 r routes own :
  router_ok r0 → (∀ j, r_connections r0 !! fresh j = None) → router_inv r →
  own = fresh <$> seq 0 i → extends_by own r0 r → same_subscriptions (unregister_all own r) r0.
Proof.
  intros [Hinv0 _] Hnew Hinv -> He. apply unregister_all_restores; try done.
  intros c (j & -> & _)%list_elem_of_fmap. apply Hnew.
Qed.

Lemma seq_fresh_snoc i : fresh <$> seq 0 (S i) = (fresh <$> seq 0 i) ++ [fresh i].
Proof. by rewrite seq_S, fmap_app. Qed.

(** The destination is listed under the key of its filter. *)
Definition listed (j : nat) (d : WebhookDestinationConfig) routes : Prop :=
  ∃ l, routes !! RouteKey_from (wd_filter d) = Some l ∧
    {| rd_id := wd_id d; rd_receiver := fresh j |} ∈ l.

Lemma listed_add j d key x routes : listed j d routes → listed j d (add_route key x routes).
Proof.
  intros (l & Hl & Hin). unfold listed, add_route. rewrite lookup_insert.
  case_decide as Hk; [subst key|by exists l]. eexists. split; [done|]. rewrite Hl. set_solver.
Qed.

Lemma build_loop_spec durable r0 i routes workers own ds r r' res :
  router_ok r0 → (∀ j, r_connections r0 !! fresh j = None) →
  (∀ d, d ∈ ds → 0 ≤ wd_queue_capacity d) → building i r0 r routes own →
  build_loop create durable fresh i routes workers own ds r = (r', res) →
  match res with
  | Err _ => same_subscriptions r' r0
  | Ok (routes', workers', own') =>
    building (i + length ds) r0 r' routes' own' ∧
    (∃ added, workers' = workers ++ added ∧
       Forall2 (λ w d, DurableWorker_new create d durable = Ok w) added ds) ∧
    (∀ j d, listed j d routes → listed j d routes') ∧
    (∀ j d, ds !! j = Some d → listed (i + j) d routes')
  end.
Proof.
  intros Hok0 Hnew. revert i routes workers own r.
  induction ds as [|d ds IH]; intros i routes workers own r Hcap Hb Hrun;
    cbn [build_loop length] in *.
  { simplify_eq. rewrite !Nat.add_0_r. split_and!; try done. exists []. by rewrite app_nil_r. }
  pose proof (building_fresh _ _ _ _ _ Hb Hnew) as Hf.
  assert (∀ n, Some (wd_queue_capacity d) = Some n → 0 ≤ n) as Hc
    by (intros n [= <-]; apply Hcap; left).
  destruct Hb as [Hok Hroutes Hown Hext].
  assert (∀ r1 own1 k, router_ok r1 → own1 = fresh <$> seq 0 k → extends_by own1 r0 r1 →
    same_subscriptions (unregister_all own1 r1) r0) as Hundo
    by (intros r1 own1 k H1' H2' H3'; eapply (building_undo k r0 r1 routes); try done; apply H1').
  destruct (SubscriptionId_new _) as [sid|error]; [|simplify_eq; by eapply Hundo].
  pose proof (register_connection_ok (fresh i) (rf_tenant_id (wd_filter d)) HttpWebhook _ r Hok Hf Hc)
    as Hok1.
  destruct (register_connection (fresh i) _ _ _ r) as [r1 [c|error]] eqn:Ereg; simpl in Hok1;
    pose proof (register_extends own _ _ _ _ r0 _ _ _ Ereg Hext) as Hext1; simpl in Hext1.
  2: { simplify_eq. by eapply Hundo. }
  assert (c = fresh i) as -> by (unfold register_connection in Ereg; repeat case_match; by simplify_eq).
  assert (own ++ [fresh i] = fresh <$> seq 0 (S i)) as Hown1 by (rewrite seq_fresh_snoc; congruence).
  pose proof (subscribe_ok (fresh i) sid (wd_filter d) r1 Hok1) as Hok2.
  destruct (subscribe (fresh i) sid (wd_filter d) r1) as [r2 res2] eqn:Esub. simpl in Hok2.
  assert (extends_by (own ++ [fresh i]) r0 r2) as Hext2
    by (eapply subscribe_extends; [|exact Esub|done]; clear; set_solver).
  destruct res2 as [[]|error]; [|simplify_eq; by eapply Hundo].
  destruct (DurableWorker_new create d durable) as [worker|e] eqn:Hworker; [|simplify_eq; by eapply Hundo].
  pose proof (routes_ok_add _ (wd_id d) _ _ _ _ _ _ _ _ _ Hroutes Hf Hc (inv_config _ (proj1 Hok)) Ereg Esub)
    as Hroutes2.
  apply IH in Hrun; [|intros; apply Hcap; by right|by split].
  destruct res as [[[routes' workers'] own']|e]; [|done].
  destruct Hrun as (Hb' & (added & -> & Hadded) & Hmono & Hall). rewrite <-Nat.add_succ_comm.
  split_and!; [done| | |].
  - exists (worker :: added). split; [by rewrite <-app_assoc|by constructor].
  - intros j d' Hl. by apply Hmono, listed_add.
  - intros [|j] d' Hj; simpl in Hj.
    + simplify_eq. rewrite Nat.add_0_r. apply Hmono. unfold listed.
      rewrite lookup_insert_eq. eexists. split; [done|]. set_solver.
    + rewrite <-Nat.add_succ_comm. by apply Hall.
Qed.

(** Building the durable runtime is all or nothing.  When it succeeds,
    every destination has its worker and a connection of its own and is
    listed in the sink under the key of its filter, the sink writes to the
    configured topic within the configured size and is ready for the first
    message; when any step of any destination fails, the connections
    and the index of the router are those of before. *)
Lemma build_durable_runtime_spec (config : WebhookConfig) r r' res
    (Hok : router_ok r) (Hnew : ∀ j, r_connections r !! fresh j = None)
    (Hcap : ∀ d, d ∈ wc_destinations config → 0 ≤ wd_queue_capacity d)
    (Hrun : build_durable_runtime create fresh config r = (r', res)) :
  match res with
  | Ok runtime =>
    router_ok r' ∧ sink_ok r' (rt_sink runtime) ∧
    Forall2 (λ w d, DurableWorker_new create d (wc_durable config) = Ok w)
      (rt_workers runtime) (wc_destinations config) ∧
    sk_topic (rt_sink runtime) = dw_delivery_topic (wc_durable config) ∧
    sk_max_record_bytes (rt_sink runtime) = dw_max_record_bytes (wc_durable config) ∧
    (∀ j d, wc_destinations config !! j = Some d → listed j d (sk_routes (rt_sink runtime))) ∧
    sk_connection_ids (rt_sink runtime) = fresh <$> seq 0 (length (wc_destinations config)) ∧
    same_subscriptions (drop_sink (rt_sink runtime) r') r
  | Err _ => same_subscriptions r' r
  end.
Proof.
  unfold build_durable_runtime in Hrun.
  destruct (create (durable_producer_client_config _)); [by simplify_eq|].
  assert (building 0 r r ∅ []) as Hstart.
  { split; [done| |done|apply extends_by_refl]. by split; intros ? ?; rewrite lookup_empty. }
  destruct (build_loop _ _ _ _ _ _ _ _ _) as [r1 [[[routes workers] own]|e]] eqn:E;
    apply (build_loop_spec (wc_durable config) r) in E; try done; [|by simplify_eq].
  destruct E as ([Hok' Hr Hown Hext] & (added & -> & Hadded) & _ & Hl). simplify_eq/=.
  split_and!; try done.
  unfold drop_sink. simpl. eapply (building_undo _ r r' routes); try done. apply Hok'.
Qed.
End runtime.

(** A destination of the configuration whose filter matches is one of the
    sink's for the message. *)
Lemma listed_destination sink m fresh j dest :
  filter_ok (wd_filter dest) → message_paired m → listed fresh j dest (sk_routes sink) →
  RouteFilter_matches (wd_filter dest) (rm_metadata m) = true →
  {| rd_id := wd_id dest; rd_receiver := fresh j |} ∈ sink_destinations sink m.
Proof.
  intros Hf Hm (l & Hl & Hin) Hmatch. apply elem_of_sink_destinations. eexists _, l.
  split; [|done]. by rewrite elem_of_candidates, <-RouteFilter_matches_true by (done || apply Hf).
Qed.

(** ** Concrete inputs *)

Definition example_webhooks : WebhookConfig := {|
  wc_enabled := true; wc_mode := DurableMode; wc_durable := DurableWebhookConfig_default;
  wc_destinations := [example_good_destination; example_good_destination] |}.

Abbreviation example_start := (Router_new RouterConfig_default : RouterState (Fifo Delivery)).

(** The loop on two destinations of one route, from an empty router. *)
Abbreviation example_build := (@build_loop _ _ example_url_parser example_http (λ _, None)
  DurableWebhookConfig_default Z.of_nat 0 ∅ [] [] (wc_destinations example_webhooks) example_start).

Lemma example_start_ok : router_ok example_start.
Proof. apply Router_new_ok, config_default_ok. Qed.

Lemma example_capacities d : d ∈ wc_destinations example_webhooks → 0 ≤ wd_queue_capacity d.
Proof. intros Hd. repeat (apply elem_of_cons in Hd as [->|Hd]; [done|]). by apply elem_of_nil in Hd. Qed.

(** The runtime of the example is built, on a router that stays well formed. *)
Lemma example_runtime_built :
  let o := @build_durable_runtime _ _ example_url_parser example_http (λ _, None) Z.of_nat
             example_webhooks example_start in
  is_ok o.2 = true ∧ router_ok o.1.
Proof.
  intros o. assert (is_ok o.2 = true) as Hres by (vm_compute; reflexivity). split; [exact Hres|].
  pose proof (build_durable_runtime_spec (H1 := example_url_parser) (H2 := example_http)
    (λ _, None) Z.of_nat ltac:(intros x y; apply Nat2Z.inj) example_webhooks example_start o.1 o.2
    example_start_ok ltac:(reflexivity) example_capacities (surjective_pairing o)) as H.
  destruct (o.2); [exact (proj1 H)|discriminate Hres].
Qed.

#[local] Instance constant_codec : RecordCodec := {|
  record_to_vec _ := Ok "R"; record_from_slice _ := Err "unused" |}.

(** The sink of the loop's routes. *)
Definition example_sink (routes : gmap RouteKey (list RouteDestination)) : DurableWebhookSink := {|
  sk_topic := "delivery"; sk_timeout := 1; sk_max_record_bytes := 10; sk_routes := routes;
  sk_connection_ids := [] |}.

Lemma durable_sink_persists_witness :
  ∃ routes r1 r2 records res, sink_persist (H0 := example_json) (example_sink routes)
      (λ _, {| pe_uuid := "u"; pe_clock := 0; pe_producer := λ _ _ _, None |}) example_message r1
      = Some (r2, records, res) ∧ router_ok r2.
Proof.
  destruct example_build as [r [[[routes workers] own]|e]] eqn:E.
  - apply (build_loop_spec (H1 := example_url_parser) (H2 := example_http) _ _ ltac:(intros x y; apply Nat2Z.inj) _ example_start) in E as (Hb & _);
      [|exact example_start_ok|reflexivity|exact example_capacities
       |split; [exact example_start_ok|by split; intros ? ?; rewrite lookup_empty|done
               |apply extends_by_refl]].
    destruct (durable_sink_persists (H1 := example_json) map_to_list 0 0 (example_sink routes)
      (λ _, {| pe_uuid := "u"; pe_clock := 0; pe_producer := λ _ _ _, None |}) example_message r
      map_to_list_iterates (bl_ok _ _ _ _ _ _ Hb) eq_refl (bl_routes _ _ _ _ _ _ Hb))
      as (r1 & _ & r2 & records & res & _ & Hp & _ & Hok & _).
    exists routes, r1, r2, records, res. split; [exact Hp|exact Hok].
  - assert (is_ok example_build.2 = true) as H by (vm_compute; reflexivity).
    rewrite E in H. discriminate H.
Defined.
