(* ===== verification/DurableCrash.v ===== *)
(** * Durable webhooks across crashes

    One destination's worker, its topics and its consumer group, as a system
    that runs for ever: producers append records, the worker takes the next
    message of a partition and handles it as durable.rs does, and at any point
    of that, also between two effects of one message, the process may die and
    be started again.  What survives is what Kafka keeps: the records, and the
    offset each partition is to be read from.  [BeforeRequest],
    [AfterRemoteSuccess], [AfterRetryPublish] and [AfterDeadLetterPublish], the
    points durable.rs names for its own crash tests, are among the prefixes a
    crash can leave. *)

From S2P Require Import Prelude Str Ids Message Route Metrics Channel Router Kafka Wire.
From S2P Require Import TopicLog Security Webhook Durable DurableSpec.
Open Scope Z_scope.

(** ** The broker *)

(** Payloads by topic, partition and offset, and for the worker's group the
    offset a partition is read from next. *)
Record Broker : Type := {
  bk_log : gmap (string * Z * Z) string;
  bk_committed : gmap (string * Z) Z;
}.

(** [auto.offset.reset] is [earliest]: without a commit, the start. *)
Definition committed_at (b : Broker) (t : string) (p : Z) : Z :=
  default 0 (bk_committed b !! (t, p)).

(** A record goes to the end of a partition: after all others, and not before
    a committed offset. *)
Definition end_of (b : Broker) (t : string) (p o : Z) : Prop :=
  committed_at b t p ≤ o < i64_max ∧ ends_at (bk_log b) t p o.

Definition append_at (t : string) (p o : Z) (payload : string) (b : Broker) : Broker :=
  {| bk_log := <[(t, p, o) := payload]> (bk_log b); bk_committed := bk_committed b |}.

Definition commit_at (t : string) (p o : Z) (b : Broker) : Broker :=
  {| bk_log := bk_log b; bk_committed := <[(t, p) := o]> (bk_committed b) |}.

(** The message at an offset. *)
Definition message_at (t : string) (p o : Z) (payload : string) : ConsumedMessage :=
  {| cm_payload := Some payload; cm_topic := t; cm_partition := p; cm_offset := o |}.

Section system.
Context `{RecordCodec} `{HttpTypes} `{Base64} (version : string) (w : DurableWorker).

(** What an effect of the worker does to the broker; the broker picks the
    partition of a record. *)
Inductive applies : WorkerEffect → Broker → Broker → Prop :=
| applies_attempt id a outcome b : applies (Attempted id a outcome) b b
| applies_publish topic record payload p o b :
    record_to_vec record = Ok payload → end_of b topic p o →
    applies (PublishedRecord topic record) b (append_at topic p o payload b)
| applies_commit t p o b : applies (CommittedOffset t p o) b (commit_at t p o b).

Inductive applies_all : list WorkerEffect → Broker → Broker → Prop :=
| applies_nil b : applies_all [] b b
| applies_cons e l b1 b2 b3 : applies e b1 b2 → applies_all l b2 b3 → applies_all (e :: l) b1 b3.

(** The system: the broker, the offsets the consumer has read up to, the
    worker, and everything the worker has done. *)
Record DurableSystem : Type := {
  ds_broker : Broker;
  ds_positions : gmap (string * Z) Z;
  ds_worker : WorkerState;
  ds_history : list WorkerEffect;
}.

(** A message is handled by the main loop or, during recovery, by the loop over
    the retry topic with whatever it has counted so far. *)
Inductive handles (message : ConsumedMessage) (s s' : WorkerState) : bool → Prop :=
| handles_main be ce env r :
    cm_topic message ∈ [dk_delivery_topic w; dk_retry_topic w] →
    handle_message version w message be ce env s = Some (s', r) → handles message s s' (is_ok r)
| handles_recovery eof recovered be ce env r :
    cm_topic message = dk_retry_topic w →
    recover_loop version w eof recovered [(false, PollMessage message be ce env)] s = Some (s', r) →
    handles message s s' (is_ok r).

(** The next message of a partition the consumer reads. *)
Definition next_message (sy : DurableSystem) (t : string) (p o : Z) (payload : string) : Prop :=
  next_in (bk_log (ds_broker sy)) t p (default 0 (ds_positions sy !! (t, p))) o payload.

(** A worker that was just started remembers nothing. *)
Definition fresh (s : WorkerState) : Prop := wk_completed s = ∅.

Inductive durable_step : DurableSystem → DurableSystem → Prop :=
| step_produce t p o payload sy :
    end_of (ds_broker sy) t p o →
    durable_step sy {| ds_broker := append_at t p o payload (ds_broker sy);
      ds_positions := ds_positions sy; ds_worker := ds_worker sy; ds_history := ds_history sy |}
| step_handle t p o payload s' l b' sy :
    next_message sy t p o payload →
    handles (message_at t p o payload) (ds_worker sy) s' true →
    wk_log s' = wk_log (ds_worker sy) ++ l → applies_all l (ds_broker sy) b' →
    durable_step sy {| ds_broker := b'; ds_positions := <[(t, p) := o + 1]> (ds_positions sy);
      ds_worker := s'; ds_history := ds_history sy ++ l |}
| step_crash t p o payload s' ok l done b' s0 sy :
    next_message sy t p o payload →
    handles (message_at t p o payload) (ds_worker sy) s' ok →
    wk_log s' = wk_log (ds_worker sy) ++ l → done `prefix_of` l →
    applies_all done (ds_broker sy) b' → fresh s0 →
    durable_step sy {| ds_broker := b'; ds_positions := bk_committed b';
      ds_worker := s0; ds_history := ds_history sy ++ done |}.

Definition durable_start (s : WorkerState) : DurableSystem := {|
  ds_broker := {| bk_log := ∅; bk_committed := ∅ |}; ds_positions := ∅;
  ds_worker := s; ds_history := [] |}.

Definition durable_reachable (sy : DurableSystem) : Prop :=
  ∃ s, fresh s ∧ rtc durable_step (durable_start s) sy.

(** ** What becomes of a delivery *)

(** The record of this endpoint at a place of the log. *)
Definition holds (b : Broker) (t : string) (p o : Z) (id : string) : Prop :=
  t ∈ [dk_delivery_topic w; dk_retry_topic w] ∧
  ∃ payload input, bk_log b !! (t, p, o) = Some payload ∧
    from_message (message_at t p o payload) (dk_max_record_bytes w) = Ok input ∧
    dr_destination_id (in_record input) = de_id (dk_endpoint w) ∧
    dr_delivery_id (in_record input) = id.

(** The endpoint accepted it, or it is in the dead-letter topic. *)
Definition finished (id : string) (history : list WorkerEffect) : Prop :=
  (∃ n status, Attempted id n (OutcomeDelivered status) ∈ history) ∨
  (∃ record, PublishedRecord (dk_dead_letter_topic w) record ∈ history ∧ dr_delivery_id record = id).

(** A record of it is still to be read. *)
Definition pending (b : Broker) (id : string) : Prop :=
  ∃ t p o, committed_at b t p ≤ o ∧ holds b t p o id.

(** Nothing is lost: every record of this endpoint is finished or pending, and a
    record that cannot be read is never passed. *)
Record accounted (history : list WorkerEffect) (b : Broker) : Prop := {
  ac_records t p o id : holds b t p o id → finished id history ∨ pending b id;
  ac_unread t p o payload error : bk_log b !! (t, p, o) = Some payload →
    from_message (message_at t p o payload) (dk_max_record_bytes w) = Err error →
    committed_at b t p ≤ o;
}.

Lemma finished_mono id h1 h2 : finished id h1 → finished id (h1 ++ h2).
Proof. unfold finished. set_solver. Qed.

Lemma committed_append t p o payload b t' p' :
  committed_at (append_at t p o payload b) t' p' = committed_at b t' p'.
Proof. done. Qed.

Lemma committed_commit t p o b t' p' :
  committed_at (commit_at t p o b) t' p' = if decide ((t, p) = (t', p')) then o else committed_at b t' p'.
Proof. unfold committed_at. simpl. rewrite lookup_insert. by case_decide. Qed.

Lemma holds_append b t p o payload t' p' o' id :
  end_of b t p o → holds b t' p' o' id → holds (append_at t p o payload b) t' p' o' id.
Proof.
  intros Hend (Ht & payload' & input & Hl & Hin). split; [done|]. exists payload', input. split; [|done].
  by apply lookup_append; [apply Hend|].
Qed.

Lemma pending_append b t p o payload id :
  end_of b t p o → pending b id → pending (append_at t p o payload b) id.
Proof. intros Hend (t' & p' & o' & Hc & Hh). exists t', p', o'. split; [done|]. by apply holds_append. Qed.

Lemma accounted_append history b t p o payload :
  end_of b t p o → accounted history b → accounted history (append_at t p o payload b).
Proof.
  intros Hend [Ha Hu].
  split; intros t' p' o'; destruct (decide ((t, p, o) = (t', p', o'))) as [[= <- <- <-]|Hne].
  - intros id Hh. right. exists t, p, o. split; [|done]. apply Hend.
  - intros id Hh. destruct (Ha t' p' o' id) as [|]; [|by left|right; by apply pending_append].
    destruct Hh as (Ht & payload' & input & Hl & Hin). split; [done|]. exists payload', input.
    simpl in Hl. by rewrite lookup_insert_ne in Hl.
  - intros ? ? _ _. apply Hend.
  - intros payload' error. simpl. rewrite lookup_insert_ne by done. apply Hu.
Qed.

Lemma accounted_mono h1 h2 b : accounted h1 b → accounted (h1 ++ h2) b.
Proof.
  intros [Ha Hu]. split; [|done]. intros t p o id Hh.
  destruct (Ha _ _ _ _ Hh); [left; by apply finished_mono|by right].
Qed.

(** The worker is at a message: nothing before it in the partition is still to
    be read. *)
Definition at_message (b : Broker) (t : string) (p o : Z) (payload : string) : Prop :=
  bk_log b !! (t, p, o) = Some payload ∧ committed_at b t p ≤ o + 1 ∧
  ∀ o', committed_at b t p ≤ o' < o → bk_log b !! (t, p, o') = None.

(** The delivery does not depend on this message any more. *)
Definition covered (history : list WorkerEffect) (b : Broker) (t : string) (p o : Z) (id : string)
    : Prop :=
  finished id history ∨
  ∃ t' p' o', committed_at b t' p' ≤ o' ∧ holds b t' p' o' id ∧ ((t', p') = (t, p) → o < o').

Lemma accounted_commit history b t p o payload :
  at_message b t p o payload → accounted history b →
  is_ok (from_message (message_at t p o payload) (dk_max_record_bytes w)) = true →
  (∀ id, holds b t p o id → covered history b t p o id) →
  accounted history (commit_at t p (o + 1) b).
Proof.
  intros (Hl & _ & Hgap) [Ha Hu] Hread Hcov.
  assert (∀ id, covered history b t p o id → finished id history ∨ pending (commit_at t p (o + 1) b) id)
    as Hafter.
  { intros id [Hf|(t' & p' & o' & Hc & Hh & Hlt)]; [by left|right]. exists t', p', o'. split; [|done].
    rewrite committed_commit. case_decide as E; [|done]. specialize (Hlt (eq_sym E)). lia. }
  split.
  2: { intros t' p' o' payload' error Hl' Herr. simpl in Hl'. specialize (Hu t' p' o' payload' error Hl' Herr).
       rewrite committed_commit. case_decide as E; [|done]. injection E as <- <-.
       destruct (decide (o' = o)) as [->|]; [|destruct (decide (o' < o)); [|lia]].
       - rewrite Hl in Hl'. injection Hl' as <-. by rewrite Herr in Hread.
       - by rewrite Hgap in Hl' by lia. }
  intros t' p' o' id Hh. destruct (Ha t' p' o' id Hh) as [|(t1 & p1 & o1 & Hc & Hh1)]; [by left|].
  destruct (decide ((t1, p1) = (t, p) ∧ o1 ≤ o)) as [[[= -> ->] Hle]|Hother].
  - assert (o1 = o) as ->.
    { destruct (decide (o1 = o)) as [|Hne]; [done|]. destruct Hh1 as (_ & pl & inp & Hl1 & _).
      by rewrite Hgap in Hl1 by lia. }
    by apply Hafter, Hcov.
  - apply Hafter. right. exists t1, p1, o1. split_and!; [done..|].
    intros E. destruct (decide (o1 ≤ o)); [naive_solver|lia].
Qed.
End system.

(** ** One message *)

Section message.
Context `{RecordCodecLaws} `{HttpTypes} `{Base64} (version : string) (w : DurableWorker).

(** What the worker may publish while it handles the delivery [id]: a record of
    it that its successor can read, in the retry or the dead-letter topic. *)
Definition publishes_for (id : string) (e : WorkerEffect) : Prop :=
  match e with
  | PublishedRecord topic record =>
      (topic = dk_retry_topic w ∨ topic = dk_dead_letter_topic w) ∧
      dr_delivery_id record = id ∧ dr_destination_id record = de_id (dk_endpoint w) ∧
      dr_schema_version record = SCHEMA_VERSION ∧
      ∀ payload, record_to_vec record = Ok payload → str_len payload ≤ dk_max_record_bytes w
  | _ => True
  end.

Lemma published_holds id record payload p o b :
  publishes_for id (PublishedRecord (dk_retry_topic w) record) → record_to_vec record = Ok payload →
  holds w (append_at (dk_retry_topic w) p o payload b) (dk_retry_topic w) p o id.
Proof.
  intros (_ & Hid & Hdest & Hver & Hlen) Hvec. split; [set_solver|].
  eexists payload, {| in_record := record |}. simpl. rewrite lookup_insert_eq.
  split_and!; [done| |done|done]. unfold from_message. simpl.
  rewrite (proj2 (Z.leb_le _ _) (Hlen _ Hvec)). simpl.
  rewrite (record_roundtrip _ _ Hvec). simpl. by rewrite Hver.
Qed.

Section effects.
Context (t : string) (p o : Z) (payload id : string) (skip : Prop) (history : list WorkerEffect).

(** The deliveries the message can be of. *)
Definition carries (id' : string) : Prop :=
  ∃ input, from_message (message_at t p o payload) (dk_max_record_bytes w) = Ok input ∧
    dr_destination_id (in_record input) = de_id (dk_endpoint w) ∧
    dr_delivery_id (in_record input) = id'.

Hypothesis Hread : is_ok (from_message (message_at t p o payload) (dk_max_record_bytes w)) = true.
Hypothesis Hown : ∀ id', carries id' → id' = id.
Hypothesis Hskip : skip → ∀ id', carries id' → finished w id' history.

(** The commits of the message: it is skipped, or settled before. *)
Definition message_justified (pos : string * Z * Z) (pre : list WorkerEffect) : Prop :=
  pos = (t, p, o + 1) ∧ (skip ∨ settled id pre).

Lemma at_message_append b t' p' o' payload' :
  end_of b t' p' o' → at_message b t p o payload →
  at_message (append_at t' p' o' payload' b) t p o payload.
Proof.
  intros Hend (Hl & Hc & Hgap). split_and!; [|done|].
  - by apply lookup_append; [apply Hend|].
  - intros k Hk. simpl. rewrite committed_append in Hk. rewrite lookup_insert_ne; [by apply Hgap|].
    intros [= -> -> ->]. destruct Hend as [_ Hend]. specialize (Hend o ltac:(eauto)). lia.
Qed.

Lemma covered_append h b t' p' o' payload' :
  end_of b t' p' o' → covered w h b t p o id → covered w h (append_at t' p' o' payload' b) t p o id.
Proof.
  intros Hend [Hf|(t1 & p1 & o1 & Hc & Hh & Hlt)]; [by left|right].
  exists t1, p1, o1. split_and!; [done|by apply holds_append|done].
Qed.

Lemma covered_mono h1 h2 b : covered w h1 b t p o id → covered w (h1 ++ h2) b t p o id.
Proof. intros [Hf|Hp]; [left; by apply finished_mono|by right]. Qed.

Lemma settled_app pre l : settled id (pre ++ l) ↔ settled id pre ∨ settled id l.
Proof. apply Exists_app. Qed.

(** The effects of a message, one by one, keep every delivery accounted for. *)
Lemma apply_effects l pre b b' :
  applies_all l b b' → Forall (publishes_for id) l → justified message_justified pre l →
  at_message b t p o payload → accounted w (history ++ pre) b →
  (settled id pre → covered w (history ++ pre) b t p o id) →
  accounted w (history ++ pre ++ l) b'.
Proof.
  intros Happ. revert pre. induction Happ as [b|e l b1 b2 b3 He _ IH]; intros pre Hpub Hj Hat Ha Hcov.
  { by rewrite app_nil_r. }
  apply Forall_cons in Hpub as [Hpe Hpub]. cbn [justified] in Hj. destruct Hj as [Hje Hj].
  replace (history ++ pre ++ e :: l) with (history ++ (pre ++ [e]) ++ l) by (by rewrite <-app_assoc).
  assert (accounted w (history ++ pre ++ [e]) b1) as Ha1
    by (rewrite app_assoc; by apply accounted_mono).
  assert (settled id pre → covered w (history ++ pre ++ [e]) b1 t p o id) as Hcov1
    by (intros Hs; rewrite app_assoc; by apply covered_mono, Hcov).
  destruct He as [id' a outcome b|topic record pl p' o' b Hvec Hend|t' p' o' b].
  - apply IH; [done..|]. intros [Hs|Hs]%settled_app; [by apply Hcov1|].
    apply Exists_cons in Hs as [Hs|Hs%Exists_nil]; [|done]. destruct outcome as [st|]; [|done].
    simpl in Hs. subst id'. left. left. exists a, st. set_solver.
  - apply IH; [done|done|by apply at_message_append|by apply accounted_append|].
    intros [Hs|Hs]%settled_app; [by apply covered_append, Hcov1|].
    clear Hs. destruct Hpe as ([->| ->] & Hid & Hrest).
    + right. exists (dk_retry_topic w), p', o'. split_and!; [apply Hend|by apply (published_holds _ record); [split; [left|]|]|].
      intros [= Et Ep]. apply (proj2 Hend). destruct Hat as [Hl _]. rewrite Et, Ep, Hl. eauto.
    + left. right. exists record. split; [set_solver|done].
  - destruct (Hje _ eq_refl) as [[= -> -> ->] Hwhy]. apply IH; [done|done| | |].
    + destruct Hat as (Hl & Hc & Hgap). split_and!; [done|..]; rewrite committed_commit, decide_True by done;
        [lia|]. intros k Hk. lia.
    + apply (accounted_commit w _ _ _ _ _ payload Hat Ha1 Hread). intros id' Hh.
      assert (carries id') as Hcar.
      { destruct Hh as (_ & pl & input & Hl & Hin). destruct Hat as [Hl' _]. rewrite Hl' in Hl.
        injection Hl as <-. by exists input. }
      destruct Hwhy as [Hsk|Hs].
      * left. by apply finished_mono, Hskip.
      * rewrite (Hown _ Hcar). by apply Hcov1.
    + intros [Hs|Hs]%settled_app; [|by apply Exists_cons in Hs as [[]|?%Exists_nil]].
      destruct (Hcov1 Hs) as [Hf|(t1 & p1 & o1 & Hc & Hh & Hlt)]; [by left|right].
      exists t1, p1, o1. split_and!; [|done|done]. rewrite committed_commit.
      case_decide as E; [|done]. specialize (Hlt (eq_sym E)). lia.
Qed.
End effects.

(** ** Handling *)

(** The log grows by effects with [Q]. *)
Definition emits (Q : WorkerEffect → Prop) (s s' : WorkerState) : Prop :=
  ∃ l, wk_log s' = wk_log s ++ l ∧ Forall Q l.

#[local] Instance emits_preorder Q : PreOrder (emits Q).
Proof.
  split.
  - intros s. exists []. by rewrite app_nil_r.
  - intros s1 s2 s3 (l1 & E1 & Q1) (l2 & E2 & Q2). exists (l1 ++ l2).
    rewrite E2, E1, <-app_assoc. split; [done|]. by apply Forall_app.
Qed.

Lemma emits_count Q f : keeps (emits Q) (count f).
Proof. intros s s' r [= <- <-]. exists []. by rewrite app_nil_r. Qed.

Lemma emits_remember Q id limit : keeps (emits Q) (do_remember id limit).
Proof. intros s s' r (Hl & _)%do_remember_run. exists []. by rewrite app_nil_r. Qed.

Lemma emits_commit id env b cursor : keeps (emits (publishes_for id)) (commit_input env b cursor).
Proof.
  intros s s' r (_ & Hl)%commit_input_run. eexists. split; [exact Hl|].
  destruct (is_ok r), b; by repeat constructor.
Qed.

Lemma emits_publish id env topic record :
  topic = dk_retry_topic w ∨ topic = dk_dead_letter_topic w → dr_delivery_id record = id →
  dr_destination_id record = de_id (dk_endpoint w) → dr_schema_version record = SCHEMA_VERSION →
  keeps (emits (publishes_for id)) (do_publish w env topic record).
Proof.
  intros Ht Hid Hdest Hver s s' r (_ & Hl & Hpub)%do_publish_run. eexists. split; [exact Hl|].
  destruct (is_ok r); [|done]. constructor; [|done]. split_and!; [done..|]. intros payload Hvec.
  specialize (Hpub eq_refl). unfold publish_record in Hpub. rewrite Hvec in Hpub. simpl in Hpub.
  bind_step Hpub as [], Hlen%ensure_Ok. by apply Z.leb_le.
Qed.

Lemma emits_loop fuel env cursor body b record :
  dr_destination_id record = de_id (dk_endpoint w) → dr_schema_version record = SCHEMA_VERSION →
  keeps (emits (publishes_for (dr_delivery_id record)))
    (process_loop version w fuel env cursor body b record).
Proof.
  revert b record. induction fuel as [|fuel IH]; intros b record Hdest Hver; [done|]. simpl.
  set (Q := publishes_for (dr_delivery_id record)).
  apply (keeps_then (emits Q)); [apply keeps_lift, _|intros _].
  apply (keeps_then (emits Q)); [apply emits_count|intros _].
  set (outcome := DurableEndpoint_send_attempt _ _ _ _ _ _ _).
  apply (keeps_then (emits Q)); [|intros _].
  { intros s s' r [= <- <-]. by eexists [_]; repeat constructor. }
  apply (keeps_then (emits Q)); [apply emits_count|intros _].
  destruct outcome as [status|class]; [|destruct (_ && _)].
  - apply (keeps_then (emits Q)); [apply emits_count|intros _].
    apply (keeps_then (emits Q)); [apply emits_commit|intros _; apply emits_remember].
  - apply (keeps_then (emits Q)); [by apply emits_publish; [left|..]|intros _].
    apply (keeps_then (emits Q)); [apply emits_count|intros _].
    apply (keeps_then (emits Q)); [apply emits_commit|intros _].
    exact (IH true (retry_record (dk_endpoint w) (ae_retry_clock (env (dr_attempt record))) class record)
             Hdest Hver).
  - apply (keeps_then (emits Q)); [by apply emits_publish; [right|..]|intros _].
    do 2 (apply (keeps_then (emits Q)); [apply emits_count|intros _]).
    apply (keeps_then (emits Q)); [apply emits_commit|intros _; apply emits_remember].
Qed.

Section handled.
Context (Hmax : de_max_attempts (dk_endpoint w) ≤ u32_max).
Context (t : string) (p o : Z) (payload : string) (Ho : o < i64_max).
#[local] Abbreviation message := (message_at t p o payload).

Lemma from_message_at input :
  from_message message (dk_max_record_bytes w) = Ok input →
  in_cursor input = {| cu_topic := t; cu_partition := p; cu_offset := o |} ∧
  dr_schema_version (in_record input) = SCHEMA_VERSION.
Proof.
  unfold from_message. simpl. intros Hin. bind_step Hin as [], _. bind_step Hin as record, _.
  bind_step Hin as [], Hver%ensure_Ok%Z.eqb_eq. by injection Hin as <-.
Qed.

(** Why the message is acknowledged without an attempt. *)
Definition skipped (input : InputRecord) (s : WorkerState) : Prop :=
  dr_destination_id (in_record input) ≠ de_id (dk_endpoint w) ∨
  dr_delivery_id (in_record input) ∈ wk_completed s.

(** What handling a readable message does. *)
Record handled (input : InputRecord) (s s' : WorkerState) (ok : bool) (l : list WorkerEffect)
    : Prop := {
  hd_log : wk_log s' = wk_log s ++ l;
  hd_publishes : Forall (publishes_for (dr_delivery_id (in_record input))) l;
  hd_commits : justified (message_justified t p o (dr_delivery_id (in_record input)) (skipped input s))
                 [] l;
  hd_completed id : ok = true → id ∈ wk_completed s' →
    id ∈ wk_completed s ∨ (id = dr_delivery_id (in_record input) ∧ finished w id l);
  hd_acknowledged : ok = true → omap commit_of l = [(t, p, o + 1)];
}.

Lemma handled_count input f s s' ok l :
  handled input (wk_count f s) s' ok l → handled input s s' ok l.
Proof. by intros [? ? ? ? ?]; split. Qed.

Lemma skip_handled input be ce s s' r :
  from_message message (dk_max_record_bytes w) = Ok input → skipped input s →
  do_commit be ce (in_cursor input) s = Some (s', r) → ∃ l, handled input s s' (is_ok r) l.
Proof using Ho.
  intros Hin Hskip Hrun. destruct (from_message_at _ Hin) as [Hcur _].
  unfold do_commit, commit_cursor, lift, emit in Hrun. rewrite Hcur in Hrun.
  apply act_bind_Some in Hrun as [(s1 & [[t1 p1] o1] & Hc & Hrun)|(e & Hc & ->)].
  - destruct be, ce; simplify_eq/=. rewrite sat_add_exact by lia.
    eexists. split; [done|by repeat constructor| |by left|done].
    simpl. split; [|done]. intros pos [= <-]. split; [done|by left].
  - exists []. assert (s' = s) as -> by (destruct be, ce; by simplify_eq).
    split; [by rewrite app_nil_r|done..].
Qed.

Lemma process_handled input env s s' r :
  from_message message (dk_max_record_bytes w) = Ok input →
  dr_destination_id (in_record input) = de_id (dk_endpoint w) →
  process version w env input s = Some (s', r) → ∃ l, handled input s s' (is_ok r) l.
Proof using Hmax Ho.
  intros Hin Hdest Hrun. destruct (from_message_at _ Hin) as [Hcur Hver].
  destruct (process_trace _ _ _ _ _ _ _ Hmax Hrun) as (l & Ht & Hl & Hc). exists l. split; [done|..].
  - apply (keeps_then (emits (publishes_for (dr_delivery_id (in_record input)))) _ _
      (keeps_lift _ _) (λ body, emits_loop _ _ _ _ _ _ Hdest Hver)) in Hrun as (l' & Hl' & Hpub).
    rewrite Hl in Hl'. by apply app_inv_head in Hl' as ->.
  - eapply justified_impl; [|exact (trace_justified _ _ _ _ _ _ _ [] Ht)].
    intros pos pre [-> Hs]. split; [|by right]. unfold commit_position. rewrite Hcur. simpl.
    by rewrite sat_add_exact by lia.
  - intros id Hok Hid. rewrite Hok in Ht, Hc. destruct Hc as [Hc _]. rewrite Hc in Hid.
    apply elem_of_union in Hid as [->%elem_of_singleton|Hid]; [right|by left]. split; [done|].
    destruct (trace_done _ _ _ _ _ _ Ht) as [_ [[st Hd]|(record & Hd & Hi & _)]];
      [left; eauto|right; eauto].
  - intros Hok. rewrite Hok in Ht. rewrite (proj1 (trace_done _ _ _ _ _ _ Ht)).
    unfold commit_position. rewrite Hcur. simpl. by rewrite sat_add_exact by lia.
Qed.

Lemma unread_handled error s s' r :
  from_message message (dk_max_record_bytes w) = Err error → handles version w message s s' r →
  r = false ∧ wk_log s' = wk_log s.
Proof.
  intros Herr [be ce env res _ Hrun|eof recovered be ce env res _ Hrun]; simpl in Hrun;
    unfold handle_message in Hrun; rewrite Herr in Hrun;
    apply act_bind_Some in Hrun as [(s1 & x & Hx & _)|(e & Hx & ->)]; unfold lift in Hx; by simplify_eq.
Qed.

Lemma read_handled input s s' ok :
  from_message message (dk_max_record_bytes w) = Ok input → handles version w message s s' ok →
  ∃ l, handled input s s' ok l.
Proof using Hmax Ho.
  intros Hin [be ce env r _ Hrun|eof recovered be ce env r _ Hrun].
  - unfold handle_message in Hrun. rewrite Hin in Hrun.
    cbv beta iota delta [mbind act_bind get_completed lift] in Hrun. destruct (_ || _) eqn:E.
    + apply orb_true_iff in E. rewrite negb_true_iff, bool_decide_eq_false, bool_decide_eq_true in E.
      by eapply skip_handled.
    + apply orb_false_iff in E as [E%negb_false_iff%bool_decide_eq_true _]. by eapply process_handled.
  - cbn [recover_loop] in Hrun. rewrite Hin in Hrun.
    cbv beta iota delta [mbind act_bind get_completed lift count] in Hrun.
    case_bool_decide as Hdest; cbn [negb] in Hrun; cbv iota in Hrun.
    + destruct (ensure _ _); [|simplify_eq; exists []; split; [by rewrite app_nil_r|done..]].
      match type of Hrun with match ?m with _ => _ end = _ => destruct m as [[s2 r2]|] eqn:Em end; [|done].
      assert (∃ l, handled input s s2 (is_ok r2) l) as Hl.
      { case_bool_decide as Hc.
        - apply skip_handled in Em as [l Hl%handled_count]; [by exists l|done|by right].
        - apply process_handled in Em as [l Hl%handled_count]; [by exists l|done|done]. }
      unfold mret, act_ret in Hrun. by destruct r2; simplify_eq.
    + destruct (do_commit be ce (in_cursor input) s) as [[s2 r2]|] eqn:Em; [|done].
      apply skip_handled in Em; [|done|by left]. unfold mret, act_ret in Hrun. by destruct r2; simplify_eq.
Qed.
End handled.
End message.

(** ** The system *)

Section never_lost.
Context `{RecordCodecLaws} `{HttpTypes} `{Base64} (version : string) (w : DurableWorker).
Context (Hmax : de_max_attempts (dk_endpoint w) ≤ u32_max).
Implicit Types (sy : DurableSystem) (b : Broker).

Record system_ok sy : Prop := {
  so_accounted : accounted w (ds_history sy) (ds_broker sy);
  so_offsets t p o : is_Some (bk_log (ds_broker sy) !! (t, p, o)) → o < i64_max;
  so_completed id : id ∈ wk_completed (ds_worker sy) → finished w id (ds_history sy);
  so_positions t p : default 0 (ds_positions sy !! (t, p)) = committed_at (ds_broker sy) t p;
}.

Lemma append_offsets b t p o payload :
  end_of b t p o → (∀ t p o, is_Some (bk_log b !! (t, p, o)) → o < i64_max) →
  ∀ t' p' o', is_Some (bk_log (append_at t p o payload b) !! (t', p', o')) → o' < i64_max.
Proof.
  intros [[_ Ho] _] Hoff t' p' o'. simpl. rewrite lookup_insert_is_Some.
  intros [[= <- <- <-]|[_ Hs]]; [done|by eapply Hoff].
Qed.

Lemma applies_offsets l b b' :
  applies_all l b b' → (∀ t p o, is_Some (bk_log b !! (t, p, o)) → o < i64_max) →
  ∀ t p o, is_Some (bk_log b' !! (t, p, o)) → o < i64_max.
Proof.
  induction 1 as [b|e l b1 b2 b3 He _ IH]; [done|]. intros Hoff. apply IH.
  destruct He as [| |]; [done|by apply append_offsets|done].
Qed.

(** With one commit, that is what changes of the offsets. *)
Lemma applies_commits l b b' pos :
  applies_all l b b' → omap commit_of l = pos →
  match pos with
  | [] => bk_committed b' = bk_committed b
  | [(t, p, o)] => bk_committed b' = <[(t, p) := o]> (bk_committed b)
  | _ => True
  end.
Proof.
  intros Happ. revert pos. induction Happ as [b|e l b1 b2 b3 He _ IH]; intros pos <-; [done|].
  specialize (IH _ eq_refl). destruct He as [| |t p o b]; [done|done|]. revert IH.
  change (omap commit_of (CommittedOffset t p o :: l)) with ((t, p, o) :: omap commit_of l).
  by destruct (omap commit_of l) as [|[[]] []]; [intros ->|..].
Qed.

(** Whatever part of the handling of a message has taken place, everything is
    accounted for. *)
Lemma handled_accounted sy t p o payload s' ok l done b' :
  system_ok sy → next_message sy t p o payload →
  handles version w (message_at t p o payload) (ds_worker sy) s' ok →
  wk_log s' = wk_log (ds_worker sy) ++ l → done `prefix_of` l → applies_all done (ds_broker sy) b' →
  accounted w (ds_history sy ++ done) b' ∧
  (ok = true → omap commit_of l = [(t, p, o + 1)] ∧
    ∀ id, id ∈ wk_completed s' → finished w id (ds_history sy ++ l)).
Proof.
  intros [Ha Hoff Hc Hpos] (Hl & Hle & Hgap) Hh Hlog [rest Hpre] Happ. rewrite Hpos in Hle, Hgap.
  assert (o < i64_max) as Ho by (eapply Hoff; eauto).
  destruct (from_message (message_at t p o payload) (dk_max_record_bytes w)) as [input|error] eqn:Hin.
  2: { destruct (unread_handled _ _ _ _ _ _ _ _ _ _ Hin Hh) as [-> Hsame]. split; [|done].
       assert (l = []) as -> by (apply (app_inv_head (wk_log (ds_worker sy)));
         by rewrite <-Hlog, Hsame, app_nil_r).
       symmetry in Hpre. apply app_eq_nil in Hpre as [-> _].
       inversion Happ; subst. by rewrite app_nil_r. }
  destruct (read_handled _ _ Hmax _ _ _ _ Ho _ _ _ _ Hin Hh) as (l' & [Hl' Hpub Hj Hcomp Hack]).
  rewrite Hlog in Hl'. apply app_inv_head in Hl' as <-. split.
  - rewrite Hpre in Hpub, Hj. apply Forall_app in Hpub as [Hpub _]. apply justified_app in Hj as [Hj _].
    change (ds_history sy ++ done) with (ds_history sy ++ [] ++ done).
    eapply (apply_effects w t p o payload _ _ (ds_history sy)); try done.
    + by rewrite Hin.
    + intros id' (input' & Hin' & _ & <-). rewrite Hin in Hin'. by injection Hin' as ->.
    + intros [Hdest|Hid] id' (input' & Hin' & Hdest' & <-); rewrite Hin in Hin'; injection Hin' as ->;
        [done|by apply Hc].
    + split_and!; [done|lia|done].
    + by rewrite app_nil_r.
    + by intros Hs%Exists_nil.
  - intros ->. split; [by apply Hack|]. intros id Hid. destruct (Hcomp id eq_refl Hid) as [Hold|[_ Hf]].
    + by apply finished_mono, Hc.
    + destruct Hf as [(n & st & Hf)|(record & Hf & Hr)]; [left; exists n, st|right; exists record]; set_solver.
Qed.

Lemma durable_step_ok sy sy' : durable_step version w sy sy' → system_ok sy → system_ok sy'.
Proof.
  intros Hstep Hok. destruct Hstep as [t p o payload sy Hend|t p o payload s' l b' sy Hn Hh Hlog Happ|
    t p o payload s' ok l done b' s0 sy Hn Hh Hlog Hpre Happ Hfresh].
  - destruct Hok as [Ha Hoff Hc Hpos].
    split; simpl; [by apply accounted_append|by apply append_offsets|done|done].
  - destruct (handled_accounted _ _ _ _ _ _ _ _ _ _ Hok Hn Hh Hlog (reflexivity l) Happ) as [Ha Hc].
    destruct (Hc eq_refl) as [Hone Hdone]. split; simpl; [done| |done|].
    + eapply applies_offsets; [done|apply Hok].
    + intros t' p'. unfold committed_at. rewrite (applies_commits _ _ _ _ Happ Hone).
      rewrite !lookup_insert. case_decide; [done|apply Hok].
  - destruct (handled_accounted _ _ _ _ _ _ _ _ _ _ Hok Hn Hh Hlog Hpre Happ) as [Ha _].
    split; simpl; [done| |by rewrite Hfresh; intros id ?%elem_of_empty|done].
    eapply applies_offsets; [done|apply Hok].
Qed.

Lemma durable_reachable_ok sy : durable_reachable version w sy → system_ok sy.
Proof using Hmax H0.
  intros (s & Hs & Hsteps). assert (system_ok (durable_start s)) as Hstart.
  { split; [split|..].
    - intros t' p' o' id (_ & pl & input & Hl & _). discriminate Hl.
    - intros t' p' o' pl e Hl. discriminate Hl.
    - intros t' p' o' [pl Hl]. discriminate Hl.
    - simpl. rewrite Hs. by intros id ?%elem_of_empty.
    - done. }
  induction Hsteps as [|sy1 sy2 sy3 H12 _ IH]; [done|]. by eapply IH, durable_step_ok.
Qed.

(** (C11) No durable delivery is lost, whenever the process dies.  In every
    state that can be reached by appending records, handling messages in the
    main loop or in recovery, and crashing and restarting after any part of
    the effects of a message: each record of the endpoint that was ever in the
    delivery or the retry topic is of a delivery that the endpoint accepted or
    that is in the dead-letter topic, or some record of the delivery is still
    to be read; a record that cannot be read is never passed over; and the
    worker can handle whatever message comes next, that is, the handling ends. *)
Theorem durable_never_lost sy (Hsy : durable_reachable version w sy) t p o payload
    (Ht : t ∈ [dk_delivery_topic w; dk_retry_topic w])
    (Hlog : bk_log (ds_broker sy) !! (t, p, o) = Some payload) :
  match from_message (message_at t p o payload) (dk_max_record_bytes w) with
  | Ok input => dr_destination_id (in_record input) = de_id (dk_endpoint w) →
      finished w (dr_delivery_id (in_record input)) (ds_history sy) ∨
      pending w (ds_broker sy) (dr_delivery_id (in_record input))
  | Err _ => committed_at (ds_broker sy) t p ≤ o
  end ∧
  ∀ message be ce env, is_Some (handle_message version w message be ce env (ds_worker sy)).
Proof.
  split.
  2: { intros message be ce env.
       destruct (handle_message_total version w Hmax message be ce env (ds_worker sy)) as (s' & r & ->).
       eauto. }
  apply durable_reachable_ok in Hsy as [[Ha Hu] _ _ _].
  destruct (from_message _ _) as [input|e] eqn:Hin; [|by eapply Hu].
  intros Hdest. eapply Ha. split; [done|]. by exists payload, input.
Qed.
End never_lost.

(** ** A crash after a retry record was published *)

#[local] Existing Instances example_codec example_codec_laws example_http example_base64.

Definition crash_payload : string := digits (encode (record_tuple example_record)).
Definition crash_retry : DurableRecord :=
  retry_record example_endpoint 1_000 Http5xx example_record.
Definition crash_retry_payload : string := digits (encode (record_tuple crash_retry)).

(** The first two effects of the record at the start of the delivery topic. *)
Definition crash_effects : list WorkerEffect :=
  [Attempted "d-1" 1 (OutcomeFailed Http5xx); PublishedRecord "retry" crash_retry].

Definition produced : Broker :=
  append_at "delivery" 0 0 crash_payload {| bk_log := ∅; bk_committed := ∅ |}.
Definition crashed : DurableSystem := {|
  ds_broker := append_at "retry" 3 0 crash_retry_payload produced;
  ds_positions := ∅; ds_worker := fresh_worker; ds_history := crash_effects |}.

Lemma crash_reached : durable_reachable "1" example_durable crashed.
Proof.
  exists fresh_worker. split; [done|].
  eapply rtc_l; [eapply (step_produce _ _ "delivery" 0 0 crash_payload)|].
  { split; [done|]. intros o' [pl Hl]. discriminate Hl. }
  apply rtc_once. change (ds_history crashed) with ([] ++ crash_effects).
  set (sy := {| ds_broker := _; ds_positions := _; ds_worker := _; ds_history := _ |}).
  destruct (handle_message_total "1" example_durable ltac:(vm_compute; discriminate)
    (message_at "delivery" 0 0 crash_payload) None None example_env fresh_worker) as (s' & r & E).
  assert (take 2 (wk_log s') = crash_effects) as Hl.
  { change s' with (default (fresh_worker, Ok tt) (Some (s', r))).1. rewrite <-E.
    vm_compute. reflexivity. }
  apply (step_crash "1" example_durable "delivery" 0 0 crash_payload s' (is_ok r) (wk_log s')
    crash_effects (ds_broker crashed) _ sy).
  - split; [reflexivity|]. split; [done|]. intros o' Ho. change (0 ≤ o' < 0) in Ho. lia.
  - by eapply (handles_main _ _ _ _ _ None None example_env r); [left|].
  - done.
  - rewrite <-Hl. apply prefix_take.
  - eapply applies_cons; [constructor|]. eapply applies_cons; [|constructor].
    apply applies_publish; [reflexivity|].
    split; [change (committed_at produced "retry" 3) with 0; unfold i64_max; lia|]. intros o' [pl Hp].
    change (bk_log produced) with
      (<[("delivery", 0, 0) := crash_payload]> (∅ : gmap (string * Z * Z) string)) in Hp.
    rewrite lookup_insert_ne in Hp by done. discriminate Hp.
  - done.
Qed.

(** The delivery is still to be read, twice. *)
Lemma durable_never_lost_witness :
  finished example_durable "d-1" (ds_history crashed) ∨
  pending example_durable (ds_broker crashed) "d-1".
Proof.
  pose proof (durable_never_lost "1" example_durable ltac:(vm_compute; discriminate) crashed crash_reached
    "delivery" 0 0 crash_payload ltac:(left) ltac:(vm_compute; reflexivity)) as [H _].
  assert (from_message (message_at "delivery" 0 0 crash_payload) (dk_max_record_bytes example_durable)
    = Ok {| in_record := example_record;
            in_cursor := {| cu_topic := "delivery"; cu_partition := 0; cu_offset := 0 |} |}) as E
    by (vm_compute; reflexivity).
  rewrite E in H. apply H. reflexivity.
Defined.
