(* ===== verification/DurablePath.v ===== *)
(** * From the sink to the endpoint

    The last leg of a durable webhook: what the sink publishes for a message is
    read back by the worker of its destination, and the first request the
    worker makes carries exactly the delivery that was waiting for the
    destination.  This ties the two halves of durable.rs together across the
    delivery topic. *)

From S2P Require Import Prelude Str Ids Message Route Metrics RouteIndex Channel Router.
From S2P Require Import RouterInv RouterDispatch RouterSpec RouterOps RouterExamples Kafka.
From S2P Require Import Limits Wire Security Webhook Durable DurableSpec DurableSink.
Open Scope Z_scope.

(** The log only grows. *)
Definition grows (s s' : WorkerState) : Prop := wk_log s `prefix_of` wk_log s'.

#[export] Instance grows_preorder : PreOrder grows.
Proof. unfold grows. split; [by intros s|]. intros s1 s2 s3 H12 H23. by etrans. Qed.

Section worker.
Context `{RecordCodec} `{HttpTypes} `{Base64} (version : string) (w : DurableWorker).

Lemma grows_count f : keeps grows (count f).
Proof. intros s s' r Hrun. unfold count, grows in *. by simplify_eq. Qed.

Lemma grows_commit env b cursor : keeps grows (commit_input env b cursor).
Proof. intros s s' r (_ & Hl)%commit_input_run. unfold grows. rewrite Hl. by apply prefix_app_r. Qed.

Lemma grows_publish env topic record : keeps grows (do_publish w env topic record).
Proof. intros s s' r (_ & Hl & _)%do_publish_run. unfold grows. rewrite Hl. by apply prefix_app_r. Qed.

Lemma grows_remember id limit : keeps grows (do_remember id limit).
Proof. intros s s' r (Hl & _)%do_remember_run. unfold grows. by rewrite Hl. Qed.

Lemma grows_loop fuel env cursor body b record :
  de_max_attempts (dk_endpoint w) ≤ u32_max →
  keeps grows (process_loop version w fuel env cursor body b record).
Proof.
  intros Hmax s s' r Hrun. apply process_loop_trace in Hrun as (l & _ & Hl & _); [|done].
  unfold grows. rewrite Hl. by apply prefix_app_r.
Qed.

(** The first request for a record: its body, its message id and its attempt
    number, unless the wait before it is interrupted. *)
Lemma process_first_attempt env input body s s' r :
  de_max_attempts (dk_endpoint w) ≤ u32_max →
  let record := in_record input in
  let now := env (dr_attempt record) in
  b64_decode (dr_body_base64 record) = Ok body →
  sleep_until (dr_next_attempt_at_ms record) (now_ms (ae_wait_clock now)) (ae_wait_changed now) = Ok tt →
  process version w env input s = Some (s', r) →
  ∃ rest, wk_log s' = wk_log s ++
    Attempted (dr_delivery_id record) (dr_attempt record)
      (DurableEndpoint_send_attempt version (ae_lookup now) (ae_send now) (dk_endpoint w) body
         (dr_original_message_id record) (dr_attempt record)) :: rest.
Proof.
  intros Hmax record now Hbody Hsleep Hrun. unfold process, process_fuel in Hrun.
  fold record in Hrun. rewrite Hbody in Hrun.
  apply act_bind_Some in Hrun as [(s1 & body' & Hb & Hrun)|(e & Hb & _)];
    unfold lift, map_err in Hb; simplify_eq.
  cbn [process_loop] in Hrun. fold now in Hrun. rewrite Hsleep in Hrun.
  apply act_bind_Some in Hrun as [(s2 & [] & Hb & Hrun)|(e & Hb & _)]; unfold lift in Hb;
    simplify_eq.
  set (outcome := DurableEndpoint_send_attempt _ _ _ _ _ _ _) in *.
  rewrite bind_count, bind_emit, bind_count in Hrun.
  match type of Hrun with ?k ?s1 = _ => assert (grows s1 s') as [rest Hl]; [revert Hrun|] end.
  - destruct outcome as [status|class]; [|destruct (_ && _)].
    + apply (keeps_then grows (count _)); [apply grows_count|intros _].
      apply (keeps_then grows); [apply grows_commit|intros _; apply grows_remember].
    + apply (keeps_then grows); [apply grows_publish|intros _].
      apply (keeps_then grows); [apply grows_count|intros _].
      apply (keeps_then grows); [apply grows_commit|intros _; apply grows_loop, Hmax].
    + apply (keeps_then grows); [apply grows_publish|intros _].
      do 2 (apply (keeps_then grows); [apply grows_count|intros _]).
      apply (keeps_then grows); [apply grows_commit|intros _; apply grows_remember].
  - exists rest. rewrite Hl. cbn [wk_count wk_emit wk_log]. rewrite <-app_assoc. reflexivity.
Qed.
End worker.

Section path.
Context `{MpscLaws Delivery Chan} `{JsonCodec} `{Base64Laws} `{RecordCodecLaws} `{HttpTypes}.
Implicit Types (r : RouterState Chan) (sink : DurableWebhookSink) (m : RoutedMessage).

(** The worker of the record's destination, set up as the sink is, and not yet
    done with the delivery. *)
Definition serves (w : DurableWorker) sink (record : DurableRecord) (s : WorkerState) : Prop :=
  de_id (dk_endpoint w) = dr_destination_id record ∧
  dk_max_record_bytes w = sk_max_record_bytes sink ∧ de_max_attempts (dk_endpoint w) ≤ u32_max ∧
  dr_delivery_id record ∉ wk_completed s.

(** (C14) A routed message reaches the endpoint as it was routed.  When a
    message is dispatched and the durable sink has published its records, each
    record belongs to one destination of the sink that the message's routes
    select.  What the dispatch queued for that destination is one delivery: the
    message with the id of the destination's own subscription.  The record is
    read back by the worker of its destination, wherever the broker puts it in
    the topic; the worker handles it to an end, and unless its wait is
    interrupted its first effect is attempt 1: the request to the endpoint
    with the JSON envelope of exactly that queued delivery, subscription id
    included, under the message's id. *)
Theorem durable_record_reaches_endpoint iter e1 e2 sink env m r r1 report r2 records res
    (Hiter : iterates iter) (Hok : router_ok r) (Hm : message_paired m) (Hsink : sink_ok r sink)
    (Hdispatch : dispatch iter e1 e2 m r = Some (r1, report))
    (Hpersist : sink_persist sink env m r1 = Some (r2, records, res)) :
  ∀ record, record ∈ records → ∃ d conn ch sid f payload,
    d ∈ sink_destinations sink m ∧ dr_destination_id record = rd_id d ∧
    r_connections r !! rd_receiver d = Some conn ∧ cs_subscriptions conn = {[sid := f]} ∧
    RouteFilter_matches f (rm_metadata m) = true ∧
    r_channels r1 !! rd_receiver d = Some ch ∧
    queued ch = [{| d_message := m; d_subscription_ids := [sid] |}] ∧
    record_to_vec record = Ok payload ∧
    ∀ version w partition offset b c aenv s, serves w sink record s →
      let now := aenv 1 in
      sleep_until (dr_next_attempt_at_ms record) (now_ms (ae_wait_clock now)) (ae_wait_changed now)
        = Ok tt →
      ∃ s' ended rest,
        handle_message version w
          {| cm_payload := Some payload; cm_topic := sk_topic sink; cm_partition := partition;
             cm_offset := offset |} b c aenv s = Some (s', ended) ∧
        wk_log s' = wk_log s ++ Attempted (dr_delivery_id record) 1
          (DurableEndpoint_send_attempt version (ae_lookup now) (ae_send now) (dk_endpoint w)
             (encode_delivery_json {| d_message := m; d_subscription_ids := [sid] |})
             (md_message_id (rm_metadata m)) 1) :: rest.
Proof.
  destruct (persist_after_dispatch iter e1 e2 sink env m r Hiter Hok Hm Hsink)
    as (r1' & report' & r2' & records' & res' & Hd & Hp & (_ & Hall & _) & _).
  rewrite Hdispatch in Hd. injection Hd as <- <-. rewrite Hpersist in Hp. injection Hp as <- <- <-.
  intros record Hin. rewrite Forall_forall in Hall.
  destruct (Hall _ Hin) as (j & d & delivery & Hj & Hwait & _ & Hrec & Hpub).
  apply list_elem_of_lookup_2 in Hj.
  destruct (waiting_delivery _ _ _ _ _ _ _ _ _ _ Hiter Hok Hm Hsink Hdispatch Hj Hwait)
    as (conn & sid & f & Hc & Hs & Hf & ->).
  destruct Hwait as (ch & Hch & Hq).
  assert (dr_schema_version record = SCHEMA_VERSION) as Hv by (by rewrite Hrec).
  destruct (published_record_read _ _ _ _ 0 0 Hv Hpub) as (payload & Hvec & _).
  exists d, conn, ch, sid, f, payload. split_and!; [done|by rewrite Hrec|done..|].
  intros version w partition offset b c aenv s (Hid & Hlimit & Hmax & Hnew) now Hsleep.
  destruct (published_record_read _ _ _ _ partition offset Hv Hpub)
    as (payload' & Hvec' & _ & Hread). rewrite Hvec in Hvec'. simplify_eq.
  destruct (handle_message_total version w Hmax
    {| cm_payload := Some payload'; cm_topic := sk_topic sink; cm_partition := partition;
       cm_offset := offset |} b c aenv s) as (s' & ended & Hrun).
  exists s', ended. pose proof Hrun as Hrun'. unfold handle_message in Hrun'.
  rewrite Hlimit, Hread in Hrun'.
  apply act_bind_Some in Hrun' as [(s1 & input & Hb & Hrun')|(e & Hb & _)]; unfold lift in Hb;
    simplify_eq.
  apply act_bind_Some in Hrun' as [(s2 & completed & Hb & Hrun')|(e & Hb & _)];
    unfold get_completed in Hb; simplify_eq.
  cbn [in_record] in Hrun'. rewrite bool_decide_eq_true_2 in Hrun' by done. simpl negb in Hrun'.
  rewrite bool_decide_eq_false_2 in Hrun' by done. simpl orb in Hrun'.
  eapply (process_first_attempt version w) in Hrun' as (rest & Hlog); [|done| |].
  - exists rest. split; [done|]. exact Hlog.
  - cbn [in_record delivery_record dr_body_base64]. apply b64_decode_encode.
  - exact Hsleep.
Qed.
End path.

(** ** Concrete inputs *)

#[local] Existing Instances example_json example_http example_codec example_codec_laws.

Definition path_sink (routes : gmap RouteKey (list RouteDestination)) : DurableWebhookSink := {|
  sk_topic := "delivery"; sk_timeout := 1; sk_max_record_bytes := 100_000; sk_routes := routes;
  sk_connection_ids := [] |}.
Definition path_env (i : nat) : PersistEnv :=
  {| pe_uuid := pretty i; pe_clock := 0; pe_producer := λ _ _ _, None |}.

(** The example message on the router with two destinations of one route. *)
Definition path_run : option (list DurableRecord) :=
  match example_build with
  | (r, Ok (routes, _, _)) =>
      '(r1, _) ← dispatch map_to_list 0 0 example_message r;
      '(_, records, _) ← sink_persist (path_sink routes) path_env example_message r1;
      Some records
  | _ => None
  end.

Example path_records :
  option_map (map (λ record, (dr_delivery_id record, dr_destination_id record,
                              dr_next_attempt_at_ms record))) path_run
  = Some [("0", "hook", 0); ("1", "hook", 0)].
Proof. vm_compute. reflexivity. Qed.

Lemma durable_record_reaches_endpoint_witness :
  ∃ payload sid s' ended rest,
    handle_message "1" example_durable
      {| cm_payload := Some payload; cm_topic := "delivery"; cm_partition := 0; cm_offset := 3 |}
      None None example_env {| wk_metrics := Metrics_default; wk_completed := ∅; wk_log := [] |}
    = Some (s', ended) ∧
    wk_log s' = Attempted "0" 1
      (DurableEndpoint_send_attempt "1" (ae_lookup (example_env 1)) (ae_send (example_env 1))
         example_endpoint (encode_delivery_json {| d_message := example_message; d_subscription_ids := [sid] |})
         (md_message_id (rm_metadata example_message)) 1) :: rest.
Proof.
  pose proof path_records as Hpath. unfold path_run in Hpath.
  destruct example_build as [r [[[routes workers] own]|e]] eqn:E; [|discriminate Hpath].
  apply (build_loop_spec (H1 := example_url_parser) (H2 := example_http) _ _
    ltac:(intros x y; apply Nat2Z.inj) _ example_start) in E as (Hb & _);
    [|exact example_start_ok|reflexivity|exact example_capacities
     |split; [exact example_start_ok|by split; intros ? ?; rewrite lookup_empty|done
             |apply extends_by_refl]].
  destruct (dispatch map_to_list 0 0 example_message r) as [[r1 report]|] eqn:Hd; [|discriminate Hpath].
  cbn [mbind option_bind] in Hpath.
  destruct (sink_persist (path_sink routes) path_env example_message r1) as [[[r2 records] res]|] eqn:Hp;
    [|discriminate Hpath].
  destruct records as [|record records]; [discriminate Hpath|].
  injection Hpath as Hu Hdest Hnext _.
  destruct (durable_record_reaches_endpoint map_to_list 0 0 (path_sink routes) path_env example_message
    r r1 report r2 (record :: records) res map_to_list_iterates (bl_ok _ _ _ _ _ _ Hb) eq_refl
    (bl_routes _ _ _ _ _ _ Hb) Hd Hp record ltac:(left)) as (d & conn & ch & sid & f & payload & _ & _ & _ & _ & _ & _ & _ & _ & H).
  destruct (H "1" example_durable 0 3 None None example_env
    {| wk_metrics := Metrics_default; wk_completed := ∅; wk_log := [] |})
    as (s' & ended & rest & Hrun & Hlog).
  - split; [symmetry; exact Hdest|]. split; [reflexivity|]. split; [vm_compute; discriminate|].
    apply not_elem_of_empty.
  - rewrite Hnext. reflexivity.
  - exists payload, sid, s', ended, rest. split; [exact Hrun|].
    rewrite Hlog, Hu. reflexivity.
Defined.
