(* ===== verification/Pipeline.v ===== *)
(** * The composed pipeline

    The components put together the way [routerd] does: the durable webhook
    sink as the [PreCommitSink] of the consumer loop, and the path of a
    message from the publish endpoint through Kafka and the consumer loop to
    the queues of the subscribers. *)

From S2P Require Import Prelude Str Ids Message Route Metrics RouteIndex Channel Router.
From S2P Require Import RouterInv RouterDispatch RouterSpec RouterOps RouterExamples Kafka.
From S2P Require Import KafkaSpec Ingestor Limits Wire Auth Publish Security Webhook Durable.
From S2P Require Import DurableSink.
Open Scope Z_scope.

(** ** The durable sink in the consumer loop *)

(** The sink with the records it has published. *)
Record LoggedSink : Type := {
  ls_sink : DurableWebhookSink;
  ls_published : list DurableRecord;
}.

Section durable.
Context `{MpscLaws Delivery Chan} `{JsonCodec} `{Base64} `{RecordCodec}.
Implicit Types (r : RouterState Chan) (m : RoutedMessage) (g : Ingestor Chan LoggedSink).

(** [DurableWebhookSink] implements [PreCommitSink]. *)
#[export] Instance durable_pre_commit_sink : PreCommitSink Chan (nat → PersistEnv) LoggedSink :=
  λ env m s r,
    '(r, records, res) ← sink_persist (ls_sink s) env m r;
    Some (r, {| ls_sink := ls_sink s; ls_published := ls_published s ++ records |}, res).

(** At most one sink is configured ([pre_commit_sink]). *)
Definition durable_ready (sinks : list LoggedSink) r : Prop :=
  match sinks with
  | [] => True
  | [s] => sink_ok r (ls_sink s)
  | _ => False
  end.

Lemma sink_ok_tables sink r r' :
  r_connections r' = r_connections r → r_channels r' = r_channels r →
  sink_ok r sink → sink_ok r' sink.
Proof.
  intros Hc Hch [Hr Hd]. split; [|done]. intros key ds d Hk Hin. unfold destination_ok.
  rewrite Hc, Hch. by eapply Hr.
Qed.

(** One message: the sink returns, with the records of the message. *)
Lemma persist_all_durable iter e1 e2 m env s r r1 report :
  iterates iter → router_ok r → message_paired m → sink_ok r (ls_sink s) →
  dispatch iter e1 e2 m r = Some (r1, report) →
  ∃ r2 records ok reason, persist_all env 0 m [s] r1 =
      Some (r2, [{| ls_sink := ls_sink s; ls_published := ls_published s ++ records |}],
            [if ok : bool then Persisted 0 m else PersistFailed 0 m reason], ok) ∧
    persisted r1 (ls_sink s) m (env 0%nat) 0 (sink_destinations (ls_sink s) m) records
      (if ok then Ok tt else Err reason) ∧
    router_ok r2 ∧ (ok = true → sink_ok r2 (ls_sink s)) ∧
    r_connections r2 = r_connections r1 ∧
    (∀ c, c ∉ rd_receiver <$> sink_destinations (ls_sink s) m →
       r_channels r2 !! c = r_channels r1 !! c).
Proof.
  intros Hi Hok Hm Hs Hrun.
  destruct (persist_after_dispatch iter e1 e2 (ls_sink s) (env 0%nat) m r Hi Hok Hm Hs)
    as (r1' & report' & r2 & records & res & Hrun' & Hp & Hres & Hr2 & Hs2 & _ & Hc & Hch).
  rewrite Hrun in Hrun'. simplify_eq. simpl. unfold persist, durable_pre_commit_sink.
  rewrite Hp. simpl. destruct res as [[]|reason]; simpl.
  - exists r2, records, true, "". split_and!; [done..|by auto|done|done].
  - exists r2, records, false, reason. by split_and!.
Qed.

#[export] Instance durable_sink_contract :
  SinkContract (Chan:=Chan) (Env:=nat → PersistEnv) (Sink:=LoggedSink).
Proof.
  refine {| sinks_ready := durable_ready |}.
  - intros [|s [|]] r r' Hc Hch; simpl; [done| |done]. by apply sink_ok_tables.
  - intros iter e1 e2 m env [|s [|]] r r1 report Hi Hok Hm Hs Hrun; simpl in Hs; [| |done].
    + destruct (dispatch_run iter e1 e2 m r Hi Hok) as (r' & report' & fo & Hrun' & D).
      rewrite Hrun in Hrun'. simplify_eq. simpl. eexists _, _, _, _. split_and!; [done|apply D|done].
    + destruct (persist_all_durable iter e1 e2 m env s r r1 report Hi Hok Hm Hs Hrun)
        as (r2 & records & ok & reason & Hp & _ & Hr2 & Hs2 & _).
      eexists _, _, _, _. split_and!; [exact Hp|done|]. intros ->. simpl. auto.
Defined.

(** A record of [m] for every destination whose filter selects it. *)
Definition recorded (sink : DurableWebhookSink) (published : list DurableRecord) m : Prop :=
  ∀ d, d ∈ sink_destinations sink m → ∃ record, record ∈ published ∧
    dr_destination_id record = rd_id d ∧
    dr_original_message_id record = md_message_id (rm_metadata m) ∧
    dr_attempt record = 1 ∧ dr_state record = DeliveryState.

Lemma recorded_mono sink published published' m :
  published ⊆ published' → recorded sink published m → recorded sink published' m.
Proof. intros Hsub Hr d Hd. destruct (Hr d Hd) as (record & Hin & Hrec). eauto. Qed.

Lemma persisted_recorded r sink m env records :
  persisted r sink m env 0 (sink_destinations sink m) records (Ok tt) →
  recorded sink records m.
Proof.
  intros (Hpre & Hall & Hlen) d Hd.
  assert (dr_destination_id <$> records = rd_id <$> sink_destinations sink m) as Heq.
  { destruct Hpre as [k Hk]. apply (f_equal length) in Hk as Hl. rewrite length_app, !length_fmap in Hl.
    assert (k = []) as -> by (apply nil_length_inv; lia). by rewrite app_nil_r in Hk. }
  assert (rd_id d ∈ dr_destination_id <$> records) as Hin.
  { rewrite Heq. by apply list_elem_of_fmap_2. }
  apply list_elem_of_fmap in Hin as (record & He & Hin). exists record.
  rewrite Forall_forall in Hall. destruct (Hall _ Hin) as (j & d' & dl & _ & _ & _ & Hr & _).
  split_and!; [done|done|..]; by rewrite Hr.
Qed.

(** The state of the loop with one durable sink: it is [sink], it is ready,
    and every message logged as persisted has its records. *)
Record durable_inv (sink : DurableWebhookSink) g : Prop := {
  di_router : router_ok (ig_router g);
  di_sink : ∃ s, ig_sinks g = [s] ∧ ls_sink s = sink ∧
    (∀ i m, Persisted i m ∈ ig_log g → message_paired m ∧ recorded sink (ls_published s) m);
}.

Lemma handle_event_durable sink e g :
  event_ok (false, e) → durable_inv sink g → durable_ready (ig_sinks g) (ig_router g) →
  ∃ g' control, handle_event e g = Some (g', control) ∧ durable_inv sink g' ∧
    (control = Continue → durable_ready (ig_sinks g') (ig_router g')).
Proof.
  intros Hok [Hr (s & Hs & Hsink & Hlog)] Hready.
  assert (sinks_ready (ig_sinks g) (ig_router g)) as Hsr by exact Hready.
  destruct (handle_event_total e g Hok Hr Hsr) as (g' & control & Hrun & Hr' & Hready').
  exists g', control. split; [done|]. split; [|done]. split; [done|]. clear Hready'.
  rewrite Hs in Hready. simpl in Hready.
  destruct e as [err value| |record iter clock d mt q t env ok]; simpl in Hrun.
  - simplify_eq. eauto.
  - simplify_eq. simpl. rewrite app_nil_r. eauto.
  - unfold handle_record in Hrun. cbv zeta in Hrun. rewrite Hs in Hrun.
    set (router := with_metrics (record_latency Decode d) _) in Hrun.
    destruct (decode_message record (ig_max_payload_bytes g)) as [m|error] eqn:Ed.
    + assert (router_ok router) as Hr1 by by repeat apply with_metrics_ok.
      destruct (dispatch_run iter mt q m router Hok Hr1) as (r' & report & fo & Hdis & D).
      rewrite Hdis in Hrun. cbn [mbind option_bind] in Hrun.
      destruct (persist_all_durable iter mt q m env s router r' report Hok Hr1
        (decoded_paired _ _ _ Ed)) as (r2 & records & fin & reason & Hp & Hrec & _); [|done|].
      { revert Hready. by apply sink_ok_tables. }
      rewrite Hp in Hrun. cbn [mbind option_bind] in Hrun.
      assert (∀ i m', Persisted i m' ∈ ig_log g ++ [Dispatched m;
          if fin then Persisted 0 m else PersistFailed 0 m reason] →
        message_paired m' ∧ recorded sink (ls_published s ++ records) m') as Hrest.
      { intros i m'. rewrite elem_of_app, !elem_of_cons, elem_of_nil.
        intros [Hin|[[=]|[Hin|[]]]].
        - destruct (Hlog _ _ Hin). split; [done|]. eapply recorded_mono; [|done]. set_solver.
        - destruct fin; [|done]. injection Hin as -> ->. rewrite Hsink in Hrec.
          split; [by eapply decoded_paired|]. eapply recorded_mono; [|by eapply persisted_recorded]. set_solver. }
      destruct fin; simpl in Hrun; simplify_eq/=; eexists; (split_and!; [done..|]);
        simpl; intros i m' Hin; apply (Hrest i); set_solver.
    + destruct (ig_commit_invalid_messages g); simplify_eq/=;
        eexists; (split_and!; [done..|]); intros i m' Hin; apply (Hlog i); set_solver.
Qed.

Lemma run_durable sink events g :
  Forall event_ok events → durable_inv sink g → durable_ready (ig_sinks g) (ig_router g) →
  ∃ g' control, run events g = Some (g', control) ∧ durable_inv sink g'.
Proof.
  revert g. induction events as [|[shutdown e] events IH]; simpl; intros g Hes Hinv Hready; [eauto|].
  apply Forall_cons in Hes as [He Hes]. destruct shutdown; [eauto|].
  destruct (handle_event_durable sink e g He Hinv Hready) as (g1 & c1 & -> & Hinv1 & Hready1).
  simpl. destruct c1; [by apply IH; auto|eauto].
Qed.

(** No webhook is lost at the source: with the durable sink behind the
    consumer loop, whatever is consumed, the loop runs without blocking or
    panicking, and when the offset of a message is committed, a durable record
    of it, as a first attempt, has been published for every destination
    whose filter matches it; the only other commits are of rejected
    records. *)
Lemma durable_pipeline sink events g
    (Hevents : Forall event_ok events) (Hrouter : router_ok (ig_router g))
    (Hsinks : ig_sinks g = [{| ls_sink := sink; ls_published := [] |}])
    (Hready : sink_ok (ig_router g) sink) (Hlog : ig_log g = []) :
  ∃ g' control s, run events g = Some (g', control) ∧ router_ok (ig_router g') ∧
    ig_sinks g' = [s] ∧
    ∀ before pos ok after, ig_log g' = before ++ Committed pos ok :: after →
      (∃ m, md_source (rm_metadata m) = Some pos ∧ Dispatched m ∈ before ∧
         message_paired m ∧ recorded sink (ls_published s) m)
      ∨ ig_commit_invalid_messages g = true ∧ ∃ error, Rejected pos error ∈ before.
Proof.
  destruct (run_durable sink events g Hevents) as (g' & control & Hrun & [Hr' (s & Hs & Hsk & Hrec)]).
  { split; [done|]. eexists. split_and!; [done..|]. rewrite Hlog. by intros i m ?%elem_of_nil. }
  { by rewrite Hsinks. }
  exists g', control, s. split_and!; [done..|]. intros before pos ok after Heq.
  apply run_log in Hrun as [Hj _].
  2: { rewrite Hlog. by intros [] ? ? ? ?. }
  2: { rewrite Hlog. by intros ? ?%elem_of_nil. }
  destruct (Hj _ _ _ _ Heq) as [(m & Hsrc & Hdis & Hper)|Hrej]; [left|by right].
  exists m. split; [done|]. split; [done|]. apply (Hrec 0%nat). rewrite Heq, elem_of_app. left.
  apply Hper. rewrite Hsinks. simpl. lia.
Qed.
End durable.

(** ** From the publish endpoint to the subscribers *)

(** The message of an acknowledged command. *)
Definition published_message (c : PublishCommand) (receipt : PublishReceipt)
    (timestamp : option Z) : RoutedMessage := {|
  rm_metadata := command_metadata c
    (Some {| kp_topic := pr_topic receipt; kp_partition := pr_partition receipt;
             kp_offset := pr_offset receipt |}) timestamp;
  rm_payload := pc_payload c; rm_trace_context := None |}.

(** What an HTTP request carries: a JSON value, as its text, or bytes in base64
    with a content type of their own. *)
Definition http_content `{JsonCodec, Base64} (request : HttpPublishRequest)
    (payload content_type : string) : Prop :=
  (∃ value, hp_payload request = Present value ∧ hp_payload_base64 request = None ∧
     payload = json_print value ∧
     content_type = default "application/json" (hp_content_type request)) ∨
  (∃ encoded, hp_payload request = Missing ∧ hp_payload_base64 request = Some encoded ∧
     b64_decode encoded = Ok payload ∧ hp_content_type request = Some content_type).

(** The messages the clients asked for, at the position they were given. *)
Definition http_published (principal : Principal) (uuid : string) (request : HttpPublishRequest)
    (payload content_type : string) (position : KafkaPosition) (timestamp : option Z)
    : RoutedMessage := {|
  rm_metadata := {|
    md_message_id := match hp_message_id request with Some id => id | None => uuid end;
    md_tenant_id := pl_tenant_id principal; md_kind := hp_kind request;
    md_message_type := hp_message_type request; md_channel := hp_channel request;
    md_actor_id := hp_actor_id request; md_recipient_type := hp_recipient_type request;
    md_recipient_identity := hp_recipient_identity request; md_content_type := content_type;
    md_timestamp_ms := timestamp; md_source := Some position |};
  rm_payload := payload; rm_trace_context := None |}.

Definition grpc_published (principal : Principal) (uuid : string) (request : PublishRequest)
    (position : KafkaPosition) (timestamp : option Z) : RoutedMessage := {|
  rm_metadata := {|
    md_message_id := match gp_message_id request with Some id => id | None => uuid end;
    md_tenant_id := pl_tenant_id principal; md_kind := gp_kind request;
    md_message_type := gp_message_type request; md_channel := gp_channel request;
    md_actor_id := gp_actor_id request; md_recipient_type := gp_recipient_type request;
    md_recipient_identity := gp_recipient_identity request;
    md_content_type := if decide (gp_content_type request = "") then "application/octet-stream"
                       else gp_content_type request;
    md_timestamp_ms := timestamp; md_source := Some position |};
  rm_payload := gp_payload request; rm_trace_context := None |}.

Lemma http_publish_payload_content `{MimeParser, JsonCodec, Base64} request max payload ct :
  http_publish_payload (hp_payload request) (hp_payload_base64 request) (hp_content_type request) max
    = Ok (payload, ct) → http_content request payload ct.
Proof.
  unfold http_publish_payload, http_content.
  destruct (hp_payload request) as [|value], (hp_payload_base64 request) as [encoded|]; intros Hrun; try done.
  - right. bind_step Hrun as ct', Hct. bind_step Hrun as [], _.
    apply bind_Ok in Hrun as (decoded & Hdec%map_err_Ok & Hr). simplify_eq.
    destruct (hp_content_type request) as [v|]; [|done]. destruct (is_empty (trim v)); [done|].
    simplify_eq/=. eauto 10.
  - left. bind_step Hrun as [], _. simplify_eq. eauto 10.
Qed.

Section end_to_end.
Context `{MpscLaws Delivery Chan} `{JwtLibrary Key} `{MimeParser} `{JsonCodec} `{Base64}
  `{RecordCodec}.
Implicit Types (r : RouterState Chan) (st : ApiState Chan Key) (g : Ingestor Chan LoggedSink).

(** The outcome of a message for the connection [id]: one of another tenant is
    untouched; one with a matching filter and room in its queue finds the
    message at the end of it, once, under all its matching subscriptions. *)
Definition reached (tenant : string) (m : RoutedMessage) (id : ConnectionId) r r' : Prop :=
  ∀ conn ch, r_connections r !! id = Some conn → r_channels r !! id = Some ch →
    (cs_tenant_id conn ≠ tenant →
       r_connections r' !! id = Some conn ∧ r_channels r' !! id = Some ch) ∧
    (∀ sid, subscription_matches conn m sid → rx_open ch = true →
       Z.of_nat (length (queued ch)) < capacity ch →
       ∃ ch' sids, r_channels r' !! id = Some ch' ∧ sid ∈ sids ∧ matching_ids conn m sids ∧
         queued ch' = queued ch ++ [{| d_message := m; d_subscription_ids := sids |}]).

Lemma dispatch_reached iter e1 e2 m r r' report id :
  iterates iter → router_ok r → message_paired m → dispatch iter e1 e2 m r = Some (r', report) →
  reached (md_tenant_id (rm_metadata m)) m id r r'.
Proof.
  intros Hi Hok Hm Hrun conn ch Hc Hch.
  destruct (dispatch_run iter e1 e2 m r Hi Hok) as (r1 & rep1 & fo & Hrun' & Hd).
  rewrite Hrun in Hrun'. simplify_eq.
  pose proof (matches_ok m r id (proj1 Hok) Hm) as Hmc.
  destruct (matches_of (r_routes r) m !! id) as [sids|] eqn:E.
  - destruct Hmc as (conn' & Hc' & Hne & Hids & Ht). simplify_eq. split; [done|].
    intros sid Hsid Hrx Hroom.
    destruct (dispatched_matched _ _ _ _ _ _ _ _ _ _ Hi Hok Hd E Hc Hch) as [Hsent _].
    destruct (Hsent Hrx Hroom) as (_ & ch' & Hch' & Hq & _). exists ch', sids.
    split_and!; [done|by apply Hids|done|done].
  - destruct (dispatched_unmatched _ _ _ _ _ _ _ Hi Hd E) as [-> ->]. split; [done|].
    intros sid Hsid. by destruct (Hmc conn sid Hc).
Qed.

Lemma reached_tables tenant m id r r' r1 r1' :
  r_connections r1 = r_connections r → r_channels r1 = r_channels r →
  r_connections r1' !! id = r_connections r' !! id → r_channels r1' !! id = r_channels r' !! id →
  reached tenant m id r r' → reached tenant m id r1 r1'.
Proof. unfold reached. by intros -> -> -> ->. Qed.

(** The connections a sink reads from are its own. *)
Definition not_durable (sinks : list LoggedSink) (m : RoutedMessage) (id : ConnectionId) : Prop :=
  ∀ s, s ∈ sinks → id ∉ rd_receiver <$> sink_destinations (ls_sink s) m.

(** Consuming a record that decodes. *)
Lemma consumed_reached record iter clock d mt q t env ok g m :
  iterates iter → router_ok (ig_router g) → durable_ready (ig_sinks g) (ig_router g) →
  decode_message record (ig_max_payload_bytes g) = Ok m →
  ∃ g' control, handle_record record iter clock d mt q t env ok g = Some (g', control) ∧
    router_ok (ig_router g') ∧ Dispatched m ∈ ig_log g' ∧
    ∀ id, not_durable (ig_sinks g) m id →
      reached (md_tenant_id (rm_metadata m)) m id (ig_router g) (ig_router g').
Proof.
  intros Hi Hr Hready Hd. pose proof (decoded_paired _ _ _ Hd) as Hm.
  unfold handle_record. cbv zeta. rewrite Hd.
  set (router := with_metrics (record_latency Decode d) _).
  assert (router_ok router) as Hr1 by by repeat apply with_metrics_ok.
  destruct (dispatch_run iter mt q m router Hi Hr1) as (r' & report & fo & Hdis & D).
  rewrite Hdis. cbn [mbind option_bind].
  assert (∃ r2 sinks effects fin, persist_all env 0 m (ig_sinks g) r' =
      Some (r2, sinks, effects, fin) ∧ router_ok r2 ∧
    r_connections r2 = r_connections r' ∧
    ∀ id, not_durable (ig_sinks g) m id → r_channels r2 !! id = r_channels r' !! id)
    as (r2 & sinks & effects & fin & -> & Hr2 & Hc2 & Hch2).
  { destruct (ig_sinks g) as [|s [|]] eqn:Es; simpl in Hready; [| |done].
    - eexists _, _, _, _. split_and!; [done|apply D|done..].
    - destruct (persist_all_durable iter mt q m env s router r' report Hi Hr1 Hm)
        as (r2 & records & fin & reason & Hp & _ & Hr2 & _ & Hc & Hch); [|done|].
      { revert Hready. by apply sink_ok_tables. }
      eexists _, _, _, _. split_and!; [exact Hp|done..|]. intros id Hid. apply Hch, Hid. left. }
  cbn [mbind option_bind].
  assert (∀ r3, r_connections r3 = r_connections r2 → r_channels r3 = r_channels r2 →
    ∀ id, not_durable (ig_sinks g) m id →
    reached (md_tenant_id (rm_metadata m)) m id (ig_router g) r3) as Hreach.
  { intros r3 Hc3 Hch3 id Hid.
    apply (reached_tables _ _ _ router r');
      [done|done|by rewrite Hc3, Hc2|rewrite Hch3; by apply Hch2|].
    by eapply dispatch_reached. }
  assert (gauge_free (commit_metric ok)) as Hcm by (intros x; by destruct ok).
  destruct fin; simpl; (eexists _, _; split; [reflexivity|]); simpl; (split_and!; [|set_solver|]).
  - by repeat apply with_metrics_ok.
  - by apply Hreach.
  - done.
  - by apply Hreach.
Qed.

(** An acknowledged publish, over either transport: who published what. *)
Definition acknowledged (c : PublishCommand) st (receipt : PublishReceipt) : Prop :=
  str_len (pc_payload c) ≤ ac_publish_max_payload_bytes (as_config st) ∧
  ∃ publish, as_publisher st = Some publish ∧ publish c = Ok receipt.

Lemma call_publisher_Ok command st st0 sent receipt :
  as_publisher st0 = as_publisher st →
  call_publisher command st0 = (sent, Ok receipt) →
  sent = Some command ∧ ∃ publish, as_publisher st = Some publish ∧ publish command = Ok receipt.
Proof.
  unfold call_publisher. intros ->. destruct (as_publisher st) as [publish|]; [|done].
  intros [= <- Hp%map_err_Ok]. eauto.
Qed.

Lemma state_allow_rate_publisher t tenant kind st :
  as_publisher (state_allow_rate t tenant kind st).1 = as_publisher st.
Proof. unfold state_allow_rate, allow_rate. by destruct (allow _ _ _ _ _ _ _). Qed.

Lemma publish_http_acknowledged t uuid elapsed headers request st st' sent receipt :
  publish_http t uuid elapsed headers (Some request) st = (st', sent, Ok receipt) →
  ∃ principal payload content_type,
    let c := http_command principal uuid request payload content_type in
    authenticate_http (as_auth st) headers (hp_tenant_id request) = Ok principal ∧
    http_publish_payload (hp_payload request) (hp_payload_base64 request) (hp_content_type request)
      (ac_publish_max_payload_bytes (as_config st)) = Ok (payload, content_type) ∧
    sent = Some c ∧ acknowledged c st receipt.
Proof.
  unfold publish_http. set (st0 := with_router _ st).
  destruct (publish_http_inner t uuid headers request st0) as [[st1 sent1] res] eqn:E.
  intros Heq. simplify_eq. revert E. unfold publish_http_inner.
  destruct (_ ≫= _) as [principal|e] eqn:Ea; [|done]. bind_step Ea as p, Hauth.
  bind_step Ea as [], _. guard_step Ea as Hp. injection Ea as ->.
  destruct (state_allow_rate t _ _ st0) as [st2 allowed] eqn:Er.
  pose proof (state_allow_rate_config t (pl_tenant_id principal) Publish_ st0) as Hcfg.
  pose proof (state_allow_rate_publisher t (pl_tenant_id principal) Publish_ st0) as Hpub.
  rewrite Er in Hcfg, Hpub. simpl in Hcfg, Hpub. destruct allowed; [|done]. simpl. rewrite Hcfg.
  destruct (_ ≫= _) as [command|e] eqn:Ev; [|done].
  destruct (call_publisher command st2) as [sent2 r] eqn:Ec. intros Heq. simplify_eq.
  apply bind_Ok in Ev as ([payload ct] & Hpl & Hv). apply validate_command_Ok in Hv as (-> & Hlen & _).
  destruct (call_publisher_Ok _ st _ _ _ Hpub Ec) as (-> & Hack).
  exists principal, payload, ct. split_and!; [done..|]. by split.
Qed.

Lemma publish_grpc_acknowledged t uuid elapsed metadata request st st' sent receipt :
  publish_grpc t uuid elapsed metadata request st = (st', sent, Ok receipt) →
  ∃ principal, let c := grpc_command principal uuid request in
    authenticate_grpc (as_auth st) metadata
      (if is_empty (gp_tenant_id request) then None else Some (gp_tenant_id request))
      = Ok principal ∧
    sent = Some c ∧ acknowledged c st receipt.
Proof.
  unfold publish_grpc. set (st0 := with_router _ st).
  destruct (publish_grpc_inner t uuid metadata request st0) as [[st1 sent1] res] eqn:E.
  intros Heq. simplify_eq. revert E. unfold publish_grpc_inner.
  destruct (map_err _ _) as [principal|e] eqn:Ea; [|done]. apply map_err_Ok in Ea.
  bind_step Ea as p, Hauth. bind_step Ea as [], _. guard_step Ea as Hp. injection Ea as ->.
  destruct (state_allow_rate t _ _ st0) as [st2 allowed] eqn:Er.
  pose proof (state_allow_rate_config t (pl_tenant_id principal) Publish_ st0) as Hcfg.
  pose proof (state_allow_rate_publisher t (pl_tenant_id principal) Publish_ st0) as Hpub.
  rewrite Er in Hcfg, Hpub. simpl in Hcfg, Hpub. destruct allowed; [|done]. simpl. rewrite Hcfg.
  destruct (validate_command _ _) as [command|e] eqn:Ev; [|done].
  destruct (call_publisher command st2) as [sent2 r] eqn:Ec.
  intros Heq. injection Heq as <- <- Hr. apply map_err_Ok in Hr. subst r.
  apply validate_command_Ok in Ev as (-> & Hlen & _).
  destruct (call_publisher_Ok _ st _ _ _ Hpub Ec) as (-> & Hack).
  exists principal. split_and!; [done..|]. by split.
Qed.

(** Consuming a record that does not decode. *)
Lemma rejected_unreached record iter clock d mt q t env ok g error :
  router_ok (ig_router g) → decode_message record (ig_max_payload_bytes g) = Err error →
  ∃ g' control, handle_record record iter clock d mt q t env ok g = Some (g', control) ∧
    router_ok (ig_router g') ∧ Rejected (position_of record) error ∈ ig_log g' ∧
    control = (if ig_commit_invalid_messages g then Continue else Stop) ∧
    r_connections (ig_router g') = r_connections (ig_router g) ∧
    r_channels (ig_router g') = r_channels (ig_router g).
Proof.
  intros Hr Hd. unfold handle_record. cbv zeta. rewrite Hd.
  assert (gauge_free (commit_metric ok)) as Hcm by (intros x; by destruct ok).
  destruct (ig_commit_invalid_messages g); (eexists _, _; split; [reflexivity|]); simpl;
    (split_and!; [|set_solver|done..]); by repeat apply with_metrics_ok.
Qed.

(** A request over either transport. *)
Definition publish_request : Type := HttpPublishRequest + PublishRequest.

(** The request is acknowledged, and [sent] was handed to the producer. *)
Definition acknowledges t uuid elapsed headers (request : publish_request) st sent receipt : Prop :=
  match request with
  | inl request => ∃ st', publish_http t uuid elapsed headers (Some request) st = (st', sent, Ok receipt)
  | inr request => ∃ st', publish_grpc t uuid elapsed headers request st = (st', sent, Ok receipt)
  end.

(** The principal who made the request, and the message it asked for. *)
Definition requested (request : publish_request) headers uuid st position timestamp
    (principal : Principal) (m : RoutedMessage) : Prop :=
  match request with
  | inl request => ∃ payload content_type,
      authenticate_http (as_auth st) headers (hp_tenant_id request) = Ok principal ∧
      http_content request payload content_type ∧
      m = http_published principal uuid request payload content_type position timestamp
  | inr request =>
      authenticate_grpc (as_auth st) headers
        (if decide (gp_tenant_id request = "") then None else Some (gp_tenant_id request)) = Ok principal ∧
      m = grpc_published principal uuid request position timestamp
  end.

Lemma acknowledged_request t uuid elapsed headers request st sent receipt timestamp :
  acknowledges t uuid elapsed headers request st sent receipt →
  ∃ principal c, sent = Some c ∧ acknowledged c st receipt ∧
    pc_tenant_id c = pl_tenant_id principal ∧
    requested request headers uuid st
      {| kp_topic := pr_topic receipt; kp_partition := pr_partition receipt;
         kp_offset := pr_offset receipt |} timestamp principal (published_message c receipt timestamp).
Proof.
  destruct request as [request|request]; intros [st' Hrun].
  - apply publish_http_acknowledged in Hrun as (p & payload & ct & Hauth & Hpl & Hs & Ha).
    eexists p, _. split_and!; [done..|]. exists payload, ct.
    split_and!; [done|by eapply http_publish_payload_content|done].
  - apply publish_grpc_acknowledged in Hrun as (p & Hauth & Hs & Ha).
    eexists p, _. split_and!; [done..|]. unfold is_empty in Hauth. split.
    + case_bool_decide; by rewrite ?decide_True, ?decide_False by done.
    + clear Hauth. unfold published_message, grpc_published, command_metadata, grpc_command, is_empty.
      simpl. case_bool_decide; by rewrite ?decide_True, ?decide_False by done.
Qed.

(** (C2) What is published reaches the tenant's subscribers and nobody else.
    If a publish request over HTTP or gRPC is acknowledged, the Kafka producer
    was handed one record, and whenever and however the consumer loop later
    reads it from the acknowledged position, it handles it without a panic.
    The message it stands for is spelled out: the tenant of the authenticated
    principal, each field of the request, the JSON text or the decoded bytes of
    its payload, and the given or default content type and message id.  If that
    payload is within the consumer's own limit, the message is appended to the
    queue of every connection that has a matching filter and room, once and
    under all its matching subscriptions, and connections of other tenants are
    untouched.  The configuration may set the consumer's limit below the
    publish limit; then a longer payload, although acknowledged, is rejected
    with [PayloadTooLarge], no queue changes, and the consumer stops unless it
    is to commit invalid messages. *)
Theorem published_message_delivered t uuid elapsed headers request st sent receipt pconfig send
    (Hpublisher : as_publisher st = Some (publish pconfig send))
    (Hack : acknowledges t uuid elapsed headers request st sent receipt)
    timestamp iter clock d mt q e2e env ok g
    (Hiter : iterates iter) (Hrouter : router_ok (ig_router g))
    (Hready : durable_ready (ig_sinks g) (ig_router g)) :
  let position := {| kp_topic := pr_topic receipt; kp_partition := pr_partition receipt;
                     kp_offset := pr_offset receipt |} in
  ∃ principal c m record g' control,
    sent = Some c ∧ send record = Ok (pr_partition receipt, pr_offset receipt) ∧
    requested request headers uuid st position timestamp principal m ∧
    handle_record (published_record record (pr_partition receipt) (pr_offset receipt) timestamp)
      iter clock d mt q e2e env ok g = Some (g', control) ∧
    router_ok (ig_router g') ∧
    if str_len (rm_payload m) <=? ig_max_payload_bytes g then
      ∀ id, not_durable (ig_sinks g) m id →
        reached (pl_tenant_id principal) m id (ig_router g) (ig_router g')
    else
      Rejected (position_of (published_record record (pr_partition receipt) (pr_offset receipt) timestamp))
        (PayloadTooLarge (str_len (rm_payload m)) (ig_max_payload_bytes g)) ∈ ig_log g' ∧
      control = (if ig_commit_invalid_messages g then Continue else Stop) ∧
      r_connections (ig_router g') = r_connections (ig_router g) ∧
      r_channels (ig_router g') = r_channels (ig_router g).
Proof.
  intros position.
  destruct (acknowledged_request _ _ _ _ _ _ _ _ timestamp Hack)
    as (principal & c & Hsent & (_ & pub & Hpub & Hreceipt) & Htenant & Hreq).
  rewrite Hpublisher in Hpub. simplify_eq.
  destruct (published_outcome pconfig send c receipt Hreceipt) as (record & Hrec & Hdec).
  specialize (Hdec timestamp (ig_max_payload_bytes g)).
  destruct (str_len (pc_payload c) <=? ig_max_payload_bytes g) eqn:Hlen.
  - destruct (consumed_reached _ iter clock d mt q e2e env ok g _ Hiter Hrouter Hready Hdec)
      as (g' & control & Hrun & Hr' & _ & Hreach).
    eexists principal, c, _, record, g', control. split_and!; [done..|]. simpl. rewrite Hlen, <-Htenant. done.
  - destruct (rejected_unreached _ iter clock d mt q e2e env ok g _ Hrouter Hdec)
      as (g' & control & Hrun & Hr' & Hlog & Hrest).
    eexists principal, c, _, record, g', control. split_and!; [done..|]. simpl. rewrite Hlen. done.
Qed.
End end_to_end.

(** ** Concrete inputs *)

#[local] Instance pipeline_codec : RecordCodec := {|
  record_to_vec _ := Ok "R"; record_from_slice _ := Err "unused" |}.
#[local] Existing Instances example_json example_jwt padded KafkaSpec.example_mime.

(** A loop over a router with the sinks, from an empty log. *)
Definition pipeline_ingestor (router : RouterState (Fifo Delivery)) (sinks : list LoggedSink)
    : Ingestor (Fifo Delivery) LoggedSink := {|
  ig_router := router; ig_max_payload_bytes := 1_048_576; ig_commit_invalid_messages := true;
  ig_sinks := sinks; ig_health := KafkaHealth_default; ig_log := [] |}.

(** A record without a tenant, which is rejected, and one that is routed. *)
Definition pipeline_events : list (bool * Event (nat → PersistEnv)) :=
  (λ record, (false, RecvRecord record map_to_list 1 0 0 0 0
     (λ _ _, {| pe_uuid := "u"; pe_clock := 0; pe_producer := λ _ _ _, None |}) true))
  <$> [{| kr_payload := None; kr_topic := "in"; kr_partition := 0; kr_offset := 8;
          kr_timestamp_ms := None; kr_headers := None |}; example_record].

Lemma pipeline_events_ok : Forall event_ok pipeline_events.
Proof. repeat constructor; apply map_to_list_iterates. Qed.

(** The API of the examples with the Kafka publisher behind it. *)
Definition pipeline_api : ApiState (Fifo Delivery) string := {|
  as_config := as_config example_api; as_router := as_router example_api;
  as_auth := as_auth example_api;
  as_publisher := Some (publish KafkaProducerConfig_default (λ _, Ok (0, 7)));
  as_health := as_health example_api; as_limiter := as_limiter example_api |}.

Definition pipeline_receipt : PublishReceipt := {|
  pr_message_id := "m-1"; pr_topic := "router.input"; pr_partition := 0; pr_offset := 7 |}.

Lemma pipeline_acknowledged :
  (publish_http example_readings "u" 5 (λ _, None) (Some example_http_request) pipeline_api).2
  = Ok pipeline_receipt.
Proof. vm_compute. reflexivity. Qed.

(** A client of the tenant with one subscription. *)
Definition acme_router : RouterState (Fifo Delivery) :=
  (subscribe 9 "orders" (tenant_filter "acme") (register_connection 9 "acme" Sse None router5).1).1.
Definition acme_connection : ConnectionState := {|
  cs_tenant_id := "acme"; cs_protocol := Sse; cs_subscriptions := {["orders" := tenant_filter "acme"]};
  cs_full_strikes := 0 |}.

Lemma acme_router_ok : router_ok acme_router.
Proof. apply subscribe_ok, register_connection_ok; [apply router5_ok|vm_compute; reflexivity|done]. Qed.

Lemma published_message_delivered_witness :
  ∃ m record g' control ch',
    handle_record (published_record record 0 7 (Some 3)) map_to_list 1 0 0 0 0
      (λ _ _, {| pe_uuid := "u"; pe_clock := 0; pe_producer := λ _ _ _, None |}) true
      (pipeline_ingestor acme_router []) = Some (g', control) ∧
    rm_payload m = "{}" ∧ md_kind (rm_metadata m) = Some "order" ∧
    r_channels (ig_router g') !! 9 = Some ch' ∧ d_message <$> queued ch' = [m].
Proof.
  destruct (publish_http example_readings "u" 5 (λ _, None) (Some example_http_request) pipeline_api)
    as [[st' sent] res] eqn:E.
  assert (res = Ok pipeline_receipt) as -> by (rewrite <-pipeline_acknowledged, E; reflexivity).
  destruct (published_message_delivered example_readings "u" 5 (λ _, None) (inl example_http_request)
    pipeline_api sent pipeline_receipt KafkaProducerConfig_default
    (λ _, Ok (0, 7)) eq_refl (ex_intro _ st' E) (Some 3) map_to_list 1 0 0 0 0
    (λ _ _, {| pe_uuid := "u"; pe_clock := 0; pe_producer := λ _ _ _, None |}) true
    (pipeline_ingestor acme_router []) map_to_list_iterates acme_router_ok I)
    as (principal & c & m & record & g' & control & _ & _ & Hreq & Hrun & _ & Hcase).
  destruct Hreq as (payload & ct & Hauth & [(? & [=] & _)|(encoded & _ & [= <-] & Hpl & [= <-])] & ->).
  assert (payload = "{}") as -> by (vm_compute in Hpl; congruence).
  assert (pl_tenant_id principal = "acme") as Ht by (vm_compute in Hauth; injection Hauth as <-; reflexivity).
  simpl in Hcase.
  destruct (Hcase 9 ltac:(by intros s ?%elem_of_nil) acme_connection (channel 256 : Fifo Delivery))
    as [_ Hdel]; [vm_compute; reflexivity|vm_compute; reflexivity|].
  destruct (Hdel "orders") as (ch' & sids & Hch & _ & _ & Hq).
  - exists (tenant_filter "acme"). split; [reflexivity|]. unfold http_published. rewrite Ht. vm_compute. reflexivity.
  - reflexivity.
  - vm_compute. reflexivity.
  - eexists _, record, g', control, ch'. split_and!; [exact Hrun| | |exact Hch|rewrite Hq; reflexivity];
      reflexivity.
Defined.
