(* ===== verification/Config.v ===== *)
(** * Process configuration

    routerd's [config.rs]: the configuration tree, the group id taken from the
    environment, and the semantic validation that runs before anything starts.
    Reading the file and the environment is library code; the deserialized
    tree is the input. *)

From Stdlib.Floats Require Import SpecFloat.
From S2P Require Import Prelude Str Ids Message Route Metrics RouteIndex Channel Router.
From S2P Require Import RouterInv RouterExamples Kafka Limits Security Wire Auth Webhook.
Open Scope Z_scope.

(** ** Socket addresses *)

(** [str::parse::<SocketAddr>]: an IPv4 address and a port, or an IPv6 address
    in brackets with an optional scope and a port. *)
Definition ch_open : ascii := Ascii.ascii_of_nat 91.
Definition ch_close : ascii := Ascii.ascii_of_nat 93.
Definition ch_percent : ascii := Ascii.ascii_of_nat 37.

(** [read_port]: digits of any number, with leading zeros. *)
Definition read_port : Parser Z := λ s,
  '(_, s) ← read_given_char ch_colon s; read_number 10 (String.length s) true u16_max s.

Definition read_scope_id : Parser Z := λ s,
  '(_, s) ← read_given_char ch_percent s; read_number 10 (String.length s) true u32_max s.

Definition read_socket_addr_v4 : Parser (IpAddr * Z) := λ s,
  '(a, b, c, d, s) ← read_ipv4_addr s; '(port, s) ← read_port s; Some (V4 a b c d, port, s).

Definition read_socket_addr_v6 : Parser (IpAddr * Z) := λ s,
  '(_, s) ← read_given_char ch_open s;
  '(segments, s) ← read_ipv6_addr s;
  let s := match read_scope_id s with Some (_, s) => s | None => s end in
  '(_, s) ← read_given_char ch_close s;
  '(port, s) ← read_port s;
  Some (V6 segments, port, s).

Definition parse_socket_addr (s : string) : option (IpAddr * Z) :=
  match read_socket_addr_v4 s with
  | Some (address, EmptyString) => Some address
  | Some _ => None
  | None =>
    match read_socket_addr_v6 s with
    | Some (address, EmptyString) => Some address
    | _ => None
    end
  end.

(** [IpAddr::is_loopback]. *)
Definition is_loopback (address : IpAddr) : bool :=
  match address with
  | V4 a _ _ _ => a =? 127
  | V6 segments => bool_decide (segments = [0; 0; 0; 0; 0; 0; 0; 1])
  end.

(** ** The tree *)

(** [SecurityMode] and [ServerConfig]. *)
Inductive SecurityMode : Type := Development | ProtectedProxy.
#[export] Instance SecurityMode_eq_dec : EqDecision SecurityMode.
Proof. solve_decision. Defined.

(** The defaults of the settings. *)
Definition default_http_addr : string := "0.0.0.0:8080".
Definition default_grpc_addr : string := "0.0.0.0:9090".
Definition default_shutdown_grace_secs : Z := 10.

Record ServerConfig : Type := {
  sv_http_addr : string;
  sv_grpc_addr : string;
  sv_shutdown_grace_secs : Z;
  sv_security_mode : SecurityMode;
}.
Definition ServerConfig_default : ServerConfig := {|
  sv_http_addr := default_http_addr; sv_grpc_addr := default_grpc_addr; sv_shutdown_grace_secs := default_shutdown_grace_secs;
  sv_security_mode := Development |}.

(** [KafkaConfig]. *)
Record KafkaConfig : Type := {
  kf_group_id_suffix_env : option string;
  kf_consumer : KafkaConsumerConfig;
  kf_producer : KafkaProducerConfig;
}.

(** [OpenTelemetryConfig]; the ratio is a binary64 number. *)
Record OpenTelemetryConfig : Type := {
  ot_enabled : bool;
  ot_endpoint : string;
  ot_service_name : string;
  ot_timeout_ms : Z;
  ot_shutdown_timeout_ms : Z;
  ot_sampling_ratio : spec_float;
}.

(** 0.0, 1.0 and the default 0.1 in binary64. *)
Definition f64_zero : spec_float := S754_zero false.
Definition f64_one : spec_float := S754_finite false 4503599627370496 (-52).
Definition f64_tenth : spec_float := S754_finite false 7205759403792794 (-56).

Definition OpenTelemetryConfig_default : OpenTelemetryConfig := {|
  ot_enabled := false; ot_endpoint := "http://127.0.0.1:4318";
  ot_service_name := "kafka-edge-router"; ot_timeout_ms := 5_000; ot_shutdown_timeout_ms := 5_000;
  ot_sampling_ratio := f64_tenth |}.

(** [KafkaReadinessConfig]. *)
Record KafkaReadinessConfig : Type := {
  kr_enabled : bool;
  kr_check_interval_ms : Z;
  kr_stale_after_secs : Z;
  kr_failure_threshold : Z;
  kr_success_threshold : Z;
}.
Definition KafkaReadinessConfig_default : KafkaReadinessConfig := {|
  kr_enabled := false; kr_check_interval_ms := 1_000; kr_stale_after_secs := 30;
  kr_failure_threshold := 3; kr_success_threshold := 2 |}.

(** [AppConfig]; logging is not validated. *)
Record AppConfig : Type := {
  app_server : ServerConfig;
  app_api : ApiConfig;
  app_router : RouterConfig;
  app_auth : AuthConfig;
  app_kafka : KafkaConfig;
  app_webhooks : WebhookConfig;
  app_opentelemetry : OpenTelemetryConfig;
  app_kafka_readiness : KafkaReadinessConfig;
}.

(** ** The group id *)

Definition is_ascii_alphabetic (a : ascii) : bool :=
  in_range 65 90 (byte_of a) || in_range 97 122 (byte_of a).
Definition is_ascii_alphanumeric (a : ascii) : bool :=
  is_ascii_alphabetic a || in_range 48 57 (byte_of a).

(** [bytes().all(p)]. *)
Definition all_bytes (p : ascii → bool) (s : string) : bool :=
  forallb p (String.list_ascii_of_string s).

(** The bytes a group id may have. *)
Definition group_id_byte (a : ascii) : bool :=
  is_ascii_alphanumeric a || bool_decide (byte_of a ∈ [46; 95; 45]).

(** [valid_environment_name]. *)
Definition valid_environment_name (name : string) : bool :=
  match name with
  | EmptyString => false
  | String a rest => (is_ascii_alphabetic a || (byte_of a =? 95)) &&
                     all_bytes (λ a, is_ascii_alphanumeric a || (byte_of a =? 95)) rest
  end.

(** [valid_kafka_group_id]. *)
Definition valid_kafka_group_id (group_id : string) : bool :=
  negb (is_empty group_id) && (str_len group_id <=? 255) && all_bytes group_id_byte group_id.

Definition with_group_id (group_id : string) (c : AppConfig) : AppConfig :=
  let k := kf_consumer (app_kafka c) in {|
  app_server := app_server c; app_api := app_api c; app_router := app_router c;
  app_auth := app_auth c;
  app_kafka := {| kf_group_id_suffix_env := kf_group_id_suffix_env (app_kafka c);
    kf_consumer := {| kc_brokers := kc_brokers k; kc_group_id := group_id;
      kc_client_id := kc_client_id k; kc_topics := kc_topics k;
      kc_auto_offset_reset := kc_auto_offset_reset k;
      kc_max_payload_bytes := kc_max_payload_bytes k;
      kc_commit_invalid_messages := kc_commit_invalid_messages k;
      kc_properties := kc_properties k |};
    kf_producer := kf_producer (app_kafka c) |};
  app_webhooks := app_webhooks c; app_opentelemetry := app_opentelemetry c;
  app_kafka_readiness := app_kafka_readiness c |}.

(** [apply_runtime_identity]; [lookup] reads the environment. *)
Definition apply_runtime_identity (lookup : string → option string) (c : AppConfig)
    : result string AppConfig :=
  match kf_group_id_suffix_env (app_kafka c) with
  | None => Ok c
  | Some variable =>
    _ ← ensure (valid_environment_name variable)
          "kafka.group_id_suffix_env must be a valid environment variable name";
    suffix ← ok_or (lookup variable)
               ("environment variable " +:+ variable +:+ " is required for the Kafka group id");
    _ ← ensure (negb (is_empty suffix || (128 <? str_len suffix) ||
                      negb (all_bytes group_id_byte suffix)))
          ("Kafka group-id suffix from " +:+ variable +:+
           " must be 1..=128 ASCII letters, digits, '.', '_', or '-'");
    let group_id := kc_group_id (kf_consumer (app_kafka c)) +:+ "." +:+ suffix in
    _ ← ensure (negb (255 <? str_len group_id))
          "resolved Kafka consumer group id must not exceed 255 bytes";
    Ok (with_group_id group_id c)
  end.

(** ** Validation *)

Definition blank (s : string) : bool := is_empty (trim s).

(** [validate_listener_and_limits]. *)
Definition validate_listener_and_limits (c : AppConfig) : result string unit :=
  let protected := bool_decide (sv_security_mode (app_server c) = ProtectedProxy) in
  let a := app_api c in
  let r := app_router c in
  http_addr ← ok_or (parse_socket_addr (sv_http_addr (app_server c)))
                "server.http_addr is not a socket address";
  grpc_addr ← ok_or (parse_socket_addr (sv_grpc_addr (app_server c)))
                "server.grpc_addr is not a socket address";
  _ ← ensure (negb (protected && (negb (is_loopback http_addr.1) || negb (is_loopback grpc_addr.1))))
        "protected_proxy mode requires loopback-only HTTP and gRPC listeners";
  _ ← ensure (negb (protected && bool_decide (au_mode (app_auth c) = Disabled)))
        "protected_proxy mode requires authentication";
  _ ← ensure (negb (bool_decide (au_mode (app_auth c) = TrustedHeader ∨
                      au_mode (app_auth c) = ProxyMtls) && negb protected))
        "proxy identity modes require protected_proxy security mode";
  _ ← ensure (negb (existsb (Z.eqb 0)
        [ac_http_body_limit_bytes a; ac_sse_keep_alive_secs a; ac_ws_max_message_bytes a;
         ac_ws_max_frame_bytes a; ac_ws_max_commands_per_second a;
         ac_grpc_max_decoding_message_bytes a; ac_grpc_max_encoding_message_bytes a;
         ac_grpc_concurrency_limit a; ac_grpc_keep_alive_interval_secs a;
         ac_grpc_keep_alive_timeout_secs a; ac_publish_max_payload_bytes a;
         ac_max_rate_limit_principals a; ac_global_commands_per_second a;
         ac_principal_commands_per_second a; ac_global_publishes_per_second a;
         ac_principal_publishes_per_second a]))
        "HTTP, SSE, WebSocket, and gRPC limits must be positive";
  _ ← ensure (negb (existsb (Z.eqb 0)
        [rc_default_queue_capacity r; rc_max_queue_capacity r; ac_stream_queue_capacity a;
         ac_max_stream_queue_capacity a; rc_max_connections r; rc_max_connections_per_tenant r;
         rc_max_subscriptions r; rc_max_subscriptions_per_tenant r;
         rc_max_subscriptions_per_connection r; rc_slow_consumer_strikes r]))
        "queue capacities, subscription limits, and slow-consumer strikes must be positive";
  _ ← ensure (negb (ac_ws_max_message_bytes a <? ac_ws_max_frame_bytes a))
        "api.ws_max_frame_bytes must not exceed api.ws_max_message_bytes";
  _ ← ensure (negb (rc_max_queue_capacity r <? rc_default_queue_capacity r))
        "router.default_queue_capacity must not exceed router.max_queue_capacity";
  _ ← ensure (negb (ac_max_stream_queue_capacity a <? ac_stream_queue_capacity a))
        "api.stream_queue_capacity must not exceed api.max_stream_queue_capacity";
  ensure (negb (rc_max_queue_capacity r <? ac_max_stream_queue_capacity a))
    "api.max_stream_queue_capacity must not exceed router.max_queue_capacity".

(** The names the [matches!] of the JWT algorithms accepts. *)
Definition supported_algorithm (name : string) : bool :=
  bool_decide (name ∈ ["RS256"; "RS384"; "RS512"; "ES256"; "ES384"; "EdDSA"]).

(** [validate_kafka_and_auth]. *)
Definition validate_kafka_and_auth (c : AppConfig) : result string unit :=
  let k := kf_consumer (app_kafka c) in
  let p := kf_producer (app_kafka c) in
  let a := app_auth c in
  let jwt := au_jwt a in
  _ ← ensure (negb (bool_decide (kc_topics k = []))) "kafka.consumer.topics must not be empty";
  _ ← ensure (negb (kc_max_payload_bytes k =? 0)) "kafka.consumer.max_payload_bytes must be positive";
  _ ← ensure (negb (blank (kc_brokers k) || blank (kc_client_id k)))
        "Kafka consumer brokers and client_id must not be empty";
  _ ← ensure (valid_kafka_group_id (kc_group_id k))
        "kafka.consumer.group_id must be 1..=255 ASCII letters, digits, '.', '_', or '-'";
  _ ← ensure (negb (existsb blank (kc_topics k)))
        "kafka.consumer.topics must not contain empty names";
  _ ← ensure (bool_decide (kc_auto_offset_reset k ∈ ["earliest"; "latest"]))
        "kafka.consumer.auto_offset_reset must be earliest or latest";
  _ ← ensure (negb (kpc_enabled p && (blank (kpc_brokers p) || blank (kpc_client_id p) ||
                      blank (kpc_topic p) || (kpc_delivery_timeout_ms p =? 0))))
        "enabled Kafka producer fields and delivery timeout must not be empty or zero";
  _ ← ensure (negb (bool_decide (au_mode a = StaticBearer) && bool_decide (au_bearer_tokens a = ∅)))
        "auth.bearer_tokens must not be empty in static_bearer mode";
  _ ← (if bool_decide (au_mode a = Jwt) then
         _ ← ensure (negb (is_empty (jc_jwks_path jwt) || blank (jc_issuer jwt) ||
               blank (jc_audience jwt) || bool_decide (jc_algorithms jwt = []) ||
               (jc_refresh_interval_secs jwt =? 0) || (jc_max_jwks_bytes jwt =? 0) ||
               (jc_max_jwks_keys jwt =? 0) || blank (jc_tenant_claim jwt) ||
               blank (jc_scope_claim jwt) || blank (jc_subscribe_scope jwt) ||
               blank (jc_publish_scope jwt)))
               ("JWT mode requires JWKS path, issuer, audience, algorithms, claims, scopes, and " +:+
                "positive refresh bounds");
         ensure (forallb supported_algorithm (jc_algorithms jwt))
           "JWT algorithms must be asymmetric and explicitly supported"
       else Ok tt);
  _ ← ensure (negb (bool_decide (au_mode a = ProxyMtls) &&
                (blank (au_proxy_identity_header a) || bool_decide (au_proxy_identities a = ∅) ||
                 existsb (λ i, blank (pi_tenant_id i) || (negb (pi_subscribe i) && negb (pi_publish i)))
                   (map_to_list (au_proxy_identities a)).*2)))
        "proxy_mtls mode requires a header and bounded identities with tenant permissions";
  _ ← ensure (negb (existsb blank (elements (au_publish_tenants a))))
        "auth.publish_tenants must not contain empty tenant ids";
  ensure (negb (bool_decide (au_mode a = StaticBearer) &&
            existsb (λ tenant, negb (bool_decide (tenant ∈ (map_to_list (au_bearer_tokens a)).*2)))
              (elements (au_publish_tenants a))))
    "every auth.publish_tenants entry must have a static bearer mapping".

(** [str::split_once]. *)
Fixpoint split_once (pattern s : string) : option (string * string) :=
  match strip_prefix pattern s with
  | Some rest => Some ("", rest)
  | None =>
    match s with
    | EmptyString => None
    | String a s => '(before, after) ← split_once pattern s; Some (String a before, after)
    end
  end.

(** [validate_observability]. *)
Definition validate_observability (c : AppConfig) : result string unit :=
  let t := app_opentelemetry c in
  let r := app_kafka_readiness c in
  let http_endpoint := match split_once "://" (ot_endpoint t) with
    | Some (scheme, _) => bool_decide (scheme ∈ ["http"; "https"])
    | None => false
    end in
  _ ← ensure (negb (ot_enabled t && (negb http_endpoint || blank (ot_service_name t) ||
                (ot_timeout_ms t =? 0) || (ot_shutdown_timeout_ms t =? 0) ||
                negb (SFleb f64_zero (ot_sampling_ratio t) && SFleb (ot_sampling_ratio t) f64_one))))
        ("enabled OpenTelemetry settings require an HTTP(S) endpoint, service name, positive " +:+
         "timeouts, and sampling_ratio within 0..=1");
  ensure (negb (kr_enabled r && ((kr_check_interval_ms r =? 0) || (kr_stale_after_secs r =? 0) ||
            (kr_failure_threshold r =? 0) || (kr_success_threshold r =? 0))))
    "enabled Kafka readiness intervals and hysteresis thresholds must be positive".

(** The loop over the destinations in [validate_webhooks]. *)
Fixpoint validate_destinations (max_queue_capacity : Z) (seen : gset string)
    (destinations : list WebhookDestinationConfig) : result string unit :=
  match destinations with
  | [] => Ok tt
  | d :: rest =>
    _ ← ensure (negb (blank (wd_id d))) "webhook destination id must not be empty";
    _ ← ensure (negb (bool_decide (wd_id d ∈ seen)))
          ("duplicate webhook destination id: " +:+ wd_id d);
    _ ← ensure (negb ((wd_queue_capacity d =? 0) || (max_queue_capacity <? wd_queue_capacity d) ||
                  (wd_timeout_ms d =? 0) || (wd_max_attempts d =? 0) ||
                  (wd_initial_backoff_ms d =? 0) || (wd_max_backoff_ms d =? 0)))
          ("webhook " +:+ wd_id d +:+ " queue must be within 1..=" +:+ pretty max_queue_capacity +:+
           ", and timeout, attempt, and backoff values must be positive");
    _ ← ensure (negb (wd_max_backoff_ms d <? wd_initial_backoff_ms d))
          ("webhook " +:+ wd_id d +:+ " initial_backoff_ms must not exceed max_backoff_ms");
    _ ← map_err (λ _, "invalid webhook " +:+ wd_id d +:+ " filter") (RouteFilter_validate (wd_filter d));
    validate_destinations max_queue_capacity ({[wd_id d]} ∪ seen) rest
  end.

(** [validate_webhooks]. *)
Definition validate_webhooks (c : AppConfig) : result string unit :=
  let w := app_webhooks c in
  let d := wc_durable w in
  _ ← (if wc_enabled w && match wc_mode w with DurableMode => true | Volatile => false end then
         _ ← ensure (negb (blank (dw_brokers d) || blank (dw_client_id d) || blank (dw_group_id d) ||
               blank (dw_delivery_topic d) || blank (dw_retry_topic d) ||
               blank (dw_dead_letter_topic d) || (dw_delivery_timeout_ms d =? 0) ||
               (dw_max_record_bytes d =? 0) || (dw_max_recovery_records d =? 0)))
               "durable webhook Kafka fields and bounds must be non-empty and positive";
         _ ← ensure (negb (bool_decide (dw_delivery_topic d = dw_retry_topic d) ||
               bool_decide (dw_delivery_topic d = dw_dead_letter_topic d) ||
               bool_decide (dw_retry_topic d = dw_dead_letter_topic d)))
               "durable webhook delivery, retry, and dead-letter topics must be distinct";
         ensure (negb (bool_decide (length (wc_destinations w) = 0%nat)))
           "durable webhook mode requires at least one destination"
       else Ok tt);
  validate_destinations (rc_max_queue_capacity (app_router c)) ∅ (wc_destinations w).

(** [validate]. *)
Definition AppConfig_validate (c : AppConfig) : result string unit :=
  _ ← validate_listener_and_limits c;
  _ ← validate_kafka_and_auth c;
  _ ← validate_observability c;
  validate_webhooks c.

(** [load], after deserialization. *)
Definition AppConfig_load (lookup : string → option string) (c : AppConfig) : result string AppConfig :=
  c ← apply_runtime_identity lookup c; _ ← AppConfig_validate c; Ok c.

(** ** What a configuration that loads guarantees *)

(** Unsigned fields are not negative. *)
Record unsigned (c : AppConfig) : Prop := {
  un_router : config_ok (app_router c);
  un_stream : 0 ≤ ac_stream_queue_capacity (app_api c);
  un_destinations d : d ∈ wc_destinations (app_webhooks c) →
    0 ≤ wd_queue_capacity d ∧ 0 ≤ wd_max_attempts d ∧ 0 ≤ wd_initial_backoff_ms d ∧
    0 ≤ wd_max_backoff_ms d;
}.

(** What the components rely on. *)
Record config_sound (c : AppConfig) : Prop := {
  (** Every queue a stream may ask for is one the router accepts. *)
  cs_streams requested n : (∀ k, requested = Some k → 0 ≤ k) →
    resolve_stream_queue_capacity (app_api c) requested = Ok n →
    1 ≤ n ≤ rc_max_queue_capacity (app_router c);
  cs_default_queue : 1 ≤ rc_default_queue_capacity (app_router c) ≤ rc_max_queue_capacity (app_router c);
  (** Identities taken from a proxy are only accepted on loopback listeners. *)
  cs_proxy : au_mode (app_auth c) = TrustedHeader ∨ au_mode (app_auth c) = ProxyMtls →
    sv_security_mode (app_server c) = ProtectedProxy;
  cs_loopback : sv_security_mode (app_server c) = ProtectedProxy →
    au_mode (app_auth c) ≠ Disabled ∧
    ∃ http grpc, parse_socket_addr (sv_http_addr (app_server c)) = Some http ∧
      parse_socket_addr (sv_grpc_addr (app_server c)) = Some grpc ∧
      is_loopback http.1 = true ∧ is_loopback grpc.1 = true;
  (** JWT authentication has at least one algorithm, all asymmetric. *)
  cs_jwt : au_mode (app_auth c) = Jwt → ∃ allowed,
    configured_algorithms (jc_algorithms (au_jwt (app_auth c))) = Ok allowed ∧ allowed ≠ [] ∧
    Forall asymmetric allowed;
  (** Tenants that may publish hold a token in static mode. *)
  cs_publish tenant : au_mode (app_auth c) = StaticBearer → tenant ∈ au_publish_tenants (app_auth c) →
    ∃ token, au_bearer_tokens (app_auth c) !! token = Some tenant;
  cs_group : valid_kafka_group_id (kc_group_id (kf_consumer (app_kafka c))) = true;
  (** Destinations have ids of their own, queues the router accepts, valid
      filters and usable retry timing. *)
  cs_ids : NoDup (wd_id <$> wc_destinations (app_webhooks c));
  cs_destinations d : d ∈ wc_destinations (app_webhooks c) →
    1 ≤ wd_queue_capacity d ≤ rc_max_queue_capacity (app_router c) ∧ filter_ok (wd_filter d) ∧
    1 ≤ wd_max_attempts d ∧ 1 ≤ wd_initial_backoff_ms d ≤ wd_max_backoff_ms d;
  (** The topics of durable webhooks differ. *)
  cs_topics : wc_enabled (app_webhooks c) = true → wc_mode (app_webhooks c) = DurableMode →
    NoDup [dw_delivery_topic (wc_durable (app_webhooks c)); dw_retry_topic (wc_durable (app_webhooks c));
           dw_dead_letter_topic (wc_durable (app_webhooks c))];
}.

Lemma positive_fields l : negb (existsb (Z.eqb 0) l) = true → Forall (λ n, n ≠ 0) l.
Proof.
  rewrite negb_true_iff. induction l as [|n l IH]; cbn [existsb]; [constructor|].
  intros [Hn%Z.eqb_neq Hl]%orb_false_iff. constructor; [lia|auto].
Qed.

Lemma supported_configured names :
  forallb supported_algorithm names = true →
  ∃ allowed, configured_algorithms names = Ok allowed ∧ length allowed = length names.
Proof.
  induction names as [|name names IH]; simpl; [by exists []|].
  intros [Hn (allowed & Ha & Hl)%IH]%andb_true_iff. apply bool_decide_eq_true in Hn.
  rewrite Ha. repeat case_bool_decide; try (eexists; split; [done|]; simpl; congruence).
  exfalso. repeat (apply elem_of_cons in Hn as [Hn|Hn]; [congruence|]). by apply elem_of_nil in Hn.
Qed.

Lemma validate_destinations_Ok max seen ds :
  validate_destinations max seen ds = Ok tt →
  NoDup (wd_id <$> ds) ∧ (∀ d, d ∈ ds → wd_id d ∉ seen) ∧
  ∀ d, d ∈ ds → wd_queue_capacity d ≠ 0 ∧ wd_queue_capacity d ≤ max ∧ filter_ok (wd_filter d) ∧
    wd_max_attempts d ≠ 0 ∧ wd_initial_backoff_ms d ≠ 0 ∧
    wd_initial_backoff_ms d ≤ wd_max_backoff_ms d.
Proof.
  revert seen. induction ds as [|d ds IH]; intros seen Hv; cbn [validate_destinations] in Hv.
  { split_and!; [constructor|intros d []%elem_of_nil..]. }
  bind_step Hv as [], _.
  guard_step Hv as Hnew.
  guard_step Hv as Hpos.
  guard_step Hv as Hback.
  bind_step Hv as [], Hf%map_err_Ok%RouteFilter_validate_Ok.
  apply IH in Hv as (Hnd & Hseen & Hall). rewrite !orb_false_iff, !Z.eqb_neq, !Z.ltb_ge in Hpos.
  split_and!.
  - rewrite fmap_cons. constructor; [|done]. intros (d' & He & Hin)%list_elem_of_fmap.
    apply (Hseen d' Hin). rewrite <-He. set_solver.
  - intros d' [->|Hin]%elem_of_cons; [done|]. specialize (Hseen d' Hin). set_solver.
  - destruct Hpos as [[[[[? ?] ?] ?] ?] ?].
    intros d' [->|Hin]%elem_of_cons; [by split_and!|by apply Hall].
Qed.

(** The checks, one function at a time. *)
Lemma listener_and_limits_sound c :
  unsigned c → validate_listener_and_limits c = Ok tt →
  (∀ requested n, (∀ k, requested = Some k → 0 ≤ k) →
     resolve_stream_queue_capacity (app_api c) requested = Ok n →
     1 ≤ n ≤ rc_max_queue_capacity (app_router c)) ∧
  1 ≤ rc_default_queue_capacity (app_router c) ≤ rc_max_queue_capacity (app_router c) ∧
  (au_mode (app_auth c) = TrustedHeader ∨ au_mode (app_auth c) = ProxyMtls →
     sv_security_mode (app_server c) = ProtectedProxy) ∧
  (sv_security_mode (app_server c) = ProtectedProxy →
     au_mode (app_auth c) ≠ Disabled ∧
     ∃ http grpc, parse_socket_addr (sv_http_addr (app_server c)) = Some http ∧
       parse_socket_addr (sv_grpc_addr (app_server c)) = Some grpc ∧
       is_loopback http.1 = true ∧ is_loopback grpc.1 = true).
Proof.
  intros [Hr Hs _] Hv. unfold validate_listener_and_limits in Hv. cbv zeta in Hv.
  bind_step Hv as http, Hh%ok_or_Ok. bind_step Hv as grpc, Hg%ok_or_Ok.
  guard_step Hv as Hloop.
  guard_step Hv as Hdis.
  guard_step Hv as Hproxy.
  bind_step Hv as [], _.
  bind_step Hv as [], Hpos%ensure_Ok%positive_fields.
  bind_step Hv as [], _.
  guard_step Hv as Hdef.
  guard_step Hv as Hstream.
  apply ensure_Ok, negb_true_iff, Z.ltb_ge in Hv.
  rewrite !Forall_cons in Hpos. destruct Hpos as (Hp1 & Hp2 & Hp3 & Hp4 & _).
  pose proof (cfg_default_queue _ Hr). split_and!; try lia.
  - intros requested n Hn. unfold resolve_stream_queue_capacity.
    destruct ((_ =? 0) || (_ <? _)) eqn:E; intros Heq; [discriminate Heq|injection Heq as <-].
    apply orb_false_iff in E as [E1%Z.eqb_neq E2%Z.ltb_ge].
    destruct requested as [k|]; simpl in *; [specialize (Hn k eq_refl)|]; lia.
  - intros Hmode. destruct (sv_security_mode (app_server c)); [|done].
    rewrite bool_decide_eq_true_2 in Hproxy by done. done.
  - intros Hmode. rewrite Hmode, !bool_decide_eq_true_2 in * by done. simpl in *.
    apply orb_false_iff in Hloop as [L1%negb_false_iff L2%negb_false_iff].
    split; [by apply bool_decide_eq_false in Hdis|]. by exists http, grpc.
Qed.

Lemma kafka_and_auth_sound c :
  validate_kafka_and_auth c = Ok tt →
  (au_mode (app_auth c) = Jwt → ∃ allowed,
     configured_algorithms (jc_algorithms (au_jwt (app_auth c))) = Ok allowed ∧ allowed ≠ [] ∧
     Forall asymmetric allowed) ∧
  (∀ tenant, au_mode (app_auth c) = StaticBearer → tenant ∈ au_publish_tenants (app_auth c) →
     ∃ token, au_bearer_tokens (app_auth c) !! token = Some tenant) ∧
  valid_kafka_group_id (kc_group_id (kf_consumer (app_kafka c))) = true.
Proof.
  intros Hv. unfold validate_kafka_and_auth in Hv. cbv zeta in Hv.
  do 3 (bind_step Hv as [], _).
  guard_step Hv as Hgroup.
  do 4 (bind_step Hv as [], _). bind_step Hv as [], Hjwt.
  do 2 (bind_step Hv as [], _). apply ensure_Ok, negb_true_iff in Hv.
  split_and!; [| |done].
  - intros Hmode. rewrite bool_decide_eq_true_2 in Hjwt by done.
    apply bind_Ok in Hjwt as ([] & Hne%ensure_Ok%negb_true_iff & Hs%ensure_Ok).
    destruct (supported_configured _ Hs) as (allowed & Ha & Hl). exists allowed. split; [done|].
    split; [|by eapply configured_algorithms_asymmetric].
    intros ->. destruct (jc_algorithms _) eqn:E; [|done].
    rewrite !orb_false_iff, !bool_decide_eq_false in Hne. tauto.
  - intros tenant Hmode Hin. rewrite bool_decide_eq_true_2 in Hv by done. simpl in Hv.
    destruct (decide (tenant ∈ (map_to_list (au_bearer_tokens (app_auth c))).*2)) as [Ht|Ht].
    + apply list_elem_of_fmap in Ht as ([token t] & -> & Ht%elem_of_map_to_list). by exists token.
    + exfalso. apply elem_of_elements in Hin.
      assert (existsb (λ tenant, negb (bool_decide (tenant ∈ (map_to_list (au_bearer_tokens (app_auth c))).*2)))
        (elements (au_publish_tenants (app_auth c))) = true) as Hex; [|congruence].
      apply existsb_exists. exists tenant. split; [by apply list_elem_of_In|].
      by rewrite bool_decide_eq_false_2.
Qed.

Lemma webhooks_sound c :
  unsigned c → validate_webhooks c = Ok tt →
  NoDup (wd_id <$> wc_destinations (app_webhooks c)) ∧
  (∀ d, d ∈ wc_destinations (app_webhooks c) →
     1 ≤ wd_queue_capacity d ≤ rc_max_queue_capacity (app_router c) ∧ filter_ok (wd_filter d) ∧
     1 ≤ wd_max_attempts d ∧ 1 ≤ wd_initial_backoff_ms d ≤ wd_max_backoff_ms d) ∧
  (wc_enabled (app_webhooks c) = true → wc_mode (app_webhooks c) = DurableMode →
   NoDup [dw_delivery_topic (wc_durable (app_webhooks c)); dw_retry_topic (wc_durable (app_webhooks c));
          dw_dead_letter_topic (wc_durable (app_webhooks c))]).
Proof.
  intros [_ _ Hun] Hv. unfold validate_webhooks in Hv. cbv zeta in Hv.
  bind_step Hv as [], Hd. apply validate_destinations_Ok in Hv as (Hnd & _ & Hall).
  split_and!; [done| |].
  - intros d Hin. destruct (Hall d Hin) as (? & ? & ? & ? & ? & ?), (Hun d Hin) as (? & ? & ? & ?).
    split_and!; try done; lia.
  - intros He Hm. rewrite He, Hm in Hd. cbn [andb] in Hd. bind_step Hd as [], _.
    apply bind_Ok in Hd as ([] & Ht%ensure_Ok%negb_true_iff & _).
    rewrite !orb_false_iff, !bool_decide_eq_false in Ht. destruct Ht as [[T1 T2] T3].
    rewrite !NoDup_cons, !elem_of_cons, !elem_of_nil. split_and!; [naive_solver..|constructor].
Qed.

Lemma load_sound (lookup : string → option string) (c c' : AppConfig) :
  unsigned c → AppConfig_load lookup c = Ok c' → unsigned c' ∧ config_sound c'.
Proof.
  intros Hwidth Hload. unfold AppConfig_load in Hload. bind_step Hload as c1, Hid.
  bind_step Hload as [], Hv. injection Hload as ->.
  assert (unsigned c') as Hun.
  { unfold apply_runtime_identity in Hid. destruct (kf_group_id_suffix_env _); [|by simplify_eq].
    do 4 (bind_step Hid as ?, _). injection Hid as <-. destruct Hwidth. by split. }
  unfold AppConfig_validate in Hv. bind_step Hv as [], Hl.
  bind_step Hv as [], Hk. apply bind_Ok in Hv as ([] & _ & Hw).
  destruct (listener_and_limits_sound _ Hun Hl) as (? & ? & ? & ?).
  destruct (kafka_and_auth_sound _ Hk) as (? & ? & ?).
  destruct (webhooks_sound _ Hun Hw) as (? & ? & ?). by split.
Qed.

(** (C33) A configuration that loads is one the components can rely on:
    every queue capacity a stream may be given and every webhook queue is
    within the router's limits; proxy identities are only trusted on loopback
    listeners in protected mode, which never runs without authentication; JWT
    mode has at least one algorithm and only asymmetric ones; publishing
    tenants of static mode hold a token; the consumer group id, with the
    suffix from the environment, is valid; destinations have distinct ids,
    valid filters and usable retry timing, and durable topics differ. *)
Theorem loaded_config_sound (lookup : string → option string) (c c' : AppConfig)
    (Hwidth : unsigned c) (Hload : AppConfig_load lookup c = Ok c') : config_sound c'.
Proof. by apply (load_sound lookup c c' Hwidth Hload). Qed.

(** ** Concrete inputs *)

(** The default configuration behind a local proxy, with one webhook and a
    group id per pod. *)
Definition example_config : AppConfig := {|
  app_server := {| sv_http_addr := "127.0.0.1:8080"; sv_grpc_addr := "[::1]:9090";
                   sv_shutdown_grace_secs := 10; sv_security_mode := ProtectedProxy |};
  app_api := ApiConfig_default; app_router := RouterConfig_default;
  app_auth := {| au_mode := TrustedHeader; au_default_tenant := None;
                 au_tenant_header := "x-tenant-id"; au_bearer_tokens := ∅;
                 au_publish_tenants := ∅; au_jwt := JwtConfig_default;
                 au_proxy_identity_header := "x-client-identity"; au_proxy_identities := ∅ |};
  app_kafka := {| kf_group_id_suffix_env := Some "POD_NAME";
                  kf_consumer := KafkaConsumerConfig_default;
                  kf_producer := KafkaProducerConfig_default |};
  app_webhooks := {| wc_enabled := true; wc_mode := DurableMode;
                     wc_durable := DurableWebhookConfig_default;
                     wc_destinations := [example_good_destination] |};
  app_opentelemetry := OpenTelemetryConfig_default;
  app_kafka_readiness := KafkaReadinessConfig_default |}.

Example defaults_load :
  let c := {| app_server := ServerConfig_default; app_api := ApiConfig_default;
    app_router := RouterConfig_default; app_auth := AuthConfig_default;
    app_kafka := {| kf_group_id_suffix_env := None; kf_consumer := KafkaConsumerConfig_default;
                    kf_producer := KafkaProducerConfig_default |};
    app_webhooks := {| wc_enabled := false; wc_mode := Volatile;
                       wc_durable := DurableWebhookConfig_default; wc_destinations := [] |};
    app_opentelemetry := OpenTelemetryConfig_default;
    app_kafka_readiness := KafkaReadinessConfig_default |} in
  is_ok (AppConfig_load (λ _, None) c) = true.
Proof. vm_compute. reflexivity. Qed.

Lemma loaded_config_sound_witness :
  valid_kafka_group_id "kafka-edge-router-local.router-0" = true.
Proof.
  destruct (AppConfig_load (λ _, Some "router-0") example_config) as [c|e] eqn:E.
  - assert (config_sound c) as H.
    { apply (loaded_config_sound (λ _, Some "router-0") example_config c); [|exact E].
      split; [apply config_default_ok|vm_compute; discriminate|].
      intros d Hd. apply list_elem_of_singleton in Hd as ->. repeat split; vm_compute; discriminate. }
    assert (kc_group_id (kf_consumer (app_kafka c)) = "kafka-edge-router-local.router-0") as <-;
      [|exact (cs_group _ H)].
    assert ((λ c, kc_group_id (kf_consumer (app_kafka c))) <$>
      match AppConfig_load (λ _, Some "router-0") example_config with
      | Ok c => Some c | Err _ => None end = Some "kafka-edge-router-local.router-0") as Hg
      by (vm_compute; reflexivity).
    rewrite E in Hg. injection Hg as Hg. exact Hg.
  - assert (is_ok (AppConfig_load (λ _, Some "router-0") example_config) = true) as Hg
      by (vm_compute; reflexivity).
    rewrite E in Hg. discriminate Hg.
Defined.
