(* ===== verification/Startup.v ===== *)
(** * Composing the daemon

    [WebhookManager] (router-webhook/manager.rs) in its three modes, the
    constructors of the other components, and the composition [main] makes of
    them (routerd/main.rs) from a loaded configuration.  What the outside
    answers during start-up (the key file, the Kafka clients, the sockets) is
    a parameter. *)

From S2P Require Import Prelude Str Ids Message Route Metrics RouteIndex Channel Router.
From S2P Require Import RouterInv RouterDispatch RouterSpec RouterOps RouterExamples Kafka.
From S2P Require Import KafkaSpec Ingestor Limits Wire Auth Publish Security Webhook Durable.
From S2P Require Import DurableSpec DurableSink Pipeline Config.
Open Scope Z_scope.

(** ** The webhook manager *)

(** [WebhookManager]. *)
Record WebhookManager : Type := {
  wm_workers : list WebhookWorker;
  wm_durable_workers : list DurableWorker;
  wm_durable_sink : option DurableWebhookSink;
}.

Definition idle_manager : WebhookManager :=
  {| wm_workers := []; wm_durable_workers := []; wm_durable_sink := None |}.

(** [pre_commit_sink]; the log of a sink starts empty. *)
Definition pre_commit_sink (m : WebhookManager) : option LoggedSink :=
  (λ sink, {| ls_sink := sink; ls_published := [] |}) <$> wm_durable_sink m.

Section manager.
Context `{Mpsc Delivery Chan} `{UrlParser} `{HttpTypes}.
Implicit Types (r : RouterState Chan).

(** [WebhookManager::new]. *)
Definition WebhookManager_new (create : ClientConfig → option string) (fresh : nat → ConnectionId)
    (config : WebhookConfig) r : RouterState Chan * result WebhookError WebhookManager :=
  if negb (wc_enabled config) then (r, Ok idle_manager)
  else match wc_mode config with
  | Volatile =>
    match new_workers fresh 0 [] (wc_destinations config) r with
    | (r, Ok workers) =>
        (r, Ok {| wm_workers := workers; wm_durable_workers := []; wm_durable_sink := None |})
    | (r, Err e) => (r, Err e)
    end
  | DurableMode =>
    match build_durable_runtime create fresh config r with
    | (r, Ok runtime) =>
        (r, Ok {| wm_workers := []; wm_durable_workers := rt_workers runtime;
                  wm_durable_sink := Some (rt_sink runtime) |})
    | (r, Err e) => (r, Err e)
    end
  end.

(** Dropping the manager: its workers and its sink remove their connections. *)
Definition drop_manager (m : WebhookManager) r : RouterState Chan :=
  let r := drop_workers (wm_workers m) r in
  match wm_durable_sink m with Some sink => drop_sink sink r | None => r end.
End manager.

(** [WebhookManager::run]: without workers it waits for the shutdown; with
    workers it joins them, in the order they end. *)
Definition WebhookManager_run (m : WebhookManager) (joined : list (JoinResult * bool))
    : result WebhookError unit :=
  match wm_workers m, wm_durable_workers m with
  | [], [] => Ok tt
  | _, _ => manager_run joined
  end.

(** What the modes promise of a manager that was built. *)
Definition manager_serves `{UrlParser, HttpTypes} {Chan} (create : ClientConfig → option string)
    (fresh : nat → ConnectionId) (config : WebhookConfig)
    (m : WebhookManager) (r0 r : RouterState Chan) : Prop :=
  if negb (wc_enabled config) then m = idle_manager ∧ r = r0
  else match wc_mode config with
  | Volatile =>
      wm_durable_workers m = [] ∧ wm_durable_sink m = None ∧
      Forall2 (attached r) (wm_workers m) (wc_destinations config)
  | DurableMode =>
      wm_workers m = [] ∧
      Forall2 (λ w d, DurableWorker_new create d (wc_durable config) = Ok w)
        (wm_durable_workers m) (wc_destinations config) ∧
      ∃ sink, wm_durable_sink m = Some sink ∧
        sk_topic sink = dw_delivery_topic (wc_durable config) ∧
        sk_max_record_bytes sink = dw_max_record_bytes (wc_durable config) ∧
        ∀ j d, wc_destinations config !! j = Some d → listed fresh j d (sk_routes sink)
  end.

Section managed.
Context `{MpscLaws Delivery Chan} `{UrlParser} `{HttpTypes}.
Context (create : ClientConfig → option string) (fresh : nat → ConnectionId) `{!Inj (=) (=) fresh}.
Implicit Types (r : RouterState Chan).

Lemma manager_spec config r r' res :
  router_ok r → (∀ j, r_connections r !! fresh j = None) →
  (∀ d, d ∈ wc_destinations config → 0 ≤ wd_queue_capacity d) →
  WebhookManager_new create fresh config r = (r', res) →
  match res with
  | Ok m => router_ok r' ∧ durable_ready (option_list (pre_commit_sink m)) r' ∧
      manager_serves create fresh config m r r' ∧ same_subscriptions (drop_manager m r') r
  | Err _ => same_subscriptions r' r
  end.
Proof.
  intros Hok Hnew Hcap Hrun. unfold WebhookManager_new in Hrun. unfold manager_serves.
  destruct (negb (wc_enabled config)); [by simplify_eq|].
  destruct (wc_mode config).
  - destruct (new_workers fresh 0 [] (wc_destinations config) r) as [r1 res1] eqn:E.
    assert (∀ w, w ∈ [] → ∃ j, (j < 0)%nat ∧ ww_connection_id w = fresh j) as Hnone
      by (by intros w ?%elem_of_nil).
    pose proof (new_workers_spec fresh _ 0 [] r r _ _ _ (proj1 Hok) Hok Hnew Hnone Hcap
      (extends_by_refl _ _) E) as Hspec. clear E.
    destruct res1 as [workers|e]; simplify_eq; [|done].
    destruct Hspec as (Hok' & Hext & Hids & added & -> & Hatt & _). split_and!; [done..|].
    unfold drop_manager. simpl. apply unregister_all_restores; [apply Hok|apply Hok'| |done].
    intros c (w & -> & Hin)%list_elem_of_fmap. destruct (Hids w Hin) as [j ->]. apply Hnew.
  - destruct (build_durable_runtime create fresh config r) as [r1 res1] eqn:E.
    apply build_durable_runtime_spec in E; [|done..].
    destruct res1 as [runtime|e]; simplify_eq; [|done].
    destruct E as (Hok' & Hsink & Hlen & Ht & Hs & Hl & _ & Hdrop). split_and!; try done. by eexists.
Qed.

(** (C25) Setting up webhooks is all or nothing, in every mode.  When it fails
    the connections and the index of the router are those of before.  When it
    succeeds the router is well formed; disabled webhooks leave it as it was;
    volatile ones have a worker per destination, in order, whose connection
    carries exactly the destination's filter; durable ones have the worker of
    each destination, in order, and a commit barrier that lists every
    destination, writes to the topic the workers read, and is ready for the
    first message; and dropping the manager undoes it all. *)
Theorem webhook_manager_all_or_nothing config r r' res
    (Hok : router_ok r) (Hnew : ∀ j, r_connections r !! fresh j = None)
    (Hcap : ∀ d, d ∈ wc_destinations config → 0 ≤ wd_queue_capacity d)
    (Hrun : WebhookManager_new create fresh config r = (r', res)) :
  match res with
  | Ok m => router_ok r' ∧ durable_ready (option_list (pre_commit_sink m)) r' ∧
      manager_serves create fresh config m r r' ∧ same_subscriptions (drop_manager m r') r
  | Err _ => same_subscriptions r' r
  end.
Proof. by apply manager_spec. Qed.
End managed.

(** ** The other constructors *)

(** [KafkaIngestError]. *)
Inductive KafkaIngestError : Type :=
| Create (text : string)
| Subscribe (text : string).

Section constructors.
Context `{Mpsc Delivery Chan} `{MimeParser} {Key : Type}.
Implicit Types (r : RouterState Chan).

(** [KafkaPublisher::new]: the publisher sends through the client it created. *)
Definition KafkaPublisher_new (create : ClientConfig → option string)
    (send : FutureRecord → result KafkaError (Z * Z)) (config : KafkaProducerConfig)
    : result string (PublishCommand → result PublishError PublishReceipt) :=
  match create (producer_client_config config) with
  | Some error => Err error
  | None => Ok (publish config send)
  end.

(** [KafkaIngestor::with_pre_commit_sinks]. *)
Definition with_pre_commit_sinks (create : ClientConfig → option string)
    (subscribe_to : list string → option string) (config : KafkaConsumerConfig) r
    (sinks : list LoggedSink) : result KafkaIngestError (Ingestor Chan LoggedSink) :=
  match create (consumer_client_config config) with
  | Some error => Err (Create error)
  | None =>
    match subscribe_to (kc_topics config) with
    | Some error => Err (Subscribe error)
    | None =>
      Ok {| ig_router := r; ig_max_payload_bytes := kc_max_payload_bytes config;
            ig_commit_invalid_messages := kc_commit_invalid_messages config;
            ig_sinks := sinks; ig_health := KafkaHealth_default; ig_log := [] |}
    end
  end.

(** [ApiState::with_authenticator]; the limiter's first window starts now. *)
Definition with_authenticator r (authenticator : Authenticator Key)
    (publisher : option (PublishCommand → result PublishError PublishReceipt))
    (health : HealthState) (config : ApiConfig) (now : Z) : ApiState Chan Key := {|
  as_config := config; as_router := r; as_auth := authenticator; as_publisher := publisher;
  as_health := health; as_limiter := AbuseLimiter_new now |}.
End constructors.

(** ** [main] up to the spawning of the components *)

(** What the outside answers: the key file, the creation of a client, the
    subscription to topics, sends, fresh connection ids, binding an address,
    and the clock. *)
Record Outside : Type := {
  os_jwks_metadata : result string Z;
  os_jwks_content : result string string;
  os_create : ClientConfig → option string;
  os_subscribe : list string → option string;
  os_send : FutureRecord → result KafkaError (Z * Z);
  os_fresh : nat → ConnectionId;
  os_bind : string → option string;
  os_now : Z;
}.

(** The contexts under which [main] gives up. *)
Inductive StartError : Type :=
| JwksNotLoaded (text : string)
| ProducerNotConstructed (text : string)
| WebhooksNotConstructed (error : WebhookError)
| ConsumerNotConstructed (error : KafkaIngestError)
| HttpNotBound (address text : string)
| GrpcNotBound (address text : string).

(** [bind_listeners]. *)
Definition bind_listeners (bind : string → option string) (server : ServerConfig)
    : result StartError unit :=
  match bind (sv_http_addr server) with
  | Some text => Err (HttpNotBound (sv_http_addr server) text)
  | None =>
    match bind (sv_grpc_addr server) with
    | Some text => Err (GrpcNotBound (sv_grpc_addr server) text)
    | None => Ok tt
    end
  end.

(** The components that [main] spawns. *)
Record Components (Chan Key : Type) : Type := {
  cp_api : ApiState Chan Key;
  cp_ingestor : Ingestor Chan LoggedSink;
  cp_manager : WebhookManager;
}.
Arguments cp_api {Chan Key} _.
Arguments cp_ingestor {Chan Key} _.
Arguments cp_manager {Chan Key} _.

Section composition.
Context `{Mpsc Delivery Chan} `{UrlParser} `{HttpTypes} `{JwtLibrary Key} `{MimeParser}.

Definition compose (o : Outside) (c : AppConfig) : result StartError (Components Chan Key) :=
  let '(authenticator, loaded) :=
    reload_jwks (os_jwks_metadata o) (os_jwks_content o) (Authenticator_new (app_auth c)) in
  _ ← map_err JwksNotLoaded loaded;
  let health := set_live true HealthState_default in
  publisher ← (if kpc_enabled (kf_producer (app_kafka c)) then
      Some <$> map_err ProducerNotConstructed
        (KafkaPublisher_new (os_create o) (os_send o) (kf_producer (app_kafka c)))
    else Ok None);
  let '(router, built) :=
    WebhookManager_new (os_create o) (os_fresh o) (app_webhooks c) (Router_new (app_router c)) in
  manager ← map_err WebhooksNotConstructed built;
  ingestor ← map_err ConsumerNotConstructed
    (with_pre_commit_sinks (os_create o) (os_subscribe o) (kf_consumer (app_kafka c)) router
      (option_list (pre_commit_sink manager)));
  let api := with_authenticator router authenticator publisher health (app_api c) (os_now o) in
  _ ← bind_listeners (os_bind o) (app_server c);
  Ok {| cp_api := api; cp_ingestor := ingestor; cp_manager := manager |}.
End composition.

(** ** Refreshing the keys *)

(** A turn of the refresh task: a tick, with the key file as it is read, or a
    change of the shutdown channel. *)
Inductive RefreshEvent : Type :=
| RefreshTick (metadata : result string Z) (content : result string string)
| RefreshShutdown (changed_is_err value : bool).

(** The refresh task; it is spawned only when there is an interval. *)
Fixpoint jwks_refresh `{JwtLibrary Key} (events : list RefreshEvent) (a : Authenticator Key)
    : Authenticator Key :=
  match events with
  | [] => a
  | RefreshTick metadata content :: rest => jwks_refresh rest (reload_jwks metadata content a).1
  | RefreshShutdown err value :: rest => if err || value then a else jwks_refresh rest a
  end.

(** ** A daemon that has started *)

Section started.
Context `{MpscLaws Delivery Chan} `{UrlParser} `{HttpTypes} `{JwtLibrary Key} `{MimeParser}.
Context `{JsonCodec} `{Base64} `{RecordCodec}.
Implicit Types (d : Components Chan Key) (c : AppConfig) (o : Outside).

(** The components share one well-formed router and are configured by the
    sections of the configuration that are theirs. *)
Record composed c o d : Prop := {
  cd_router : ig_router (cp_ingestor d) = as_router (cp_api d);
  cd_ok : router_ok (as_router (cp_api d));
  cd_ready : durable_ready (ig_sinks (cp_ingestor d)) (ig_router (cp_ingestor d));
  cd_sinks : ig_sinks (cp_ingestor d) = option_list (pre_commit_sink (cp_manager d));
  cd_log : ig_log (cp_ingestor d) = [];
  cd_limit : ig_max_payload_bytes (cp_ingestor d) =
    kc_max_payload_bytes (kf_consumer (app_kafka c));
  cd_ingestor : ig_commit_invalid_messages (cp_ingestor d) =
    kc_commit_invalid_messages (kf_consumer (app_kafka c));
  cd_api : as_config (cp_api d) = app_api c ∧ an_config (as_auth (cp_api d)) = app_auth c;
  cd_webhooks : manager_serves (os_create o) (os_fresh o) (app_webhooks c) (cp_manager d)
    (Router_new (app_router c)) (as_router (cp_api d));
}.

Lemma compose_spec o c d :
  Inj (=) (=) (os_fresh o) → unsigned c → config_sound c → compose o c = Ok d → composed c o d.
Proof.
  intros Hinj Hun Hsound Hrun. unfold compose in Hrun.
  destruct (reload_jwks _ _ _) as [authenticator loaded] eqn:Ejwks.
  bind_step Hrun as [], Hloaded. cbv zeta in Hrun. bind_step Hrun as publisher, Hpub.
  destruct (WebhookManager_new _ _ _ _) as [router built] eqn:Emanager.
  bind_step Hrun as manager, Hmanager. apply map_err_Ok in Hmanager as ->.
  bind_step Hrun as ingestor, Hing. bind_step Hrun as [], Hbind. injection Hrun as <-.
  apply (manager_spec _ _ (app_webhooks c)) in Emanager;
    [|apply Router_new_ok, Hun|intros j; apply lookup_empty
     |intros dest Hin; pose proof (proj1 (cs_destinations _ Hsound _ Hin)); lia].
  destruct Emanager as (Hok & Hready & Hserves & _).
  unfold with_pre_commit_sinks in Hing. destruct (os_create o _); [done|].
  destruct (os_subscribe o _); [done|]. apply map_err_Ok in Hing. injection Hing as <-.
  split; simpl; try done. split; [done|].
  unfold reload_jwks in Ejwks. repeat case_match; by simplify_eq.
Qed.

(** Between one and [max_jwks_keys] keys. *)
Definition keys_loaded (a : Authenticator Key) : Prop :=
  1 ≤ Z.of_nat (size (an_jwks a)) ≤ jc_max_jwks_keys (au_jwt (an_config a)).

Lemma reload_keeps_keys metadata content (a : Authenticator Key) :
  au_mode (an_config a) = Jwt → keys_loaded a ∨ (reload_jwks metadata content a).2 = Ok tt →
  an_config (reload_jwks metadata content a).1 = an_config a ∧
  keys_loaded (reload_jwks metadata content a).1.
Proof.
  intros Hmode Hor. pose proof (reload_jwks_spec a metadata content) as Hspec.
  destruct (reload_jwks metadata content a) as [a' [[]|e]]; destruct Hspec as [Hcfg Hres]; simpl in *.
  - split; [done|]. destruct Hres as [[_ ?]|(len & bytes & jwks & _ & _ & _ & _ & Hsize & _)]; [done|].
    unfold keys_loaded. by rewrite Hcfg.
  - subst a'. by destruct Hor.
Qed.

(** A daemon that verifies tokens never runs without keys: when it has
    started in JWT mode, and whatever the key file holds at each later
    refresh, it has between one and the configured number of keys, and the
    authentication settings are those of the configuration. *)
Lemma started_daemon_has_keys o c d events
    (Hmode : au_mode (app_auth c) = Jwt) (Hstart : compose o c = Ok d) :
  let a := jwks_refresh events (as_auth (cp_api d)) in
  an_config a = app_auth c ∧ keys_loaded a.
Proof.
  assert (an_config (as_auth (cp_api d)) = app_auth c ∧ keys_loaded (as_auth (cp_api d))) as Hinit.
  { unfold compose in Hstart. destruct (reload_jwks _ _ _) as [a loaded] eqn:E.
    bind_step Hstart as [], Hloaded. apply map_err_Ok in Hloaded. cbv zeta in Hstart.
    bind_step Hstart as publisher, Hpub. destruct (WebhookManager_new _ _ _ _) as [router built].
    do 3 (bind_step Hstart as ?, _). injection Hstart as <-. simpl.
    pose proof (reload_keeps_keys (os_jwks_metadata o) (os_jwks_content o)
      (Authenticator_new (app_auth c)) Hmode) as Hkeep.
    rewrite E in Hkeep. simpl in Hkeep. apply Hkeep. by right. }
  simpl. revert Hinit. generalize (as_auth (cp_api d)). clear Hstart.
  induction events as [|[metadata content|err value] events IH]; intros a [Hcfg Hkeys]; simpl; [done| |].
  - destruct (reload_keeps_keys metadata content a) as [Hc Hk]; [congruence|by left|].
    apply IH. by rewrite Hc.
  - destruct (err || value); [done|by apply IH].
Qed.

(** (C10) From the configuration file to the durable records.  A daemon that
    starts with durable webhooks from a configuration that loads consumes
    without blocking or panicking, whatever it reads; and when it commits the
    offset of a message, a durable record of that message, as a first attempt,
    has been published for every destination of the configuration whose filter
    matches it.  The only other commits are of records that were rejected, and
    only if the configuration says so. *)
Theorem started_daemon_records lookup c0 c o d events
    (Hwidth : unsigned c0) (Hload : AppConfig_load lookup c0 = Ok c)
    (Hmode : wc_enabled (app_webhooks c) = true ∧ wc_mode (app_webhooks c) = DurableMode)
    (Hfresh : Inj (=) (=) (os_fresh o)) (Hstart : compose o c = Ok d)
    (Hevents : Forall event_ok events) :
  ∃ g' control s, run events (cp_ingestor d) = Some (g', control) ∧ router_ok (ig_router g') ∧
    ig_sinks g' = [s] ∧
    ∀ before pos ok after, ig_log g' = before ++ Committed pos ok :: after →
      (∃ m, md_source (rm_metadata m) = Some pos ∧ Dispatched m ∈ before ∧
         ∀ dest, dest ∈ wc_destinations (app_webhooks c) →
           RouteFilter_matches (wd_filter dest) (rm_metadata m) = true →
           ∃ record, record ∈ ls_published s ∧ dr_destination_id record = wd_id dest ∧
             dr_original_message_id record = md_message_id (rm_metadata m) ∧
             dr_attempt record = 1 ∧ dr_state record = DeliveryState)
      ∨ kc_commit_invalid_messages (kf_consumer (app_kafka c)) = true ∧
        ∃ error, Rejected pos error ∈ before.
Proof.
  destruct (load_sound _ _ _ Hwidth Hload) as [Hun Hsound].
  destruct (compose_spec o c d Hfresh Hun Hsound Hstart)
    as [Hr Hok Hready Hsinks Hlog _ Hci _ Hserves].
  unfold manager_serves in Hserves. destruct Hmode as [Hen Hm]. rewrite Hen, Hm in Hserves.
  destruct Hserves as (_ & _ & sink & Hsink & _ & _ & Hlisted).
  unfold pre_commit_sink in Hsinks. rewrite Hsink in Hsinks. simpl in Hsinks.
  rewrite Hsinks in Hready. rewrite Hr in Hready. rewrite <-Hr in Hok, Hready.
  destruct (durable_pipeline sink events (cp_ingestor d) Hevents Hok Hsinks Hready Hlog)
    as (g' & control & s & Hrun & Hok' & Hs & Hcommits).
  exists g', control, s. split_and!; [done..|]. intros before pos ok after Heq.
  destruct (Hcommits _ _ _ _ Heq) as [(m & Hsrc & Hdis & Hpair & Hrec)|Hrej];
    [left|right; by rewrite <-Hci].
  exists m. split_and!; [done..|]. intros dest Hdest Hmatch.
  apply list_elem_of_lookup in Hdest as [j Hj].
  apply (Hrec {| rd_id := wd_id dest; rd_receiver := os_fresh o j |}).
  apply listed_destination; auto.
  apply (cs_destinations _ Hsound). apply list_elem_of_lookup. eauto.
Qed.
End started.

(** ** Concrete inputs *)

#[local] Existing Instances example_json example_jwt padded KafkaSpec.example_mime
  example_http example_url_parser pipeline_codec.

(** An outside where everything works. *)
Definition example_outside : Outside := {|
  os_jwks_metadata := Ok 0; os_jwks_content := Ok ""; os_create := λ _, None;
  os_subscribe := λ _, None; os_send := λ _, Ok (0, 7); os_fresh := Z.of_nat;
  os_bind := λ _, None; os_now := 0 |}.

Definition example_loaded : result string AppConfig :=
  AppConfig_load (λ _, Some "router-0") example_config.

Lemma example_config_unsigned : unsigned example_config.
Proof.
  split; [apply config_default_ok|vm_compute; discriminate|].
  intros d Hd. apply list_elem_of_singleton in Hd as ->. repeat split; vm_compute; discriminate.
Qed.

(** The example configuration starts, with its webhook behind the barrier. *)
Example example_starts :
  match example_loaded with
  | Ok c =>
    match compose (Chan := Fifo Delivery) example_outside c with
    | Ok d => (length (ig_sinks (cp_ingestor d)), length (wm_durable_workers (cp_manager d)),
               wc_enabled (app_webhooks c), wc_mode (app_webhooks c))
              = (1%nat, 1%nat, true, DurableMode)
    | Err _ => False
    end
  | Err _ => False
  end.
Proof. vm_compute. reflexivity. Qed.

Lemma started_daemon_records_witness :
  ∃ (d : Components (Fifo Delivery) string) g' control,
    run pipeline_events (cp_ingestor d) = Some (g', control) ∧ router_ok (ig_router g').
Proof.
  pose proof example_starts as Hex. unfold example_loaded in Hex.
  destruct (AppConfig_load (λ _, Some "router-0") example_config) as [c|] eqn:Hload; [|destruct Hex].
  destruct (compose (Chan := Fifo Delivery) example_outside c) as [d|] eqn:Hstart; [|destruct Hex].
  injection Hex as _ _ Hen Hm.
  destruct (started_daemon_records (λ _, Some "router-0") example_config c example_outside d
    pipeline_events example_config_unsigned Hload (conj Hen Hm)
    ltac:(intros x y; apply Nat2Z.inj) Hstart pipeline_events_ok)
    as (g' & control & s & Hrun & Hok & _).
  exists d, g', control. split; [exact Hrun|exact Hok].
Defined.

(** Of two volatile destinations the second fails; the first is removed again. *)
Definition two_webhooks : WebhookConfig := {|
  wc_enabled := true; wc_mode := Volatile; wc_durable := DurableWebhookConfig_default;
  wc_destinations := [example_good_destination; example_bad_destination] |}.

Lemma webhook_manager_all_or_nothing_witness :
  let o := WebhookManager_new (Chan := Fifo Delivery) (λ _, None) Z.of_nat two_webhooks
             (Router_new RouterConfig_default) in
  is_ok o.2 = false ∧ same_subscriptions o.1 (Router_new RouterConfig_default).
Proof.
  intros o. assert (is_ok o.2 = false) as Hres by (vm_compute; reflexivity). split; [exact Hres|].
  pose proof (webhook_manager_all_or_nothing (λ _, None) Z.of_nat
    (Inj0 := ltac:(intros x y; apply Nat2Z.inj)) two_webhooks
    (Router_new RouterConfig_default : RouterState (Fifo Delivery)) o.1 o.2
    (Router_new_ok _ config_default_ok) ltac:(reflexivity)
    ltac:(intros d Hd; apply elem_of_cons in Hd as [->|Hd];
      [|apply list_elem_of_singleton in Hd as ->]; vm_compute; discriminate)
    (surjective_pairing o)) as H.
  destruct (o.2); [discriminate Hres|exact H].
Defined.

(** The example with token authentication and a key file. *)
Definition jwt_config : AppConfig := {|
  app_server := ServerConfig_default; app_api := ApiConfig_default;
  app_router := RouterConfig_default; app_auth := an_config example_auth;
  app_kafka := app_kafka example_config; app_webhooks := app_webhooks example_config;
  app_opentelemetry := OpenTelemetryConfig_default;
  app_kafka_readiness := KafkaReadinessConfig_default |}.
Definition jwt_outside : Outside := {|
  os_jwks_metadata := Ok 10; os_jwks_content := Ok "k1"; os_create := λ _, None;
  os_subscribe := λ _, None; os_send := λ _, Ok (0, 7); os_fresh := Z.of_nat;
  os_bind := λ _, None; os_now := 0 |}.

(** A refresh that cannot read the file, then one that reads another key. *)
Example keys_after_refreshes :
  ∃ d : Components (Fifo Delivery) string, compose jwt_outside jwt_config = Ok d ∧
    keys_loaded (jwks_refresh [RefreshTick (Err "gone") (Err "gone"); RefreshTick (Ok 9) (Ok "k2")]
                   (as_auth (cp_api d))).
Proof.
  destruct (compose (Chan := Fifo Delivery) jwt_outside jwt_config) as [d|] eqn:Hstart.
  - exists d. split; [reflexivity|].
    exact (proj2 (started_daemon_has_keys jwt_outside jwt_config d
      [RefreshTick (Err "gone") (Err "gone"); RefreshTick (Ok 9) (Ok "k2")] eq_refl Hstart)).
  - assert (is_ok (compose (Chan := Fifo Delivery) jwt_outside jwt_config) = true) as H
      by (vm_compute; reflexivity).
    rewrite Hstart in H. discriminate H.
Qed.
