(* ===== verification/AtLeastOnce.v ===== *)
(** * Durable webhooks from the source topic to the endpoint

    The two crash systems put together: the consumer with the durable sink in
    front of its commits, as the daemon composes it from its configuration at
    every start, and the worker of one destination of that configuration
    behind the delivery topic.  They share no state but the topic, fail and restart on
    their own, and run at the same time: while the consumer handles one
    record, the durable side makes any number of steps.  What ties them is the
    acknowledgement of the producer ([acks=all]): a record that
    [publish_record] reported as published is in the topic it was sent to. *)

From S2P Require Import Prelude Str Ids Message Route Metrics RouteIndex Channel Router.
From S2P Require Import RouterInv RouterDispatch RouterSpec RouterExamples TopicLog Kafka KafkaSpec.
From S2P Require Import Ingestor IngestorCrash Wire Auth Publish Security Webhook Durable.
From S2P Require Import DurableSpec DurableSink DurableCrash Pipeline Config Startup.
Open Scope Z_scope.

(** ** What the sink has published when it reports success *)

Section sink.
Context `{Mpsc Delivery Chan} `{JsonCodec} `{Base64} `{RecordCodec}.
Implicit Types (r : RouterState Chan) (m : RoutedMessage).

(** The first record of a message for a destination, as published within a
    size limit. *)
Definition first_record (limit : Z) m (destination : string) (record : DurableRecord) : Prop :=
  (∃ delivery uuid clock, record = delivery_record m delivery destination uuid clock ∧
     md_message_id (rm_metadata (d_message delivery)) = md_message_id (rm_metadata m)) ∧
  ∃ payload, record_to_vec record = Ok payload ∧ str_len payload ≤ limit.

Lemma persist_destinations_records sink m env i ds r r' records res :
  persist_destinations sink m env i ds r = Some (r', records, res) → res = Ok tt →
  Forall2 (λ d record, first_record (sk_max_record_bytes sink) m (rd_id d) record ∧
    ∃ j payload, record_to_vec record = Ok payload ∧
      pe_producer (env j) (sk_topic sink) (rd_id d) payload = None) ds records.
Proof.
  revert i r r' records. induction ds as [|d ds IH]; intros i r r' records; simpl.
  { intros [= _ <- _] _. constructor. }
  destruct (receive (rd_receiver d) r) as [[r1 [delivery| |]]|]; simpl; [|by try intros [= _ _ <-]..].
  case_bool_decide as Hid; [by intros [= _ _ <-]|].
  destruct (publish_record _ _ _ _) as [[]|e] eqn:Hpub; [|by intros [= _ _ <-]].
  destruct (persist_destinations sink m env (S i) ds _) as [[[r2 rest] res']|] eqn:Hrest; simpl; [|done].
  intros [= _ <- <-] Hres. constructor; [|by eapply IH].
  unfold publish_record in Hpub. bind_step Hpub as payload, Hvec%map_err_Ok.
  bind_step Hpub as [], Hlen%ensure_Ok%Z.leb_le. split; [split; [|eauto]|].
  - eexists _, _, _. split; [reflexivity|exact Hid].
  - exists i, payload. split; [done|]. by destruct (pe_producer _ _ _ _).
Qed.
End sink.

(** The record is in the topic. *)
Definition stored `{RecordCodec} (topic : string) (b : Broker) (record : DurableRecord) : Prop :=
  ∃ p o payload, record_to_vec record = Ok payload ∧ bk_log b !! (topic, p, o) = Some payload.

(** The producer of the sink acknowledges only what is in the topic it was
    sent to. *)
Definition acks_stored (b : Broker) (env : nat → nat → PersistEnv) : Prop :=
  ∀ i j topic key payload, pe_producer (env i j) topic key payload = None →
    ∃ p o, bk_log b !! (topic, p, o) = Some payload.

Section system.
Context `{MpscLaws Delivery Chan} `{UrlParser} `{HttpTypes} `{JwtLibrary Key} `{MimeParser}.
Context `{JsonCodec} `{Base64} `{RecordCodecLaws}.
Context (start : string → Z → Z) (config : AppConfig) (version : string) (w : DurableWorker).
Implicit Types (g : Ingestor Chan LoggedSink) (m : RoutedMessage).

#[local] Abbreviation consumer := (kf_consumer (app_kafka config)).
#[local] Abbreviation max_payload_bytes := (kc_max_payload_bytes consumer).
#[local] Abbreviation commit_invalid := (kc_commit_invalid_messages consumer).

(** The consumer of a daemon that has just started; the outside, and with it
    the ids of the connections, is another one at every start. *)
Definition started_consumer g : Prop :=
  ∃ o (d : Components Chan Key), Inj (=) (=) (os_fresh o) ∧ compose o config = Ok d ∧
    g = cp_ingestor d.

Record WholeSystem : Type := {
  ws_source : SourceSystem Chan LoggedSink;
  ws_durable : DurableSystem;
}.

#[local] Abbreviation source_step := (source_step start 1 max_payload_bytes commit_invalid).
#[local] Abbreviation durable_steps := (rtc (durable_step version w)).

(** The consumer does nothing, handles a record, or dies somewhere in it. *)
Inductive whole_step : WholeSystem → WholeSystem → Prop :=
| whole_other source' durable' sy :
    source_step (ws_source sy) source' → sr_history source' = sr_history (ws_source sy) →
    ig_sinks (sr_ingestor source') = ig_sinks (sr_ingestor (ws_source sy)) ∨
      started_consumer (sr_ingestor source') →
    durable_steps (ws_durable sy) durable' →
    whole_step sy {| ws_source := source'; ws_durable := durable' |}
| whole_record t p o record iter clock e1 e2 e3 e4 env ok g' l durable' sy :
    let source := ws_source sy in
    next_in (sr_topics source) t p (offset_at start (sr_positions source) t p) o record →
    handle_event (RecvRecord record iter clock e1 e2 e3 e4 env ok) (sr_ingestor source)
      = Some (g', Continue) →
    ig_log g' = ig_log (sr_ingestor source) ++ l →
    durable_steps (ws_durable sy) durable' →
    acks_stored (ds_broker durable') env →
    whole_step sy {| ws_source := {|
        sr_topics := sr_topics source; sr_committed := sr_committed source;
        sr_positions := <[(t, p) := o + 1]> (sr_positions source);
        sr_ingestor := g'; sr_history := sr_history source ++ l |};
      ws_durable := durable' |}
| whole_die t p o record iter clock e1 e2 e3 e4 env ok g' control l part g0 durable' sy :
    let source := ws_source sy in
    next_in (sr_topics source) t p (offset_at start (sr_positions source) t p) o record →
    handle_event (RecvRecord record iter clock e1 e2 e3 e4 env ok) (sr_ingestor source)
      = Some (g', control) →
    ig_log g' = ig_log (sr_ingestor source) ++ l → part `prefix_of` l →
    started_consumer g0 → configured 1 max_payload_bytes commit_invalid g0 →
    durable_steps (ws_durable sy) durable' →
    (∀ i m, Persisted i m ∈ part → acks_stored (ds_broker durable') env) →
    whole_step sy {| ws_source := {|
        sr_topics := sr_topics source; sr_committed := sr_committed source;
        sr_positions := sr_committed source; sr_ingestor := g0;
        sr_history := sr_history source ++ part |};
      ws_durable := durable' |}.

Definition whole_reachable (sy : WholeSystem) : Prop :=
  ∃ g s, started_consumer g ∧ configured 1 max_payload_bytes commit_invalid g ∧ fresh s ∧
    rtc whole_step {| ws_source := source_start g; ws_durable := durable_start s |} sy.

(** ** Lemmas *)

(** The broker keeps what it has. *)
Lemma applies_all_lookup l b b' k payload :
  applies_all l b b' → bk_log b !! k = Some payload → bk_log b' !! k = Some payload.
Proof.
  induction 1 as [b|e l b1 b2 b3 He _ IH]; [done|]. intros Hl. apply IH.
  destruct He as [|topic record pl p o b Hvec Hend|]; [done| |done].
  destruct k as [[t' p'] o']. by apply lookup_append; [apply Hend|].
Qed.

Lemma durable_steps_lookup sy sy' k payload :
  durable_steps sy sy' → bk_log (ds_broker sy) !! k = Some payload →
  bk_log (ds_broker sy') !! k = Some payload.
Proof.
  induction 1 as [|sy1 sy2 sy3 H12 _ IH]; [done|]. intros Hl. apply IH.
  destruct H12 as [t p o pl sy Hend|t p o pl s' l b' sy _ _ _ Happ|
    t p o pl s' ok l part b' s0 sy _ _ _ _ Happ _]; simpl; [|by eapply applies_all_lookup..].
  destruct k as [[t' p'] o']. by apply lookup_append; [apply Hend|].
Qed.

Lemma stored_steps topic sy sy' record :
  durable_steps sy sy' → stored topic (ds_broker sy) record → stored topic (ds_broker sy') record.
Proof. intros Hs (p & o & pl & Hvec & Hl). exists p, o, pl. split; [done|]. by eapply durable_steps_lookup. Qed.

(** *** One destination of a configuration that loads *)

Context (dest : WebhookDestinationConfig) (create : ClientConfig → option string).
#[local] Abbreviation durable := (wc_durable (app_webhooks config)).
Context (Hunsigned : unsigned config) (Hsound : config_sound config).
Context (Hmode : wc_enabled (app_webhooks config) = true ∧ wc_mode (app_webhooks config) = DurableMode).
Context (Hdest : dest ∈ wc_destinations (app_webhooks config)).
Context (Hworker : DurableWorker_new create dest durable = Ok w).

(** A consumer whose sink has the destination, and writes to the topic of the
    configuration. *)
Definition set_up g : Prop :=
  ∃ s, ig_sinks g = [s] ∧ sk_topic (ls_sink s) = dw_delivery_topic durable ∧
    sk_max_record_bytes (ls_sink s) = dw_max_record_bytes durable ∧
    ∀ m, message_paired m → RouteFilter_matches (wd_filter dest) (rm_metadata m) = true →
      wd_id dest ∈ rd_id <$> sink_destinations (ls_sink s) m.

Lemma started_set_up g : started_consumer g → set_up g.
Proof.
  intros (o & d & Hinj & Hrun & ->).
  destruct (compose_spec o config d Hinj Hunsigned Hsound Hrun) as [_ _ _ Hsinks _ _ _ _ Hserves].
  unfold manager_serves in Hserves. destruct Hmode as [Hen Hm]. rewrite Hen, Hm in Hserves.
  destruct Hserves as (_ & _ & sink & Hsink & Ht & Hs & Hlisted).
  unfold pre_commit_sink in Hsinks. rewrite Hsink in Hsinks.
  eexists. split_and!; [exact Hsinks|done..|]. intros m Hpair Hmatch. simpl.
  apply list_elem_of_lookup in Hdest as [j Hj]. apply list_elem_of_fmap.
  exists {| rd_id := wd_id dest; rd_receiver := os_fresh o j |}. split; [done|].
  apply listed_destination; [|done|by apply Hlisted|done].
  apply (cs_destinations _ Hsound). apply list_elem_of_lookup. eauto.
Qed.

Lemma worker_new_fields :
  de_id (dk_endpoint w) = wd_id dest ∧ de_max_attempts (dk_endpoint w) = wd_max_attempts dest ∧
  dk_delivery_topic w = dw_delivery_topic durable ∧ dk_max_record_bytes w = dw_max_record_bytes durable.
Proof.
  revert Hworker. unfold DurableWorker_new. intros Hw. bind_step Hw as e, He. bind_step Hw as [], _.
  injection Hw as <-. simpl. unfold DurableEndpoint_new in He. repeat bind_step He as ?, _.
  by simplify_eq/=.
Qed.

(** The destination has a first record of the message in the topic. *)
Definition recorded_at (b : Broker) m : Prop :=
  ∃ record, first_record (dw_max_record_bytes durable) m (wd_id dest) record ∧
    stored (dw_delivery_topic durable) b record.

(** Handling a record keeps the set-up, and what it reports as persisted is
    among the records it published. *)
Lemma handled_records record iter clock e1 e2 e3 e4 env ok g g' control l :
  set_up g →
  handle_event (RecvRecord record iter clock e1 e2 e3 e4 env ok) g = Some (g', control) →
  ig_log g' = ig_log g ++ l →
  set_up g' ∧ ∀ i m b, Persisted i m ∈ l →
    RouteFilter_matches (wd_filter dest) (rm_metadata m) = true → acks_stored b env → recorded_at b m.
Proof.
  intros (s & Hs & Htopic & Hlim & Hwant). simpl. unfold handle_record, set_up. rewrite Hs.
  destruct (decode_message record (ig_max_payload_bytes g)) as [msg|error] eqn:Hdec.
  2: { destruct (ig_commit_invalid_messages g); intros [= <- <-] <-%app_inv_head; simpl;
         (split; [eauto|set_solver]). }
  destruct (dispatch iter e2 e3 msg _) as [[router report]|]; simpl; [|done].
  unfold persist, durable_pre_commit_sink.
  destruct (sink_persist (ls_sink s) (env 0%nat) msg router) as [[[r2 records] res]|] eqn:Ep; simpl; [|done].
  destruct res as [[]|reason]; simpl; intros [= <- <-] <-%app_inv_head; simpl; (split; [eauto|]).
  2: { set_solver. }
  intros i m b Hin Hmatch Hacks. assert (m = msg) as ->.
  { rewrite !elem_of_cons in Hin. set_solver. }
  apply persist_destinations_records in Ep; [|done].
  specialize (Hwant _ (decoded_paired _ _ _ Hdec) Hmatch).
  apply list_elem_of_fmap in Hwant as (d & Hd & Hin').
  apply list_elem_of_lookup in Hin' as [j Hj].
  destruct (Forall2_lookup_l _ _ _ _ _ Ep Hj) as (first & Hf & Hfirst & k & payload & Hvec & Hack).
  exists first. rewrite Hd, <-Hlim, <-Htopic. split; [done|].
  destruct (Hacks _ _ _ _ _ Hack) as (p & o & Hl). by exists p, o, payload.
Qed.

(** ** What the system keeps *)

Record whole_inv (sy : WholeSystem) : Prop := {
  wi_source : source_inv start 1 max_payload_bytes commit_invalid (ws_source sy);
  wi_durable : durable_reachable version w (ws_durable sy);
  wi_set_up : set_up (sr_ingestor (ws_source sy));
  wi_recorded i m : Persisted i m ∈ sr_history (ws_source sy) →
    RouteFilter_matches (wd_filter dest) (rm_metadata m) = true →
    recorded_at (ds_broker (ws_durable sy)) m;
}.

Lemma durable_reachable_steps d d' :
  durable_reachable version w d → durable_steps d d' → durable_reachable version w d'.
Proof. intros (s & Hs & Hd) Hd'. exists s. split; [done|]. by etrans. Qed.

Lemma recorded_steps d d' m :
  durable_steps d d' → recorded_at (ds_broker d) m → recorded_at (ds_broker d') m.
Proof. intros Hd (first & Hf & Hst). exists first. split; [done|]. by eapply stored_steps. Qed.

(** The messages of a part of a record's effects, once what they report as
    persisted is stored. *)
Lemma recorded_part record iter clock e1 e2 e3 e4 env ok g g' control l part b i m :
  set_up g →
  handle_event (RecvRecord record iter clock e1 e2 e3 e4 env ok) g = Some (g', control) →
  ig_log g' = ig_log g ++ l → part `prefix_of` l → Persisted i m ∈ part →
  RouteFilter_matches (wd_filter dest) (rm_metadata m) = true → acks_stored b env → recorded_at b m.
Proof.
  intros Hg He Hl [rest ->] Hin Hmatch Hst.
  destruct (handled_records _ _ _ _ _ _ _ _ _ _ _ _ _ Hg He Hl) as [_ Hrec].
  apply (Hrec i m b); [set_solver|done|done].
Qed.

Lemma set_up_sinks g g' : ig_sinks g' = ig_sinks g → set_up g → set_up g'.
Proof. unfold set_up. by intros ->. Qed.

Lemma whole_step_inv sy sy' : whole_step sy sy' → whole_inv sy → whole_inv sy'.
Proof.
  destruct 1 as [source' d' sy Hs Hh Hup Hd
    |t p o record iter clock e1 e2 e3 e4 env ok g' l d' sy source Hn He Hl Hd Hst
    |t p o record iter clock e1 e2 e3 e4 env ok g' control l part g0 d' sy source Hn He Hl Hpart Hup Hg0 Hd Hst];
    intros [Hsrc Hdur Hset Hrec]; split; simpl; eauto using durable_reachable_steps, started_set_up.
  - by eapply source_inv_step.
  - destruct Hup as [Heq|Hup]; eauto using started_set_up, set_up_sinks.
  - rewrite Hh. eauto using recorded_steps.
  - eapply source_inv_step; [|done]. by eapply IngestorCrash.source_record.
  - by eapply handled_records.
  - intros i m [Hin|Hin]%elem_of_app Hmatch; [eauto using recorded_steps|].
    by eapply recorded_part; [..|exact Hin| |].
  - eapply source_inv_step; [|done]. by eapply IngestorCrash.source_die.
  - intros i m [Hin|Hin]%elem_of_app Hmatch; [eauto using recorded_steps|].
    by eapply recorded_part; [..|exact Hin| |eauto].
Qed.

Lemma whole_reachable_inv sy : whole_reachable sy → whole_inv sy.
Proof.
  intros (g & s & Hg & Hc & Hs & Hsteps).
  assert (whole_inv {| ws_source := source_start g; ws_durable := durable_start s |}) as Hstart.
  { split; simpl; [by apply source_inv_start|by exists s|by apply started_set_up|by intros i m ?%elem_of_nil]. }
  induction Hsteps; eauto using whole_step_inv.
Qed.

(** What is stored is read back by the worker. *)
Lemma stored_holds b m record :
  first_record (dw_max_record_bytes durable) m (wd_id dest) record →
  stored (dw_delivery_topic durable) b record →
  ∃ p o, holds w b (dk_delivery_topic w) p o (dr_delivery_id record).
Proof.
  destruct worker_new_fields as (<- & _ & <- & <-).
  intros ((delivery & uuid & clock & -> & _) & payload & Hvec & Hlen) (p & o & pl & Hvec' & Hl).
  rewrite Hvec in Hvec'. injection Hvec' as <-. exists p, o. split; [set_solver|].
  eexists payload, {| in_record := delivery_record _ _ _ _ _ |}. split; [done|].
  split; [|done]. unfold from_message. simpl. rewrite (proj2 (Z.leb_le _ _) Hlen). simpl.
  by rewrite (record_roundtrip _ _ Hvec).
Qed.

Lemma reached_records sy t p o record m :
  wd_max_attempts dest ≤ u32_max → whole_reachable sy →
  sr_topics (ws_source sy) !! (t, p, o) = Some record →
  start t p ≤ o < offset_at start (sr_committed (ws_source sy)) t p →
  decode_message record max_payload_bytes = Ok m →
  RouteFilter_matches (wd_filter dest) (rm_metadata m) = true →
  ∃ first, first_record (dw_max_record_bytes durable) m (wd_id dest) first ∧
    stored (dw_delivery_topic durable) (ds_broker (ws_durable sy)) first ∧
    (finished w (dr_delivery_id first) (ds_history (ws_durable sy)) ∨
     pending w (ds_broker (ws_durable sy)) (dr_delivery_id first)).
Proof.
  intros Hattempts Hreach Hrecord Hpast Hdecode Hmatch.
  apply whole_reachable_inv in Hreach as [[_ _ Hc _ _] Hdur _ Hrec].
  pose proof (proj1 (Hc t p) _ _ Hrecord Hpast) as Hh. unfold record_handled in Hh.
  rewrite Hdecode in Hh. destruct Hh as [_ Hper].
  destruct (Hrec 0%nat m (Hper 0%nat ltac:(lia)) Hmatch) as (first & Hf & Hst).
  exists first. split_and!; [done..|]. destruct (stored_holds _ _ _ Hf Hst) as (p' & o' & Hh).
  eapply ac_records; [|exact Hh]. rewrite <-(proj1 (proj2 worker_new_fields)) in Hattempts.
  by apply (so_accounted _ _ (durable_reachable_ok _ _ Hattempts _ Hdur)).
Qed.
End system.

Section at_least_once.
Context `{MpscLaws Delivery Chan} `{UrlParser} `{HttpTypes} `{JwtLibrary Key} `{MimeParser}.
Context `{JsonCodec} `{Base64} `{RecordCodecLaws}.

(** (C3) Durable webhooks are delivered at least once, from the source topic
    on.  Take a configuration that loads, with durable webhooks, and the
    worker that is built for one of its destinations.  In every state the
    consumer and that worker can reach together, through any crashes, restarts
    of the daemon, rebalances and late commits on either side: for each source
    record the consumer group has moved past that decodes to a message the
    destination's filter matches, a first durable record of that message for
    the destination is in the configured delivery topic, and its delivery was
    accepted by the endpoint, is in the dead-letter topic, or still has a
    record the worker is to read. *)
Theorem durable_at_least_once start lookup c0 config version w create dest
    (sy : WholeSystem (Chan := Chan)) t p o record m
    (Hwidth : unsigned c0) (Hload : AppConfig_load lookup c0 = Ok config)
    (Hmode : wc_enabled (app_webhooks config) = true ∧ wc_mode (app_webhooks config) = DurableMode)
    (Hdest : dest ∈ wc_destinations (app_webhooks config)) (Hattempts : wd_max_attempts dest ≤ u32_max)
    (Hworker : DurableWorker_new create dest (wc_durable (app_webhooks config)) = Ok w)
    (Hreach : whole_reachable (Key := Key) start config version w sy)
    (Hrecord : sr_topics (ws_source sy) !! (t, p, o) = Some record)
    (Hpast : start t p ≤ o < offset_at start (sr_committed (ws_source sy)) t p)
    (Hdecode : decode_message record (kc_max_payload_bytes (kf_consumer (app_kafka config))) = Ok m)
    (Hmatch : RouteFilter_matches (wd_filter dest) (rm_metadata m) = true) :
  let durable := wc_durable (app_webhooks config) in
  ∃ first, first_record (dw_max_record_bytes durable) m (wd_id dest) first ∧
    stored (dw_delivery_topic durable) (ds_broker (ws_durable sy)) first ∧
    (finished w (dr_delivery_id first) (ds_history (ws_durable sy)) ∨
     pending w (ds_broker (ws_durable sy)) (dr_delivery_id first)).
Proof.
  destruct (load_sound _ _ _ Hwidth Hload) as [Hun Hsound].
  exact (reached_records start config version w dest create Hun Hsound Hmode Hdest Hworker
    sy t p o record m Hattempts Hreach Hrecord Hpast Hdecode Hmatch).
Qed.
End at_least_once.

(** ** A concrete history *)

#[local] Existing Instances example_json example_http example_url_parser example_jwt padded
  KafkaSpec.example_mime example_codec example_codec_laws.

(** The example configuration with a durable destination for everything of a
    tenant, the daemon it starts, and the worker of the destination. *)
Definition whole_destination : WebhookDestinationConfig :=
  WebhookDestinationConfig_default "hook" "https://hooks.example.com/in" (tenant_filter "t").
Definition whole_file : AppConfig := {|
  app_server := app_server example_config; app_api := app_api example_config;
  app_router := app_router example_config; app_auth := app_auth example_config;
  app_kafka := app_kafka example_config;
  app_webhooks := {| wc_enabled := true; wc_mode := DurableMode;
                     wc_durable := DurableWebhookConfig_default;
                     wc_destinations := [whole_destination] |};
  app_opentelemetry := app_opentelemetry example_config;
  app_kafka_readiness := app_kafka_readiness example_config |}.
Definition whole_config : AppConfig :=
  match AppConfig_load (λ _, Some "router-0") whole_file with Ok c => c | Err _ => whole_file end.
Definition whole_consumer : Ingestor (Fifo Delivery) LoggedSink :=
  match compose (Chan := Fifo Delivery) example_outside whole_config with
  | Ok d => cp_ingestor d
  | Err _ => {| ig_router := Router_new RouterConfig_default; ig_max_payload_bytes := 0;
                ig_commit_invalid_messages := false; ig_sinks := [];
                ig_health := KafkaHealth_default; ig_log := [] |}
  end.
Definition whole_worker : DurableWorker :=
  match DurableWorker_new (λ _, None) whole_destination DurableWebhookConfig_default with
  | Ok w => w | Err _ => example_durable
  end.

(** A turn with a producer; the broker stores what a willing one is sent, and
    acknowledges nothing else. *)
Definition turn_with (producer : string → string → string → option string) : Event (nat → PersistEnv) :=
  RecvRecord KafkaSpec.example_record map_to_list 1 0 0 0 0
    (λ _ i, {| pe_uuid := pretty i; pe_clock := 0; pe_producer := producer |}) true.
Definition whole_topic : string := dw_delivery_topic DurableWebhookConfig_default.
Definition whole_payload : string :=
  match handle_event (turn_with (λ _ _ _, None)) whole_consumer with
  | Some (g, _) => from_option (λ record, digits (encode (record_tuple record))) ""
                     (head (ig_sinks g ≫= ls_published))
  | None => ""
  end.
Definition whole_producer (topic _ payload : string) : option string :=
  if bool_decide (topic = whole_topic ∧ payload = whole_payload) then None else Some "refused".
Definition whole_turn : Event (nat → PersistEnv) := turn_with whole_producer.
Definition whole_after : Ingestor (Fifo Delivery) LoggedSink :=
  from_option fst whole_consumer (handle_event whole_turn whole_consumer).

Lemma whole_unsigned : unsigned whole_file.
Proof.
  split; [apply config_default_ok|vm_compute; discriminate|].
  intros d Hd. apply list_elem_of_singleton in Hd as ->. repeat split; vm_compute; discriminate.
Qed.

Lemma whole_loads : AppConfig_load (λ _, Some "router-0") whole_file = Ok whole_config.
Proof.
  assert (is_ok (AppConfig_load (λ _, Some "router-0") whole_file) = true) as H by (vm_compute; reflexivity).
  unfold whole_config. by destruct (AppConfig_load _ _).
Qed.

Lemma whole_started : started_consumer (Key := string) whole_config whole_consumer.
Proof.
  assert (is_ok (compose (Chan := Fifo Delivery) example_outside whole_config) = true) as H
    by (vm_compute; reflexivity).
  unfold whole_consumer.
  destruct (compose (Chan := Fifo Delivery) example_outside whole_config) as [d|] eqn:E; [|discriminate H].
  exists example_outside, d. split_and!; [intros x y; apply Nat2Z.inj|exact E|reflexivity].
Qed.

Lemma whole_configured :
  configured 1 (kc_max_payload_bytes (kf_consumer (app_kafka whole_config)))
    (kc_commit_invalid_messages (kf_consumer (app_kafka whole_config))) whole_consumer.
Proof. split_and!; vm_compute; reflexivity. Qed.

Lemma whole_handled : handle_event whole_turn whole_consumer = Some (whole_after, Continue).
Proof.
  unfold whole_after.
  assert (match handle_event whole_turn whole_consumer with
          | Some (_, Continue) => true | _ => false end = true) as Hc by (vm_compute; reflexivity).
  by destruct (handle_event _ _) as [[g []]|].
Qed.

(** The record is appended and handled, its durable record is written, and the
    commit arrives. *)
Definition whole_history : WholeSystem := {|
  ws_source := {|
    sr_topics := {[("router.input", 0, 9) := KafkaSpec.example_record]};
    sr_committed := {[("router.input", 0) := 10]}; sr_positions := {[("router.input", 0) := 10]};
    sr_ingestor := whole_after; sr_history := ig_log whole_after |};
  ws_durable := {|
    ds_broker := append_at whole_topic 0 0 whole_payload {| bk_log := ∅; bk_committed := ∅ |};
    ds_positions := ∅; ds_worker := fresh_worker; ds_history := [] |} |}.

Lemma whole_acks :
  acks_stored (ds_broker (ws_durable whole_history))
    (λ _ i, {| pe_uuid := pretty i; pe_clock := 0; pe_producer := whole_producer |}).
Proof.
  intros i j topic key payload. cbn [pe_producer]. unfold whole_producer.
  case_bool_decide as Heq; [|discriminate]. destruct Heq as [-> ->]. intros _.
  exists 0, 0. apply lookup_insert_eq.
Qed.

Lemma whole_next :
  next_in {[("router.input", 0, 9) := KafkaSpec.example_record]} "router.input" 0 0 9
    KafkaSpec.example_record.
Proof.
  split_and!; [by simplify_map_eq|lia|]. intros o' Ho. rewrite lookup_singleton_ne; [done|].
  intros [=]. lia.
Qed.

Lemma whole_reached :
  whole_reachable (Key := string) (λ _ _, 0) whole_config "1" whole_worker whole_history.
Proof.
  pose proof whole_handled as Hrun. pose proof whole_configured as Hg.
  destruct (record_effects 1 _ _ _ _ _ _ _ _ _ _ _ _ _ _ (ig_log whole_after) Hg Hrun)
    as (_ & before & _ & [[[=] _]|[Hlog _]]); [reflexivity|].
  exists whole_consumer, fresh_worker. split_and!; [exact whole_started|exact Hg|reflexivity|].
  eapply rtc_l; [eapply whole_other; [eapply (source_append _ _ _ _ "router.input" 0 9
    KafkaSpec.example_record); [reflexivity|]|reflexivity|left; reflexivity|reflexivity]|].
  { intros o' [? Hl]. discriminate Hl. }
  eapply rtc_l; [eapply (whole_record _ _ _ _ "router.input" 0 9 KafkaSpec.example_record);
    [|exact Hrun|by instantiate (1 := ig_log whole_after)| |exact whole_acks]|].
  { exact whole_next. }
  { apply rtc_once, (step_produce _ _ whole_topic 0 0 whole_payload).
    split; [change (0 ≤ 0 < i64_max); unfold i64_max; lia|].
    intros o' [pl Hl]. discriminate Hl. }
  apply rtc_once. apply (whole_other _ _ _ _ (ws_source whole_history));
    [|reflexivity|left; reflexivity|reflexivity].
  apply (source_commit _ _ _ _ (position_of KafkaSpec.example_record)).
  assert (Committed (position_of KafkaSpec.example_record) true ∈ ig_log whole_after) as Hin
    by (rewrite Hlog; apply elem_of_app; right; left). exact Hin.
Qed.

Lemma durable_at_least_once_witness :
  ∃ m first, RouteFilter_matches (tenant_filter "t") (rm_metadata m) = true ∧
    stored whole_topic (ds_broker (ws_durable whole_history)) first ∧
    (finished whole_worker (dr_delivery_id first) (ds_history (ws_durable whole_history)) ∨
     pending whole_worker (ds_broker (ws_durable whole_history)) (dr_delivery_id first)).
Proof.
  set (limit := kc_max_payload_bytes (kf_consumer (app_kafka whole_config))).
  assert (match decode_message KafkaSpec.example_record limit with
          | Ok m => RouteFilter_matches (wd_filter whole_destination) (rm_metadata m)
          | Err _ => false end = true) as Hm by (vm_compute; reflexivity).
  destruct (decode_message KafkaSpec.example_record limit) as [m|] eqn:Hdecode; [|discriminate Hm].
  destruct (durable_at_least_once (λ _ _, 0) (λ _, Some "router-0") whole_file whole_config "1"
    whole_worker (λ _, None) whole_destination whole_history "router.input" 0 9 KafkaSpec.example_record m
    whole_unsigned whole_loads ltac:(split; vm_compute; reflexivity) ltac:(left)
    ltac:(vm_compute; discriminate) ltac:(vm_compute; reflexivity) whole_reached
    ltac:(reflexivity) ltac:(vm_compute; split; congruence) Hdecode Hm)
    as (first & _ & Hst & H).
  exists m, first. split; [exact Hm|]. split; [exact Hst|exact H].
Defined.
