(* ===== verification/Lifecycle.v ===== *)
(** * The lifecycle of the process: readiness, gRPC health and shutdown

    [main] composes the daemon and runs its components as concurrent tasks;
    this file models what they do to the health gates: the end of the
    composition and [drain_components] (routerd/main.rs), the readiness
    monitor (routerd/readiness.rs), and the part of [serve_grpc] that reports
    health together with [monitor_grpc_health] (router-api/grpc.rs).  Each
    access to a shared object (the readiness flag, the watch channel, the
    health reporter, the shutdown channel, the set of tasks) is one turn of its
    task, and any task may take the next turn; time passes in turns of its own.
    A turn is a function, so that runs evaluate; the step relation forgets
    which turn was taken. *)

From S2P Require Import Prelude Limits Config.
Open Scope Z_scope.

(** The two halves of [HealthState::set_ready]: the flag, then the channel. *)
Definition store_ready (value : bool) (h : HealthState) : HealthState :=
  {| hs_live := hs_live h; hs_ready := value; hs_ready_changes := hs_ready_changes h |}.
Definition publish_ready (value : bool) (h : HealthState) : HealthState :=
  {| hs_live := hs_live h; hs_ready := hs_ready h;
     hs_ready_changes := send_replace value (hs_ready_changes h) |}.

Lemma set_ready_halves value h : set_ready value h = publish_ready value (store_ready value h).
Proof. done. Qed.

(** ** What [main] waits for *)

(** A component's task returns its name and its result; joining it fails when
    it panicked or was cancelled. *)
Definition TaskResult : Type := string * result string unit.
Definition Outcome : Type := result string TaskResult.

(** What [shutdown_signal] waits for. *)
Inductive SignalEvent : Type :=
| CtrlC (res : result string unit)
| Terminate.

(** [shutdown_signal], with whether the handler of [SIGTERM] could be set up. *)
Definition shutdown_signal (registered : result string unit) (event : SignalEvent)
    : result string string :=
  _ ← registered;
  match event with
  | CtrlC res => _ ← res; Ok "SIGINT"
  | Terminate => Ok "SIGTERM"
  end.

(** The branches of the [select!]: [shutdown_signal], or what [join_next]
    returns. *)
Inductive Stopped : Type :=
| SignalStop (registered : result string unit) (event : SignalEvent)
| JoinStop (component : option Outcome).

(** The [JoinSet]: the names of the running tasks other than the gRPC server
    and the readiness monitor, whose positions are modelled, the outcomes of
    tasks that ended and are not joined, those the drain has joined, and
    whether the rest was aborted. *)
Record JoinSet : Type := {
  js_running : list string;
  js_ended : list Outcome;
  js_joined : list Outcome;
  js_aborted : bool;
}.

(** A task ends: its outcome waits to be joined. *)
Definition task_ended (outcome : Outcome) (js : JoinSet) : JoinSet :=
  {| js_running := js_running js; js_ended := js_ended js ++ [outcome]; js_joined := js_joined js;
     js_aborted := js_aborted js |}.

(** [abort_all]; the tasks are cancelled where they await, see [turn]. *)
Definition abort_all (js : JoinSet) : JoinSet :=
  {| js_running := js_running js; js_ended := js_ended js; js_joined := js_joined js;
     js_aborted := true |}.

(** The [i]-th of the running tasks is no longer running. *)
Definition task_gone (i : nat) (js : JoinSet) : JoinSet :=
  {| js_running := delete i (js_running js); js_ended := js_ended js; js_joined := js_joined js;
     js_aborted := js_aborted js |}.

(** ** The tasks *)

(** Where [main] is: after the components are spawned it either spawns the
    monitor or sets readiness itself; it waits for a signal or for a component
    to end; then it drains. *)
Inductive MainPc : Type :=
| Composing | ReadyStored | Waiting
| Draining | NotReadyStored | Withdrawn | Signalled | Joined | Aborting | Finished.

(** [monitor_kafka_readiness]: waiting in the [select], or inside [set_ready]. *)
Inductive MonitorPc : Type :=
| NotSpawned
| Polling (h : ReadinessHysteresis)
| Storing (value : bool) (h : ReadinessHysteresis)
| Publishing (value : bool) (h : ReadinessHysteresis)
| MonitorEnded.

(** [serve_grpc] and the watcher it spawns; [subscribed] is the version the
    receiver was created with and [seen] the one it has seen last. *)
Inductive GrpcPc : Type :=
| Spawned
| ReadinessRead (value : bool)
| Reported
| Watching (subscribed seen : nat)
| Notified (subscribed seen : nat)
| Applying (value : bool) (subscribed seen : nat)
| Unwatched
| GrpcEnded.

#[export] Instance MainPc_eq_dec : EqDecision MainPc.
Proof. solve_decision. Defined.

(** The shared objects and the tasks, what ended the wait of [main], the clock,
    and when the shutdown was signalled. *)
Record Daemon : Type := {
  sy_main : MainPc;
  sy_health : HealthState;
  sy_shutdown : bool;
  sy_monitor : MonitorPc;
  sy_grpc : GrpcPc;
  sy_serving : option bool;
  sy_tasks : JoinSet;
  sy_stop : option Stopped;
  sy_clock : Z;
  sy_signalled : option Z;
}.

Definition with_main (pc : MainPc) (h : HealthState) (s : Daemon) : Daemon :=
  {| sy_main := pc; sy_health := h; sy_shutdown := sy_shutdown s; sy_monitor := sy_monitor s;
     sy_grpc := sy_grpc s; sy_serving := sy_serving s; sy_tasks := sy_tasks s;
     sy_stop := sy_stop s; sy_clock := sy_clock s; sy_signalled := sy_signalled s |}.
Definition with_shutdown (s : Daemon) : Daemon :=
  {| sy_main := Signalled; sy_health := sy_health s; sy_shutdown := true; sy_monitor := sy_monitor s;
     sy_grpc := sy_grpc s; sy_serving := sy_serving s; sy_tasks := sy_tasks s;
     sy_stop := sy_stop s; sy_clock := sy_clock s; sy_signalled := Some (sy_clock s) |}.
Definition with_monitor (pc : MonitorPc) (h : HealthState) (s : Daemon) : Daemon :=
  {| sy_main := sy_main s; sy_health := h; sy_shutdown := sy_shutdown s; sy_monitor := pc;
     sy_grpc := sy_grpc s; sy_serving := sy_serving s; sy_tasks := sy_tasks s;
     sy_stop := sy_stop s; sy_clock := sy_clock s; sy_signalled := sy_signalled s |}.
Definition with_grpc (pc : GrpcPc) (serving : option bool) (s : Daemon) : Daemon :=
  {| sy_main := sy_main s; sy_health := sy_health s; sy_shutdown := sy_shutdown s;
     sy_monitor := sy_monitor s; sy_grpc := pc; sy_serving := serving; sy_tasks := sy_tasks s;
     sy_stop := sy_stop s; sy_clock := sy_clock s; sy_signalled := sy_signalled s |}.
Definition with_tasks (js : JoinSet) (s : Daemon) : Daemon :=
  {| sy_main := sy_main s; sy_health := sy_health s; sy_shutdown := sy_shutdown s;
     sy_monitor := sy_monitor s; sy_grpc := sy_grpc s; sy_serving := sy_serving s; sy_tasks := js;
     sy_stop := sy_stop s; sy_clock := sy_clock s; sy_signalled := sy_signalled s |}.
Definition with_stop (cause : Stopped) (s : Daemon) : Daemon :=
  {| sy_main := Draining; sy_health := sy_health s; sy_shutdown := sy_shutdown s;
     sy_monitor := sy_monitor s; sy_grpc := sy_grpc s; sy_serving := sy_serving s;
     sy_tasks := sy_tasks s; sy_stop := Some cause; sy_clock := sy_clock s;
     sy_signalled := sy_signalled s |}.
Definition with_clock (clock : Z) (s : Daemon) : Daemon :=
  {| sy_main := sy_main s; sy_health := sy_health s; sy_shutdown := sy_shutdown s;
     sy_monitor := sy_monitor s; sy_grpc := sy_grpc s; sy_serving := sy_serving s;
     sy_tasks := sy_tasks s; sy_stop := sy_stop s; sy_clock := clock;
     sy_signalled := sy_signalled s |}.

Definition version (s : Daemon) : nat := wt_version (hs_ready_changes (sy_health s)).
Definition published (s : Daemon) : bool := wt_value (hs_ready_changes (sy_health s)).

(** The moves of [main]: it goes on, a signal arrives, [join_next] returns the
    [i]-th outcome, or the deadline of the drain is noticed. *)
Inductive MainStep : Type :=
| Next
| Signal (registered : result string unit) (event : SignalEvent)
| JoinNext (i : nat)
| Deadline.

(** The moves of the tasks, and of time. *)
Inductive Turn : Type :=
| Main (step : MainStep)
| Elapse (seconds : Z)
| MonitorTick (kafka_healthy : bool)
| MonitorNext
| MonitorSeesShutdown
| MonitorCancelled
| GrpcNext
| GrpcEnd (outcome : Outcome)
| GrpcCancelled
| OtherEnds (i : nat) (outcome : Outcome)
| OtherCancelled (i : nat).

(** Every task has ended. *)
Definition all_ended (s : Daemon) : bool :=
  match sy_monitor s with NotSpawned | MonitorEnded => true | _ => false end &&
  match sy_grpc s with GrpcEnded => true | _ => false end &&
  match js_running (sy_tasks s) with [] => true | _ => false end.

(** [join_next] returns [None]: every task has ended and is joined. *)
Definition none_left (s : Daemon) : bool :=
  all_ended s && match js_ended (sy_tasks s) with [] => true | _ => false end.

(** [join_next] returns the [i]-th of the tasks that ended. *)
Definition join_next (i : nat) (s : Daemon) : option (Outcome * JoinSet) :=
  outcome ← js_ended (sy_tasks s) !! i;
  Some (outcome, {| js_running := js_running (sy_tasks s); js_ended := delete i (js_ended (sy_tasks s));
                    js_joined := js_joined (sy_tasks s); js_aborted := js_aborted (sy_tasks s) |}).

(** The drain keeps the outcome it joined. *)
Definition drain_joined (outcome : Outcome) (js : JoinSet) : JoinSet :=
  {| js_running := js_running js; js_ended := js_ended js; js_joined := js_joined js ++ [outcome];
     js_aborted := js_aborted js |}.

Section daemon.
Context (readiness : KafkaReadinessConfig) (api : ApiConfig).
(** The grace period, and which outcomes a component may end with, given
    whether the shutdown is signalled. *)
Context (grace : Z) (ends : bool → string → Outcome → bool).

(** The end of [main]'s composition: the monitor is spawned, or readiness is
    set at once. *)
Definition initial_readiness (s : Daemon) : option Daemon :=
  let h := sy_health s in
  match sy_main s with
  | Composing =>
      if kr_enabled readiness then
        Some (with_monitor (Polling (ReadinessHysteresis_new (kr_success_threshold readiness)
                                       (kr_failure_threshold readiness))) h
                (with_main Waiting h s))
      else Some (with_main ReadyStored (store_ready true h) s)
  | ReadyStored => Some (with_main Waiting (publish_ready true h) s)
  | _ => None
  end.

(** The [select!] of [main]: a signal, or the first task that ends. *)
Definition wait_for_stop (m : MainStep) (s : Daemon) : option Daemon :=
  match m with
  | Signal registered event => Some (with_stop (SignalStop registered event) s)
  | JoinNext i =>
      '(outcome, js) ← join_next i s; Some (with_stop (JoinStop (Some outcome)) (with_tasks js s))
  | Next => if none_left s then Some (with_stop (JoinStop None) s) else None
  | Deadline => None
  end.

(** The grace period since the signal is over. *)
Definition grace_over (s : Daemon) : bool :=
  match sy_signalled s with Some t => t + grace <=? sy_clock s | None => false end.

(** [drain_components]: readiness is withdrawn and the shutdown signalled; the
    tasks are joined one by one until none is left, or until the deadline is
    noticed, which aborts the rest; then liveness is withdrawn. *)
Definition drain_components (m : MainStep) (s : Daemon) : option Daemon :=
  let h := sy_health s in
  match sy_main s, m with
  | Draining, Next => Some (with_main NotReadyStored (store_ready false h) s)
  | NotReadyStored, Next => Some (with_main Withdrawn (publish_ready false h) s)
  | Withdrawn, Next => Some (with_shutdown s)
  | Signalled, JoinNext i =>
      '(outcome, js) ← join_next i s; Some (with_tasks (drain_joined outcome js) s)
  | Signalled, Next => if none_left s then Some (with_main Joined h s) else None
  | Signalled, Deadline =>
      if grace_over s then Some (with_main Aborting h (with_tasks (abort_all (sy_tasks s)) s)) else None
  | (Joined | Aborting), Next => Some (with_main Finished (set_live false h) s)
  | _, _ => None
  end.

Definition main_step (m : MainStep) (s : Daemon) : option Daemon :=
  match sy_main s with
  | Composing | ReadyStored => match m with Next => initial_readiness s | _ => None end
  | Waiting => wait_for_stop m s
  | _ => drain_components m s
  end.

(** A turn of [monitor_kafka_readiness] inside [set_ready]. *)
Definition monitor_next (s : Daemon) : option Daemon :=
  match sy_monitor s with
  | Storing value h => Some (with_monitor (Publishing value h) (store_ready value (sy_health s)) s)
  | Publishing value h => Some (with_monitor (Polling h) (publish_ready value (sy_health s)) s)
  | _ => None
  end.

(** [serve_grpc] reports the readiness it reads and then, when health is
    enabled, subscribes for the watcher. *)
Definition serve_grpc (s : Daemon) : option Daemon :=
  match sy_grpc s with
  | Spawned => Some (with_grpc (ReadinessRead (hs_ready (sy_health s))) (sy_serving s) s)
  | ReadinessRead value => Some (with_grpc Reported (Some value) s)
  | Reported =>
      Some (with_grpc (if ac_grpc_health_enabled api then Watching (version s) (version s)
                       else Unwatched) (sy_serving s) s)
  | _ => None
  end.

(** [monitor_grpc_health] waits for a version it has not seen, reads the value
    and reports it.  The sender lives as long as the state, so [changed] does
    not fail. *)
Definition monitor_grpc_health (s : Daemon) : option Daemon :=
  match sy_grpc s with
  | Watching subscribed seen =>
      if (seen =? version s)%nat then None
      else Some (with_grpc (Notified subscribed (version s)) (sy_serving s) s)
  | Notified subscribed _ =>
      Some (with_grpc (Applying (published s) subscribed (version s)) (sy_serving s) s)
  | Applying value subscribed seen => Some (with_grpc (Watching subscribed seen) (Some value) s)
  | _ => None
  end.

Definition grpc_next (s : Daemon) : option Daemon :=
  match sy_grpc s with
  | Spawned | ReadinessRead _ | Reported => serve_grpc s
  | _ => monitor_grpc_health s
  end.

(** The server is up once the health monitor is spawned or left out. *)
Definition grpc_serving (s : Daemon) : bool :=
  match sy_grpc s with Watching _ _ | Notified _ _ | Applying _ _ _ | Unwatched => true | _ => false end.

(** Who may do what: a component may end as [ends] allows; the monitor leaves
    its loop when it sees the shutdown; past the grace period, when the tasks
    are aborted, a task may be cancelled where it awaits. *)
Definition turn (t : Turn) (s : Daemon) : option Daemon :=
  match t with
  | Main m => main_step m s
  | Elapse seconds =>
      if 0 <=? seconds then Some (with_clock (sy_clock s + seconds) s) else None
  | MonitorTick kafka_healthy =>
      match sy_monitor s with
      | Polling h => let h := observe kafka_healthy h in
          Some (with_monitor (Storing (rh_ready h) h) (sy_health s) s)
      | _ => None
      end
  | MonitorNext => monitor_next s
  | MonitorSeesShutdown =>
      match sy_monitor s with
      | Polling _ =>
          if sy_shutdown s then
            Some (with_tasks (task_ended (Ok ("kafka-readiness", Ok tt)) (sy_tasks s))
                    (with_monitor MonitorEnded (sy_health s) s))
          else None
      | _ => None
      end
  | MonitorCancelled =>
      match sy_monitor s, sy_main s with
      | Polling _, (Aborting | Finished) => Some (with_monitor MonitorEnded (sy_health s) s)
      | _, _ => None
      end
  | GrpcNext => grpc_next s
  | GrpcEnd outcome =>
      if grpc_serving s && ends (sy_shutdown s) "grpc" outcome then
        Some (with_tasks (task_ended outcome (sy_tasks s)) (with_grpc GrpcEnded (sy_serving s) s))
      else None
  | GrpcCancelled =>
      match sy_main s with
      | Aborting | Finished => Some (with_grpc GrpcEnded (sy_serving s) s)
      | _ => None
      end
  | OtherEnds i outcome =>
      name ← js_running (sy_tasks s) !! i;
      if ends (sy_shutdown s) name outcome then
        Some (with_tasks (task_ended outcome (task_gone i (sy_tasks s))) s)
      else None
  | OtherCancelled i =>
      match sy_main s with
      | Aborting | Finished =>
          name ← js_running (sy_tasks s) !! i;
          Some (with_tasks (task_gone i (sy_tasks s)) s)
      | _ => None
      end
  end.

Fixpoint turns (ts : list Turn) (s : Daemon) : option Daemon :=
  match ts with
  | [] => Some s
  | t :: ts => turn t s ≫= turns ts
  end.

(** The step relation: some task takes a turn. *)
Inductive daemon_step (s s' : Daemon) : Prop :=
| daemon_turn t : turn t s = Some s' → daemon_step s s'.

(** The components are spawned and nothing is reported yet. *)
Definition daemon_start (others : list string) : Daemon := {|
  sy_main := Composing; sy_health := set_live true HealthState_default; sy_shutdown := false;
  sy_monitor := NotSpawned; sy_grpc := Spawned; sy_serving := None;
  sy_tasks := {| js_running := others; js_ended := []; js_joined := []; js_aborted := false |};
  sy_stop := None; sy_clock := 0; sy_signalled := None |}.

(** ** What holds in every reachable state *)

(** The watcher has seen nothing that was not published, and when it is up to
    date with a change since its subscription it has reported (or is about to
    report) the value published last. *)
Definition grpc_ok (s : Daemon) : Prop :=
  match sy_grpc s with
  | Watching subscribed seen =>
      (subscribed ≤ seen ≤ version s)%nat ∧
      ((subscribed < seen)%nat → seen = version s → sy_serving s = Some (published s))
  | Notified subscribed seen => (subscribed < seen ≤ version s)%nat
  | Applying value subscribed seen =>
      (subscribed < seen ≤ version s)%nat ∧ (seen = version s → value = published s)
  | _ => True
  end.

Definition drain_rank (pc : MainPc) : nat :=
  match pc with
  | Composing => 9 | ReadyStored => 8 | Waiting => 7
  | Draining => 6 | NotReadyStored => 5 | Withdrawn => 4 | Signalled => 3
  | Joined | Aborting => 1 | Finished => 0
  end.

(** The order of a shutdown: there is a cause before the drain, the signal
    comes after the steps that withdraw readiness, every task has ended and is
    joined where the drain says so, tasks are aborted only when the grace
    period is over, and liveness goes last. *)
Definition order_ok (s : Daemon) : Prop :=
  ((drain_rank (sy_main s) ≤ 6)%nat → is_Some (sy_stop s)) ∧
  (sy_shutdown s = true ↔ (drain_rank (sy_main s) ≤ 3)%nat) ∧
  (is_Some (sy_signalled s) ↔ (drain_rank (sy_main s) ≤ 3)%nat) ∧
  (sy_main s = Joined → none_left s = true) ∧
  (sy_main s = Aborting → grace_over s = true) ∧
  (hs_live (sy_health s) = true ↔ sy_main s ≠ Finished).

(** Every way a turn can be taken. *)
Ltac turn_cases :=
  repeat match goal with
  | H : context [match ?x with _ => _ end] |- _ => destruct x eqn:?; try discriminate H
  | H : context [if ?b then _ else _] |- _ => destruct b eqn:?; try discriminate H
  end.
Ltac unfold_turn H :=
  unfold turn, main_step, initial_readiness, wait_for_stop, drain_components, join_next,
    monitor_next, grpc_next, serve_grpc, monitor_grpc_health, grpc_serving in H; simpl in H;
  unfold mbind, option_bind in H.
Ltac split_turn H :=
  destruct H as [t H]; destruct t as [[]|?|?| | | | |?| |? ?|?]; unfold_turn H; turn_cases; simplify_eq.

Implicit Types (s : Daemon) (t : Turn).

(** Until the drain only one task sets readiness: [main], or the monitor.  The
    flag and the channel then differ only inside [set_ready]. *)
Definition phase_ok s : Prop :=
  let h := sy_health s in
  if kr_enabled readiness then
    match sy_main s with
    | Composing => sy_monitor s = NotSpawned ∧ hs_ready h = false ∧ published s = false
    | ReadyStored => False
    | Waiting =>
        match sy_monitor s with
        | Polling _ | Storing _ _ => hs_ready h = published s
        | Publishing value _ => hs_ready h = value
        | _ => False
        end
    | _ => True
    end
  else
    sy_monitor s = NotSpawned ∧
    match sy_main s with
    | Composing => hs_ready h = false ∧ version s = 0%nat
    | ReadyStored => hs_ready h = true ∧ version s = 0%nat
    | Waiting => hs_ready h = true ∧ published s = true ∧ version s = 1%nat
    | Draining => True
    | NotReadyStored => hs_ready h = false
    | _ => hs_ready h = false ∧ published s = false
    end.

Lemma grpc_ok_step s s' : daemon_step s s' → grpc_ok s → grpc_ok s'.
Proof.
  destruct s as [pc h sd mo g sv js st ck sg]. intros Hs. split_turn Hs;
    unfold grpc_ok, version, published in *; simpl in *; intros Hok; try done;
    repeat match goal with
    | H : (_ =? _)%nat = false |- _ => apply Nat.eqb_neq in H
    | |- context [match ?g with Spawned => _ | _ => _ end] => destruct g; simpl in *
    end; naive_solver lia.
Qed.

Lemma phase_ok_step s s' : daemon_step s s' → order_ok s → phase_ok s → phase_ok s'.
Proof.
  destruct s as [pc h sd mo g sv js st ck sg]. intros Hs (_ & [Hsd _] & _). unfold phase_ok.
  destruct (kr_enabled readiness) eqn:Ekr; split_turn Hs;
    unfold version, published in *; simpl in *; try congruence; try destruct pc; simpl in *;
    first [intuition congruence|naive_solver lia].
Qed.

Definition main_turn t : bool := match t with Main _ => true | _ => false end.

(** What the turns of others leave to [main]. *)
Lemma other_turn s s' t :
  turn t s = Some s' → main_turn t = false →
  sy_main s' = sy_main s ∧ sy_shutdown s' = sy_shutdown s ∧ sy_stop s' = sy_stop s ∧
  sy_signalled s' = sy_signalled s ∧ hs_live (sy_health s') = hs_live (sy_health s) ∧
  sy_clock s ≤ sy_clock s' ∧ (none_left s = true → none_left s' = true).
Proof.
  destruct s as [pc h sd mo g sv [run en jo ab] st ck sg]. intros H Hm.
  destruct t as [m|?|?| | | | |?| |? ?|?]; [done|..]; clear Hm; unfold_turn H; turn_cases;
    simplify_eq/=; unfold none_left, all_ended; simpl; split_and!; try done; try lia;
    destruct mo, g, run, en; simpl; try done.
Qed.

Lemma order_ok_step s s' : daemon_step s s' → order_ok s → order_ok s'.
Proof.
  intros [t Ht]. destruct (main_turn t) eqn:Em.
  - destruct t as [m| | | | | | | | | |]; try done. clear Em.
    destruct s as [pc h sd mo g sv js st ck sg]. unfold order_ok.
    destruct pc, m; unfold_turn Ht; turn_cases; simplify_eq/=;
      intros (H1 & H2 & H3 & H4 & H5 & H6); split_and!; simpl; try done; try lia; try (by eauto);
      try (by intros; apply H1; lia); 
      first [rewrite H2; simpl; lia|rewrite H3; simpl; lia|by split; [|lia]|by split; intros; [|apply H6]|by split].
  - destruct (other_turn _ _ _ Ht Em) as (Hpc & Hsd & Hst & Hsg & Hl & Hck & Hnl).
    unfold order_ok, grace_over. rewrite Hpc, Hsd, Hst, Hsg, Hl.
    intros (H1 & H2 & H3 & H4 & H5 & H6). split_and!; [done|done|done|auto| |done].
    intros Ha. specialize (H5 Ha). destruct (sy_signalled s); [|done].
    apply Z.leb_le in H5. apply Z.leb_le. lia.
Qed.

Lemma reachable_ok others s :
  rtc daemon_step (daemon_start others) s → grpc_ok s ∧ phase_ok s ∧ order_ok s.
Proof.
  assert (grpc_ok (daemon_start others) ∧ phase_ok (daemon_start others) ∧
          order_ok (daemon_start others)) as Hstart.
  { unfold grpc_ok, phase_ok, order_ok. split_and!; simpl; try done; try lia; [by destruct (kr_enabled _)|..];
      (split; [done || by intros [? [=]]|lia || done]). }
  intros Hreach. induction Hreach as [|s1 s2 s3 Hstep _ IH]; [done|].
  apply IH. destruct Hstart as (? & ? & ?).
  split_and!; [by eapply grpc_ok_step|by eapply phase_ok_step|by eapply order_ok_step].
Qed.

(** ** gRPC health follows readiness *)

(** The version the watcher's receiver was created with. *)
Definition subscription s : option nat :=
  match sy_grpc s with
  | Watching subscribed _ | Notified subscribed _ | Applying _ subscribed _ => Some subscribed
  | _ => None
  end.

(** Nobody is inside [set_ready]. *)
Definition at_rest s : Prop := ∀ value h, sy_monitor s ≠ Publishing value h.

Lemma catch_up s subscribed :
  grpc_ok s → subscription s = Some subscribed → (subscribed < version s)%nat →
  ∃ n, (n ≤ 4)%nat ∧ turns (replicate n GrpcNext) s =
    Some (with_grpc (Watching subscribed (version s)) (Some (published s)) s).
Proof.
  destruct s as [pc h sd mo g sv js st ck sg]. unfold grpc_ok, subscription.
  set (v := wt_version (hs_ready_changes h)). intros Hok Hsub Hlt.
  destruct g as [| | |sub seen|sub seen|value sub seen| |]; unfold version, published in *;
    simpl in *; simplify_eq; fold v in Hok, Hlt.
  - destruct (decide (seen = v)) as [->|Hne].
    + exists 0%nat. split; [lia|]. destruct Hok as [_ Hok]. simpl. by rewrite <-(Hok Hlt eq_refl).
    + exists 3%nat. split; [lia|]. simpl. unfold turn, grpc_next, monitor_grpc_health, version; simpl. fold v.
      by rewrite (proj2 (Nat.eqb_neq seen v) Hne).
  - exists 2%nat. split; [lia|]. done.
  - destruct Hok as [_ Hok]. destruct (decide (seen = v)) as [->|Hne].
    + exists 1%nat. split; [lia|]. by rewrite <-(Hok eq_refl).
    + exists 4%nat. split; [lia|]. simpl. unfold turn, grpc_next, monitor_grpc_health, version; simpl. fold v.
      by rewrite (proj2 (Nat.eqb_neq seen v) Hne).
Qed.

(** (C26) gRPC health follows readiness.  Whatever the tasks have done, once
    readiness was published after the watcher subscribed, at most four turns
    of the watcher, with nothing else happening, make the reported status the
    value published last; and until the drain, when nobody is inside
    [set_ready], that value is the readiness the HTTP endpoint shows. *)
Theorem grpc_health_follows others s subscribed
    (Hreach : rtc daemon_step (daemon_start others) s)
    (Hsub : subscription s = Some subscribed) (Hlt : (subscribed < version s)%nat) :
  (∃ n, (n ≤ 4)%nat ∧ turns (replicate n GrpcNext) s =
     Some (with_grpc (Watching subscribed (version s)) (Some (published s)) s)) ∧
  (sy_main s = Waiting → at_rest s → published s = hs_ready (sy_health s)).
Proof.
  destruct (reachable_ok _ _ Hreach) as (Hgrpc & Hphase & _). split; [by apply catch_up|].
  intros Hmain Hrest. unfold phase_ok in Hphase. rewrite Hmain in Hphase.
  destruct (kr_enabled readiness); [|naive_solver congruence].
  destruct (sy_monitor s) as [| | |value h|] eqn:E; try done. by destruct (Hrest value h).
Qed.

(** ** Shutdown *)

(** The tasks [main] has not joined. *)
Definition unjoined s : nat :=
  (match sy_monitor s with NotSpawned | MonitorEnded => 0 | _ => 1 end +
   match sy_grpc s with GrpcEnded => 0 | _ => 1 end +
   length (js_running (sy_tasks s)) + length (js_ended (sy_tasks s)))%nat.

Lemma main_turn_rank s s' t :
  turn t s = Some s' →
  (drain_rank (sy_main s') + unjoined s' + (if main_turn t then 1 else 0)
   ≤ drain_rank (sy_main s) + unjoined s)%nat.
Proof.
  destruct s as [pc h sd mo g sv [run en jo ab] st ck sg]. unfold unjoined. intros H.
  destruct t as [[]|?|?| | | | |?| |? ?|?]; unfold_turn H; turn_cases; simplify_eq/=;
    rewrite ?length_app; simpl;
    repeat match goal with
    | H : ?l !! _ = Some _ |- _ => apply lookup_lt_Some in H as ?; rewrite length_delete by eauto; clear H
    end; try destruct mo; try destruct g; simpl; lia.
Qed.

Lemma main_turns_rank ts s s' :
  turns ts s = Some s' →
  (drain_rank (sy_main s') + unjoined s' + length (filter main_turn ts)
   ≤ drain_rank (sy_main s) + unjoined s)%nat.
Proof.
  revert s. induction ts as [|t ts IH]; intros s; cbn [turns].
  { intros [= ->]. rewrite filter_nil. simpl. lia. }
  intros (s1 & Ht & Hts)%bind_Some. apply IH in Hts. apply main_turn_rank in Ht.
  rewrite filter_cons. destruct (main_turn t); case_decide; simpl in *; try done; lia.
Qed.

Lemma turns_reachable ts s s' : turns ts s = Some s' → rtc daemon_step s s'.
Proof.
  revert s. induction ts as [|t ts IH]; intros s; cbn [turns]; [by intros [= ->]|].
  intros (s1 & Ht & Hts)%bind_Some. eapply rtc_l; [by econstructor|auto].
Qed.

Lemma turns_app ts1 ts2 s : turns (ts1 ++ ts2) s = turns ts1 s ≫= turns ts2.
Proof.
  revert s. induction ts1 as [|t ts1 IH]; intros s; [done|]. cbn [turns app].
  destruct (turn t s); [apply IH|done].
Qed.

(** When [main] has moved on, there was a first turn of it. *)
Lemma first_main_turn ts s s' :
  turns ts s = Some s' → sy_main s' ≠ sy_main s →
  ∃ before m after s0 s1, ts = before ++ Main m :: after ∧ turns before s = Some s0 ∧
    sy_main s0 = sy_main s ∧ sy_shutdown s0 = sy_shutdown s ∧ turn (Main m) s0 = Some s1 ∧
    turns after s1 = Some s'.
Proof.
  revert s. induction ts as [|t ts IH]; intros s; cbn [turns].
  { by intros [= ->]. }
  intros (s1 & Ht & Hts)%bind_Some Hpc. destruct (main_turn t) eqn:Em.
  - destruct t as [m| | | | | | | | | |]; try done. by exists [], m, ts, s, s1.
  - destruct (other_turn _ _ _ Ht Em) as (Hpc1 & Hsd1 & _).
    destruct (IH s1 Hts) as (before & m & after & s2 & s3 & -> & Hb & Hpc2 & Hsd2 & Hm & Ha);
      [congruence|].
    exists (t :: before), m, after, s2, s3. cbn [turns]. rewrite Ht. split_and!; try done; congruence.
Qed.

(** Before the shutdown is signalled the drain has withdrawn readiness, in the
    flag and then in the channel. *)
Lemma drain_withdraws ts s s' :
  turns ts s = Some s' → sy_main s = Draining → sy_shutdown s = false →
  sy_shutdown s' = true → (drain_rank (sy_main s') ≤ 3)%nat →
  ∃ ts1 s1 ts2 s2, ts1 `prefix_of` ts2 ∧ ts2 `prefix_of` ts ∧
    turns ts1 s = Some s1 ∧ sy_shutdown s1 = false ∧ hs_ready (sy_health s1) = false ∧
    turns ts2 s = Some s2 ∧ sy_shutdown s2 = false ∧ published s2 = false.
Proof.
  intros Hrun Hpc Hns Hsd Hrank.
  destruct (first_main_turn _ _ _ Hrun) as (b1 & m1 & a1 & s0 & s1 & -> & Hb1 & Hp0 & Hd0 & Hm1 & Hr1).
  { intros Heq. rewrite Heq, Hpc in Hrank. simpl in Hrank. lia. }
  unfold turn, main_step, drain_components in Hm1. rewrite Hp0, Hpc in Hm1.
  destruct m1; try discriminate Hm1. injection Hm1 as Hs1.
  destruct (first_main_turn _ _ _ Hr1) as (b2 & m2 & a2 & s2 & s3 & -> & Hb2 & Hp2 & Hd2 & Hm2 & _).
  { intros Heq. rewrite Heq, <-Hs1 in Hrank. simpl in Hrank. lia. }
  unfold turn, main_step, drain_components in Hm2. rewrite Hp2, <-Hs1 in Hm2. simpl in Hm2.
  destruct m2; try discriminate Hm2. injection Hm2 as Hs3.
  assert (turns (b1 ++ [Main Next]) s = Some s1) as Hfirst.
  { rewrite turns_app, Hb1. simpl. unfold turn, main_step, drain_components. by rewrite Hp0, Hpc, Hs1. }
  assert (turn (Main Next) s2 = Some s3) as Hthird.
  { unfold turn, main_step, drain_components. by rewrite Hp2, <-Hs1, <-Hs3. }
  exists (b1 ++ [Main Next]), s1, ((b1 ++ [Main Next]) ++ b2 ++ [Main Next]), s3. split_and!.
  - by apply prefix_app_r.
  - exists a2. by rewrite <-!app_assoc.
  - done.
  - rewrite <-Hs1. simpl. congruence.
  - by rewrite <-Hs1.
  - rewrite turns_app, Hfirst. simpl. rewrite turns_app, Hb2. cbn [mbind option_bind turns].
    by rewrite Hthird.
  - rewrite <-Hs3. simpl. rewrite Hd2, <-Hs1. simpl. congruence.
  - by rewrite <-Hs3.
Qed.

(** The drain does not go back. *)
Lemma drain_order ts s s' :
  turns ts s = Some s' → (drain_rank (sy_main s) ≤ 6)%nat →
  (drain_rank (sy_main s') ≤ drain_rank (sy_main s))%nat.
Proof.
  revert s. induction ts as [|t ts IH]; intros s; cbn [turns]; [by intros [= ->]|].
  intros (s1 & Ht & Hts)%bind_Some Hrank.
  assert (drain_rank (sy_main s1) ≤ drain_rank (sy_main s))%nat as H1; [|specialize (IH s1 Hts); lia].
  destruct (main_turn t) eqn:Em; [|by destruct (other_turn _ _ _ Ht Em) as [-> _]].
  destruct t as [m| | | | | | | | | |]; try done.
  destruct s as [pc h sd mo g sv js st ck sg]. clear Em IH Hts.
  destruct pc, m; simpl in Hrank; try lia; unfold_turn Ht; turn_cases; simplify_eq/=; lia.
Qed.

(** A turn of [main], or time. *)
Definition own_turn t : Prop := main_turn t = true ∨ ∃ n, t = Elapse n.

(** What is left to do when no component does anything any more. *)
Definition finish s : list Turn :=
  let rest := [Elapse (match sy_signalled s with Some t => Z.max 0 (t + grace - sy_clock s) | None => grace end);
               Main Deadline; Main Next] in
  match sy_main s with
  | Draining => [Main Next; Main Next; Main Next] ++ rest
  | NotReadyStored => [Main Next; Main Next] ++ rest
  | Withdrawn => Main Next :: rest
  | Signalled => rest
  | Joined | Aborting => [Main Next]
  | _ => []
  end.

Lemma finish_own s : Forall own_turn (finish s).
Proof.
  unfold finish, own_turn. destruct (sy_main s); simpl; rewrite ?Forall_cons, ?Forall_nil;
    naive_solver.
Qed.

Lemma finish_finishes s :
  0 ≤ grace → order_ok s → (drain_rank (sy_main s) ≤ 6)%nat →
  ∃ s', turns (finish s) s = Some s' ∧ sy_main s' = Finished.
Proof.
  intros Hg (_ & _ & [Ho1 Ho2] & _) Hrank. destruct s as [pc h sd mo g sv js st ck sg]. simpl in *.
  assert (4 ≤ drain_rank pc → sg = None)%nat as Hnone.
  { intros Hpc. destruct sg; [|done]. specialize (Ho1 ltac:(eauto)). lia. }
  assert ((0 <=? grace) = true) as Hle by (apply Z.leb_le; lia).
  destruct pc; simpl in Hrank; try lia; simpl in Hnone, Ho2; unfold finish; simpl;
    try (rewrite Hnone by lia; simpl; rewrite Hle; simpl; unfold turn, main_step, drain_components, grace_over;
         simpl; rewrite Z.leb_refl; simpl; eauto; fail); try (by eauto).
  destruct Ho2 as [t ->]; [lia|]. simpl. rewrite (proj2 (Z.leb_le 0 _)) by lia. simpl.
  unfold main_step, drain_components, grace_over. simpl.
  rewrite (proj2 (Z.leb_le _ _)) by lia. simpl. eauto.
Qed.

(** *** The cause of the stop *)

Definition signal_turn t : bool := match t with Main (Signal _ _) => true | _ => false end.

Lemma turn_stop s s' t :
  turn t s = Some s' →
  sy_stop s' = sy_stop s ∨
  sy_main s = Waiting ∧ ∃ cause, sy_stop s' = Some cause ∧
    (signal_turn t = false → ∃ outcome, cause = JoinStop outcome).
Proof.
  intros Ht. destruct (main_turn t) eqn:Em.
  - destruct t as [m| | | | | | | | | |]; try done. clear Em.
    destruct s as [pc h sd mo g sv js st ck sg].
    destruct pc, m; unfold_turn Ht; turn_cases; simplify_eq/=; try (by left);
      (right; split; [done|]; eexists; split; [done|]; by eauto).
  - left. by destruct (other_turn _ _ _ Ht Em) as (_ & _ & -> & _).
Qed.

(** The drain keeps it. *)
Lemma stop_kept ts s s' :
  turns ts s = Some s' → (drain_rank (sy_main s) ≤ 6)%nat → sy_stop s' = sy_stop s.
Proof.
  revert s. induction ts as [|t ts IH]; intros s; cbn [turns]; [by intros [= ->]|].
  intros (s1 & Ht & Hts)%bind_Some Hrank.
  assert (drain_rank (sy_main s1) ≤ drain_rank (sy_main s))%nat as H1.
  { apply (drain_order [t]); [|done]. cbn [turns]. by rewrite Ht. }
  rewrite (IH s1 Hts ltac:(lia)). destruct (turn_stop _ _ _ Ht) as [->|[Hpc _]]; [done|].
  rewrite Hpc in Hrank. simpl in Hrank. lia.
Qed.

(** Without a signal it is a task that ended. *)
Lemma stop_without_signal ts s s' cause :
  turns ts s = Some s' → forallb (negb ∘ signal_turn) ts = true → sy_stop s = None →
  sy_stop s' = Some cause → ∃ outcome, cause = JoinStop outcome.
Proof.
  intros Hrun Hno Hs. cut (∀ cause, sy_stop s' = Some cause → ∃ outcome, cause = JoinStop outcome); [auto|].
  assert (∀ cause, sy_stop s = Some cause → ∃ outcome, cause = JoinStop outcome) as Hstart
    by (rewrite Hs; done). clear Hs cause.
  revert s Hrun Hstart. induction ts as [|t ts IH]; intros s; cbn [turns]; [by intros [= ->]|].
  simpl in Hno. apply andb_true_iff in Hno as [Hnt Hno].
  intros (s1 & Ht & Hts)%bind_Some Hstart. apply (IH Hno s1 Hts).
  destruct (turn_stop _ _ _ Ht) as [->|(_ & cause & -> & Hcause)]; [done|].
  intros cause' [= <-]. apply Hcause. by destruct (signal_turn t).
Qed.

Lemma finish_no_signal s : forallb (negb ∘ signal_turn) (finish s) = true.
Proof. unfold finish. by destruct (sy_main s). Qed.

(** As long as it drains, [main] has a turn to take, or it waits within the
    grace period for a task that has not ended. *)
Lemma drain_enabled s :
  order_ok s → (drain_rank (sy_main s) ≤ 6)%nat →
  sy_main s = Finished ∨ (∃ m s', turn (Main m) s = Some s') ∨
  ∃ since, sy_main s = Signalled ∧ sy_signalled s = Some since ∧ sy_clock s < since + grace ∧ all_ended s = false.
Proof.
  intros (_ & _ & [_ Hsg] & _) Hrank. unfold turn, main_step, drain_components.
  destruct (sy_main s) eqn:Epc; simpl in Hrank; try lia; try (by left);
    try (right; left; exists Next; eauto; fail).
  right. destruct Hsg as [t Ht]; [simpl; lia|].
  destruct (none_left s) eqn:Hnl; [left; exists Next; eauto|].
  destruct (js_ended (sy_tasks s)) as [|outcome ended] eqn:Hen.
  - unfold none_left in Hnl. rewrite Hen, andb_true_r in Hnl.
    destruct (grace_over s) eqn:Hg; [left; exists Deadline; eauto|].
    unfold grace_over in Hg. rewrite Ht in Hg. apply Z.leb_gt in Hg. eauto 10.
  - left. exists (JoinNext 0). unfold join_next. rewrite Hen. simpl. eauto.
Qed.


(** ** Two races *)

(** Serving with readiness true, reported as not serving, and nothing left to
    see for the watcher. *)
Definition unreported (s : Daemon) : Prop :=
  (drain_rank (sy_main s) ≤ 7)%nat ∧
  (sy_main s = Waiting → hs_ready (sy_health s) = true ∧ sy_serving s = Some false ∧
     sy_monitor s = NotSpawned ∧
     (sy_grpc s = Watching (version s) (version s) ∨ sy_grpc s = GrpcEnded)).

Lemma unreported_step s s' : daemon_step s s' → unreported s → unreported s'.
Proof.
  destruct s as [pc h sd mo g sv js st ck sg]. intros Hs. unfold unreported, version.
  split_turn Hs; simpl in *; intros [Hrank Hwait]; split; try lia; try done;
    naive_solver (rewrite ?Nat.eqb_refl in *; congruence).
Qed.
End daemon.

(** (C28) A start that is never reported.  With the default settings the
    daemon can come to serve with readiness true while gRPC health reports not
    serving, and stays so until shutdown: readiness is published between the
    moment [serve_grpc] reads it and the moment the watcher subscribes, and a
    new receiver has already seen what was published before. *)
Theorem grpc_health_misses_start grace ends others :
  let step := daemon_step KafkaReadinessConfig_default ApiConfig_default grace ends in
  ∃ s, rtc step (daemon_start others) s ∧ sy_main s = Waiting ∧
    ∀ s', rtc step s s' → sy_main s' = Waiting →
      hs_ready (sy_health s') = true ∧ sy_serving s' = Some false.
Proof.
  intros step.
  destruct (turns KafkaReadinessConfig_default ApiConfig_default grace ends
    [GrpcNext; Main Next; GrpcNext; Main Next; GrpcNext] (daemon_start others)) as [s|] eqn:Hrun;
    [|discriminate Hrun].
  exists s. split; [by eapply turns_reachable|]. injection Hrun as <-. split; [done|].
  intros s' Hsteps. cut (unreported s'); [unfold unreported; naive_solver|]. revert Hsteps.
  apply rtc_ind_r; [|intros s1 s2 _ Hstep; by eapply unreported_step].
  split; [simpl; lia|]. intros _. split_and!; [done..|by left].
Qed.

(** The drain after a tick that comes between withdrawing readiness and the
    shutdown signal. *)
Definition late_tick : list Turn :=
  [Main Next; MonitorTick true; MonitorNext; MonitorNext; MonitorTick true; MonitorNext; MonitorNext;
   GrpcNext; GrpcNext; GrpcNext; Main (Signal (Ok tt) Terminate); Main Next; Main Next;
   MonitorTick true; MonitorNext; MonitorNext; Main Next; MonitorSeesShutdown;
   GrpcEnd (Ok ("grpc", Ok tt)); Main (JoinNext 0); Main (JoinNext 0); Main Next; Main Next].

(** (C29) Readiness after the drain has begun.  Without the Kafka monitor it is
    withdrawn for good by the first step of the drain.  With the monitor it
    need not be: a tick between withdrawing readiness and the monitor's end
    sets it again, and it can still be true when every task has ended and the
    process stops. *)
Theorem drain_withdraws_readiness :
  (∀ readiness api grace ends others s, kr_enabled readiness = false →
     rtc (daemon_step readiness api grace ends) (daemon_start others) s →
     (drain_rank (sy_main s) ≤ 5)%nat → hs_ready (sy_health s) = false) ∧
  (let readiness := {| kr_enabled := true; kr_check_interval_ms := 1_000; kr_stale_after_secs := 30;
                       kr_failure_threshold := 3; kr_success_threshold := 2 |} in
   ∀ grace, ∃ s,
     rtc (daemon_step readiness ApiConfig_default grace (λ _ _ _, true)) (daemon_start []) s ∧
     sy_main s = Finished ∧ all_ended s = true ∧ hs_ready (sy_health s) = true).
Proof.
  split.
  - intros readiness api grace ends others s Hkr (_ & Hphase & _)%reachable_ok Hrank.
    unfold phase_ok in Hphase. rewrite Hkr in Hphase. destruct Hphase as [_ Hphase].
    destruct (sy_main s); simpl in Hrank; try lia; try done; apply Hphase.
  - intros readiness grace. eexists.
    split; [eapply (turns_reachable _ _ _ _ late_tick); vm_compute; reflexivity|].
    split_and!; reflexivity.
Qed.

(** ** Concrete runs *)

(** A start in which the watcher subscribes before readiness is published. *)
Definition ordinary_start : list Turn :=
  [GrpcNext; GrpcNext; GrpcNext; Main Next; Main Next].

(** Ten seconds of grace, and components that may end in any way. *)
Abbreviation default_turns :=
  (turns KafkaReadinessConfig_default ApiConfig_default 10 (λ _ _ _, true)).

Lemma grpc_health_follows_witness :
  ∃ s, default_turns ordinary_start (daemon_start ["kafka"; "http"; "webhooks"]) = Some s ∧
    sy_serving s = Some false ∧
    ∃ n, (n ≤ 4)%nat ∧
      default_turns (replicate n GrpcNext) s = Some (with_grpc (Watching 0 1) (Some true) s).
Proof.
  eexists. split; [reflexivity|]. split; [reflexivity|].
  refine (proj1 (grpc_health_follows KafkaReadinessConfig_default ApiConfig_default 10 (λ _ _ _, true)
    ["kafka"; "http"; "webhooks"] _ 0 _ _ _));
    [eapply (turns_reachable _ _ _ _ ordinary_start); reflexivity|reflexivity|cbv; lia].
Defined.

(** A signal ends the wait; one task ends and is joined, the others are still
    running when the ten seconds are over. *)
Definition drain_turns : list Turn :=
  [Main Next; Main Next; Main Next; OtherEnds 0 (Ok ("kafka", Ok tt)); Main (JoinNext 0);
   Elapse 10; Main Deadline].

Definition drain_start : Daemon :=
  default (daemon_start []) (default_turns (ordinary_start ++ [Main (Signal (Ok tt) Terminate)])
                               (daemon_start ["kafka"; "http"; "webhooks"])).
Definition drain_end : Daemon := default drain_start (default_turns drain_turns drain_start).

