(* ===== verification/Process.v ===== *)
(** * The process: telemetry, [main] and its exit

    routerd's [telemetry.rs] and the whole of [main] (main.rs): loading the
    configuration, starting telemetry, the configuration check, the
    composition (Startup.v), the tasks it spawns, the run of the daemon with
    its wait and its drain (Lifecycle.v), and the result the process exits
    with.  A run is given by the turns the tasks take; what [main] logs is read
    off the state the turns lead to. *)

From S2P Require Import Prelude Str Ids Message Metrics Channel Router RouterInv Kafka Ingestor.
From S2P Require Import Limits Security Wire Auth Publish Webhook Durable DurableSpec DurableSink.
From S2P Require Import RouterExamples KafkaSpec Pipeline Config Startup Lifecycle.
Open Scope Z_scope.

(** ** Telemetry *)

(** [LoggingConfig]. *)
Record LoggingConfig : Type := {
  lg_filter : string;
  lg_json : bool;
}.
Definition default_log_filter : string :=
  "routerd=info,router_core=info,router_kafka=info,router_api=info,router_webhook=info".
Definition LoggingConfig_default : LoggingConfig := {|
  lg_filter := default_log_filter;
  lg_json := false |}.

(** What [build_provider] asks the exporter library for. *)
Record ProviderSettings : Type := {
  ps_endpoint : string;
  ps_timeout_ms : Z;
  ps_service_name : string;
  ps_sampling_ratio : SpecFloat.spec_float;
}.

(** [build_provider]; [exporter] is the library's answer for an endpoint and a
    timeout. *)
Definition build_provider (exporter : string → Z → option string) (config : OpenTelemetryConfig)
    : result string ProviderSettings :=
  match exporter (ot_endpoint config) (ot_timeout_ms config) with
  | Some error => Err error
  | None => Ok {| ps_endpoint := ot_endpoint config; ps_timeout_ms := ot_timeout_ms config;
                  ps_service_name := ot_service_name config;
                  ps_sampling_ratio := ot_sampling_ratio config |}
  end.

(** [TelemetryGuard]. *)
Record TelemetryGuard : Type := {
  tg_provider : option ProviderSettings;
  tg_shutdown_timeout : Z;
}.

(** The subscriber that is installed: filter, trace export, output format. *)
Record Subscriber : Type := {
  sb_filter : string;
  sb_exporting : bool;
  sb_json : bool;
}.

(** [TelemetryGuard::init]; [default_env] is the filter of the environment, if
    it has a valid one.  Nothing here fails. *)
Definition TelemetryGuard_init (exporter : string → Z → option string) (default_env : option string)
    (logging : LoggingConfig) (config : OpenTelemetryConfig) : TelemetryGuard * Subscriber :=
  let provider :=
    if ot_enabled config then
      match build_provider exporter config with Ok provider => Some provider | Err _ => None end
    else None in
  ({| tg_provider := provider; tg_shutdown_timeout := ot_shutdown_timeout_ms config |},
   {| sb_filter := default (lg_filter logging) default_env; sb_exporting := is_some provider;
      sb_json := lg_json logging |}).

(** [TelemetryGuard::shutdown]: the deadline the provider is given, if there is
    one. *)
Definition TelemetryGuard_shutdown (g : TelemetryGuard) : option Z :=
  (λ _, tg_shutdown_timeout g) <$> tg_provider g.

(** ** What [main] spawns and waits for *)

(** The names of the tasks, in the order they are spawned. *)
Definition component_tasks {Key} (readiness : KafkaReadinessConfig) (a : Authenticator Key)
    : list string :=
  (if is_some (jwks_refresh_interval a) then ["jwks-refresh"] else []) ++
  ["kafka"; "http"; "grpc"; "webhooks"] ++
  (if kr_enabled readiness then ["kafka-readiness"] else []).

(** Those that do not touch the health gates. *)
Definition other_tasks {Key} (a : Authenticator Key) : list string :=
  (if is_some (jwks_refresh_interval a) then ["jwks-refresh"] else []) ++
  ["kafka"; "http"; "webhooks"].

(** The task around [ingestor.run] has no error to return. *)
Definition kafka_task : TaskResult := ("kafka", Ok tt).

(** Which outcomes the tasks have.  The key refresh and the consumer return
    no error and not before they are told to, except that the consumer also
    returns when its loop stops ([stopped]), and panics if that does; the
    servers and the webhook manager return their result. *)
Definition task_ends (stopped : option bool) (shutdown : bool) (name : string) (outcome : Outcome)
    : bool :=
  match outcome with
  | Ok (task, res) =>
      bool_decide (task = name) &&
      (if bool_decide (name = "kafka") then
         is_ok res && (shutdown || default false stopped)
       else if bool_decide (name = "jwks-refresh") then is_ok res && shutdown
       else true)
  | Err _ => if bool_decide (name = "kafka") then negb (is_some stopped) else true
  end.

Inductive Level : Type := LevelInfo | LevelWarn | LevelError.

(** The level the cause is logged at. *)
Definition stop_level (cause : Stopped) : Level :=
  match cause with
  | SignalStop registered event =>
      match shutdown_signal registered event with Ok _ => LevelInfo | Err _ => LevelError end
  | JoinStop (Some (Ok (_, Ok _))) => LevelWarn
  | JoinStop (Some (Ok (_, Err _))) => LevelError
  | JoinStop (Some (Err _)) => LevelError
  | JoinStop None => LevelWarn
  end.

(** ** [main] *)

Inductive ProcessEffect : Type :=
| TelemetryStarted (subscriber : Subscriber)
| ConfigurationValid
| Spawned (tasks : list string)
| Stopping (level : Level) (cause : Stopped)
| ComponentStopped (outcome : Outcome)
| DeadlineReached (grace_secs : Z)
| RouterStopped
| TelemetryStopped (deadline_ms : option Z).

Inductive MainError : Type :=
| NotLoaded (error : string)
| NotStarted (error : StartError).

(** What [main] reads: the flag, the deserialized configuration, the
    environment, and the libraries' answers; then what the consumer loop sees,
    and the turns of the tasks. *)
Record MainInput : Type := {
  mi_check_config : bool;
  mi_parsed : result string (LoggingConfig * AppConfig);
  mi_lookup : string → option string;
  mi_filter : option string;
  mi_exporter : string → Z → option string;
  mi_outside : Outside;
  mi_consumed : list (bool * Event (nat → PersistEnv));
  mi_schedule : list Turn;
}.

(** [AppConfig::load]; logging is not changed by it. *)
Definition load_configuration (i : MainInput) : result string (LoggingConfig * AppConfig) :=
  '(logging, c) ← mi_parsed i; c ← AppConfig_load (mi_lookup i) c; Ok (logging, c).

(** What [main] logged from the end of its wait on: the cause, the tasks it
    joined, and the deadline if it was reached before all had ended. *)
Definition stop_effects (grace : Z) (s : Daemon) : list ProcessEffect :=
  match sy_stop s with
  | None => []
  | Some cause =>
      Stopping (stop_level cause) cause :: (ComponentStopped <$> js_joined (sy_tasks s)) ++
      (if js_aborted (sy_tasks s) then [DeadlineReached grace] else []) ++
      match sy_main s with Finished => [RouterStopped] | _ => [] end
  end.

Section main.
Context `{Mpsc Delivery Chan} `{UrlParser} `{HttpTypes} `{JwtLibrary Key} `{MimeParser}.
Context `{JsonCodec} `{Base64} `{RecordCodec}.
Implicit Types (d : Components Chan Key).

Definition shutdown_grace (c : AppConfig) : Z := Z.max (sv_shutdown_grace_secs (app_server c)) 1.

(** How the consumer loop ended, on what it saw: [None] when it panicked. *)
Definition consumer_stopped (i : MainInput) d : option bool :=
  '(_, control) ← run (mi_consumed i) (cp_ingestor d);
  Some (match control with Stop => true | Continue => false end).

(** The daemon after the turns; [None] if a turn is not possible. *)
Definition daemon_run (i : MainInput) (c : AppConfig) d (schedule : list Turn) : option Daemon :=
  turns (app_kafka_readiness c) (app_api c) (shutdown_grace c)
    (task_ends (consumer_stopped i d)) schedule (daemon_start (other_tasks (as_auth (cp_api d)))).

(** [main]: what it did, and its result once it has returned. *)
Definition main (i : MainInput) : list ProcessEffect * option (result MainError unit) :=
  match load_configuration i with
  | Err error => ([], Some (Err (NotLoaded error)))
  | Ok (logging, c) =>
    let '(telemetry, subscriber) :=
      TelemetryGuard_init (mi_exporter i) (mi_filter i) logging (app_opentelemetry c) in
    let started := [TelemetryStarted subscriber] in
    if mi_check_config i then
      (started ++ [ConfigurationValid; TelemetryStopped (TelemetryGuard_shutdown telemetry)],
       Some (Ok tt))
    else
      match compose (mi_outside i) c with
      | Err error => (started, Some (Err (NotStarted error)))
      | Ok d =>
        let started := started ++ [Spawned (component_tasks (app_kafka_readiness c) (as_auth (cp_api d)))] in
        match daemon_run i c d (mi_schedule i) with
        | None => (started, None)
        | Some s =>
          let effects := started ++ stop_effects (shutdown_grace c) s in
          match sy_main s with
          | Finished => (effects ++ [TelemetryStopped (TelemetryGuard_shutdown telemetry)], Some (Ok tt))
          | _ => (effects, None)
          end
        end
      end
  end.
End main.

Definition with_run (consumed : list (bool * Event (nat → PersistEnv))) (schedule : list Turn)
    (i : MainInput) : MainInput := {|
  mi_check_config := mi_check_config i; mi_parsed := mi_parsed i; mi_lookup := mi_lookup i;
  mi_filter := mi_filter i; mi_exporter := mi_exporter i; mi_outside := mi_outside i;
  mi_consumed := consumed; mi_schedule := schedule |}.

Section exit.
Context `{Mpsc Delivery Chan} `{UrlParser} `{HttpTypes} `{JwtLibrary Key} `{MimeParser}.
Context `{JsonCodec} `{Base64} `{RecordCodec}.
Implicit Types (d : Components Chan Key) (i : MainInput).

(** The consumer that [main] runs is set up by the consumer's section. *)
Lemma compose_ingestor o c d :
  compose o c = Ok d →
  let config := kf_consumer (app_kafka c) in
  ig_commit_invalid_messages (cp_ingestor d) = kc_commit_invalid_messages config ∧
  ig_max_payload_bytes (cp_ingestor d) = kc_max_payload_bytes config ∧
  ig_log (cp_ingestor d) = [].
Proof.
  intros Hrun. unfold compose in Hrun. destruct (reload_jwks _ _ _) as [a loaded].
  bind_step Hrun as [], _. cbv zeta in Hrun. bind_step Hrun as publisher, _.
  destruct (WebhookManager_new _ _ _ _) as [router built].
  bind_step Hrun as manager, _. bind_step Hrun as ingestor, Hing. bind_step Hrun as [], _.
  injection Hrun as <-. apply map_err_Ok in Hing. unfold with_pre_commit_sinks in Hing.
  repeat case_match; by simplify_eq.
Qed.

(** What [main] does once the components are composed. *)
Lemma main_composed i logging c d :
  load_configuration i = Ok (logging, c) → mi_check_config i = false →
  compose (mi_outside i) c = Ok d →
  ∃ before deadline, ∀ consumed schedule s,
    daemon_run (with_run consumed schedule i) c d schedule = Some s →
    main (Chan := Chan) (with_run consumed schedule i) =
    match sy_main s with
    | Finished => ((before ++ stop_effects (shutdown_grace c) s) ++ [TelemetryStopped deadline], Some (Ok tt))
    | _ => (before ++ stop_effects (shutdown_grace c) s, None)
    end.
Proof.
  intros Hload Hcheck Hstart.
  destruct (TelemetryGuard_init (mi_exporter i) (mi_filter i) logging (app_opentelemetry c))
    as [telemetry subscriber] eqn:E.
  eexists _, _. intros consumed schedule s Hrun. unfold main.
  change (load_configuration (with_run consumed schedule i)) with (load_configuration i).
  rewrite Hload. cbn [mi_check_config mi_outside with_run mi_schedule mi_exporter mi_filter].
  rewrite E, Hcheck, Hstart, Hrun. reflexivity.
Qed.

Lemma main_not_run i logging c d consumed schedule :
  load_configuration i = Ok (logging, c) → mi_check_config i = false →
  compose (mi_outside i) c = Ok d → daemon_run (with_run consumed schedule i) c d schedule = None →
  (main (Chan := Chan) (with_run consumed schedule i)).2 = None.
Proof.
  intros Hload Hcheck Hstart Hrun. unfold main.
  change (load_configuration (with_run consumed schedule i)) with (load_configuration i).
  rewrite Hload. destruct (TelemetryGuard_init _ _ _ _).
  cbn [mi_check_config mi_outside with_run mi_schedule]. by rewrite Hcheck, Hstart, Hrun.
Qed.

(** The start, the end of the consumer's task, and the end of the wait. *)
Definition consumer_ends (c : AppConfig) d : list Turn :=
  (if kr_enabled (app_kafka_readiness c) then [Main Next] else [Main Next; Main Next]) ++
  [OtherEnds (if is_some (jwks_refresh_interval (as_auth (cp_api d))) then 1 else 0)%nat (Ok kafka_task);
   Main (JoinNext 0)].

Lemma consumer_end_stops i c d :
  consumer_stopped i d = Some true →
  ∃ s, daemon_run i c d (consumer_ends c d) = Some s ∧ sy_main s = Draining ∧
    sy_stop s = Some (JoinStop (Some (Ok kafka_task))).
Proof.
  intros Hstop. unfold daemon_run, consumer_ends, other_tasks. rewrite Hstop.
  destruct (kr_enabled _) eqn:Ekr, (is_some _); simpl;
    unfold main_step, initial_readiness; simpl; rewrite Ekr; simpl; eauto.
Qed.

(** Whatever record ends the consumer, the process can end. *)
Lemma consumer_end_finishes i c d :
  consumer_stopped i d = Some true →
  ∃ schedule s, daemon_run i c d schedule = Some s ∧ sy_main s = Finished ∧
    forallb (negb ∘ signal_turn) schedule = true ∧
    sy_stop s = Some (JoinStop (Some (Ok kafka_task))).
Proof.
  intros (s & Hrun & Hpc & Hstop)%(consumer_end_stops i c).
  pose proof (turns_reachable _ _ _ _ _ _ _ Hrun) as (_ & _ & Horder)%reachable_ok.
  assert (drain_rank (sy_main s) ≤ 6)%nat as Hrank by by rewrite Hpc.
  destruct (finish_finishes (app_kafka_readiness c) (app_api c) (shutdown_grace c)
    (task_ends (consumer_stopped i d)) s) as (s' & Hfin & Hend); [unfold shutdown_grace; lia|done|done|].
  exists (consumer_ends c d ++ finish (shutdown_grace c) s), s'. split_and!.
  - unfold daemon_run in *. by rewrite turns_app, Hrun.
  - done.
  - rewrite forallb_app, finish_no_signal, andb_true_r. unfold consumer_ends. by destruct (kr_enabled _).
  - by rewrite (stop_kept _ _ _ _ _ _ _ Hfin Hrank).
Qed.

(** (C38) The exit of the process does not tell a failure from a requested
    stop.  Take a daemon that was composed from a configuration which does not
    let invalid records pass, and a record that does not decode.  The consumer
    loop rejects it, commits nothing and stops; its task ends, [main] joins it
    and drains, in a run without any signal, and returns success.  And in every
    run without a signal, whatever the tasks return and however they are
    interleaved: when [main] returns, a task had ended, which is what it logged,
    and its result is success. *)
Theorem component_exit_is_success i logging c d record error iter clock e1 e2 e3 e4 env ok
    (Hload : load_configuration i = Ok (logging, c)) (Hcheck : mi_check_config i = false)
    (Hstart : compose (mi_outside i) c = Ok d)
    (Hstrict : kc_commit_invalid_messages (kf_consumer (app_kafka c)) = false)
    (Hdecode : decode_message record (kc_max_payload_bytes (kf_consumer (app_kafka c))) = Err error) :
  let consumed := [(false, RecvRecord record iter clock e1 e2 e3 e4 env ok)] in
  (∃ g, run consumed (cp_ingestor d) = Some (g, Stop) ∧
     ig_log g = [Rejected (position_of record) error]) ∧
  (∃ schedule effects, forallb (negb ∘ signal_turn) schedule = true ∧
     main (Chan := Chan) (with_run consumed schedule i) = (effects, Some (Ok tt)) ∧
     Stopping LevelWarn (JoinStop (Some (Ok kafka_task))) ∈ effects) ∧
  (∀ consumed schedule effects res, forallb (negb ∘ signal_turn) schedule = true →
     main (Chan := Chan) (with_run consumed schedule i) = (effects, Some res) →
     res = Ok tt ∧
     ∃ outcome, Stopping (stop_level (JoinStop outcome)) (JoinStop outcome) ∈ effects).
Proof.
  intros consumed. destruct (compose_ingestor _ _ _ Hstart) as (Hci & Hmax & Hlog).
  destruct (main_composed _ _ _ _ Hload Hcheck Hstart) as (before & deadline & Hmain).
  assert (∃ g, run consumed (cp_ingestor d) = Some (g, Stop) ∧
    ig_log g = [Rejected (position_of record) error]) as (g & Hrun & Hg).
  { eexists. split; [simpl; unfold handle_record; rewrite Hmax, Hdecode, Hci, Hstrict; reflexivity|].
    simpl. by rewrite Hlog. }
  split_and!; [eauto|..].
  - destruct (consumer_end_finishes (with_run consumed [] i) c d) as (schedule & s & Hs & Hpc & Hno & Hstop).
    { unfold consumer_stopped. cbn [with_run mi_consumed]. by rewrite Hrun. }
    eexists schedule, _. split; [done|]. rewrite (Hmain consumed schedule s Hs), Hpc. split; [reflexivity|].
    unfold stop_effects. rewrite Hstop, !elem_of_app. left. right. left.
  - intros consumed' schedule effects res Hno Hres.
    destruct (daemon_run (with_run consumed' schedule i) c d schedule) as [s|] eqn:Hs.
    2: { pose proof (main_not_run _ _ _ _ _ _ Hload Hcheck Hstart Hs) as Hn. by rewrite Hres in Hn. }
    rewrite (Hmain _ _ _ Hs) in Hres. destruct (sy_main s) eqn:Hpc; try discriminate Hres.
    injection Hres as <- <-. split; [done|].
    pose proof (turns_reachable _ _ _ _ _ _ _ Hs) as (_ & _ & Ho & _)%reachable_ok.
    destruct Ho as [cause Hstop]; [rewrite Hpc; simpl; lia|].
    destruct (stop_without_signal _ _ _ _ _ _ _ _ Hs Hno eq_refl Hstop) as [outcome ->].
    exists outcome. unfold stop_effects. rewrite Hstop, !elem_of_app. left. right. left.
Qed.
End exit.

(** ** Concrete inputs *)

#[local] Existing Instances example_json example_jwt padded KafkaSpec.example_mime
  example_http example_url_parser pipeline_codec.

(** A signal, and a drain in which every task ends. *)
Definition orderly_schedule : list Turn :=
  [GrpcNext; GrpcNext; GrpcNext; Main Next; Main Next; Main (Signal (Ok tt) Terminate);
   Main Next; Main Next; Main Next; OtherEnds 0 (Ok kafka_task); OtherEnds 0 (Ok ("http", Ok tt));
   GrpcEnd (Ok ("grpc", Ok tt)); OtherEnds 0 (Ok ("webhooks", Ok tt));
   Main (JoinNext 1); Main (JoinNext 0); Main (JoinNext 0); Main (JoinNext 0); Main Next; Main Next].

Definition example_input : MainInput := {|
  mi_check_config := false; mi_parsed := Ok (LoggingConfig_default, example_config);
  mi_lookup := λ _, Some "router-0"; mi_filter := None; mi_exporter := λ _ _, None;
  mi_outside := example_outside; mi_consumed := []; mi_schedule := orderly_schedule |}.

Example example_main_effects :
  main (Chan := Fifo Delivery) example_input =
  ([TelemetryStarted {| sb_filter := lg_filter LoggingConfig_default; sb_exporting := false;
                        sb_json := false |};
    Spawned ["kafka"; "http"; "grpc"; "webhooks"];
    Stopping LevelInfo (SignalStop (Ok tt) Terminate);
    ComponentStopped (Ok ("http", Ok tt)); ComponentStopped (Ok ("kafka", Ok tt));
    ComponentStopped (Ok ("grpc", Ok tt)); ComponentStopped (Ok ("webhooks", Ok tt));
    RouterStopped; TelemetryStopped None], Some (Ok tt)).
Proof. vm_compute. reflexivity. Qed.

(** The check alone: nothing is composed. *)
Example example_check_effects :
  (main (Chan := Fifo Delivery) {|
     mi_check_config := true; mi_parsed := mi_parsed example_input;
     mi_lookup := mi_lookup example_input; mi_filter := None; mi_exporter := λ _ _, None;
     mi_outside := jwt_outside; mi_consumed := []; mi_schedule := [] |}).2 = Some (Ok tt).
Proof. vm_compute. reflexivity. Qed.

(** The example configuration with the strict policy. *)
Definition strict_config : AppConfig := {|
  app_server := app_server example_config; app_api := ApiConfig_default;
  app_router := RouterConfig_default; app_auth := app_auth example_config;
  app_kafka := {| kf_group_id_suffix_env := None;
    kf_consumer := {|
      kc_brokers := "localhost:9092"; kc_group_id := "strict"; kc_client_id := "client";
      kc_topics := ["router.input"]; kc_auto_offset_reset := "earliest";
      kc_max_payload_bytes := 1_048_576; kc_commit_invalid_messages := false;
      kc_properties := ∅ |};
    kf_producer := KafkaProducerConfig_default |};
  app_webhooks := app_webhooks example_config; app_opentelemetry := OpenTelemetryConfig_default;
  app_kafka_readiness := KafkaReadinessConfig_default |}.
Definition strict_input : MainInput := {|
  mi_check_config := false; mi_parsed := Ok (LoggingConfig_default, strict_config);
  mi_lookup := λ _, None; mi_filter := None; mi_exporter := λ _ _, None;
  mi_outside := example_outside; mi_consumed := []; mi_schedule := [] |}.

(** A record without headers. *)
Definition poison_record : KafkaRecord := {|
  kr_payload := None; kr_topic := "router.input"; kr_partition := 0; kr_offset := 8;
  kr_timestamp_ms := None; kr_headers := None |}.

Example strict_starts :
  load_configuration strict_input = Ok (LoggingConfig_default, strict_config) ∧
  is_ok (compose (Chan := Fifo Delivery) example_outside strict_config) = true.
Proof. split; vm_compute; reflexivity. Qed.

(** The poison record ends the consumer, and the process ends with success. *)
Lemma component_exit_is_success_witness :
  ∃ (d : Components (Fifo Delivery) string) error g schedule effects,
    let consumed := [(false, RecvRecord poison_record map_to_list 0 0 0 0 0
      (λ _ _, {| pe_uuid := "u"; pe_clock := 0; pe_producer := λ _ _ _, None |}) true)] in
    run consumed (cp_ingestor d) = Some (g, Stop) ∧
    ig_log g = [Rejected (position_of poison_record) error] ∧
    main (Chan := Fifo Delivery) (with_run consumed schedule strict_input) = (effects, Some (Ok tt)) ∧
    Stopping LevelWarn (JoinStop (Some (Ok kafka_task))) ∈ effects.
Proof.
  destruct strict_starts as [Hload Hex].
  destruct (compose (Chan := Fifo Delivery) example_outside strict_config) as [d|] eqn:Hstart;
    [|discriminate Hex].
  destruct (decode_message poison_record 1_048_576) as [m|error] eqn:Hdecode.
  - assert (is_ok (decode_message poison_record 1_048_576) = false) as Hbad
      by (vm_compute; reflexivity).
    rewrite Hdecode in Hbad. discriminate Hbad.
  - destruct (component_exit_is_success strict_input LoggingConfig_default strict_config d
      poison_record error map_to_list 0 0 0 0 0
      (λ _ _, {| pe_uuid := "u"; pe_clock := 0; pe_producer := λ _ _ _, None |}) true
      Hload eq_refl Hstart eq_refl Hdecode)
      as ((g & Hrun & Hlog) & (schedule & effects & _ & Hmain & Hin) & _).
    exists d, error, g, schedule, effects. split; [exact Hrun|]. split; [exact Hlog|].
    split; [exact Hmain|exact Hin].
Defined.
