(* ===== verification/Load.v ===== *)
(** * The load generator's SSE client

    tools/router-load: the arguments and their validation, the recorder of
    latencies, the webhook receiver, and the incremental reader of
    [sse_listener], which must find the same events whatever chunks the network
    makes of the stream.  The histogram is library code and a parameter. *)

From S2P Require Import Prelude Str Ids Message Route Router Metrics Limits Wire Auth.
From S2P Require Import Publish Streams.
Open Scope Z_scope.

Definition MAX_MESSAGES : Z := 10_000_000.
Definition MAX_CONNECTIONS : Z := 100_000.
Definition MAX_IN_FLIGHT : Z := 1_024.
Definition MAX_SSE_BUFFER : Z := 1_048_576.
Definition MAX_LATENCY_US : Z := 3_600_000_000.

(** ** Reading a stream of events *)

Definition NL : ascii := Ascii.ascii_of_nat 10.
Definition CR : ascii := Ascii.ascii_of_nat 13.

(** The buffer up to the first newline, and what follows it:
    [position] and [drain(..=position)] without the newline. *)
Fixpoint split_line (s : string) : option (string * string) :=
  match s with
  | "" => None
  | String a s =>
      if bool_decide (a = NL) then Some ("", s)
      else match split_line s with Some (line, rest) => Some (String a line, rest) | None => None end
  end.

(** A carriage return before the newline is dropped. *)
Fixpoint strip_cr (line : string) : string :=
  match line with
  | "" => ""
  | String a "" => if bool_decide (a = CR) then "" else line
  | String a rest => String a (strip_cr rest)
  end.

(** The state of [sse_listener] between chunks: the bytes of an unfinished
    line, the data of an unfinished event, and the message ids recorded. *)
Record SseReader : Type := {
  sr_buffer : string;
  sr_data : string;
  sr_recorded : list string;
}.
Definition SseReader_new : SseReader := {| sr_buffer := ""; sr_data := ""; sr_recorded := [] |}.

Inductive SseError : Type := BufferExceeded | InvalidJson.

(** [value.pointer("/message/metadata/message_id").and_then(Value::as_str)]. *)
Definition message_id_of (v : Json) : option string :=
  m ← get "message" v; md ← get "metadata" m; id ← get "message_id" md;
  match id with JStr s => Some s | _ => None end.

Section reader.
Context `{JsonCodec}.

(** One line: an empty one ends the event, a [data] field adds to it, other
    fields and comments are skipped. *)
Definition sse_line (line : string) (r : SseReader) : result SseError SseReader :=
  if is_empty line then
    if is_empty (sr_data r) then Ok r
    else
      value ← ok_or (json_parse (sr_data r)) InvalidJson;
      Ok {| sr_buffer := sr_buffer r; sr_data := "";
            sr_recorded := sr_recorded r ++ option_list (message_id_of value) |}
  else
    match strip_prefix "data:" line with
    | Some value =>
        Ok {| sr_buffer := sr_buffer r;
              sr_data := (if is_empty (sr_data r) then "" else sr_data r +:+ String NL "") +:+
                         default value (strip_prefix " " value);
              sr_recorded := sr_recorded r |}
    | None => Ok r
    end.

Definition with_buffer (buffer : string) (r : SseReader) : SseReader :=
  {| sr_buffer := buffer; sr_data := sr_data r; sr_recorded := sr_recorded r |}.

(** The inner loop: lines are drained while the buffer has a newline.  Every
    line takes at least its newline, so the length of the buffer is fuel. *)
Fixpoint drain_lines (fuel : nat) (r : SseReader) : result SseError SseReader :=
  match fuel, split_line (sr_buffer r) with
  | S fuel, Some (line, rest) =>
      r ← sse_line (strip_cr line) (with_buffer rest r); drain_lines fuel r
  | _, _ => Ok r
  end.

(** The outer loop of [sse_listener], over the chunks that arrive. *)
Definition sse_chunk (chunk : string) (r : SseReader) : result SseError SseReader :=
  let buffer := sr_buffer r +:+ chunk in
  if MAX_SSE_BUFFER <? str_len buffer then Err BufferExceeded
  else drain_lines (String.length buffer) (with_buffer buffer r).

Fixpoint sse_chunks (chunks : list string) (r : SseReader) : result SseError SseReader :=
  match chunks with
  | [] => Ok r
  | chunk :: chunks => r ← sse_chunk chunk r; sse_chunks chunks r
  end.
End reader.

(** ** What a stream means *)

(** The complete lines of a text and the unfinished one. *)
Fixpoint lines (s : string) : list string * string :=
  match s with
  | "" => ([], "")
  | String a s =>
      let '(ls, t) := lines s in
      if bool_decide (a = NL) then ("" :: ls, t)
      else match ls with [] => ([], String a t) | l :: ls => (String a l :: ls, t) end
  end.

(** Lines, each ended by a newline. *)
Definition unlines (ls : list string) : string :=
  foldr (λ l s, l +:+ String NL s) "" ls.

Definition concat_chunks (chunks : list string) : string := foldr String.append "" chunks.

Definition no_newline (s : string) : Prop := split_line s = None.

Section meaning.
Context `{JsonCodec}.

(** The reference reader: all lines in order, at once. *)
Fixpoint read_lines (ls : list string) (r : SseReader) : result SseError SseReader :=
  match ls with
  | [] => Ok r
  | l :: ls => r ← sse_line (strip_cr l) r; read_lines ls r
  end.

Lemma split_line_lines s :
  match split_line s with
  | None => lines s = ([], s)
  | Some (l, rest) => lines s = (l :: (lines rest).1, (lines rest).2) ∧
      (String.length rest < String.length s)%nat
  end.
Proof.
  induction s as [|a s IH]; cbn [split_line lines]; [done|].
  case_bool_decide as Ha.
  - destruct (lines s) as [ls t]. simpl. split; [done|lia].
  - destruct (split_line s) as [[l rest]|].
    + destruct IH as [-> Hlt]. simpl. split; [done|lia].
    + by rewrite IH.
Qed.

Lemma lines_app a b :
  lines (a +:+ b) = ((lines a).1 ++ (lines ((lines a).2 +:+ b)).1, (lines ((lines a).2 +:+ b)).2).
Proof.
  induction a as [|x a IH]; cbn [String.append]; [by simpl; destruct (lines b)|].
  cbn [lines]. rewrite IH. destruct (lines a) as [la ta]. simpl.
  case_bool_decide as Hx; [done|]. destruct la as [|l la]; simpl; [|done].
  destruct (lines (ta +:+ b)) as [lb tb]. simpl.
  rewrite bool_decide_eq_false_2 by done. by destruct lb.
Qed.

Lemma lines_tail s : lines (lines s).2 = ([], (lines s).2).
Proof.
  induction s as [|a s IH]; cbn [lines]; [done|]. destruct (lines s) as [ls t]. simpl in IH.
  case_bool_decide as Ha; [done|]. destruct ls as [|l ls]; simpl; [|done].
  rewrite IH. simpl. by rewrite bool_decide_eq_false_2.
Qed.

Lemma sse_line_buffer line r buffer :
  sse_line line (with_buffer buffer r) = with_buffer buffer <$> sse_line line r.
Proof.
  unfold sse_line, with_buffer. cbn [sr_buffer sr_data sr_recorded]. destruct (is_empty line).
  - destruct (is_empty (sr_data r)); [done|]. by destruct (json_parse (sr_data r)).
  - by destruct (strip_prefix "data:" line).
Qed.

Lemma read_lines_buffer ls r buffer :
  read_lines ls (with_buffer buffer r) = with_buffer buffer <$> read_lines ls r.
Proof.
  revert r. induction ls as [|l ls IH]; intros r; cbn [read_lines]; [done|].
  rewrite sse_line_buffer. by destruct (sse_line (strip_cr l) r) as [r'|]; simpl; [apply IH|].
Qed.

Lemma with_buffer_twice a b r : with_buffer a (with_buffer b r) = with_buffer a r.
Proof. done. Qed.

(** The inner loop reads all complete lines of the buffer, and no more. *)
Lemma drain_lines_spec fuel r :
  (String.length (sr_buffer r) ≤ fuel)%nat →
  drain_lines fuel r =
    with_buffer (lines (sr_buffer r)).2 <$> read_lines (lines (sr_buffer r)).1 r.
Proof.
  revert r. induction fuel as [|fuel IH]; intros r Hfuel; cbn [drain_lines];
    pose proof (split_line_lines (sr_buffer r)) as Hs.
  - destruct r as [[|] data rec]; simpl in *; [done|lia].
  - destruct (split_line (sr_buffer r)) as [[l rest]|]; rewrite ?Hs; [|by destruct r].
    destruct Hs as [-> Hlt]. cbn [read_lines fst snd]. rewrite sse_line_buffer.
    destruct (sse_line (strip_cr l) r) as [r'|]; simpl; [|done]. rewrite IH by (simpl; lia). simpl.
    rewrite read_lines_buffer. by destruct (read_lines (lines rest).1 r').
Qed.

Lemma read_lines_app l1 l2 r : read_lines (l1 ++ l2) r = read_lines l1 r ≫= read_lines l2.
Proof.
  revert r. induction l1 as [|l l1 IH]; intros r; cbn [read_lines app]; [done|].
  destruct (sse_line (strip_cr l) r); simpl; [apply IH|done].
Qed.

(** No chunk overflows the buffer. *)
Fixpoint fits (buffer : string) (chunks : list string) : bool :=
  match chunks with
  | [] => true
  | chunk :: chunks => (str_len (buffer +:+ chunk) <=? MAX_SSE_BUFFER) &&
      fits (lines (buffer +:+ chunk)).2 chunks
  end.

(** The reader finds the same, whatever the chunks: what the reference reader
    finds in the whole stream. *)
Lemma sse_chunks_spec chunks r :
  fits (sr_buffer r) chunks = true → lines (sr_buffer r) = ([], sr_buffer r) →
  sse_chunks chunks r =
    with_buffer (lines (sr_buffer r +:+ concat_chunks chunks)).2 <$>
      read_lines (lines (sr_buffer r +:+ concat_chunks chunks)).1 r.
Proof.
  revert r. induction chunks as [|chunk chunks IH]; intros r Hfits Hb; cbn [sse_chunks concat_chunks foldr].
  { rewrite str_app_nil_r, Hb. by destruct r. }
  cbn [fits] in Hfits. apply andb_true_iff in Hfits as [Hlen%Z.leb_le Hfits].
  unfold sse_chunk. rewrite (proj2 (Z.ltb_ge _ _) Hlen).
  rewrite drain_lines_spec by done. cbn [with_buffer sr_buffer].
  rewrite read_lines_buffer, <-str_app_assoc, (lines_app (sr_buffer r +:+ chunk)).
  set (t := (lines (sr_buffer r +:+ chunk)).2). cbn [fst snd]. rewrite read_lines_app.
  destruct (read_lines (lines (sr_buffer r +:+ chunk)).1 r) as [r'|]; simpl; [|done].
  rewrite IH; simpl; [|done|].
  - fold (concat_chunks chunks). rewrite !read_lines_buffer.
    by destruct (read_lines (lines (t +:+ concat_chunks chunks)).1 r').
  - apply lines_tail.
Qed.

(** ** The stream the server writes *)

(** Lines that say nothing to the reader: other fields, and comments. *)
Definition skipped (line : string) : Prop :=
  line ≠ "" ∧ no_newline line ∧ strip_cr line = line ∧ strip_prefix "data:" line = None.

(** The encoding of an event in the format of server-sent events: the data on
    one line, other fields before or after it, and an empty line. *)
Inductive event_lines (data : string) : list string → Prop :=
| event_lines_intro before after :
    Forall skipped before → Forall skipped after →
    event_lines data (before ++ ["data: " +:+ data] ++ after ++ [""]).

(** What the server puts on a stream: the event of a delivery, or a comment
    that keeps the connection alive. *)
Inductive stream_item `{Base64} : option Delivery → list string → Prop :=
| item_delivery d ls : event_lines (encode_delivery_json d) ls → stream_item (Some d) ls
| item_comment line : skipped line → stream_item None [line; ""].

Lemma unlines_app l1 l2 : unlines (l1 ++ l2) = unlines l1 +:+ unlines l2.
Proof.
  unfold unlines. induction l1 as [|l l1 IH]; simpl; [done|]. rewrite IH.
  by rewrite (str_app_assoc l).
Qed.

Lemma lines_line l s :
  no_newline l → lines (l +:+ String NL s) = (l :: (lines s).1, (lines s).2).
Proof.
  unfold no_newline. intros Hl. pose proof (split_line_lines l) as Hs. rewrite Hl in Hs.
  rewrite lines_app, Hs. simpl. clear Hs. induction l as [|a l IH]; simpl in *.
  - destruct (lines s) as [ls t]. done.
  - destruct (bool_decide (a = NL)) eqn:Ha; [done|].
    destruct (split_line l) as [[]|]; [done|]. specialize (IH eq_refl). injection IH as E1 E2.
    destruct (lines (l +:+ String NL s)) as [ls t]. simpl in *. rewrite E1, E2. done.
Qed.

Lemma lines_unlines ls : Forall no_newline ls → lines (unlines ls) = (ls, "").
Proof.
  induction ls as [|l ls IH]; [done|]. intros [Hl Hls]%Forall_cons. simpl.
  rewrite lines_line by done. by rewrite IH.
Qed.

Lemma read_skipped ls r : Forall skipped ls → read_lines ls r = Ok r.
Proof.
  induction ls as [|l ls IH]; [done|]. intros [(Hne & _ & Hcr & Hd) Hls]%Forall_cons.
  cbn [read_lines]. rewrite Hcr. unfold sse_line.
  assert (is_empty l = false) as -> by (by apply bool_decide_eq_false_2).
  rewrite Hd. simpl. auto.
Qed.

(** A chunk size and a line size that the buffer has room for together. *)
Lemma tail_prefix t s :
  lines t = ([], t) →
  match lines (t +:+ s) with
  | (l :: _, _) => str_len t ≤ str_len l
  | ([], u) => str_len t ≤ str_len u
  end.
Proof.
  unfold str_len. induction t as [|a t IH]; cbn [lines String.append].
  { intros _. destruct (lines s) as [[] ?]; simpl; lia. }
  destruct (lines t) as [lt tt]. case_bool_decide as Ha; [done|].
  destruct lt; [|done]. intros [= ->]. specialize (IH eq_refl).
  destruct (lines (t +:+ s)) as [[|l ls] u]; simpl in *; lia.
Qed.

Lemma fits_bounded a b buffer chunks :
  a + b ≤ MAX_SSE_BUFFER → (∀ chunk, chunk ∈ chunks → str_len chunk ≤ a) →
  str_len buffer ≤ b → lines buffer = ([], buffer) →
  (∀ l, l ∈ (lines (buffer +:+ concat_chunks chunks)).1 → str_len l ≤ b) →
  str_len (lines (buffer +:+ concat_chunks chunks)).2 ≤ b →
  fits buffer chunks = true.
Proof.
  intros Hab. revert buffer. induction chunks as [|chunk chunks IH]; intros buffer Hc Hb Hlb Hl Ht; [done|].
  cbn [fits concat_chunks foldr] in *. fold (concat_chunks chunks) in *. apply andb_true_iff. split.
  { apply Z.leb_le. rewrite str_len_app. specialize (Hc chunk ltac:(left)). lia. }
  rewrite <-str_app_assoc, (lines_app (buffer +:+ chunk)) in Hl, Ht. simpl in Hl, Ht.
  set (t := (lines (buffer +:+ chunk)).2) in *.
  apply IH; [intros; apply Hc; by right| |apply lines_tail|intros; apply Hl; set_solver|done].
  pose proof (tail_prefix t (concat_chunks chunks) (lines_tail _)) as Hp.
  destruct (lines (t +:+ concat_chunks chunks)) as [[|l ls] u]; simpl in *; [lia|].
  assert (str_len l ≤ b); [|lia]. apply Hl. set_solver.
Qed.
End meaning.

(** ** Reading back what the server wrote *)

(** No byte of the text is [a]. *)
Fixpoint lacks (a : ascii) (s : string) : bool :=
  match s with
  | "" => true
  | String b s => negb (bool_decide (b = a)) && lacks a s
  end.

Lemma lacks_NL s : lacks NL s = true → no_newline s.
Proof.
  unfold no_newline. induction s as [|b s IH]; simpl; [done|].
  case_bool_decide; simpl; [done|]. intros Hs. by rewrite IH.
Qed.

Lemma lacks_CR s : lacks CR s = true → strip_cr s = s.
Proof.
  induction s as [|b s IH]; simpl; [done|]. case_bool_decide as Hb; simpl; [done|]. intros Hs.
  destruct s as [|c s]; [done|]. by rewrite IH.
Qed.

Section stream.
Context `{JsonCodec} `{Base64}.

(** What is relied upon of the JSON text of a value: it is one non-empty line
    (control characters are escaped), and reading it back keeps every string
    member, although the members of an object may come back in another order. *)
Record json_text (v : Json) : Prop := {
  jt_line : json_print v ≠ "" ∧ lacks NL (json_print v) = true ∧ lacks CR (json_print v) = true;
  jt_members : ∃ v', json_parse (json_print v) = Some v' ∧
    ∀ path s, at_path path v = Some (JStr s) → at_path path v' = Some (JStr s);
}.

Lemma message_id_at v s :
  at_path ["message"; "metadata"; "message_id"] v = Some (JStr s) ↔ message_id_of v = Some s.
Proof.
  unfold at_path, message_id_of. simpl. destruct (get "message" v) as [m|]; simpl; [|done].
  destruct (get "metadata" m) as [md|]; simpl; [|done].
  destruct (get "message_id" md) as [[]|]; simpl; naive_solver.
Qed.

Lemma read_event d ls r :
  json_text (delivery_json d) → event_lines (encode_delivery_json d) ls → sr_data r = "" →
  Forall no_newline ls ∧
  read_lines ls r = Ok {| sr_buffer := sr_buffer r; sr_data := "";
    sr_recorded := sr_recorded r ++ [md_message_id (rm_metadata (d_message d))] |}.
Proof.
  intros [(Hne & Hnl & Hcr) (v & Hparse & Hmem)] [before after Hb Ha] Hdata.
  unfold encode_delivery_json.
  assert (message_id_of v = Some (md_message_id (rm_metadata (d_message d)))) as Hid
    by (apply message_id_at, Hmem; done).
  set (text := json_print (delivery_json d)) in *. split.
  - rewrite !Forall_app. split_and!.
    + eapply Forall_impl; [exact Hb|]. by intros l (_ & ? & _).
    + repeat constructor. apply lacks_NL. done.
    + eapply Forall_impl; [exact Ha|]. by intros l (_ & ? & _).
    + by repeat constructor.
  - rewrite read_lines_app, read_skipped by done. cbn [mbind result_bind].
    assert (sse_line (strip_cr ("data: " +:+ text)) r = Ok {| sr_buffer := sr_buffer r;
      sr_data := text; sr_recorded := sr_recorded r |}) as Hline.
    { rewrite lacks_CR by done. unfold sse_line. rewrite Hdata. by destruct r. }
    cbn [read_lines app]. rewrite Hline. simpl.
    rewrite read_lines_app, read_skipped by done. simpl. unfold sse_line. simpl.
    assert (is_empty text = false) as -> by (by apply bool_decide_eq_false_2).
    rewrite Hparse. simpl. by rewrite Hid.
Qed.

Lemma read_items items lss r :
  (∀ d, Some d ∈ items → json_text (delivery_json d)) →
  Forall2 stream_item items lss → sr_data r = "" →
  Forall no_newline (mjoin lss) ∧
  read_lines (mjoin lss) r = Ok {| sr_buffer := sr_buffer r; sr_data := "";
    sr_recorded := sr_recorded r ++
      ((λ d, md_message_id (rm_metadata (d_message d))) <$> omap id items) |}.
Proof.
  intros Htext Hitems. revert Htext r.
  induction Hitems as [|item ls items lss Hitem _ IH]; intros Htext r Hdata.
  { split; [constructor|]. simpl. rewrite app_nil_r. by destruct r; simpl in *; subst. }
  specialize (IH (λ d Hd, Htext d (list_elem_of_further _ _ _ Hd))).
  simpl. rewrite Forall_app, read_lines_app. inversion Hitem as [d ls' Hd|line Hskip]; subst.
  - destruct (read_event d ls r (Htext d ltac:(left)) Hd Hdata) as [Hnl ->]. simpl.
    destruct (IH {| sr_buffer := sr_buffer r; sr_data := "";
      sr_recorded := sr_recorded r ++ [md_message_id (rm_metadata (d_message d))] |} eq_refl)
      as [Hnl' ->]. split; [done|]. simpl. by rewrite <-app_assoc.
  - destruct (IH r Hdata) as [Hnl' Hread]. split.
    + split; [|done]. destruct Hskip as (_ & ? & _). by repeat constructor.
    + change [line; ""] with ([line] ++ [""]). rewrite read_lines_app, read_skipped by (by constructor).
      simpl. unfold sse_line. simpl. rewrite Hdata. simpl. exact Hread.
Qed.

(** (C30) The load generator's SSE client reads back what the server writes.
    Whatever deliveries and keep-alive comments are on the stream, and
    whatever chunks it arrives in, as long as a chunk and a line fit the
    buffer together, the client neither fails nor blocks and records exactly
    the message ids of the deliveries, in order, with nothing left over. *)
Theorem sse_stream_read_back items lss chunks (a b : Z)
    (Htext : ∀ d, Some d ∈ items → json_text (delivery_json d))
    (Hitems : Forall2 stream_item items lss)
    (Hstream : concat_chunks chunks = unlines (mjoin lss))
    (Hchunks : ∀ chunk, chunk ∈ chunks → str_len chunk ≤ a)
    (Hlines : ∀ line, line ∈ mjoin lss → str_len line ≤ b)
    (Hroom : 0 ≤ b ∧ a + b ≤ MAX_SSE_BUFFER) :
  sse_chunks chunks SseReader_new = Ok {| sr_buffer := ""; sr_data := "";
    sr_recorded := (λ d, md_message_id (rm_metadata (d_message d))) <$> omap id items |}.
Proof.
  destruct (read_items items lss SseReader_new Htext Hitems eq_refl) as [Hnl Hread].
  pose proof (lines_unlines _ Hnl) as Hl.
  rewrite sse_chunks_spec; simpl; [| |done].
  - rewrite Hstream, Hl. simpl. by rewrite Hread.
  - apply (fits_bounded a b); simpl; rewrite ?Hstream, ?Hl; simpl; try done; unfold str_len; simpl; lia.
Qed.
End stream.

(** A delivery of a message that is not JSON, read by a codec that knows its
    envelope; the stream has its event and a comment, in three chunks. *)
Definition load_delivery : Delivery := {|
  d_message := {|
    rm_metadata := {| md_message_id := "m-1"; md_tenant_id := "t"; md_kind := None;
      md_message_type := None; md_channel := Some "load"; md_actor_id := None;
      md_recipient_type := None; md_recipient_identity := None; md_content_type := "text/plain";
      md_timestamp_ms := None; md_source := None |};
    rm_payload := "p"; rm_trace_context := None |};
  d_subscription_ids := ["sse"] |}.
Definition load_envelope : Json :=
  @delivery_json {| json_parse := λ _, None; json_print := λ _, "" |} example_base64 load_delivery.
Definition load_codec : JsonCodec := {|
  json_parse := λ s, if is_empty s then None else Some load_envelope; json_print := λ _, "{}" |}.

Definition load_items : list (option Delivery) := [None; Some load_delivery].
Definition load_lines : list (list string) :=
  [[": keep-alive"; ""]; ["id: m-1"; "event: message"; "data: {}"; ""]].
Definition load_chunks : list string :=
  let text := unlines (mjoin load_lines) in
  [String.substring 0 5 text; String.substring 5 30 text; String.substring 35 100 text].

Lemma sse_stream_read_back_witness :
  @sse_chunks load_codec load_chunks SseReader_new =
  Ok {| sr_buffer := ""; sr_data := ""; sr_recorded := ["m-1"] |}.
Proof.
  apply (@sse_stream_read_back load_codec example_base64 load_items load_lines load_chunks 40 20).
  - intros d Hd. apply elem_of_cons in Hd as [Hd|Hd]; [discriminate Hd|].
    apply list_elem_of_singleton in Hd. injection Hd as ->. split; [split_and!; done|].
    exists load_envelope. split; [reflexivity|]. intros path v Hp. exact Hp.
  - constructor; [by repeat constructor|]. constructor; [|constructor]. constructor.
    by apply (event_lines_intro _ ["id: m-1"; "event: message"] []); repeat constructor.
  - reflexivity.
  - apply Forall_forall. repeat constructor; discriminate.
  - apply Forall_forall. repeat constructor; discriminate.
  - split; discriminate.
Defined.

(** ** The run *)

(** [Args]; an address is the text it was parsed from. *)
Record Args : Type := {
  ar_http_base : string;
  ar_websocket_url : string;
  ar_grpc_endpoint : string;
  ar_bearer_token : option string;
  ar_tenant : string;
  ar_channel : string;
  ar_messages : Z;
  ar_rate_per_second : Z;
  ar_publish_workers : Z;
  ar_max_in_flight : Z;
  ar_websocket_connections : Z;
  ar_sse_connections : Z;
  ar_grpc_connections : Z;
  ar_expected_webhooks_per_message : Z;
  ar_webhook_listen : option string;
  ar_webhook_fail_every : Z;
  ar_slow_reader_delay_ms : Z;
  ar_publish_timeout_secs : Z;
  ar_drain_timeout_secs : Z;
  ar_output : string;
}.

(** The values of arguments that are not given. *)
Definition Args_default : Args := {|
  ar_http_base := "http://127.0.0.1:8080"; ar_websocket_url := "ws://127.0.0.1:8080/v1/ws";
  ar_grpc_endpoint := "http://127.0.0.1:9090"; ar_bearer_token := None;
  ar_tenant := "tenant-load"; ar_channel := "load"; ar_messages := 10_000;
  ar_rate_per_second := 1_000; ar_publish_workers := 4; ar_max_in_flight := 128;
  ar_websocket_connections := 1; ar_sse_connections := 1; ar_grpc_connections := 1;
  ar_expected_webhooks_per_message := 0; ar_webhook_listen := None; ar_webhook_fail_every := 0;
  ar_slow_reader_delay_ms := 0; ar_publish_timeout_secs := 30; ar_drain_timeout_secs := 30;
  ar_output := "artifacts/load-report.json" |}.

(** [validate]. *)
Definition validate (args : Args) : result string unit :=
  let connections := sat_add u64_max (sat_add u64_max (ar_websocket_connections args)
                       (ar_sse_connections args)) (ar_grpc_connections args) in
  _ ← ensure (negb ((ar_messages args =? 0) || (MAX_MESSAGES <? ar_messages args)))
        "messages must be within 1..=10000000";
  _ ← ensure (negb ((ar_rate_per_second args =? 0) || (ar_publish_workers args =? 0)))
        "rate-per-second and publish-workers must be positive";
  _ ← ensure (in_range 1 300 (ar_publish_timeout_secs args) &&
              in_range 1 3_600 (ar_drain_timeout_secs args))
        "publish-timeout-secs must be 1..=300 and drain-timeout-secs must be 1..=3600";
  _ ← ensure (negb ((ar_max_in_flight args =? 0) || (MAX_IN_FLIGHT <? ar_max_in_flight args)))
        "max-in-flight must be within 1..=1024";
  ensure (connections <=? MAX_CONNECTIONS) "total connections must not exceed 100000".

(** What a validated run has. *)
Record args_ok (args : Args) : Prop := {
  ao_messages : ar_messages args ≠ 0 ∧ ar_messages args ≤ 10_000_000;
  ao_workers : ar_publish_workers args ≠ 0;
  ao_drain : 1 ≤ ar_drain_timeout_secs args ≤ 3_600;
  ao_in_flight : ar_max_in_flight args ≠ 0 ∧ ar_max_in_flight args ≤ 1_024;
  ao_connections : sat_add u64_max (sat_add u64_max (ar_websocket_connections args)
    (ar_sse_connections args)) (ar_grpc_connections args) ≤ 100_000;
}.

Lemma validate_Ok args : validate args = Ok tt → args_ok args.
Proof.
  unfold validate, MAX_MESSAGES, MAX_IN_FLIGHT, MAX_CONNECTIONS, in_range. intros H.
  guard_step H as Hm. guard_step H as Hw. guard_step H as Ht. guard_step H as Hi.
  apply ensure_Ok, Z.leb_le in H.
  split; rewrite ?andb_true_iff, ?orb_false_iff, ?Z.leb_le, ?Z.eqb_neq, ?Z.ltb_ge in *; naive_solver.
Qed.

Inductive Protocol : Type := PWebSocket | PSse | PGrpc | PWebhook.
#[export] Instance Protocol_eq_dec : EqDecision Protocol.
Proof. solve_decision. Defined.

(** The [hdrhistogram] crate: values up to the maximum it was created with are
    counted; others are refused. *)
Class Histograms (Hist : Type) := {
  hist_new_with_max : Z → Hist;
  hist_record : Z → Hist → option Hist;
  hist_len : Hist → Z;
}.

(** [Recorder]: when each message was sent, and a histogram per protocol. *)
Record Recorder (Hist : Type) : Type := {
  re_starts : gmap string Z;
  re_histogram : Protocol → Hist;
}.
Arguments re_starts {Hist} _.
Arguments re_histogram {Hist} _.

Section recorder.
Context `{Histograms Hist}.
Implicit Types (re : Recorder Hist).

Definition Recorder_new : Recorder Hist :=
  {| re_starts := ∅; re_histogram := λ _, hist_new_with_max MAX_LATENCY_US |}.

(** [start] and [remove_start]. *)
Definition start (message_id : string) (now : Z) re : Recorder Hist :=
  {| re_starts := <[message_id := now]> (re_starts re); re_histogram := re_histogram re |}.
Definition remove_start (message_id : string) re : Recorder Hist :=
  {| re_starts := delete message_id (re_starts re); re_histogram := re_histogram re |}.

(** [record]; times are in microseconds. *)
Definition record (protocol : Protocol) (message_id : string) (now : Z) re : Recorder Hist :=
  match re_starts re !! message_id with
  | None => re
  | Some started =>
      let latency := Z.min (sat_sub now started) MAX_LATENCY_US in
      {| re_starts := re_starts re;
         re_histogram := λ p, if bool_decide (p = protocol)
           then default (re_histogram re p) (hist_record latency (re_histogram re p))
           else re_histogram re p |}
  end.

Definition count (protocol : Protocol) re : Z := hist_len (re_histogram re protocol).

(** [expected_complete]. *)
Definition expected_complete re (successful : Z) (args : Args) : bool :=
  let expected n := sat_mul u64_max successful n in
  (expected (ar_websocket_connections args) <=? count PWebSocket re) &&
  (expected (ar_sse_connections args) <=? count PSse re) &&
  (expected (ar_grpc_connections args) <=? count PGrpc re) &&
  (expected (ar_expected_webhooks_per_message args) <=? count PWebhook re).

(** [webhook_handler]: the status, the attempts so far and the recorder. *)
Definition webhook_handler (fail_every : Z) (envelope : Json) (now attempts : Z) re
    : Z * Z * Recorder Hist :=
  let attempt := wrap64 (attempts + 1) in
  if (0 <? fail_every) && (attempt mod fail_every =? 0) then (503, attempt, re)
  else match message_id_of envelope with
  | Some message_id => (204, attempt, record PWebhook message_id now re)
  | None => (400, attempt, re)
  end.

End recorder.
