(* ===== verification/LoadRun.v ===== *)
(** * A run of the load generator

    The rest of tools/router-load: the WebSocket and gRPC listeners, the
    request of a publish, the report, and the verdict of [main].  A run is the
    sequence of what happens at the recorder, in whatever order the workers
    and listeners get to it: a publish begins, is answered, or a delivery is
    received. *)

From S2P Require Import Prelude Str Ids Message Route Router Metrics Limits Wire Auth.
From S2P Require Import Publish Streams Load.
Open Scope Z_scope.

(** ** The other listeners *)

(** What [socket.next()] yields. *)
Inductive ClientFrame : Type :=
| ClientText (text : string)
| ClientOther
| ClientError.

Section listeners.
Context `{JsonCodec} `{Base64}.

(** The loop of [websocket_listener]: the message ids it records and whether it
    ends without an error. *)
Fixpoint websocket_listener (frames : list ClientFrame) : list string * bool :=
  match frames with
  | [] => ([], true)
  | ClientError :: _ => ([], false)
  | ClientOther :: rest => websocket_listener rest
  | ClientText text :: rest =>
      match json_parse text with
      | None => ([], false)
      | Some value =>
          let '(ids, ok) := websocket_listener rest in
          (option_list (message_id_of value) ++ ids, ok)
      end
  end.

(** The command the listener subscribes with. *)
Definition websocket_subscription (index : nat) (tenant channel : string) : Json :=
  JObj [("operation", JStr "subscribe"); ("subscription_id", JStr ("load-ws-" +:+ pretty index));
        ("filter", JObj [("tenant_id", JStr tenant); ("channel", JStr channel)])].

(** The loop of [grpc_listener]; an event without content is skipped. *)
Fixpoint grpc_listener (events : list (result Status (option ServerEvent))) : list string * bool :=
  match events with
  | [] => ([], true)
  | Err _ :: _ => ([], false)
  | Ok (Some (EventMessage message)) :: rest =>
      let '(ids, ok) := grpc_listener rest in (md_message_id (me_metadata message) :: ids, ok)
  | Ok _ :: rest => grpc_listener rest
  end.

(** The frames a server writes for a session: deliveries and other messages
    ([None]) that are JSON without a message. *)
Inductive server_frame : option Delivery → ClientFrame → Prop :=
| frame_delivery d : server_frame (Some d) (ClientText (encode_delivery_json d))
| frame_reply text v : json_parse text = Some v → message_id_of v = None →
    server_frame None (ClientText text)
| frame_control : server_frame None ClientOther.

Inductive server_event : option Delivery → result Status (option ServerEvent) → Prop :=
| event_delivery d : server_event (Some d) (Ok (Some (EventMessage (proto_delivery d))))
| event_ack operation sid : server_event None (Ok (Some (EventAck operation sid)))
| event_pong opaque : server_event None (Ok (Some (EventPong opaque))).

(** Both listeners record the message ids of the deliveries, in order, as the
    SSE listener does. *)
Lemma listeners_read_back items frames events :
  (∀ d, Some d ∈ items → json_text (delivery_json d)) →
  Forall2 server_frame items frames → Forall2 server_event items events →
  let ids := (λ d, md_message_id (rm_metadata (d_message d))) <$> omap id items in
  websocket_listener frames = (ids, true) ∧ grpc_listener events = (ids, true).
Proof.
  intros Htext Hframes Hevents. split.
  - clear events Hevents. induction Hframes as [|item frame items frames Hf _ IH]; [done|].
    specialize (IH (λ d Hd, Htext d (list_elem_of_further _ _ _ Hd))).
    destruct Hf as [d|text v Hp Hno|]; simpl.
    + destruct (Htext d ltac:(left)) as [_ (v & Hparse & Hmem)].
      unfold encode_delivery_json. rewrite Hparse, IH.
      assert (message_id_of v = Some (md_message_id (rm_metadata (d_message d)))) as ->
        by (apply message_id_at, Hmem; done).
      done.
    + by rewrite Hp, IH, Hno.
    + exact IH.
  - clear frames Hframes Htext. induction Hevents as [|item event items events He _ IH]; [done|].
    destruct He; simpl; [|exact IH..]. by rewrite IH.
Qed.
End listeners.

(** ** The run *)

(** The body [publish_worker] posts. *)
Definition publish_body (tenant channel message_id : string) (sequence : Z) : Json :=
  JObj [("message_id", JStr message_id); ("tenant_id", JStr tenant); ("channel", JStr channel);
        ("content_type", JStr "application/json"); ("payload", JObj [("sequence", JNum sequence)])].

(** The message ids of a run. *)
Definition load_message_id (run_id : string) (sequence : Z) : string :=
  "load-" +:+ run_id +:+ "-" +:+ pretty sequence.

(** What reaches the shared recorder and counters. *)
Inductive LoadEvent : Type :=
| Sent (message_id : string) (now : Z)
| Answered (message_id : string) (ok : bool)
| Received (protocol : Protocol) (message_id : string) (now : Z).

Record Run (Hist : Type) : Type := {
  run_successes : Z;
  run_failures : Z;
  run_recorder : Recorder Hist;
}.
Arguments run_successes {Hist} _.
Arguments run_failures {Hist} _.
Arguments run_recorder {Hist} _.

(** What is relied upon of the histogram: a latency up to the maximum it was
    created with is counted. *)
Class HistogramLaws (Hist : Type) `{Histograms Hist} := {
  hist_max : Hist → Z;
  hist_max_new max : hist_max (hist_new_with_max max) = max;
  hist_len_new max : hist_len (hist_new_with_max max) = 0;
  hist_record_ok value h : value ≤ hist_max h →
    ∃ h', hist_record value h = Some h' ∧ hist_len h' = hist_len h + 1 ∧ hist_max h' = hist_max h;
}.

Section run.
Context `{HistogramLaws Hist}.
Implicit Types (s : Run Hist) (events : list LoadEvent).

Definition Run_new : Run Hist :=
  {| run_successes := 0; run_failures := 0; run_recorder := Recorder_new |}.

Definition load_event (e : LoadEvent) s : Run Hist :=
  let re := run_recorder s in
  match e with
  | Sent message_id now =>
      {| run_successes := run_successes s; run_failures := run_failures s;
         run_recorder := start message_id now re |}
  | Answered _ true =>
      {| run_successes := wrap64 (run_successes s + 1); run_failures := run_failures s;
         run_recorder := re |}
  | Answered message_id false =>
      {| run_successes := run_successes s; run_failures := wrap64 (run_failures s + 1);
         run_recorder := remove_start message_id re |}
  | Received protocol message_id now =>
      {| run_successes := run_successes s; run_failures := run_failures s;
         run_recorder := record protocol message_id now re |}
  end.

Definition load_events events s : Run Hist := foldl (λ s e, load_event e s) s events.

(** The verdict at the end of [main]. *)
Definition load_verdict (args : Args) s : result string unit :=
  ensure (negb ((0 <? run_failures s) ||
                negb (expected_complete (run_recorder s) (run_successes s) args)))
    ("load run failed: " +:+ pretty (run_failures s) +:+
     " publish failures or incomplete protocol delivery").

(** The answers of a kind, and the deliveries that count: those of a message
    that was sent and not refused before the delivery arrived. *)
Definition answers (ok : bool) events : Z :=
  sumZ (λ e, match e with Answered _ o => if eqb o ok then 1 else 0 | _ => 0 end) events.

Fixpoint heard (protocol : Protocol) (awaited : gset string) events : Z :=
  match events with
  | [] => 0
  | Sent message_id _ :: rest => heard protocol ({[message_id]} ∪ awaited) rest
  | Answered message_id ok :: rest =>
      heard protocol (if ok then awaited else awaited ∖ {[message_id]}) rest
  | Received p message_id _ :: rest =>
      (if bool_decide (p = protocol ∧ message_id ∈ awaited) then 1 else 0) +
      heard protocol awaited rest
  end.

Lemma answers_cons ok e events :
  answers ok (e :: events) =
  (match e with Answered _ o => if eqb o ok then 1 else 0 | _ => 0 end) + answers ok events.
Proof. done. Qed.

Lemma answers_nonneg ok events : 0 ≤ answers ok events.
Proof. induction events as [|[|? o|] events IH]; rewrite ?answers_cons; [done|lia| |lia]. destruct (eqb o ok); lia. Qed.

(** A run counts the answers and, per protocol, the deliveries that count. *)
Lemma load_events_counts events s (awaited : gset string) :
  dom (re_starts (run_recorder s)) = awaited →
  (∀ p, hist_max (re_histogram (run_recorder s) p) = MAX_LATENCY_US) →
  0 ≤ run_successes s → 0 ≤ run_failures s →
  run_successes s + run_failures s + Z.of_nat (length events) < 2 ^ 64 →
  run_successes (load_events events s) = run_successes s + answers true events ∧
  run_failures (load_events events s) = run_failures s + answers false events ∧
  ∀ p, count p (run_recorder (load_events events s)) =
       count p (run_recorder s) + heard p awaited events.
Proof.
  revert s awaited. induction events as [|e events IH]; intros s awaited Hdom Hmax Hs Hf Hlen.
  { unfold answers; simpl. split_and!; [lia..|intros p; lia]. }
  rewrite !answers_cons. cbn [heard length] in *.
  change (load_events (e :: events) s) with (load_events events (load_event e s)).
  destruct e as [id now|id ok|q id now].
  - destruct (IH (load_event (Sent id now) s) ({[id]} ∪ awaited)) as (-> & -> & Hc);
      simpl; [|done|lia..|]; [by rewrite dom_insert_L, Hdom|].
    split_and!; [lia..|]. exact Hc.
  - destruct ok.
    + destruct (IH (load_event (Answered id true) s) awaited) as (-> & -> & Hc);
        simpl; [done|done|rewrite ?wrap64_small by lia; lia..|].
      split_and!; [rewrite ?wrap64_small by lia; lia..|exact Hc].
    + destruct (IH (load_event (Answered id false) s) (awaited ∖ {[id]})) as (-> & -> & Hc);
        simpl; [by rewrite dom_delete_L, Hdom|done|rewrite ?wrap64_small by lia; lia..|].
      split_and!; [rewrite ?wrap64_small by lia; lia..|exact Hc].
  - set (s' := load_event (Received q id now) s).
    assert (dom (re_starts (run_recorder s')) = awaited ∧
      (∀ p, hist_max (re_histogram (run_recorder s') p) = MAX_LATENCY_US) ∧
      ∀ p, count p (run_recorder s') = count p (run_recorder s) +
        if bool_decide (q = p ∧ id ∈ awaited) then 1 else 0) as (Hd & Hm & Hc).
    { subst s'. simpl. unfold record, count.
      destruct (re_starts (run_recorder s) !! id) as [started|] eqn:E.
      - assert (id ∈ awaited) as Hin by (rewrite <-Hdom; by apply elem_of_dom).
        simpl. split; [done|].
        split; intros p; (destruct (decide (p = q)) as [->|Hne];
          [rewrite (bool_decide_eq_true_2 (q = q)) by done
          |rewrite (bool_decide_eq_false_2 (p = q)) by done]).
        + destruct (hist_record_ok (Z.min (sat_sub now started) MAX_LATENCY_US)
            (re_histogram (run_recorder s) q)) as (h' & -> & _ & Hm'); [rewrite Hmax; lia|].
          simpl. by rewrite Hm', Hmax.
        + apply Hmax.
        + destruct (hist_record_ok (Z.min (sat_sub now started) MAX_LATENCY_US)
            (re_histogram (run_recorder s) q)) as (h' & -> & Hl' & _); [rewrite Hmax; lia|].
          simpl. rewrite Hl', bool_decide_eq_true_2 by done. lia.
        + rewrite bool_decide_eq_false_2 by naive_solver. lia.
      - assert (id ∉ awaited) as Hni by (rewrite <-Hdom; by apply not_elem_of_dom).
        split_and!; [done..|]. intros p. rewrite bool_decide_eq_false_2 by naive_solver. lia. }
    destruct (IH s' awaited Hd Hm) as (-> & -> & Hc'); [simpl; lia..|].
    simpl. split_and!; [lia..|]. intros p. rewrite Hc', Hc. lia.
Qed.

(** The verdict is about counts: a run passes exactly when no publish failed
    and every protocol has heard at least as many deliveries as are expected
    of the accepted publishes. *)
Lemma load_verdict_exact args events :
  Z.of_nat (length events) < 2 ^ 64 →
  load_verdict args (load_events events Run_new) = Ok tt ↔
  answers false events = 0 ∧
  ∀ p n, (p, n) ∈ [(PWebSocket, ar_websocket_connections args); (PSse, ar_sse_connections args);
                   (PGrpc, ar_grpc_connections args);
                   (PWebhook, ar_expected_webhooks_per_message args)] →
    sat_mul u64_max (answers true events) n ≤ heard p ∅ events.
Proof.
  intros Hlen. destruct (load_events_counts events Run_new ∅) as (Hs & Hf & Hc);
    [by apply dom_empty_L|intros p; apply hist_max_new|simpl; lia..|].
  pose proof (answers_nonneg false events) as Hpos.
  unfold load_verdict. rewrite ensure_Ok, negb_true_iff, orb_false_iff, negb_false_iff, Z.ltb_ge.
  unfold expected_complete. rewrite Hs, Hf, !Hc, !andb_true_iff, !Z.leb_le. simpl.
  unfold count. simpl. rewrite !hist_len_new.
  split.
  - intros (H1 & ((H2 & H3) & H4) & H5). split; [lia|]. intros p n.
    rewrite !elem_of_cons, elem_of_nil. naive_solver.
  - intros [H1 H2]. split; [lia|]. split_and!; (eapply H2; rewrite !elem_of_cons; naive_solver).
Qed.
End run.

(** ** Concrete runs *)

(** A histogram that keeps its maximum and its count. *)
#[local] Instance counting_histogram : Histograms (Z * Z) := {
  hist_new_with_max max := (max, 0);
  hist_record value h := if value <=? h.1 then Some (h.1, h.2 + 1) else None;
  hist_len h := h.2;
}.
#[local] Instance counting_laws : HistogramLaws (Z * Z).
Proof.
  refine {| hist_max := fst |}; [done..|]. intros value [max n] Hle. simpl in *.
  apply Z.leb_le in Hle. rewrite Hle. eauto.
Defined.

Definition one_websocket : Args := {|
  ar_http_base := ""; ar_websocket_url := ""; ar_grpc_endpoint := ""; ar_bearer_token := None;
  ar_tenant := "t"; ar_channel := "c"; ar_messages := 2; ar_rate_per_second := 1;
  ar_publish_workers := 2; ar_max_in_flight := 1; ar_websocket_connections := 1;
  ar_sse_connections := 0; ar_grpc_connections := 0; ar_expected_webhooks_per_message := 0;
  ar_webhook_listen := None; ar_webhook_fail_every := 0; ar_slow_reader_delay_ms := 0;
  ar_publish_timeout_secs := 1; ar_drain_timeout_secs := 1; ar_output := "report.json" |}.

(** Two messages, one of which is delivered twice and the other never: the
    counts are as expected, and the run passes. *)
Example duplicate_hides_loss :
  load_verdict one_websocket (load_events
    [Sent "m-0" 0; Answered "m-0" true; Sent "m-1" 1; Answered "m-1" true;
     Received PWebSocket "m-0" 2; Received PWebSocket "m-0" 3] (Run_new (Hist := Z * Z))) = Ok tt.
Proof. vm_compute. reflexivity. Qed.

(** Without the duplicate it fails. *)
Example missing_delivery_fails :
  is_ok (load_verdict one_websocket (load_events
    [Sent "m-0" 0; Answered "m-0" true; Sent "m-1" 1; Answered "m-1" true;
     Received PWebSocket "m-0" 2] (Run_new (Hist := Z * Z)))) = false.
Proof. vm_compute. reflexivity. Qed.
