(* ===== verification/LoadMain.v ===== *)
(** * The load generator's main

    [main] of tools/router-load from the arguments to the verdict: the
    listeners it starts, the producer and the publishing workers around one
    bounded queue, the wait for outstanding deliveries, and the report.  The
    workers, the producer and the listeners are tasks: a turn is one step of
    one of them, in whatever order they get to run. *)

From S2P Require Import Prelude Str Ids Message Route Router Metrics Limits Wire Auth.
From S2P Require Import Kafka Publish Streams Load LoadRun.
Open Scope Z_scope.

(** ** Requests *)

(** [trim_end_matches('/')]. *)
Fixpoint trim_end_slashes (s : string) : string :=
  match s with
  | "" => ""
  | String a s =>
      let s := trim_end_slashes s in
      if bool_decide (a = "/"%char) && is_empty s then "" else String a s
  end.

(** Where the generator publishes and where it listens for events. *)
Definition publish_url (args : Args) : string :=
  trim_end_slashes (ar_http_base args) +:+ "/v1/publish".
Definition events_url (args : Args) : string :=
  trim_end_slashes (ar_http_base args) +:+ "/v1/events".

(** [authorization]; [from_str] is [HeaderValue::from_str]. *)
Definition authorization (from_str : string → option string) (token : option string)
    : result string (option string) :=
  match token with
  | None => Ok None
  | Some value =>
      match from_str ("Bearer " +:+ value) with
      | Some header => Ok (Some header)
      | None => Err "bearer token is not a valid HTTP header value"
      end
  end.

(** The query of [sse_listener]. *)
Definition sse_query (args : Args) : SseQuery := {|
  sq_filter := {| fi_tenant_id := Some (ar_tenant args); fi_kind := None; fi_message_type := None;
                  fi_channel := Some (ar_channel args); fi_actor_id := None;
                  fi_recipient_type := None; fi_recipient_identity := None |};
  sq_subscription_id := None; sq_queue_capacity := None |}.

(** The request of [grpc_listener]. *)
Definition grpc_subscription (args : Args) (index : nat) : SubscribeRequest := {|
  sb_subscription_id := "load-grpc-" +:+ pretty index;
  sb_filter := Some {| pf_tenant_id := ar_tenant args; pf_kind := None; pf_message_type := None;
                       pf_channel := Some (ar_channel args); pf_actor_id := None;
                       pf_recipient_type := None; pf_recipient_identity := None |};
  sb_queue_capacity := None |}.

(** ** Listeners *)

Inductive Listener : Type :=
| WebhookReceiver (address : string)
| WebsocketListener (index : nat)
| SseListener
| GrpcListener (index : nat).

(** How a task ended that should not have. *)
Inductive ListenerEnd : Type :=
| ListenerPanicked
| ListenerFailed (error : string)
| ListenerReturned.

(** The listeners [main] starts. *)
Definition launched (args : Args) : list Listener :=
  (match ar_webhook_listen args with Some address => [WebhookReceiver address] | None => [] end) ++
  (WebsocketListener <$> seq 0 (Z.to_nat (ar_websocket_connections args))) ++
  replicate (Z.to_nat (ar_sse_connections args)) SseListener ++
  (GrpcListener <$> seq 0 (Z.to_nat (ar_grpc_connections args))).

(** The check after a second: the first listener that has ended is fatal. *)
Fixpoint check_listeners (ends : list (option ListenerEnd)) : result string unit :=
  match ends with
  | [] => Ok tt
  | None :: rest => check_listeners rest
  | Some ListenerPanicked :: _ => Err "listener task panicked"
  | Some (ListenerFailed error) :: _ => Err error
  | Some ListenerReturned :: _ => Err "a listener exited before publishing started"
  end.

(** ** Publishing *)

(** [PublishItem]. *)
Record PublishItem : Type := {
  pi_message_id : string;
  pi_sequence : Z;
}.

(** The item the loop of [main] sends. *)
Definition load_item (run_id : string) (sequence : Z) : PublishItem :=
  {| pi_message_id := load_message_id run_id sequence; pi_sequence := sequence |}.

(** A [publish_worker]: at the receiver, with a request under way, or done. *)
Inductive Worker : Type :=
| Waiting
| Busy (item : PublishItem)
| Returned.
#[export] Instance Worker_eq_dec : EqDecision Worker.
Proof. intros x y. unfold Decision. repeat decide equality. Defined.

(** The loop of [main], the queue, the workers, and what they share. *)
Record Publishing (Hist : Type) : Type := {
  pb_next : Z;
  pb_sender : bool;
  pb_queue : list PublishItem;
  pb_workers : list Worker;
  pb_run : Run Hist;
}.
Arguments pb_next {Hist} _.
Arguments pb_sender {Hist} _.
Arguments pb_queue {Hist} _.
Arguments pb_workers {Hist} _.
Arguments pb_run {Hist} _.

(** The turns: [main] sends the next item when the queue has room and drops
    the sender after the last; a worker takes an item and starts its clock,
    gets the response, or returns once the queue is empty and closed; a
    listener records a delivery. *)
Inductive Turn : Type :=
| Produce
| CloseSender
| Take (worker : nat) (now : Z)
| Answer (worker : nat) (ok : bool)
| Finish (worker : nat)
| Hear (protocol : Protocol) (message_id : string) (now : Z).

Section publishing.
Context `{Histograms Hist}.
Implicit Types (s : Publishing Hist) (args : Args).

Definition Publishing_new args : Publishing Hist := {|
  pb_next := 0; pb_sender := true; pb_queue := [];
  pb_workers := replicate (Z.to_nat (ar_publish_workers args)) Waiting;
  pb_run := {| run_successes := 0; run_failures := 0; run_recorder := Recorder_new |} |}.

Definition publish_turn args (run_id : string) (t : Turn) s : option (Publishing Hist) :=
  match t with
  | Produce =>
      if (pb_next s <? ar_messages args) &&
         (Z.of_nat (length (pb_queue s)) <? ar_max_in_flight args)
      then Some {| pb_next := pb_next s + 1; pb_sender := pb_sender s;
                   pb_queue := pb_queue s ++ [load_item run_id (pb_next s)];
                   pb_workers := pb_workers s; pb_run := pb_run s |}
      else None
  | CloseSender =>
      if (pb_next s =? ar_messages args) && pb_sender s
      then Some {| pb_next := pb_next s; pb_sender := false; pb_queue := pb_queue s;
                   pb_workers := pb_workers s; pb_run := pb_run s |}
      else None
  | Take i now =>
      match pb_workers s !! i, pb_queue s with
      | Some Waiting, item :: rest =>
          Some {| pb_next := pb_next s; pb_sender := pb_sender s; pb_queue := rest;
                  pb_workers := <[i := Busy item]> (pb_workers s);
                  pb_run := load_event (Sent (pi_message_id item) now) (pb_run s) |}
      | _, _ => None
      end
  | Answer i ok =>
      match pb_workers s !! i with
      | Some (Busy item) =>
          Some {| pb_next := pb_next s; pb_sender := pb_sender s; pb_queue := pb_queue s;
                  pb_workers := <[i := Waiting]> (pb_workers s);
                  pb_run := load_event (Answered (pi_message_id item) ok) (pb_run s) |}
      | _ => None
      end
  | Finish i =>
      match pb_workers s !! i, pb_queue s, pb_sender s with
      | Some Waiting, [], false =>
          Some {| pb_next := pb_next s; pb_sender := pb_sender s; pb_queue := pb_queue s;
                  pb_workers := <[i := Returned]> (pb_workers s); pb_run := pb_run s |}
      | _, _, _ => None
      end
  | Hear protocol message_id now =>
      Some {| pb_next := pb_next s; pb_sender := pb_sender s; pb_queue := pb_queue s;
              pb_workers := pb_workers s;
              pb_run := load_event (Received protocol message_id now) (pb_run s) |}
  end.

Fixpoint publish_turns args (run_id : string) (ts : list Turn) s : option (Publishing Hist) :=
  match ts with
  | [] => Some s
  | t :: ts => s ← publish_turn args run_id t s; publish_turns args run_id ts s
  end.

(** [main] has awaited every worker. *)
Definition joined s : bool := forallb (λ w, bool_decide (w = Returned)) (pb_workers s).
End publishing.

(** ** The wait and the report *)

(** A delivery recorded by a listener. *)
Definition Hearing : Type := Protocol * string * Z.

(** The quantiles of the [hdrhistogram] crate, in thousandths, and the maximum. *)
Class HistogramQuantiles (Hist : Type) := {
  hist_value_at_quantile : Z → Hist → Z;
  hist_max_value : Hist → Z;
}.

(** [ProtocolReport]. *)
Record ProtocolReport : Type := {
  pt_expected : Z;
  pt_received : Z;
  pt_p50_us : option Z;
  pt_p95_us : option Z;
  pt_p99_us : option Z;
  pt_p999_us : option Z;
  pt_max_us : option Z;
}.

(** [RunReport]; the throughput is the quotient of the publishes by the elapsed
    time in microseconds. *)
Record RunReport : Type := {
  rr_schema_version : Z;
  rr_run_id : string;
  rr_started_unix_ms : Z;
  rr_elapsed_ms : Z;
  rr_successful_publishes : Z;
  rr_failed_publishes : Z;
  rr_publish_throughput : Z * Z;
  rr_logical_cpus : Z;
  rr_os : string;
  rr_arch : string;
  rr_args : Args;
  rr_websocket : ProtocolReport;
  rr_sse : ProtocolReport;
  rr_grpc : ProtocolReport;
  rr_webhook : ProtocolReport;
}.

(** What the outside does during a run: drawn ids, clocks, the binding of the
    receiver, the listeners that have ended after a second, the turns of the
    tasks, the readings of the wait with what was heard since the one before,
    what was heard until the listeners were aborted, and the file system. *)
Record LoadWorld : Type := {
  lw_run_id : string;
  lw_started_unix_ms : Z;
  lw_bind : result string unit;
  lw_ends : Listener → option ListenerEnd;
  lw_turns : list Turn;
  lw_drain_started : Z;
  lw_polls : list (Z * list Hearing);
  lw_late : list Hearing;
  lw_elapsed : Z;
  lw_cpus : result string Z;
  lw_write : result string unit;
  lw_os : string;
  lw_arch : string;
}.

Inductive LoadEnd : Type :=
| LoadPanicked
| LoadEnded (report : option RunReport) (res : result string unit).

Section main.
Context `{Histograms Hist} `{HistogramQuantiles Hist}.
Implicit Types (s : Run Hist) (h : Hist) (args : Args).

(** [percentile] and [report]. *)
Definition percentile h (quantile : Z) : option Z :=
  if hist_len h =? 0 then None else Some (hist_value_at_quantile quantile h).

Definition report (re : Recorder Hist) (protocol : Protocol) (expected : Z) : ProtocolReport :=
  let h := re_histogram re protocol in {|
  pt_expected := expected; pt_received := hist_len h; pt_p50_us := percentile h 500;
  pt_p95_us := percentile h 950; pt_p99_us := percentile h 990; pt_p999_us := percentile h 999;
  pt_max_us := if hist_len h =? 0 then None else Some (hist_max_value h) |}.

Definition hear_all (heard : list Hearing) s : Run Hist :=
  load_events ((λ '(protocol, message_id, now), Received protocol message_id now) <$> heard) s.

(** The wait for outstanding deliveries: a turn per reading of the clock. *)
Fixpoint drain_wait args (successful deadline : Z) (polls : list (Z * list Hearing)) s
    : option (Run Hist) :=
  match polls with
  | [] => None
  | (now, heard) :: polls =>
      let s := hear_all heard s in
      if negb (expected_complete (run_recorder s) successful args) && (now <? deadline)
      then drain_wait args successful deadline polls s
      else Some s
  end.

(** The report of a run. *)
Definition run_report args (w : LoadWorld) (cpus : Z) s : RunReport :=
  let expected n := sat_mul u64_max (run_successes s) n in {|
  rr_schema_version := 1; rr_run_id := lw_run_id w; rr_started_unix_ms := lw_started_unix_ms w;
  rr_elapsed_ms := lw_elapsed w / 1000; rr_successful_publishes := run_successes s;
  rr_failed_publishes := run_failures s;
  rr_publish_throughput := (run_successes s, lw_elapsed w); rr_logical_cpus := cpus;
  rr_os := lw_os w; rr_arch := lw_arch w; rr_args := args;
  rr_websocket := report (run_recorder s) PWebSocket (expected (ar_websocket_connections args));
  rr_sse := report (run_recorder s) PSse (expected (ar_sse_connections args));
  rr_grpc := report (run_recorder s) PGrpc (expected (ar_grpc_connections args));
  rr_webhook := report (run_recorder s) PWebhook (expected (ar_expected_webhooks_per_message args)) |}.

(** From the report to the exit. *)
Definition load_finish args (w : LoadWorld) s : LoadEnd :=
  if u32_max <? run_successes s then LoadPanicked
  else match lw_cpus w with
  | Err e => LoadEnded None (Err e)
  | Ok cpus =>
      match lw_write w with
      | Err e => LoadEnded None (Err e)
      | Ok _ => LoadEnded (Some (run_report args w cpus s)) (load_verdict args s)
      end
  end.

(** What [main] needs before it publishes. *)
Definition load_ready args (w : LoadWorld) : result string unit :=
  _ ← validate args;
  _ ← match ar_webhook_listen args with Some _ => lw_bind w | None => Ok tt end;
  check_listeners (lw_ends w <$> launched args).

(** [main]; [None] while the outside has not yet brought it to its end. *)
Definition load_main args (w : LoadWorld) : option LoadEnd :=
  match load_ready args w with
  | Err e => Some (LoadEnded None (Err e))
  | Ok _ =>
      p ← publish_turns args (lw_run_id w) (lw_turns w) (Publishing_new args);
      if negb (joined p) then None
      else
        s ← drain_wait args (run_successes (pb_run p))
              (lw_drain_started w + ar_drain_timeout_secs args * 1_000_000) (lw_polls w) (pb_run p);
        Some (load_finish args w (hear_all (lw_late w) s))
  end.
End main.

(** ** Every message is published once *)

Definition busy (w : Worker) : option PublishItem :=
  match w with Busy item => Some item | _ => None end.

(** The turns a worker has still to take for what it holds. *)
Definition weight (w : Worker) : Z :=
  match w with Waiting => 1 | Busy _ => 2 | Returned => 0 end.

(** A turn of the producer or of a worker. *)
Definition own_turn (t : Turn) : bool := match t with Hear _ _ _ => false | _ => true end.

Lemma update_worker (ws : list Worker) i w w' :
  ws !! i = Some w → ∃ rest, ws ≡ₚ w :: rest ∧ <[i := w']> ws ≡ₚ w' :: rest.
Proof.
  intros Hi. exists (take i ws ++ drop (S i) ws).
  pose proof (lookup_lt_Some _ _ _ Hi) as Hlt. split.
  - rewrite <-(take_drop_middle ws i w) at 1 by done. by rewrite Permutation_middle.
  - rewrite insert_take_drop by done. by rewrite Permutation_middle.
Qed.

Lemma updated_worker (ws : list Worker) i w w' : w ∈ <[i := w']> ws → w = w' ∨ w ∈ ws.
Proof.
  intros [j Hj]%list_elem_of_lookup. apply list_lookup_insert_Some in Hj as [(_ & -> & _)|[_ Hj]]; [by left|].
  right. by eapply list_elem_of_lookup_2.
Qed.

Lemma load_message_id_inj run_id : Inj (=) (=) (load_message_id run_id).
Proof. intros a b E. unfold load_message_id in E. simplify_eq. done. Qed.

Section accounted.
Context `{Histograms Hist}.
Variables (args : Args) (run_id : string).
Implicit Types (s : Publishing Hist).

(** Each item that was made is accepted, refused, with a worker or queued; the
    counters count the first two; the recorder awaits the messages that are
    accepted or under way. *)
Definition items_ok s (accepted refused : list PublishItem) : Prop :=
  accepted ++ refused ++ omap busy (pb_workers s) ++ pb_queue s
    ≡ₚ load_item run_id <$> seqZ 0 (pb_next s) ∧
  run_successes (pb_run s) = Z.of_nat (length accepted) ∧
  run_failures (pb_run s) = Z.of_nat (length refused) ∧
  ∀ id, is_Some (re_starts (run_recorder (pb_run s)) !! id) ↔
        id ∈ pi_message_id <$> accepted ++ omap busy (pb_workers s).

Record publishing_ok s : Prop := {
  po_items : ∃ accepted refused, items_ok s accepted refused;
  po_next : 0 ≤ pb_next s ≤ ar_messages args;
  po_sender : pb_sender s = false → pb_next s = ar_messages args;
  po_returned : Returned ∈ pb_workers s → pb_sender s = false ∧ pb_queue s = [];
  po_queue : Z.of_nat (length (pb_queue s)) ≤ ar_max_in_flight args;
  po_workers : length (pb_workers s) = Z.to_nat (ar_publish_workers args);
}.

(** The turns the producer and the workers have still to take. *)
Definition remaining s : Z :=
  3 * (ar_messages args - pb_next s) + 2 * Z.of_nat (length (pb_queue s)) +
  (if pb_sender s then 1 else 0) + sumZ weight (pb_workers s).

Lemma publish_turn_remaining t s s' :
  publish_turn args run_id t s = Some s' →
  remaining s' = remaining s - (if own_turn t then 1 else 0).
Proof.
  unfold publish_turn, remaining. intros Ht. destruct t as [| |i now|i ok|i|p id now].
  - destruct (_ && _); simplify_eq/=. rewrite length_app. simpl. lia.
  - destruct (pb_sender s); rewrite ?andb_false_r in Ht; [|done].
    destruct (_ && _); simplify_eq/=. lia.
  - destruct (pb_workers s !! i) as [[]|] eqn:Hi; try done.
    destruct (pb_queue s); simplify_eq/=.
    destruct (update_worker _ _ _ (Busy p) Hi) as (rest & E & E').
    rewrite (sumZ_perm _ _ _ E), (sumZ_perm _ _ _ E'), !sumZ_cons. simpl. lia.
  - destruct (pb_workers s !! i) as [[]|] eqn:Hi; try done. simplify_eq/=.
    destruct (update_worker _ _ _ Waiting Hi) as (rest & E & E').
    rewrite (sumZ_perm _ _ _ E), (sumZ_perm _ _ _ E'), !sumZ_cons. simpl. lia.
  - destruct (pb_workers s !! i) as [[]|] eqn:Hi; try done.
    destruct (pb_queue s); [|done]. destruct (pb_sender s); simplify_eq/=.
    destruct (update_worker _ _ _ Returned Hi) as (rest & E & E').
    rewrite (sumZ_perm _ _ _ E), (sumZ_perm _ _ _ E'), !sumZ_cons. simpl. lia.
  - simplify_eq/=. lia.
Qed.

(** Unless all workers have returned, someone has a turn to take. *)
Lemma publish_turn_progress s :
  args_ok args → 0 ≤ ar_max_in_flight args → publishing_ok s → joined s = false →
  ∃ t s', own_turn t = true ∧ publish_turn args run_id t s = Some s'.
Proof.
  intros [_ _ _ [Hf _] _] Hfu Hok Hj.
  assert (∃ i w, pb_workers s !! i = Some w ∧ w ≠ Returned) as (i & w & Hi & Hw).
  { apply not_true_iff_false in Hj. unfold joined in Hj.
    destruct (decide (Exists (λ w, w ≠ Returned) (pb_workers s))) as [He|He].
    - apply Exists_exists in He as (w & [i Hi]%list_elem_of_lookup & Hw). eauto.
    - apply not_Exists_Forall in He; [|apply _]. destruct Hj. apply forallb_forall.
      intros x Hx%list_elem_of_In. rewrite Forall_forall in He.
      apply bool_decide_eq_true. apply dec_stable. by apply He. }
  destruct w as [|item|]; [|by exists (Answer i true); simpl; rewrite Hi; eauto|done].
  destruct (pb_queue s) as [|item rest] eqn:Hq;
    [|by exists (Take i 0); simpl; rewrite Hi, Hq; eauto].
  destruct (po_next _ Hok) as [H0 Hle].
  destruct (decide (pb_next s = ar_messages args)) as [Hn|Hn].
  - destruct (pb_sender s) eqn:Hs.
    + exists CloseSender. simpl. rewrite Hs, (proj2 (Z.eqb_eq _ _) Hn). simpl. eauto.
    + exists (Finish i). simpl. rewrite Hi, Hq, Hs. eauto.
  - exists Produce. simpl. rewrite Hq. simpl.
    rewrite (proj2 (Z.ltb_lt _ _)), (proj2 (Z.ltb_lt _ _)) by lia. simpl. eauto.
Qed.

Lemma items_NoDup s accepted refused :
  items_ok s accepted refused →
  NoDup (pi_message_id <$> accepted ++ refused ++ omap busy (pb_workers s) ++ pb_queue s).
Proof.
  intros (Hp & _). rewrite Hp, <-list_fmap_compose.
  apply NoDup_fmap_2; [|apply NoDup_seqZ]. intros a b E. by apply load_message_id_inj in E.
Qed.

Lemma items_bound s accepted refused :
  items_ok s accepted refused → 0 ≤ pb_next s →
  Z.of_nat (length accepted) + Z.of_nat (length refused) ≤ pb_next s.
Proof.
  intros (Hp & _) H0. apply Permutation_length in Hp.
  rewrite !length_app, length_fmap, length_seqZ in Hp. lia.
Qed.

(** A worker takes an item. *)
Lemma items_take s i item rest now accepted refused :
  pb_workers s !! i = Some Waiting → pb_queue s = item :: rest → items_ok s accepted refused →
  items_ok {| pb_next := pb_next s; pb_sender := pb_sender s; pb_queue := rest;
              pb_workers := <[i := Busy item]> (pb_workers s);
              pb_run := load_event (Sent (pi_message_id item) now) (pb_run s) |} accepted refused.
Proof.
  intros Hi Hq (Hp & Hs & Hf & Hd). destruct (update_worker _ _ _ (Busy item) Hi) as (ws & E & E').
  unfold items_ok. simpl. split_and!; [|done..|].
  - rewrite <-Hp, Hq, E', E. simpl. by rewrite (Permutation_middle _ rest item).
  - intros id. rewrite lookup_insert_is_Some', Hd, !fmap_app, !elem_of_app. rewrite E', E. simpl.
    rewrite elem_of_cons. naive_solver.
Qed.

(** A publish is accepted or refused. *)
Lemma items_answer s i item ok accepted refused :
  pb_workers s !! i = Some (Busy item) → items_ok s accepted refused →
  0 ≤ pb_next s ≤ 10_000_000 →
  items_ok {| pb_next := pb_next s; pb_sender := pb_sender s; pb_queue := pb_queue s;
              pb_workers := <[i := Waiting]> (pb_workers s);
              pb_run := load_event (Answered (pi_message_id item) ok) (pb_run s) |}
    (if ok then item :: accepted else accepted) (if ok then refused else item :: refused).
Proof.
  intros Hi Hit Hn. pose proof (items_bound _ _ _ Hit (proj1 Hn)) as Hb.
  pose proof (items_NoDup _ _ _ Hit) as Hnd. destruct Hit as (Hp & Hs & Hf & Hd).
  destruct (update_worker _ _ _ Waiting Hi) as (ws & E & E').
  assert (∀ id, is_Some (re_starts (run_recorder (pb_run s)) !! id) ↔
    id = pi_message_id item ∨ id ∈ pi_message_id <$> accepted ++ omap busy ws) as Hd'.
  { intros id. rewrite Hd, !fmap_app, !elem_of_app, E. simpl. rewrite elem_of_cons. naive_solver. }
  destruct ok; unfold items_ok; simpl; split_and!.
  - rewrite <-Hp, E', E. simpl. rewrite <-!Permutation_middle. done.
  - rewrite Hs, wrap64_small by lia. lia.
  - done.
  - intros id. rewrite Hd', elem_of_cons, !fmap_app, !elem_of_app, E'. simpl. done.
  - rewrite <-Hp, E', E. simpl. by rewrite <-!Permutation_middle.
  - done.
  - rewrite Hf, wrap64_small by lia. lia.
  - rewrite E in Hnd. simpl in Hnd. rewrite <-!Permutation_middle in Hnd. simpl in Hnd.
    apply NoDup_cons in Hnd as [Hni _]. rewrite !fmap_app, !elem_of_app in Hni.
    intros id. rewrite lookup_delete_is_Some, Hd', !fmap_app, !elem_of_app, E'. simpl. naive_solver.
Qed.

Lemma record_starts protocol id now (re : Recorder Hist) :
  re_starts (record protocol id now re) = re_starts re.
Proof. unfold record. by destruct (re_starts re !! id). Qed.

Lemma items_hear s protocol id now accepted refused :
  items_ok s accepted refused →
  items_ok {| pb_next := pb_next s; pb_sender := pb_sender s; pb_queue := pb_queue s;
              pb_workers := pb_workers s;
              pb_run := load_event (Received protocol id now) (pb_run s) |} accepted refused.
Proof. unfold items_ok. simpl. by rewrite record_starts. Qed.

Lemma items_produce s accepted refused :
  0 ≤ pb_next s → items_ok s accepted refused →
  items_ok {| pb_next := pb_next s + 1; pb_sender := pb_sender s;
              pb_queue := pb_queue s ++ [load_item run_id (pb_next s)];
              pb_workers := pb_workers s; pb_run := pb_run s |} accepted refused.
Proof.
  intros H0 (Hp & Hrest). split; [|done]. simpl. rewrite seqZ_app by lia. rewrite fmap_app, <-Hp.
  by rewrite <-!app_assoc.
Qed.

Lemma publish_turn_ok t s s' :
  ar_messages args ≤ 10_000_000 → publishing_ok s → publish_turn args run_id t s = Some s' →
  publishing_ok s'.
Proof.
  intros Hm [(acc & rf & Hit) Hn Hsend Hret Hq Hw] Ht. unfold publish_turn in Ht.
  destruct t as [| |i now|i ok|i|p id now].
  - destruct (_ && _) eqn:E; simplify_eq. apply andb_true_iff in E as [E1%Z.ltb_lt E2%Z.ltb_lt].
    split; simpl; [|lia|intros ?%Hsend; lia| |rewrite length_app; simpl; lia|done].
    + exists acc, rf. apply items_produce; [lia|done].
    + intros [Hs _]%Hret. apply Hsend in Hs. lia.
  - destruct (_ && _) eqn:E; simplify_eq. apply andb_true_iff in E as [E1%Z.eqb_eq _].
    split; simpl; [by exists acc, rf|done..| |done|done]. intros [? ?]%Hret. done.
  - destruct (pb_workers s !! i) as [[]|] eqn:Hi; try done.
    destruct (pb_queue s) as [|item rest] eqn:Hqu; simplify_eq.
    split; simpl; [|done..| | |].
    + exists acc, rf. by apply items_take.
    + intros [?|?]%updated_worker; [done|]. by destruct Hret.
    + simpl in Hq. lia.
    + by rewrite length_insert.
  - destruct (pb_workers s !! i) as [[]|] eqn:Hi; try done. simplify_eq.
    split; simpl; [|done..| |done|].
    + eexists _, _. by apply items_answer; [..|lia].
    + intros [?|?]%updated_worker; [done|]. by apply Hret.
    + by rewrite length_insert.
  - destruct (pb_workers s !! i) as [[]|] eqn:Hi; try done.
    destruct (pb_queue s) eqn:Hqu; [|done]. destruct (pb_sender s) eqn:Hs; simplify_eq.
    split; simpl; [|done..|by rewrite length_insert].
    exists acc, rf. destruct (update_worker _ _ _ Returned Hi) as (ws & E & E').
    destruct Hit as (Hp & H1 & H2 & H3). unfold items_ok; simpl. rewrite Hqu in Hp.
    split_and!; [|done..|].
    + rewrite <-Hp, E', E. done.
    + intros id. rewrite H3, !fmap_app, !elem_of_app, E', E. done.
  - simplify_eq. split; simpl; [|done..]. exists acc, rf. by apply items_hear.
Qed.

Lemma publish_turns_ok ts s s' :
  ar_messages args ≤ 10_000_000 → publishing_ok s → publish_turns args run_id ts s = Some s' →
  publishing_ok s' ∧ remaining s' = remaining s - Z.of_nat (length (filter own_turn ts)).
Proof.
  intros Hm. revert s. induction ts as [|t ts IH]; intros s Hok Ht; cbn [publish_turns] in Ht.
  { simplify_eq. split; [done|]. simpl. lia. }
  apply bind_Some in Ht as (s1 & H1 & Ht). pose proof (publish_turn_remaining _ _ _ H1) as Hr.
  destruct (IH s1) as [Hok' Hr']; [by eapply publish_turn_ok|done|]. split; [done|].
  rewrite Hr', Hr, filter_cons. destruct (own_turn t); case_decide; simpl in *; try done; lia.
Qed.

(** Unsigned arguments are not negative. *)
Definition args_unsigned : Prop :=
  0 ≤ ar_messages args ∧ 0 ≤ ar_publish_workers args ∧ 0 ≤ ar_max_in_flight args ∧
  0 ≤ ar_websocket_connections args ∧ 0 ≤ ar_sse_connections args ∧ 0 ≤ ar_grpc_connections args.

Lemma publishing_new_ok : args_unsigned → publishing_ok (Publishing_new args).
Proof.
  intros (H1 & H2 & H3 & _). split; simpl; try done; try lia.
  - exists [], []. unfold items_ok. simpl.
    assert (∀ n, omap busy (replicate n Waiting) = []) as -> by (by induction n).
    split_and!; try done. intros id. rewrite lookup_empty. simpl. split; [by intros []|].
    by intros ?%elem_of_nil.
  - intros [? ?]%elem_of_replicate. done.
  - by rewrite length_replicate.
Qed.

Lemma remaining_new :
  args_unsigned → remaining (Publishing_new args) = 3 * ar_messages args + ar_publish_workers args + 1.
Proof.
  intros (H1 & H2 & _). unfold remaining. simpl.
  assert (∀ n, sumZ weight (replicate n Waiting) = Z.of_nat n) as ->
    by (induction n as [|n IH]; simpl; rewrite ?sumZ_cons, ?IH; simpl; lia).
  lia.
Qed.

(** When all workers have returned every message was answered, once. *)
Lemma joined_answered s :
  args_ok args → args_unsigned → publishing_ok s → joined s = true →
  remaining s = 0 ∧ ∃ accepted refused, items_ok s accepted refused ∧
    accepted ++ refused ≡ₚ load_item run_id <$> seqZ 0 (ar_messages args).
Proof.
  intros [_ Hw0 _ _ _] (H1 & H2 & _) [(acc & rf & Hit) Hn Hsend Hret Hq Hw] Hj.
  assert (∀ w, w ∈ pb_workers s → w = Returned) as Hall.
  { intros w Hin. unfold joined in Hj. rewrite forallb_forall in Hj.
    by eapply bool_decide_eq_true, Hj, list_elem_of_In. }
  destruct (pb_workers s) as [|w ws] eqn:Ews; [simpl in Hw; lia|].
  destruct Hret as [Hs Hqu]; [rewrite (Hall w) by left; left|]. specialize (Hsend Hs).
  assert (omap busy (w :: ws) = [] ∧ sumZ weight (w :: ws) = 0) as [Hb Hwt].
  { clear -Hall. induction (w :: ws) as [|x l IH]; [done|].
    rewrite (Hall x) by left. rewrite sumZ_cons. destruct IH as [E1 E2]; [intros; apply Hall; by right|].
    split; [done|]. rewrite E2. done. }
  split; [unfold remaining; rewrite Hs, Hqu, Ews, Hsend, Hwt; simpl; lia|].
  exists acc, rf. split; [done|]. destruct Hit as (Hp & _).
  by rewrite Ews, Hb, Hqu, Hsend, !app_nil_r in Hp.
Qed.
End accounted.

(** ** The end of a run *)

Section ending.
Context `{Histograms Hist} `{HistogramQuantiles Hist}.
Implicit Types (args : Args) (w : LoadWorld).

Lemma hear_all_counters heard (s : Run Hist) :
  run_successes (hear_all heard s) = run_successes s ∧ run_failures (hear_all heard s) = run_failures s.
Proof.
  unfold hear_all, load_events. revert s.
  induction heard as [|[[p id] now] heard IH]; intros s; simpl; [done|].
  by apply (IH (load_event (Received p id now) s)).
Qed.

Lemma drain_wait_counters args successful deadline polls (s s' : Run Hist) :
  drain_wait args successful deadline polls s = Some s' →
  run_successes s' = run_successes s ∧ run_failures s' = run_failures s.
Proof.
  revert s. induction polls as [|[now heard] polls IH]; intros s; simpl; [done|].
  destruct (hear_all_counters heard s) as [E1 E2]. destruct (_ && _).
  - intros Hw. by rewrite <-E1, <-E2; apply IH.
  - by intros [= <-].
Qed.

(** The wait is over at the latest at the reading that reaches the deadline. *)
Lemma drain_wait_ends args successful deadline polls i now heard (s : Run Hist) :
  polls !! i = Some (now, heard) → deadline ≤ now →
  is_Some (drain_wait args successful deadline polls s).
Proof.
  intros Hi Hle. revert i s Hi. induction polls as [|[t h] polls IH]; intros i s Hi; [done|].
  simpl. destruct (_ && _) eqn:E; [|done]. destruct i as [|i]; [|by eapply IH].
  injection Hi as -> ->. apply andb_true_iff in E as [_ E%Z.ltb_lt]. lia.
Qed.

Lemma load_finish_safe args w (s : Run Hist) :
  run_successes s ≤ 10_000_000 → load_finish args w s ≠ LoadPanicked.
Proof.
  intros Hs. unfold load_finish. rewrite (proj2 (Z.ltb_ge u32_max _)) by (unfold u32_max; lia).
  by destruct (lw_cpus w), (lw_write w).
Qed.

(** The figures of a report per protocol, with the number of listeners. *)
Definition streams_of (r : RunReport) : list (ProtocolReport * Z) :=
  [(rr_websocket r, ar_websocket_connections (rr_args r)); (rr_sse r, ar_sse_connections (rr_args r));
   (rr_grpc r, ar_grpc_connections (rr_args r))].
Definition reports_of (r : RunReport) : list ProtocolReport :=
  [rr_websocket r; rr_sse r; rr_grpc r; rr_webhook r].

Lemma load_finish_report args w (s : Run Hist) r res :
  args_ok args → args_unsigned args → 0 ≤ run_successes s ≤ 10_000_000 → 0 ≤ run_failures s →
  load_finish args w s = LoadEnded (Some r) res →
  rr_successful_publishes r = run_successes s ∧ rr_failed_publishes r = run_failures s ∧
  (∀ p n, (p, n) ∈ streams_of r → pt_expected p = run_successes s * n) ∧
  (res = Ok tt ↔ run_failures s = 0 ∧ ∀ p, p ∈ reports_of r → pt_expected p ≤ pt_received p).
Proof.
  intros [_ _ _ _ Hc] (_ & _ & _ & Hu1 & Hu2 & Hu3) Hs Hf. unfold load_finish.
  destruct (u32_max <? _); [done|]. destruct (lw_cpus w) as [cpus|]; [|done].
  destruct (lw_write w); [|done]. intros [= <- <-]. split_and!; [done..| |].
  - intros p n Hin. unfold streams_of in Hin. rewrite !elem_of_cons, elem_of_nil in Hin.
    unfold sat_add, u64_max in Hc.
    assert (0 ≤ n ≤ 100_000 ∧ pt_expected p = sat_mul u64_max (run_successes s) n) as [Hn ->]
      by (destruct Hin as [[= -> ->]|[[= -> ->]|[[= -> ->]|[]]]]; simpl; split; [lia|done|lia|done|lia|done]).
    unfold sat_mul. apply Z.min_r. transitivity (10_000_000 * 100_000); [|unfold u64_max; lia].
    apply Z.mul_le_mono_nonneg; lia.
  - rewrite <-(Forall_forall (λ p, pt_expected p ≤ pt_received p)). unfold reports_of.
    rewrite !Forall_cons, Forall_nil. unfold load_verdict, expected_complete, count.
    rewrite ensure_Ok, negb_true_iff, orb_false_iff, negb_false_iff, Z.ltb_ge, !andb_true_iff, !Z.leb_le.
    simpl. intuition lia.
Qed.

Lemma remaining_nonneg args run_id (p : Publishing Hist) :
  publishing_ok args run_id p → 0 ≤ remaining args p.
Proof.
  intros [_ Hn _ _ _ _]. unfold remaining.
  pose proof (sumZ_nonneg weight (pb_workers p) ltac:(by intros [])). destruct (pb_sender p); lia.
Qed.

(** The turns the producer and the workers took. *)
Definition own_turns (ts : list Turn) : Z := Z.of_nat (length (filter own_turn ts)).

Lemma publishing_phase args run_id ts (p : Publishing Hist) :
  args_ok args → args_unsigned args →
  publish_turns args run_id ts (Publishing_new args) = Some p →
  publishing_ok args run_id p ∧
  own_turns ts ≤ 3 * ar_messages args + ar_publish_workers args + 1 ∧
  (joined p = true ↔ own_turns ts = 3 * ar_messages args + ar_publish_workers args + 1) ∧
  (joined p = false → ∃ t p', own_turn t = true ∧ publish_turn args run_id t p = Some p').
Proof.
  intros Hargs Hun Hts. pose proof Hargs as [[_ Hm] _ _ _ _].
  destruct (publish_turns_ok args run_id ts _ p Hm (publishing_new_ok _ _ Hun) Hts) as [Hok Hr].
  rewrite remaining_new in Hr by done. pose proof (remaining_nonneg _ _ _ Hok) as Hpos.
  unfold own_turns. split_and!; [done|lia| |].
  - split.
    + intros Hj. destruct (joined_answered args run_id p) as [H0' _]; [done..|lia].
    + intros Hend. destruct (joined p) eqn:Hj; [done|].
      destruct (publish_turn_progress args run_id p) as (t & p' & Ht & Hp); [done|apply Hun|done..|].
      pose proof (publish_turn_remaining _ _ _ _ _ Hp) as Hr'. rewrite Ht in Hr'.
      pose proof (remaining_nonneg _ _ _ (publish_turn_ok _ _ _ _ _ Hm Hok Hp)). lia.
  - intros Hj. apply publish_turn_progress; [done|apply Hun|done..].
Qed.

(** (C31) A run of the load generator is accounted for.  Once [main] may
    publish, whatever the order of the producer, the workers and the listeners:
    the queue stays within its bound; unless all workers have returned one of
    the tasks has a turn to take, and they return after exactly three turns per
    message, one per worker and the closing of the queue.  Then the wait ends,
    at the latest at the first reading after the drain timeout, and [main] ends
    without a panic.  In the report every message of the run is counted exactly
    once, as a success or a failure; the expectation of each kind of stream is
    the product of the successes and its connections, unsaturated; and the
    exit is a success exactly when all messages were accepted and no protocol
    received less than is expected of it. *)
Theorem load_run_accounted args w (Hun : args_unsigned args) (Hready : load_ready args w = Ok tt)
    (Hclock : ∀ i now heard, lw_polls w !! i = Some (now, heard) →
       lw_drain_started w + 100_000 * Z.of_nat i ≤ now) :
  (∀ ts (p : Publishing Hist), publish_turns args (lw_run_id w) ts (Publishing_new args) = Some p →
     Z.of_nat (length (pb_queue p)) ≤ ar_max_in_flight args ∧
     (joined p = false → ∃ t p', own_turn t = true ∧ publish_turn args (lw_run_id w) t p = Some p') ∧
     own_turns ts ≤ 3 * ar_messages args + ar_publish_workers args + 1 ∧
     (joined p = true ↔ own_turns ts = 3 * ar_messages args + ar_publish_workers args + 1)) ∧
  (∀ p : Publishing Hist,
     publish_turns args (lw_run_id w) (lw_turns w) (Publishing_new args) = Some p → joined p = true →
     10 * ar_drain_timeout_secs args < Z.of_nat (length (lw_polls w)) →
     is_Some (load_main (Hist := Hist) args w)) ∧
  (∀ e, load_main (Hist := Hist) args w = Some e → e ≠ LoadPanicked ∧
     ∀ r res, e = LoadEnded (Some r) res →
       (∃ accepted refused,
          accepted ++ refused ≡ₚ load_item (lw_run_id w) <$> seqZ 0 (ar_messages args) ∧
          rr_successful_publishes r = Z.of_nat (length accepted) ∧
          rr_failed_publishes r = Z.of_nat (length refused)) ∧
       (∀ p n, (p, n) ∈ streams_of r → pt_expected p = rr_successful_publishes r * n) ∧
       (res = Ok tt ↔ rr_successful_publishes r = ar_messages args ∧
          ∀ p, p ∈ reports_of r → pt_expected p ≤ pt_received p)).
Proof.
  assert (args_ok args) as Hargs.
  { unfold load_ready in Hready. by bind_step Hready as [], Hv%validate_Ok. }
  pose proof Hargs as [[_ Hm] _ Hdrain _ _]. split_and!.
  - intros ts p Hts. destruct (publishing_phase _ _ _ _ Hargs Hun Hts) as (Hok & ? & ? & ?).
    split_and!; [by eapply po_queue|done..].
  - intros p Hp Hj Hlen. unfold load_main. rewrite Hready, Hp. simpl. rewrite Hj. simpl.
    destruct (lw_polls w !! Z.to_nat (10 * ar_drain_timeout_secs args)) as [[now heard]|] eqn:E;
      [|apply lookup_ge_None in E; lia].
    pose proof (Hclock _ _ _ E) as Hnow.
    destruct (drain_wait_ends args (run_successes (pb_run p))
      (lw_drain_started w + ar_drain_timeout_secs args * 1_000_000) _ _ _ _ (pb_run p) E)
      as [s ->]; [lia|done].
  - intros e. unfold load_main. rewrite Hready. intros He.
    apply bind_Some in He as (p & Hp & He). destruct (joined p) eqn:Hj; [|done]. simpl in He.
    apply bind_Some in He as (s & Hs & [= <-]).
    destruct (publishing_phase _ _ _ _ Hargs Hun Hp) as (Hok & _).
    destruct (joined_answered _ _ _ Hargs Hun Hok Hj) as (_ & acc & rf & (_ & Hsu & Hfa & _) & Hall).
    pose proof (Permutation_length Hall) as Hl. rewrite length_app, length_fmap, length_seqZ in Hl.
    apply drain_wait_counters in Hs as [Hs1 Hs2].
    destruct (hear_all_counters (lw_late w) s) as [Hs3 Hs4]. set (s' := hear_all (lw_late w) s) in *.
    pose proof (proj1 Hun) as Hm0. split; [apply load_finish_safe; lia|].
    intros r res Hr. destruct (load_finish_report args w s' r res) as (E1 & E2 & E3 & E4);
      [done|done|lia|lia|done|]. rewrite E1, E2.
    split_and!; [exists acc, rf; split_and!; [done|lia|lia]|done|]. rewrite E4.
    split; (intros [? ?]; split; [lia|done]).
Qed.
End ending.

(** ** What the clients ask for *)

(** The token of an authorization header is the one the server reads. *)
Lemma authorization_read from_str token header :
  (∀ s v, from_str s = Some v → v = s) →
  authorization from_str (Some token) = Ok (Some header) → parse_bearer header = Ok token.
Proof.
  intros Hfrom. simpl. destruct (from_str _) as [v|] eqn:E; [|done]. intros [= <-].
  by rewrite (Hfrom _ _ E).
Qed.

(** The listeners subscribe to what the workers publish: the filters of the
    SSE and gRPC listeners are accepted for a principal of the tenant, they are
    the same, and every publish on the channel matches it, so that each
    accepted message is expected once per connection. *)
Lemma listeners_subscribed args principal index f :
  pl_tenant_id principal = ar_tenant args →
  sb_filter (grpc_subscription args index) = Some f →
  ∃ filter, SseQuery_into_filter (sse_query args) principal = Ok (filter, "sse-default", None) ∧
    proto_filter f principal = Ok filter ∧
    ∀ uuid request payload content_type source timestamp,
      hp_channel request = Some (ar_channel args) →
      RouteFilter_matches filter (command_metadata
        (http_command principal uuid request payload content_type) source timestamp) = true.
Proof.
  intros Ht [= <-]. eexists. split_and!.
  - unfold SseQuery_into_filter, FilterInput_into_filter, authorize_requested_tenant. simpl.
    rewrite bool_decide_eq_true_2 by done. by rewrite orb_true_r.
  - unfold proto_filter, authorize_tenant. simpl.
    rewrite bool_decide_eq_true_2 by done. by rewrite orb_true_r.
  - intros uuid request payload content_type source timestamp Hch.
    unfold RouteFilter_matches, optional_matches. simpl. rewrite Hch.
    by rewrite !bool_decide_eq_true_2.
Qed.

(** ** A run *)

#[local] Existing Instances counting_histogram.
#[local] Instance counting_quantiles : HistogramQuantiles (Z * Z) :=
  {| hist_value_at_quantile _ _ := 0; hist_max_value _ := 0 |}.

(** Two workers publish two messages over a queue of one; the second delivery
    is heard during the wait. *)
Definition load_world : LoadWorld := {|
  lw_run_id := "r"; lw_started_unix_ms := 0; lw_bind := Ok tt; lw_ends _ := None;
  lw_turns := [Produce; Take 1 0; Produce; Take 0 1; CloseSender; Answer 1 true;
               Hear PWebSocket "load-r-0" 2; Finish 1; Answer 0 true; Finish 0];
  lw_drain_started := 5; lw_polls := [(5, []); (100_005, [(PWebSocket, "load-r-1", 90_000)])];
  lw_late := []; lw_elapsed := 100_010; lw_cpus := Ok 4; lw_write := Ok tt; lw_os := "linux";
  lw_arch := "x86_64" |}.

(** The defaults are valid; a queue of one has no room for a second item; a
    listener that ended is fatal; trailing slashes of the base are dropped. *)
Example load_boundaries :
  validate Args_default = Ok tt ∧
  publish_turns (Hist := Z * Z) one_websocket "r" [Produce; Produce] (Publishing_new one_websocket)
    = None ∧
  check_listeners [None; Some ListenerReturned]
    = Err "a listener exited before publishing started" ∧
  trim_end_slashes "http://host//" = "http://host".
Proof. vm_compute. done. Qed.

Lemma load_run_accounted_witness :
  ∃ r, load_main (Hist := Z * Z) one_websocket load_world = Some (LoadEnded (Some r) (Ok tt)) ∧
    rr_successful_publishes r = 2 ∧ pt_expected (rr_websocket r) = 2.
Proof.
  destruct (load_main (Hist := Z * Z) one_websocket load_world) as [[|[r|] res]|] eqn:E;
    try (vm_compute in E; discriminate E).
  destruct (load_run_accounted (Hist := Z * Z) one_websocket load_world) as (_ & _ & Hend).
  - unfold args_unsigned. simpl. lia.
  - reflexivity.
  - intros [|[|i]] now heard [= <- <-]; simpl; lia.
  - destruct (proj2 (Hend _ E) r res eq_refl) as (_ & Hexp & Hres).
    assert (res = Ok tt) as -> by (vm_compute in E; injection E as _ <-; reflexivity).
    destruct (proj1 Hres eq_refl) as [Hs _]. exists r. split_and!; [reflexivity|exact Hs|].
    rewrite (Hexp (rr_websocket r) 1); [rewrite Hs; reflexivity|].
    vm_compute in E. injection E as <-. left.
Defined.
